(* ===== verification/_CoqProject ===== *)
-Q . S2P
Prelude.v
Queues.v
Depgraph.v
Components.v
Transitions.v
TransitionProofs.v
TransitionSystem.v
Graphs.v
GraphProofs.v
Manager.v
ManagerProofs.v
Vectors.v
TimeSorting.v
Timers.v
Alive.v
AliveProofs.v
Ipc.v
AliveChannel.v
AliveChannelProofs.v
AliveMonitor.v
AliveWorkers.v
AliveWorkersProofs.v
Recovery.v
ProcessMap.v
ProcessMapProofs.v
ProcessNodes.v
ProcessNodeProofs.v
Watchdog.v
Mpmc.v
MpmcProofs.v
Names.v
Configuration.v
ConfigurationProofs.v
Osal.v
Launcher.v
Running.v
ManagedComponent.v
Control.v
ControlProofs.v
HealthMonitor.v
HealthMonitorProofs.v
HealthState.v
HealthLibrary.v
DeadlineProofs.v
HeartbeatProofs.v
LogicMonitorProofs.v
WorkerProofs.v
EndToEnd.v
LifecycleClient.v
LifecycleClientProofs.v
Daemon.v
DaemonProofs.v
SignalSafeLog.v
