(* ===== verification/Prelude.v ===== *)
(** * Lifecycle and Health: a verification library of the Launch Manager daemon

    The Launch Manager (score/launch_manager/src/daemon/src) starts and stops
    the processes of a system.  Components and Run Targets are the nodes of a
    dependency graph; a request for a Run Target becomes a transition that first
    stops what the target does not need and then starts what it needs; workers do
    the single jobs and answer with events; the main loop of the manager
    reads the events, advances the transition, and falls back to the recovery Run
    Target after a failure.  Beside it the alive monitor supervises the
    running processes: they report checkpoints through shared memory, and a
    process that reports too rarely or too often is handed to the manager for
    recovery.  The applications link a health monitor library (score/health_monitor), which watches their
    deadlines, heartbeats and state machines and reports to the daemon only while they are kept.

    ** Files, and the code they model

    - [Prelude]: the outcome monad (assertions, missing keys, null pointers and
      exhausted fuel are values), containers with an unspecified iteration order,
      machine integers, shared lemmas, tactics and hints.
    - [Queues]: [FixedSizeQueue] and [MpscBoundedQueue] (common/concurrency), and
      the class [BoundedFifo], the contract of a bounded queue.
    - [Depgraph]: [DependencyGraph] (dependency_graph.hpp): nodes with edges in
      both directions, and the breadth-first traversal through a bounded queue.
    - [Components]: the interface [IComponent] as a class, and [RunTarget].
    - [Transitions]: [Transition] and [TransitionBuilder] (transition.hpp), one
      definition per member function.  [TransitionProofs]: the invariants of the
      two phases and the specification of each operation.  [TransitionSystem]: the
      transition together with workers that finish their jobs in any order, as a
      step relation; claims C1 to C5.
    - [Graphs]: [Graph] (graph.cpp): states, requests, job queue, abort and
      success.  The job queue and the process component are the classes
      [WorkerQueue] and [ProcessNode].  [GraphProofs]: the graph with its workers
      and crashing components as a step relation, its invariant, claims C6 and C7.
    - [Manager]: [ComponentEventQueue], [ProcessMonitor] and the main loop, the
      requests and the shutdown of [ProcessGroupManager].  [ManagerProofs]:
      the whole of [run], claim C8.
    - [ManagedComponent]: [Component] (component.cpp), the coming component of the
      graph, with its handle, its actions and its ready conditions; claim C9.
    - [Control]: the messages, [ControlProvider] and [LmControl], through which a
      state manager controls the daemon; the middleware is the class [Proxy].
      [ControlProofs]: a request, and a query, from the client to the main loop and back;
      claim C10.
    - [Daemon]: run.cpp, the workers of [ThreadPool], and the objects and threads
      that the manager makes and destroys.  [DaemonProofs]: claim C11.
    - [Vectors]: [FixedSizeVector] and [LockedVector] (alive_monitor/details/common).
    - [TimeSorting]: [TimeSortingBuffer] (alive_monitor/details/common), a doubly
      linked chain through a vector; claim C12.
    - [Timers]: [TimeConversion], [CycleTimer], [CycleTimeValidator].
    - [Alive]: [supervision::Alive], the supervision of one process.
      [AliveProofs]: claims C13 to C15.
    - [Ipc]: [RingBuffer], [Socket] and [IpcBase], the checkpoint channel; C16.
    - [AliveChannel]: the names of the channels, the shared memory with its access
      rights, the server of the daemon and the client library (alive/src).
      [AliveChannelProofs]: claim C17.
    - [AliveMonitor]: [MonitorIfDaemon], [ObservableEventReader],
      [SupervisionManager] and [CyclicExecutor], one cycle of the alive monitor;
      claim C18.
    - [AliveWorkers]: the vectors of workers and the pointers between them,
      [AliveWorkerFactory], [SupervisionHandle], the loop of [CyclicExecutor] and
      [AliveMonitorImpl].  [AliveWorkersProofs]: claims C19 and C20.
    - [Recovery]: [RecoveryClient] with the manager's callback, which joins the
      alive monitor to the event queue of the manager.
    - [ProcessMap]: [SafeProcessMap] (safe_process_map.cpp), which matches the
      processes the workers started with the children that ended.
      [ProcessMapProofs]: claims C22 and C23.
    - [ProcessNodes]: [ProcessInfoNode] (process_info_node.cpp) and its
      [TerminationWaiter]: a worker that starts, waits for and stops one process, in
      a state monad whose every access may be preceded by the end of the process.
      [ProcessNodeProofs]: claims C24 to C26; the last is the instance of the
      interface that the graph is verified against.
    - [Osal]: the timed wait of [Semaphore], [FileWaiter], the loop of
      [OsHandler] and the wrappers of the operating systems.
    - [Launcher]: [ProcessLauncher] (process_launcher.cpp): fork, what the child
      does until it executes the binary, signals; claim C27.
      [SignalSafeLog]: the buffer in which the child builds its messages.
    - [Running]: the running report between [waitForkRunning] of the launcher and
      [ReportRunningImpl] of the lifecycle client, as threads on a shared block;
      claim C28.
    - [LifecycleClient]: the application side (lifecycle_client/src): arguments,
      [LifeCycleManager] with its signal thread, and the container of
      applications.  [LifecycleClientProofs]: claim C29.
    - [Watchdog]: [WatchdogImpl], the watchdog device and its timeouts; claim C30.
    - [Mpmc]: [MPMCConcurrentQueue], the lock-free job queue, one step per access to
      shared memory.  [MpmcProofs]: every interleaving of any number of threads,
      claims C31 and C32.
    - [Names]: [FixedString] and [IdentifierHash], the names that cross interfaces
      and their hashes.
    - [HealthMonitor]: the C++ interface of the health monitor library:
      who owns which object of the library.  [HealthMonitorProofs]: claim C33.
    - [HealthState]: the packed 64-bit words that the monitors of the library share with its
      background thread.  [HealthLibrary]: the Rust library (health_monitor/src/rust): durations
      (common.rs), [DeadlineMonitor], [HeartbeatMonitor], [LogicMonitor], [Worker] (worker.rs) and
      [HealthMonitor] (health_monitor.rs).  [DeadlineProofs]: claim C34.  [HeartbeatProofs]: claim C35.
      [LogicMonitorProofs]: claim C36.  [WorkerProofs]: claims C37 and C38.
    - [EndToEnd]: from a failed monitor in an application to the manager; claim C21.
    - [Configuration]: the tables of the configuration file, the structs of the
      daemon, [Environment], the converters between them and the loader.
      [ConfigurationProofs]: claims C39 and C40.

    A C++ object is a record with the members' names, a member function a
    function from the object to the changed object, and code that can abort returns
    an [outcome].  Threads that share memory are step functions, and a schedule is a list
    of steps.  Virtual calls to code that is not modelled go through classes
    whose laws are the documented behaviour; each such theorem has an instance with
    a concrete implementation.

    ** What the theorems show

    - Transitions (C1 to C5), for every graph, target, iteration order of the maps
      and interleaving of the workers: components start only after all their
      dependencies and stop only after all their dependents; nothing aborts, no node is
      lost on the way to a worker and the counter of pending nodes is exact; a
      finished transition has exactly the target's subgraph active; it takes
      exactly three steps per component that changes; on an acyclic graph it
      never gets stuck.
    - Graph (C6, C7): handlers return in every reachable state, and success means
      that the target is active.
    - Manager (C8): from the initial transition over every round of the main loop
      to the shutdown, [run] returns, serves the watchdog and answers
      every request; of a graph that has failed each round starts the transition to the pending
      Run Target, or else to the fallback Run Target.
    - Component (C9): an activation that shares its component with deactivations,
      terminations and other activations ends with the right answer, and the
      supervision follows the state.
    - Control (C10): what a state manager is told about its request follows from the graph as the events
      queued before the request leave it.
    - Daemon (C11): for every failure on the way, whether it ends, hangs or is terminated, its exit code, and which
      object is destroyed while a thread can still reach it.
    - Alive monitor (C12 to C20): the history buffer is a sorted list; an
      evaluation follows the documented state machine, detects a silent process
      exactly on time and never accuses a regular one; a process reports into
      exactly its own channel, which neither loses nor reorders checkpoints; the
      pointers between the workers stay valid; the thread evaluates every supervision
      in every cycle until it is stopped.
    - Across (C21): a monitor that fails in an application silences it, its supervision expires, and
      the manager learns of it.
    - Process map (C22 and C23): the tree in the array is a bounded finite map
      under every schedule of its callers, and the end of a process is reported to its
      component exactly once, as long as fewer reports than the capacity wait for their counterpart.
    - Process component (C24 to C26): if a process that is killed goes, every activation ends within the configured
      retries, deactivation ends the supervision first and leaves no process, and the
      component keeps the interface of the graph.  If one does not go, the loop over SIGKILL does not end
      ([deactivation_may_never_end]).
    - Launching (C27 and C28): a started process runs confined as configured or not
      at all, and the running report ends in every interleaving.
    - Applications (C29): an application is initialised, reported and run in
      this order, SIGTERM stops it and is not lost, the process does not hang.
    - Watchdog (C30): the device runs with the configured timeout.
    - Job queue (C31, C32): every item is delivered once and no thread is stuck.
    - Health monitor library (C33 to C38): every object has exactly one owner; the deadline, heartbeat and logic monitors
      report exactly the violations of their specifications; the supervisor is notified exactly while all monitors are
      healthy, and in time; a start is complete or fails, and after a start that took a handle none
      succeeds any more.
    - Configuration (C39, C40): loading a file gives a valid configuration or an
      error, and the valid configurations are exactly those that come out of verified files.

    ** Fuel

    Loops carry fuel where they are not structural, and each has a lemma that its
    fuel is enough: the traversal takes one step per node, clearing a queue one
    per element, queueing ready nodes at most four rounds per node, a push into the
    job queue one try more than the queue's patience, the event loops one step per
    queued event, the wait of the shutdown one per ten milliseconds, the insertion
    into the history buffer one per element, the evaluation of a
    supervision one per buffered event and per reference cycle between the earliest
    time in play and the synchronisation time, the readers of the ring buffers one
    step per stored element, a walk in the process map one per level of its 32,
    reading
    activation results one per batch of four, the wait for a file one per polling
    interval and two more, the search for a free descriptor one per open one.  Loops that end only
    when they are told to (the main loop, the monitoring thread, a worker) take the list of their
    rounds.  The loop of the process component that sends SIGKILL has no bound in the code: its environment is an infinite
    sequence of inputs, the theorems say that some fuel is enough, for which they assume that a
    process that is killed goes, and that more fuel changes nothing.

    ** Assumptions about the environment

    A component that crashes is inactive when its event is handled; a push into
    the job queue fails only with a time-out; deadlock freedom needs an acyclic
    graph; a process that is killed goes some time, or the signal to it is refused; the cycle of the alive monitor needs a clock that does not run
    backwards; the handler of a process's end is one step of the process
    component; the job queue runs under sequential consistency with counters that do
    not wrap; the watchdog device, the middleware, the access control lists and the verifier of the
    configuration file keep their documented laws; names in one process do not
    collide; the supervision of a [Component] can be switched off when asked to;
    SIGTERM is blocked in the threads of an application; the words of a monitor are written by one thread, and its clock does not run
    backwards; the times of a deadline monitor fit 32 bits of milliseconds, those of a heartbeat monitor 62.  They are hypotheses of the theorems that use
    them, or part of the step functions.

    ** Not modelled

    The inside of the system calls (processes, shared memory, clocks), the code that
    the build generates from the schema, the logging framework and its macros, the texts of the error
    domains, the examples, and memory orderings weaker than sequential consistency.  The job queue [Mpmc] is not an instance of the graph's
    [WorkerQueue]: when the post of its semaphore fails, a push reports an error although its item is in the ring,
    which the law of the interface excludes; the graph is verified against the law. *)

From stdpp Require Import prelude fin_maps gmap.

(** ** Outcomes

    Code that can be stopped by a [SCORE_LANGUAGE_FUTURECPP_ASSERT], by
    [std::unordered_map::at] on an absent key, by [optional::value] on an empty
    optional or by a null pointer returns an [outcome].  [OutOfFuel] marks a loop that was cut
    by its fuel; every loop has a theorem that its fuel is enough. *)

Inductive fault :=
| AssertionFailed
| OutOfRange
| NullPointer
| OutOfFuel.

#[export] Instance fault_eq_dec : EqDecision fault.
Proof. solve_decision. Defined.

Inductive outcome (A : Type) :=
| Ret (a : A)
| Abort (f : fault).
Arguments Ret {A} a.
Arguments Abort {A} f.

#[export] Instance outcome_ret : MRet outcome := fun A a => Ret a.
#[export] Instance outcome_bind : MBind outcome := fun A B k m =>
  match m with Ret a => k a | Abort f => Abort f end.

(** [ret o P]: the computation returned, and what it returned satisfies [P]. *)
Definition returns {A} (o : outcome A) (P : A -> Prop) : Prop :=
  match o with Ret a => P a | Abort _ => False end.

Lemma returns_bind {A B} (o : outcome A) (k : A -> outcome B) (P : A -> Prop) (Q : B -> Prop) :
  returns o P -> (forall a, P a -> returns (k a) Q) -> returns (o ≫= k) Q.
Proof. destruct o; simpl; [auto | tauto]. Qed.

Lemma returns_mono {A} (o : outcome A) (P Q : A -> Prop) :
  returns o P -> (forall a, P a -> Q a) -> returns o Q.
Proof. destruct o; simpl; auto. Qed.

Lemma returns_Ret {A} (o : outcome A) (P : A -> Prop) :
  returns o P <-> exists a, o = Ret a /\ P a.
Proof.
  destruct o; simpl; split; [eauto | by intros (? & [= ->] & ?) | done | by intros (? & ? & ?)].
Qed.

(** A loop that threads its state and can fail. *)
Fixpoint foldM {A B} (f : A -> B -> outcome A) (a : A) (l : list B) : outcome A :=
  match l with [] => Ret a | b :: l' => a' ← f a b; foldM f a' l' end.

(** ** Assertions

    [ASSERT_MESSAGE], [ASSERT_PRD] and [PRECONDITION_PRD] are checked in every
    build, [ASSERT_DBG] only in debug builds.  The build is a parameter of the
    definitions that contain such a check, so the theorems hold for both. *)

Class BuildMode := dbg_checks : bool.

Definition debug_build : BuildMode := true.
Definition release_build : BuildMode := false.

Definition assert (b : bool) : outcome unit :=
  if b then Ret tt else Abort AssertionFailed.

Definition assert_dbg `{BuildMode} (b : bool) : outcome unit :=
  if dbg_checks then assert b else Ret tt.

Lemma assert_true : assert true = Ret tt.
Proof. reflexivity. Qed.

Lemma assert_dbg_true `{BuildMode} : assert_dbg true = Ret tt.
Proof. unfold assert_dbg. by destruct dbg_checks. Qed.

(** [optional::value] *)
Definition value_of {A} (o : option A) : outcome A :=
  match o with Some a => Ret a | None => Abort OutOfRange end.

(** ** Standard containers

    A [std::unordered_map] is a [gmap].  Its iteration order is unspecified:
    the definitions that iterate take the order as a parameter, of which only
    that it lists every entry once is known. *)

Definition at_ `{Countable K} {V} (m : gmap K V) (k : K) : outcome V := value_of (m !! k).

Class IterOrder (K : Type) `{Countable K} := {
  iter_order : forall V, gmap K V -> list (K * V);
  iter_order_perm : forall V (m : gmap K V), iter_order V m ≡ₚ map_to_list m
}.
Arguments iter_order {K _ _ _} {V} m.
Arguments iter_order_perm {K _ _ _} {V} m.

(** One order, to run the definitions with. *)
Definition map_order `{Countable K} : IterOrder K :=
  {| iter_order V m := map_to_list m; iter_order_perm V m := Permutation_refl _ |}.

Lemma at_Some `{Countable K} {V} (m : gmap K V) k v : m !! k = Some v -> at_ m k = Ret v.
Proof. unfold at_. by intros ->. Qed.

Lemma elem_of_iter_order `{IterOrder K} {V} (m : gmap K V) k v :
  (k, v) ∈ iter_order m <-> m !! k = Some v.
Proof. rewrite iter_order_perm. apply elem_of_map_to_list. Qed.

Lemma NoDup_iter_order `{IterOrder K} {V} (m : gmap K V) : NoDup (iter_order m).*1.
Proof. rewrite iter_order_perm. apply NoDup_fst_map_to_list. Qed.

(** ** Machine integers

    A [w]-bit unsigned integer is a [Z] in [0 .. 2^w - 1]; the arithmetic of
    the source wraps around. *)

Definition wrap (w z : Z) : Z := (z mod 2 ^ w)%Z.

Definition UINT16_MAX : Z := 2 ^ 16 - 1.
Definition UINT32_MAX : Z := 2 ^ 32 - 1.
Definition INT64_MAX : Z := 2 ^ 63 - 1.

Lemma wrap_small w z : (0 <= z < 2 ^ w)%Z -> wrap w z = z.
Proof. intros. by apply Z.mod_small. Qed.

Lemma wrap_range w z : (0 <= w)%Z -> (0 <= wrap w z < 2 ^ w)%Z.
Proof. intros. apply Z.mod_pos_bound. by apply Z.pow_pos_nonneg. Qed.

(** ** Lists extended at their end *)

Lemma elem_of_snoc_iff {A} (l : list A) x y : x ∈ l ++ [y] <-> x ∈ l \/ x = y.
Proof. rewrite elem_of_app, elem_of_cons, elem_of_nil. naive_solver. Qed.

Lemma NoDup_snoc_iff {A} (l : list A) x : NoDup (l ++ [x]) <-> x ∉ l /\ NoDup l.
Proof. rewrite (Permutation_app_comm l [x]). apply NoDup_cons. Qed.

Lemma app_self_nil {A} (l n : list A) : l = l ++ n -> n = [].
Proof. intros E. apply (f_equal length) in E. rewrite length_app in E. destruct n; [done|]. simpl in E. lia. Qed.

Lemma bool_decide_elem_cons `{EqDecision A} (x y : A) l :
  bool_decide (x = y) || bool_decide (x ∈ l) = bool_decide (x ∈ y :: l).
Proof.
  rewrite <- bool_decide_or. apply bool_decide_ext. by rewrite elem_of_cons.
Qed.

(** ** Index arithmetic of ring buffers *)

Lemma ring_index cap h i :
  h < cap -> i <= cap ->
  (h + i) `mod` cap = if decide (h + i < cap) then h + i else h + i - cap.
Proof.
  intros Hh Hi. case_decide as E; [by apply Nat.mod_small|].
  assert (h + i = h + i - cap + 1 * cap) as -> by lia.
  rewrite Nat.Div0.mod_add, Nat.mod_small; lia.
Qed.

Lemma ring_index_lt cap h i : 0 < cap -> (h + i) `mod` cap < cap.
Proof. intros. apply Nat.mod_upper_bound. lia. Qed.

Lemma ring_index_inj cap h i j :
  h < cap -> i < cap -> j < cap -> (h + i) `mod` cap = (h + j) `mod` cap -> i = j.
Proof.
  intros Hh Hi Hj. rewrite !ring_index by lia. repeat case_decide; lia.
Qed.

(** ** Tactics and hints of the development *)

Create HintDb lcm.
Create Rewrite HintDb lcm.
#[export] Hint Rewrite @assert_true @assert_dbg_true : lcm.
#[export] Hint Resolve returns_mono : lcm.

(** Case analysis on the next match or conditional of the goal. *)
Ltac split_match :=
  match goal with
  | |- context [match ?x with _ => _ end] => destruct x eqn:?
  end.

(** Run a straight-line outcome computation whose checks all hold. *)
Ltac run_outcome := repeat (simpl; autorewrite with lcm).
