(* ===== verification/Queues.v ===== *)
(** * Bounded queues

    [FixedSizeQueue] (common/concurrency/fixed_size_queue.hpp), the FIFO below
    the graph traversal, the transition frontier and the event queue, and
    [MpscBoundedQueue] (common/concurrency/mpsc_bounded_queue.hpp).
    [BoundedFifo] is the contract of a bounded FIFO, which [FixedSizeQueue] and
    the ring buffer of [Ipc] implement; what holds of every sequence of operations
    is proved once against it. *)

From stdpp Require Import prelude fin_maps gmap.
From S2P Require Import Prelude.

Inductive ConcurrencyErrc :=
| kErrTimeout
| kErrStopped
| kErrOverflow
| kErrOsError.

#[export] Instance ConcurrencyErrc_eq_dec : EqDecision ConcurrencyErrc.
Proof. solve_decision. Defined.

(** ** The contract of a bounded FIFO

    [fifo_rep q l]: the queue [q] holds exactly [l], oldest element first. *)

Class BoundedFifo (Q A : Type) := {
  fifo_push : A -> Q -> bool * Q;
  fifo_pop : Q -> option A * Q;
  fifo_capacity : Q -> nat;
  fifo_rep : Q -> list A -> Prop;
  fifo_rep_bound q l : fifo_rep q l -> length l <= fifo_capacity q;
  fifo_push_ok q l a : fifo_rep q l -> length l < fifo_capacity q ->
    exists q', fifo_push a q = (true, q') /\ fifo_rep q' (l ++ [a]) /\
               fifo_capacity q' = fifo_capacity q;
  fifo_push_full q l a : fifo_rep q l -> length l = fifo_capacity q ->
    exists q', fifo_push a q = (false, q') /\ fifo_rep q' l /\
               fifo_capacity q' = fifo_capacity q;
  fifo_pop_cons q a l : fifo_rep q (a :: l) ->
    exists q', fifo_pop q = (Some a, q') /\ fifo_rep q' l /\ fifo_capacity q' = fifo_capacity q;
  fifo_pop_nil q : fifo_rep q [] ->
    exists q', fifo_pop q = (None, q') /\ fifo_rep q' [] /\ fifo_capacity q' = fifo_capacity q
}.

(** A client's operations on a queue, in the order they take effect. *)
Inductive fifo_op (A : Type) :=
| OpPush (a : A)
| OpPop.
Arguments OpPush {A} a.
Arguments OpPop {A}.

Section FifoClient.
Context {Q A : Type} `{BoundedFifo Q A}.

(** Runs the operations and collects the accepted pushes and the popped elements. *)
Fixpoint fifo_run (ops : list (fifo_op A)) (q : Q) : list A * list A * Q :=
  match ops with
  | [] => ([], [], q)
  | OpPush a :: ops' =>
      let '(ok, q1) := fifo_push a q in
      let '(pushed, popped, q2) := fifo_run ops' q1 in
      (if ok then a :: pushed else pushed, popped, q2)
  | OpPop :: ops' =>
      let '(r, q1) := fifo_pop q in
      let '(pushed, popped, q2) := fifo_run ops' q1 in
      (pushed, match r with Some a => a :: popped | None => popped end, q2)
  end.

(** No element is lost, duplicated, invented or reordered, whatever the
    sequence of operations. *)
Lemma fifo_run_spec ops q l :
  fifo_rep q l ->
  exists l', let '(pushed, popped, q') := fifo_run ops q in
    fifo_rep q' l' /\ l ++ pushed = popped ++ l' /\ fifo_capacity q' = fifo_capacity q.
Proof.
  revert q l; induction ops as [|[a|] ops IH]; intros q l Hq; cbn [fifo_run].
  - exists l. rewrite app_nil_r. auto.
  - destruct (decide (length l < fifo_capacity q)) as [Hlt|Hge].
    + destruct (fifo_push_ok q l a Hq Hlt) as (q1 & -> & Hq1 & Hc).
      destruct (IH _ _ Hq1) as [l' Hl']. exists l'.
      destruct (fifo_run ops q1) as [[pushed popped] q2].
      by rewrite <- app_assoc, Hc in Hl'.
    + pose proof (fifo_rep_bound q l Hq).
      destruct (fifo_push_full q l a Hq) as (q1 & -> & Hq1 & Hc); [lia|].
      destruct (IH _ _ Hq1) as [l' Hl']. exists l'.
      destruct (fifo_run ops q1) as [[pushed popped] q2]. by rewrite Hc in Hl'.
  - destruct l as [|b l].
    + destruct (fifo_pop_nil q Hq) as (q1 & -> & Hq1 & Hc).
      destruct (IH _ _ Hq1) as [l' Hl']. exists l'.
      destruct (fifo_run ops q1) as [[pushed popped] q2]. by rewrite Hc in Hl'.
    + destruct (fifo_pop_cons q b l Hq) as (q1 & -> & Hq1 & Hc).
      destruct (IH _ _ Hq1) as [l' Hl']. exists l'.
      destruct (fifo_run ops q1) as [[pushed popped] q2]. rewrite Hc in Hl'.
      destruct Hl' as (? & Heq & ?). split_and!; [done| |done]. simpl. by rewrite Heq.
Qed.

End FifoClient.

(** ** FixedSizeQueue *)

Module FixedSizeQueue.

Section Queue.
Context {T : Type}.

(** The ring: [slots_] are [std::optional<T>], [capacity_] of them. *)
Record t := mk {
  head_ : nat;
  tail_ : nat;
  count_ : nat;
  capacity_ : nat;
  slots_ : list (option T)
}.

(** [FixedSizeQueue(size)]; [FixedSizeQueue()] is size 0. *)
Definition make (size : nat) : t := mk 0 0 0 size (replicate size None).

Definition empty (q : t) : bool := count_ q =? 0.
Definition full (q : t) : bool := capacity_ q <=? count_ q.
Definition size (q : t) : nat := count_ q.
Definition capacity (q : t) : nat := capacity_ q.

Definition push (x : T) (q : t) : bool * t :=
  if full q then (false, q)
  else (true,
    mk (head_ q) ((tail_ q + 1) `mod` capacity_ q) (count_ q + 1) (capacity_ q)
       (<[tail_ q := Some x]> (slots_ q))).

Definition tryPop (q : t) : option T * t :=
  if empty q then (None, q)
  else (mjoin (slots_ q !! head_ q),
    mk ((head_ q + 1) `mod` capacity_ q) (tail_ q) (count_ q - 1) (capacity_ q)
       (<[head_ q := None]> (slots_ q))).

(** The queue holds [l]: the slots from [head_] on hold the elements of [l] in
    order and every other slot is empty. *)
Record rep (q : t) (l : list T) : Prop := {
  rep_slots : length (slots_ q) = capacity_ q;
  rep_count : count_ q = length l;
  rep_bound : length l <= capacity_ q;
  rep_head : 0 < capacity_ q -> head_ q < capacity_ q;
  rep_tail : 0 < capacity_ q -> tail_ q = (head_ q + length l) `mod` capacity_ q;
  rep_lookup : forall i, i < capacity_ q ->
    slots_ q !! ((head_ q + i) `mod` capacity_ q) = Some (l !! i)
}.

Lemma make_rep n : rep (make n) [].
Proof.
  split; simpl; try lia.
  - apply length_replicate.
  - intros. by rewrite Nat.Div0.mod_0_l.
  - intros i Hi. rewrite Nat.mod_small by lia. by apply lookup_replicate_2.
Qed.

Lemma rep_empty q l : rep q l -> empty q = bool_decide (l = []).
Proof.
  intros []. unfold empty. rewrite rep_count0.
  by destruct l as [|? []]; case_bool_decide.
Qed.

Lemma rep_full q l : rep q l -> full q = bool_decide (length l = capacity q).
Proof.
  intros []. unfold full, capacity. rewrite rep_count0.
  case_bool_decide; [apply Nat.leb_le | apply Nat.leb_gt]; lia.
Qed.

Lemma push_ok q l x :
  rep q l -> length l < capacity q ->
  exists q', push x q = (true, q') /\ rep q' (l ++ [x]) /\ capacity q' = capacity q.
Proof.
  intros Hrep Hlt. pose proof (rep_full q l Hrep) as Hfull.
  rewrite bool_decide_eq_false_2 in Hfull by lia.
  unfold push. rewrite Hfull. eexists; split; [done|split; [|done]].
  destruct Hrep as [Hs Hc Hb Hh Ht Hl]. unfold capacity in *.
  specialize (Hh ltac:(lia)). specialize (Ht ltac:(lia)).
  split; simpl; rewrite ?length_app; simpl; try lia.
  - by rewrite length_insert.
  - intros _. rewrite Ht, Nat.Div0.add_mod_idemp_l. f_equal. lia.
  - intros i Hi. destruct (decide (i = length l)) as [->|Hne].
    + rewrite <- Ht. rewrite list_lookup_insert_eq.
      * by rewrite lookup_app_r, Nat.sub_diag by lia.
      * rewrite Hs, Ht. apply ring_index_lt. lia.
    + rewrite list_lookup_insert_ne.
      * rewrite Hl by done. f_equal. destruct (decide (i < length l)).
        -- by rewrite lookup_app_l by lia.
        -- rewrite !lookup_ge_None_2; rewrite ?length_app; simpl; auto; lia.
      * rewrite Ht. intros Heq. apply Hne. symmetry.
        eapply ring_index_inj; [..|exact Heq]; lia.
Qed.

Lemma push_full q l x : rep q l -> length l = capacity q -> push x q = (false, q).
Proof.
  intros Hrep Heq. unfold push. rewrite (rep_full q l Hrep).
  by rewrite bool_decide_eq_true_2.
Qed.

Lemma tryPop_cons q x l :
  rep q (x :: l) ->
  exists q', tryPop q = (Some x, q') /\ rep q' l /\ capacity q' = capacity q.
Proof.
  intros Hrep. unfold tryPop. rewrite (rep_empty _ _ Hrep), bool_decide_eq_false_2 by done.
  destruct Hrep as [Hs Hc Hb Hh Ht Hl]. simpl in *.
  specialize (Hh ltac:(lia)). specialize (Ht ltac:(lia)).
  pose proof (Hl 0 ltac:(lia)) as Hx.
  rewrite Nat.add_0_r, Nat.mod_small in Hx by done. rewrite Hx.
  eexists; split; [done|split; [|done]]. split; simpl; try lia.
  - by rewrite length_insert.
  - intros _. apply Nat.mod_upper_bound. lia.
  - intros _. rewrite Ht, Nat.Div0.add_mod_idemp_l. f_equal. lia.
  - intros i Hi. rewrite Nat.Div0.add_mod_idemp_l.
    replace (head_ q + 1 + i) with (head_ q + S i) by lia.
    destruct (decide (S i < capacity_ q)) as [Hlt|Hge].
    + rewrite list_lookup_insert_ne; [by rewrite Hl|].
      rewrite ring_index by lia. case_decide; lia.
    + rewrite ring_index by lia. rewrite decide_False by lia.
      replace (head_ q + S i - capacity_ q) with (head_ q) by lia.
      rewrite list_lookup_insert_eq by lia. by rewrite (lookup_ge_None_2 l) by lia.
Qed.

Lemma tryPop_nil q : rep q [] -> tryPop q = (None, q).
Proof. intros Hrep. unfold tryPop. by rewrite (rep_empty _ _ Hrep), bool_decide_eq_true_2. Qed.

Lemma rep_unique q l1 l2 : rep q l1 -> rep q l2 -> l1 = l2.
Proof.
  intros H1 H2. apply list_eq_same_length with (n := count_ q).
  - by rewrite (rep_count _ _ H2).
  - by rewrite (rep_count _ _ H1).
  - intros i x y Hi Hx Hy. pose proof (rep_count _ _ H1). pose proof (rep_bound _ _ H1).
    pose proof (rep_lookup _ _ H1 i ltac:(lia)) as E1.
    pose proof (rep_lookup _ _ H2 i ltac:(lia)) as E2. congruence.
Qed.

End Queue.
Arguments t : clear implicits.
Arguments mk {T} _ _ _ _ _.

End FixedSizeQueue.

#[export] Program Instance FixedSizeQueue_fifo {T} : BoundedFifo (FixedSizeQueue.t T) T := {
  fifo_push := FixedSizeQueue.push;
  fifo_pop := FixedSizeQueue.tryPop;
  fifo_capacity := FixedSizeQueue.capacity;
  fifo_rep := FixedSizeQueue.rep
}.
Next Obligation. intros T q l Hq. apply (FixedSizeQueue.rep_bound _ _ Hq). Qed.
Next Obligation. intros T q l a. apply FixedSizeQueue.push_ok. Qed.
Next Obligation. intros T q l a Hq Hl. rewrite (FixedSizeQueue.push_full _ _ _ Hq Hl). eauto. Qed.
Next Obligation. intros T q a l. apply FixedSizeQueue.tryPop_cons. Qed.
Next Obligation. intros T q Hq. rewrite FixedSizeQueue.tryPop_nil by done. eauto. Qed.

(** ** MpscBoundedQueue

    Every operation runs under the mutex, so operations are atomic.  Threads are
    numbered; [consumer_thread_id_] is empty until the first consumer comes. *)

Module MpscBoundedQueue.

Section Queue.
Context {T : Type}.

Record t := mk {
  queue_ : FixedSizeQueue.t T;
  stopped_ : bool;
  consumer_thread_id_ : option nat
}.

Definition make (size : nat) : t :=
  mk (FixedSizeQueue.make (if size =? 0 then 1 else size)) false None.

(** The destructor. *)
Definition destroy (q : t) : outcome unit := assert (stopped_ q).

Definition push (item : T) (q : t) : (unit + ConcurrencyErrc) * t :=
  if stopped_ q then (inr kErrStopped, q)
  else
    let '(ok, q') := FixedSizeQueue.push item (queue_ q) in
    (if ok then inl tt else inr kErrOverflow, mk q' (stopped_ q) (consumer_thread_id_ q)).

Definition ensure_single_consumer (self : nat) (q : t) : bool * t :=
  let id := default self (consumer_thread_id_ q) in
  (id =? self, mk (queue_ q) (stopped_ q) (Some id)).

(** What [wait] returns when it wakes up: the condition holds or the time is over. *)
Definition wait (self : nat) (q : t) : outcome ((unit + ConcurrencyErrc) * t) :=
  let '(ok, q1) := ensure_single_consumer self q in
  _ ← assert ok;
  let has_item := (0 <? FixedSizeQueue.size (queue_ q1)) || stopped_ q1 in
  Ret (if stopped_ q1 then inr kErrStopped else if has_item then inl tt else inr kErrTimeout, q1).

Definition tryPop (self : nat) (q : t) : outcome (option T * t) :=
  let '(ok, q1) := ensure_single_consumer self q in
  _ ← assert ok;
  let '(r, q') := FixedSizeQueue.tryPop (queue_ q1) in
  Ret (r, mk q' (stopped_ q1) (consumer_thread_id_ q1)).

Definition stop (q : t) : t := mk (queue_ q) true (consumer_thread_id_ q).

(** The queue holds [l] and belongs to the consumer [self]. *)
Definition rep (self : nat) (q : t) (l : list T) : Prop :=
  FixedSizeQueue.rep (queue_ q) l /\ default self (consumer_thread_id_ q) = self.

Definition capacity (q : t) : nat := FixedSizeQueue.capacity (queue_ q).

Lemma mpsc_make_rep self n : rep self (make n) [] /\ capacity (make n) = n `max` 1.
Proof.
  split; [split; [apply FixedSizeQueue.make_rep|done]|]. by destruct n as [|[]].
Qed.

(** Accepted in order, refused when full or stopped, and then unchanged. *)
Lemma push_spec self q l item :
  rep self q l ->
  let '(r, q') := push item q in
  capacity q' = capacity q /\ stopped_ q' = stopped_ q /\
  if stopped_ q then r = inr kErrStopped /\ rep self q' l
  else if bool_decide (length l = capacity q) then r = inr kErrOverflow /\ rep self q' l
  else r = inl tt /\ rep self q' (l ++ [item]).
Proof.
  intros [Hq Hid]. unfold push. destruct (stopped_ q) eqn:Hs; [done|].
  pose proof (FixedSizeQueue.rep_bound _ _ Hq). unfold capacity, FixedSizeQueue.capacity in *.
  case_bool_decide as Hl.
  - by rewrite (FixedSizeQueue.push_full _ _ _ Hq Hl).
  - destruct (FixedSizeQueue.push_ok _ _ item Hq) as (q' & -> & Hq' & Hc); [unfold FixedSizeQueue.capacity; lia|].
    simpl. unfold FixedSizeQueue.capacity in Hc. by rewrite Hc.
Qed.

Lemma ensure_single_consumer_spec self q l :
  rep self q l -> exists q', ensure_single_consumer self q = (true, q') /\ rep self q' l /\
    queue_ q' = queue_ q /\ stopped_ q' = stopped_ q.
Proof.
  intros [Hq Hid]. unfold ensure_single_consumer. rewrite Hid, Nat.eqb_refl. by eexists.
Qed.

Lemma tryPop_spec self q l :
  rep self q l ->
  exists q', tryPop self q = Ret (head l, q') /\ rep self q' (tail l) /\
    capacity q' = capacity q /\ stopped_ q' = stopped_ q.
Proof.
  intros Hrep. destruct (ensure_single_consumer_spec _ _ _ Hrep) as (q1 & Hq1 & [Hr Hid] & Eq & Es).
  unfold tryPop. rewrite Hq1. cbn [assert mbind outcome_bind].
  destruct l as [|a l].
  - rewrite (FixedSizeQueue.tryPop_nil _ Hr). eexists. split_and!; [done|by split| |done]. unfold capacity. simpl. by rewrite Eq.
  - destruct (FixedSizeQueue.tryPop_cons _ _ _ Hr) as (q' & -> & Hr' & Hc).
    eexists. split_and!; [done|by split| |done]. unfold capacity. simpl. by rewrite Hc, Eq.
Qed.

Lemma wait_spec self q l :
  rep self q l ->
  exists q', wait self q = Ret (if stopped_ q then inr kErrStopped
                                else if bool_decide (l = []) then inr kErrTimeout else inl tt, q') /\
    rep self q' l /\ capacity q' = capacity q /\ stopped_ q' = stopped_ q.
Proof.
  intros Hrep. destruct (ensure_single_consumer_spec _ _ _ Hrep) as (q1 & Hq1 & [Hr Hid] & Eq & Es).
  unfold wait. rewrite Hq1. cbn [assert mbind outcome_bind]. exists q1. split_and!; [|by split|unfold capacity; by rewrite Eq|done].
  rewrite Es, Eq. f_equal. f_equal. destruct (stopped_ q); [done|]. rewrite orb_false_r.
  unfold FixedSizeQueue.size. rewrite <- Eq, (FixedSizeQueue.rep_count _ _ Hr). by destruct l.
Qed.

End Queue.
Arguments t : clear implicits.

End MpscBoundedQueue.
