(* ===== verification/Depgraph.v ===== *)
(** * The dependency graph

    [DependencyGraph<Key, T>] (process_group_manager/details/dependency_graph.hpp):
    nodes with their dependencies and dependents, and the breadth-first
    [traverse] that the transitions use to find the subgraph of a Run Target. *)

From stdpp Require Import prelude fin_maps gmap.
From S2P Require Import Prelude Queues.

Module DependencyGraph.

Section Graph.
Context {Key : Type} `{Countable Key} {T : Type} `{BuildMode}.

Record GraphNode := mkNode {
  value : T;
  depends_on : list Key;
  dependents_of : list Key;
  visited : bool
}.

Record t := mk {
  capacity_ : nat;
  nodes : gmap Key GraphNode;
  traversal_queue : FixedSizeQueue.t Key
}.

(** [DependencyGraph(count)] *)
Definition make (count : nat) : t :=
  mk count ∅ (FixedSizeQueue.make (count `max` 2 - 1)).

Definition size (g : t) : nat := base.size (nodes g).
Definition capacity (g : t) : nat := capacity_ g.

Definition set_nodes (ns : gmap Key GraphNode) (g : t) : t :=
  mk (capacity_ g) ns (traversal_queue g).
Definition set_queue (q : FixedSizeQueue.t Key) (g : t) : t :=
  mk (capacity_ g) (nodes g) q.

Definition set_visited (b : bool) (n : GraphNode) : GraphNode :=
  mkNode (value n) (depends_on n) (dependents_of n) b.
Definition set_value (v : T) (n : GraphNode) : GraphNode :=
  mkNode v (depends_on n) (dependents_of n) (visited n).
Definition add_depends_on (k : Key) (n : GraphNode) : GraphNode :=
  mkNode (value n) (depends_on n ++ [k]) (dependents_of n) (visited n).
Definition add_dependent (k : Key) (n : GraphNode) : GraphNode :=
  mkNode (value n) (depends_on n) (dependents_of n ++ [k]) (visited n).

(** An existing node is kept; a debug build stops there. *)
Definition try_emplace (key : Key) (v : T) (g : t) : outcome (Key * t) :=
  match nodes g !! key with
  | Some _ => _ ← assert_dbg false; Ret (key, g)
  | None =>
      _ ← assert_dbg true;
      Ret (key, set_nodes (<[key := mkNode v [] [] false]> (nodes g)) g)
  end.

(** [node] depends on [dep].  The sizes are only read by the debug checks. *)
Definition addDependency (node dep : Key) (g : t) : outcome t :=
  _ ← (if dbg_checks then
         n ← at_ (nodes g) node;
         _ ← assert_dbg (length (depends_on n) <? capacity g);
         d ← at_ (nodes g) dep;
         assert_dbg (length (dependents_of d) <? capacity g)
       else Ret tt);
  n ← at_ (nodes g) node;
  let g1 := set_nodes (<[node := add_depends_on dep n]> (nodes g)) g in
  d ← at_ (nodes g1) dep;
  Ret (set_nodes (<[dep := add_dependent node d]> (nodes g1)) g1).

(** [operator[]], and the assignment through the reference it returns. *)
Definition get (g : t) (key : Key) : outcome T := n ← at_ (nodes g) key; Ret (value n).
Definition put (key : Key) (v : T) (g : t) : outcome t :=
  n ← at_ (nodes g) key; Ret (set_nodes (<[key := set_value v n]> (nodes g)) g).

Definition dependsOn (g : t) (key : Key) : outcome (list Key) :=
  n ← at_ (nodes g) key; Ret (depends_on n).
Definition dependents (g : t) (key : Key) : outcome (list Key) :=
  n ← at_ (nodes g) key; Ret (dependents_of n).

(** [find(key) != end()] *)
Definition contains (g : t) (key : Key) : bool := bool_decide (is_Some (nodes g !! key)).

Definition reset_visited (g : t) : t := set_nodes (set_visited false <$> nodes g) g.

Definition mark_visited (key : Key) (g : t) : outcome t :=
  n ← at_ (nodes g) key; Ret (set_nodes (<[key := set_visited true n]> (nodes g)) g).

(** The body of the inner loop of [traverse]. *)
Fixpoint push_neighbors (neighbors : list Key) (g : t) : outcome t :=
  match neighbors with
  | [] => Ret g
  | neighbor :: rest =>
      n ← at_ (nodes g) neighbor;
      if visited n then push_neighbors rest g
      else
        let '(push_res, q) := FixedSizeQueue.push neighbor (traversal_queue g) in
        _ ← assert_dbg push_res;
        g' ← mark_visited neighbor (set_queue q g);
        push_neighbors rest g'
  end.

(** The callback [per_node] reads the graph, changes the caller's state [S] and
    returns the nodes to go to. *)
Section Traverse.
Context {S : Type} (per_node : t -> Key -> S -> outcome (list Key * S)).

Fixpoint traverse_loop (fuel : nat) (g : t) (s : S) : outcome (t * S) :=
  if FixedSizeQueue.empty (traversal_queue g) then Ret (g, s)
  else
    match fuel with
    | 0 => Abort OutOfFuel
    | Datatypes.S fuel' =>
        let '(pop_res, q) := FixedSizeQueue.tryPop (traversal_queue g) in
        let g1 := set_queue q g in
        _ ← assert (bool_decide (is_Some pop_res));
        current ← value_of pop_res;
        '(neighbors, s1) ← per_node g1 current s;
        g2 ← push_neighbors neighbors g1;
        traverse_loop fuel' g2 s1
    end.

Definition traverse (start : Key) (g : t) (s : S) : outcome (t * S) :=
  let g0 := reset_visited g in
  let '(push_res, q) := FixedSizeQueue.push start (traversal_queue g0) in
  _ ← assert_dbg push_res;
  g1 ← mark_visited start (set_queue q g0);
  traverse_loop (size g1) g1 s.
End Traverse.

(** ** Specification *)

(** The edges of the graph, read without the failure of [at]. *)
Definition deps (g : t) (k : Key) : list Key := default [] (depends_on <$> nodes g !! k).
Definition rdeps (g : t) (k : Key) : list Key := default [] (dependents_of <$> nodes g !! k).

Definition dep (g : t) (a b : Key) : Prop := b ∈ deps g a.

(** [k] belongs to the subgraph of [start]. *)
Definition reach (g : t) (start k : Key) : Prop := rtc (dep g) start k.

(** Equality up to the scratch data of the traversal ([visited] and the queue). *)
Definition erase (n : GraphNode) : T * list Key * list Key :=
  (value n, depends_on n, dependents_of n).

Definition same_graph (g1 g2 : t) : Prop :=
  capacity_ g1 = capacity_ g2 /\ erase <$> nodes g1 = erase <$> nodes g2.

(** Well-formed: no more nodes than announced, every edge joins two nodes and is
    recorded at both ends, and the traversal queue is idle and of the size the
    constructor gave it. *)
Record wf (g : t) : Prop := {
  wf_size : size g <= capacity g;
  wf_width : (Z.of_nat (capacity g) < 2 ^ 64)%Z;
  wf_queue : FixedSizeQueue.rep (traversal_queue g) [];
  wf_queue_cap : FixedSizeQueue.capacity (traversal_queue g) = capacity g `max` 2 - 1;
  wf_edge_dom a b : b ∈ deps g a -> is_Some (nodes g !! b);
  wf_mirror a b : b ∈ deps g a <-> a ∈ rdeps g b
}.

(** ** Lemmas *)

#[export] Instance same_graph_equiv : Equivalence same_graph.
Proof.
  split.
  - by intros g.
  - by intros g1 g2 [].
  - intros g1 g2 g3 [E1 E2] [E3 E4]. by split; [rewrite E1 | rewrite E2].
Qed.

Lemma same_graph_lookup g1 g2 k : same_graph g1 g2 ->
  erase <$> nodes g1 !! k = erase <$> nodes g2 !! k.
Proof. intros [_ Heq]. by rewrite <- !lookup_fmap, Heq. Qed.

Lemma same_graph_is_Some g1 g2 k : same_graph g1 g2 ->
  is_Some (nodes g1 !! k) <-> is_Some (nodes g2 !! k).
Proof. intros Hg. by rewrite <- !(fmap_is_Some erase), (same_graph_lookup _ _ _ Hg). Qed.

Lemma same_graph_value g1 g2 k : same_graph g1 g2 ->
  value <$> nodes g1 !! k = value <$> nodes g2 !! k.
Proof.
  intros Hg. pose proof (same_graph_lookup _ _ k Hg) as Hk.
  destruct (nodes g1 !! k), (nodes g2 !! k); simplify_eq/=; auto. by f_equal.
Qed.

#[export] Instance deps_proper : Proper (same_graph ==> (=) ==> (=)) deps.
Proof.
  intros g1 g2 Hg k ? <-. unfold deps. pose proof (same_graph_lookup _ _ k Hg) as Hk.
  destruct (nodes g1 !! k), (nodes g2 !! k); simplify_eq/=; auto.
Qed.

#[export] Instance rdeps_proper : Proper (same_graph ==> (=) ==> (=)) rdeps.
Proof.
  intros g1 g2 Hg k ? <-. unfold rdeps. pose proof (same_graph_lookup _ _ k Hg) as Hk.
  destruct (nodes g1 !! k), (nodes g2 !! k); simplify_eq/=; auto.
Qed.

#[export] Instance dep_proper : Proper (same_graph ==> (=) ==> (=) ==> iff) dep.
Proof. intros g1 g2 Hg a ? <- b ? <-. unfold dep. by rewrite Hg. Qed.

Lemma reach_mono g1 g2 a b : same_graph g1 g2 -> reach g1 a b -> reach g2 a b.
Proof.
  intros Hg. apply rtc_subrel. intros x y Hxy. by rewrite <- Hg.
Qed.

#[export] Instance reach_proper : Proper (same_graph ==> (=) ==> (=) ==> iff) reach.
Proof. intros g1 g2 Hg a ? <- b ? <-. split; apply reach_mono; [done | by symmetry]. Qed.

Lemma same_graph_size g1 g2 : same_graph g1 g2 -> size g1 = size g2.
Proof.
  intros [_ Heq]. unfold size.
  by rewrite <- (map_size_fmap erase (nodes g1)), Heq, map_size_fmap.
Qed.

(** Well-formedness does not look at the [visited] flags. *)
Lemma wf_same_graph g1 g2 :
  same_graph g1 g2 -> FixedSizeQueue.rep (traversal_queue g2) [] ->
  FixedSizeQueue.capacity (traversal_queue g2) = FixedSizeQueue.capacity (traversal_queue g1) ->
  wf g1 -> wf g2.
Proof.
  intros Hg Hq Hc []. pose proof Hg as [Hcap _]. unfold capacity in *.
  rewrite (same_graph_size _ _ Hg), Hcap in wf_size0. rewrite Hcap in *. split; unfold capacity.
  - done.
  - done.
  - done.
  - by rewrite Hc.
  - intros a b Hb. apply (same_graph_is_Some _ _ _ Hg), (wf_edge_dom0 a). by rewrite Hg.
  - intros a b. rewrite <- Hg. apply wf_mirror0.
Qed.

Lemma dependsOn_spec g k : is_Some (nodes g !! k) -> dependsOn g k = Ret (deps g k).
Proof. intros [n Hn]. unfold dependsOn, deps, at_. by rewrite Hn. Qed.

Lemma dependents_spec g k : is_Some (nodes g !! k) -> dependents g k = Ret (rdeps g k).
Proof. intros [n Hn]. unfold dependents, rdeps, at_. by rewrite Hn. Qed.

Lemma deps_dom g a b : b ∈ deps g a -> is_Some (nodes g !! a).
Proof. unfold deps. destruct (nodes g !! a); [done|]. by intros ?%elem_of_nil. Qed.

Lemma rdeps_dom g a b : b ∈ rdeps g a -> is_Some (nodes g !! a).
Proof. unfold rdeps. destruct (nodes g !! a); [done|]. by intros ?%elem_of_nil. Qed.

Lemma reach_dom g a b : wf g -> is_Some (nodes g !! a) -> reach g a b -> is_Some (nodes g !! b).
Proof.
  intros Hwf Ha Hr. apply rtc_inv_r in Hr as [->|(c & _ & Hc)]; [done|].
  by apply (wf_edge_dom g Hwf c).
Qed.

(** *** The traversal *)

Definition visited_at (g : t) (k : Key) : bool := default false (visited <$> nodes g !! k).

Lemma set_queue_same q g : same_graph (set_queue q g) g.
Proof. by split. Qed.

Lemma reset_visited_same g : same_graph (reset_visited g) g.
Proof.
  split; [done|]. simpl. rewrite <- map_fmap_compose. by apply map_fmap_ext.
Qed.

Lemma mark_visited_spec k g :
  is_Some (nodes g !! k) ->
  exists g', mark_visited k g = Ret g' /\ same_graph g' g /\
    traversal_queue g' = traversal_queue g /\
    forall j, visited_at g' j = bool_decide (j = k) || visited_at g j.
Proof.
  intros [n Hn]. unfold mark_visited, at_. rewrite Hn. simpl. eexists; split_and!; [done| |done|].
  - split; [done|]. simpl. rewrite fmap_insert. apply insert_id. by rewrite lookup_fmap, Hn.
  - intros j. unfold visited_at. simpl. case_bool_decide as Hj; [subst|].
    + by rewrite lookup_insert_eq.
    + by rewrite lookup_insert_ne by done.
Qed.

(** The invariant of the main loop: [ds] have been visited and expanded, [qs]
    are waiting in the queue. *)
Record traversal_inv (g0 g : t) (start : Key) (ds qs : list Key) : Prop := {
  ti_same : same_graph g g0;
  ti_queue : FixedSizeQueue.rep (traversal_queue g) qs;
  ti_queue_cap : FixedSizeQueue.capacity (traversal_queue g) = capacity g0 `max` 2 - 1;
  ti_nodup : NoDup (ds ++ qs);
  ti_visited k : visited_at g k = true <-> k ∈ ds ++ qs;
  ti_dom k : k ∈ ds ++ qs -> is_Some (nodes g0 !! k);
  ti_reach k : k ∈ ds ++ qs -> reach g0 start k;
  ti_closed a b : a ∈ ds -> b ∈ deps g0 a -> b ∈ ds ++ qs
}.

(** While [cur] is being expanded it counts as visited but not as expanded. *)
Record expanding_inv (g0 g : t) (start : Key) (ds qs : list Key) (cur : Key) : Prop := {
  tc_same : same_graph g g0;
  tc_queue : FixedSizeQueue.rep (traversal_queue g) qs;
  tc_queue_cap : FixedSizeQueue.capacity (traversal_queue g) = capacity g0 `max` 2 - 1;
  tc_nodup : NoDup (cur :: ds ++ qs);
  tc_visited k : visited_at g k = true <-> k ∈ cur :: ds ++ qs;
  tc_dom k : k ∈ cur :: ds ++ qs -> is_Some (nodes g0 !! k);
  tc_reach k : k ∈ cur :: ds ++ qs -> reach g0 start k;
  tc_closed a b : a ∈ ds -> b ∈ deps g0 a -> b ∈ cur :: ds ++ qs
}.

Lemma nodup_nodes_bound g (l : list Key) :
  NoDup l -> (forall k, k ∈ l -> is_Some (nodes g !! k)) -> length l <= size g.
Proof.
  intros Hnd Hdom. unfold size. rewrite <- size_dom, <- (size_list_to_set (C:=gset Key)) by done.
  apply subseteq_size. intros k ?%elem_of_list_to_set. by apply elem_of_dom, Hdom.
Qed.

(** There is always room for a fresh node: the node being expanded has left the
    queue, so the [max(count, 2) - 1] slots are enough. *)
Lemma expanding_room g0 g start ds qs cur n :
  wf g0 -> expanding_inv g0 g start ds qs cur -> is_Some (nodes g0 !! n) ->
  n ∉ cur :: ds ++ qs -> length qs < FixedSizeQueue.capacity (traversal_queue g).
Proof.
  intros Hwf Hinv Hn Hfresh. rewrite (tc_queue_cap _ _ _ _ _ _ Hinv).
  pose proof (wf_size _ Hwf). assert (Hb : length (n :: cur :: ds ++ qs) <= size g0).
  { apply nodup_nodes_bound.
    - apply NoDup_cons. split; [done|]. apply Hinv.
    - intros k [->|Hk]%elem_of_cons; [done|]. by apply (tc_dom _ _ _ _ _ _ Hinv). }
  simpl in Hb. rewrite length_app in Hb. lia.
Qed.

Lemma expanding_push g0 g g1 start ds qs cur n q :
  wf g0 -> expanding_inv g0 g start ds qs cur -> n ∈ deps g0 cur -> n ∉ cur :: ds ++ qs ->
  FixedSizeQueue.rep q (qs ++ [n]) ->
  FixedSizeQueue.capacity q = FixedSizeQueue.capacity (traversal_queue g) ->
  same_graph g1 (set_queue q g) -> traversal_queue g1 = q ->
  (forall j, visited_at g1 j = bool_decide (j = n) || visited_at g j) ->
  expanding_inv g0 g1 start ds (qs ++ [n]) cur.
Proof.
  intros Hwf [] Hdep Hfresh Hrep Hcap Hsame Hq Hvis. split.
  - by rewrite Hsame, set_queue_same.
  - by rewrite Hq.
  - by rewrite Hq, Hcap.
  - rewrite app_assoc, app_comm_cons, NoDup_snoc_iff. done.
  - intros k. rewrite Hvis, orb_true_iff, bool_decide_eq_true, tc_visited0. set_solver.
  - intros k. rewrite app_assoc, app_comm_cons, elem_of_snoc_iff. intros [?| ->]; [auto|].
    by eapply wf_edge_dom.
  - intros k. rewrite app_assoc, app_comm_cons, elem_of_snoc_iff. intros [?| ->]; [auto|].
    eapply rtc_r; [apply tc_reach0|exact Hdep]. set_solver.
  - intros a b Ha Hb. specialize (tc_closed0 a b Ha Hb). set_solver.
Qed.

Lemma push_neighbors_spec g0 start ds qs cur ns g :
  wf g0 -> expanding_inv g0 g start ds qs cur -> ns ⊆ deps g0 cur ->
  exists g' new, push_neighbors ns g = Ret g' /\
    expanding_inv g0 g' start ds (qs ++ new) cur /\ ns ⊆ (cur :: ds) ++ qs ++ new.
Proof.
  intros Hwf. revert g qs. induction ns as [|n ns IH]; intros g qs Hinv Hns.
  { exists g, []. rewrite app_nil_r. split_and!; [done|done|]. set_solver. }
  assert (Hdep : n ∈ deps g0 cur) by set_solver.
  assert (Hsome : is_Some (nodes g !! n)).
  { apply (same_graph_is_Some _ _ _ (tc_same _ _ _ _ _ _ Hinv)). by eapply wf_edge_dom. }
  destruct Hsome as [nd Hnd]. cbn [push_neighbors]. rewrite (at_Some _ _ _ Hnd). simpl.
  assert (Hv : visited nd = visited_at g n) by (unfold visited_at; by rewrite Hnd).
  destruct (visited nd) eqn:Hvis.
  - destruct (IH g qs Hinv) as (g' & new & Hrun & Hinv' & Hsub); [set_solver|].
    exists g', new. split_and!; [done|done|].
    assert (n ∈ cur :: ds ++ qs) by (by apply (tc_visited _ _ _ _ _ _ Hinv)). set_solver.
  - assert (Hfresh : n ∉ cur :: ds ++ qs).
    { rewrite <- (tc_visited _ _ _ _ _ _ Hinv). by rewrite <- Hv. }
    assert (Hroom : length qs < FixedSizeQueue.capacity (traversal_queue g)).
    { eapply expanding_room; eauto. by eapply wf_edge_dom. }
    destruct (FixedSizeQueue.push_ok _ _ n (tc_queue _ _ _ _ _ _ Hinv) Hroom) as (q & Hq & Hrep & Hcap).
    rewrite Hq, assert_dbg_true. simpl.
    destruct (mark_visited_spec n (set_queue q g)) as (g1 & -> & Hs1 & Hq1 & Hv1); [eauto|].
    simpl. destruct (IH g1 (qs ++ [n])) as (g' & new & Hrun & Hinv' & Hsub); [|set_solver|].
    + by eapply expanding_push.
    + exists g', ([n] ++ new). rewrite app_assoc. split_and!; [done|done|]. set_solver.
Qed.

Section TraverseProof.
Context {S : Type} (per_node : t -> Key -> S -> outcome (list Key * S)) (f : Key -> S -> S).
Context (g0 : t) (start : Key) (Hwf : wf g0).
(** The callback of the transitions: it goes to the dependencies of the node. *)
Hypothesis Hper : forall g k s, same_graph g g0 -> is_Some (nodes g0 !! k) ->
  per_node g k s = Ret (deps g0 k, f k s).

Lemma pop_expanding g ds k qs :
  traversal_inv g0 g start ds (k :: qs) ->
  exists q, FixedSizeQueue.tryPop (traversal_queue g) = (Some k, q) /\
    expanding_inv g0 (set_queue q g) start ds qs k.
Proof.
  intros []. destruct (FixedSizeQueue.tryPop_cons _ _ _ ti_queue0) as (q & Hq & Hrep & Hcap).
  exists q. split; [done|]. rewrite <- Permutation_middle in ti_nodup0.
  split; simpl; auto; [by rewrite Hcap| | | |]; intros; eauto.
  - rewrite Permutation_middle. apply ti_visited0.
  - apply ti_dom0. by rewrite <- Permutation_middle.
  - apply ti_reach0. by rewrite <- Permutation_middle.
  - rewrite Permutation_middle. eauto.
Qed.

Lemma expanded_inv g ds k qs :
  expanding_inv g0 g start ds qs k -> deps g0 k ⊆ (k :: ds) ++ qs ->
  traversal_inv g0 g start (ds ++ [k]) qs.
Proof.
  intros [] Hsub. assert (Hp : (ds ++ [k]) ++ qs ≡ₚ k :: ds ++ qs) by (rewrite <- Permutation_cons_append; done).
  split; auto.
  - by rewrite Hp.
  - intros j. by rewrite Hp.
  - intros j. rewrite Hp. auto.
  - intros j. rewrite Hp. auto.
  - intros a b Ha Hb. rewrite Hp. apply elem_of_snoc_iff in Ha as [Ha| ->]; [eauto|].
    by apply Hsub.
Qed.

Lemma traverse_loop_spec fuel g ds qs s :
  traversal_inv g0 g start ds qs -> size g0 <= length ds + fuel ->
  exists l g', traverse_loop per_node fuel g s = Ret (g', foldl (fun s k => f k s) s l) /\
    traversal_inv g0 g' start (ds ++ l) [] /\ qs ⊆ l.
Proof.
  revert g ds qs s. induction fuel as [|fuel IH]; intros g ds qs s Hinv Hfuel.
  all: cbn [traverse_loop]; rewrite (FixedSizeQueue.rep_empty _ _ (ti_queue _ _ _ _ _ Hinv)).
  all: destruct qs as [|k qs]; [exists [], g; by rewrite app_nil_r|].
  { pose proof (nodup_nodes_bound g0 _ (ti_nodup _ _ _ _ _ Hinv) (ti_dom _ _ _ _ _ Hinv)) as Hb.
    rewrite length_app in Hb. simpl in Hb. lia. }
  simpl. destruct (pop_expanding _ _ _ _ Hinv) as (q & -> & Hexp). simpl.
  rewrite Hper; [|apply Hexp|by apply (tc_dom _ _ _ _ _ _ Hexp); left]. simpl.
  destruct (push_neighbors_spec g0 start ds qs k (deps g0 k) _ Hwf Hexp) as (g' & new & -> & Hexp' & Hsub); [done|].
  simpl. destruct (IH g' (ds ++ [k]) (qs ++ new) (f k s)) as (l & g2 & -> & Hinv2 & Hl).
  - by apply expanded_inv.
  - rewrite length_app. simpl. lia.
  - exists (k :: l), g2. rewrite <- app_assoc in Hinv2. split_and!; [done|done|set_solver].
Qed.

Lemma traverse_start s :
  is_Some (nodes g0 !! start) ->
  exists g1, traverse per_node start g0 s = traverse_loop per_node (size g0) g1 s /\
    traversal_inv g0 g1 start [] [start].
Proof.
  intros Hstart. unfold traverse.
  destruct (FixedSizeQueue.push_ok _ _ start (wf_queue _ Hwf)) as (q & Hq & Hrep & Hcap).
  { rewrite (wf_queue_cap _ Hwf). simpl. lia. }
  simpl. rewrite Hq, assert_dbg_true. simpl.
  destruct (mark_visited_spec start (set_queue q (reset_visited g0))) as (g1 & -> & Hs & Hq1 & Hv).
  { simpl. rewrite lookup_fmap. by apply fmap_is_Some. }
  assert (Hsame : same_graph g1 g0) by (by rewrite Hs, set_queue_same, reset_visited_same).
  exists g1. simpl. rewrite (same_graph_size _ _ Hsame). split; [done|]. split; simpl.
  - done.
  - by rewrite Hq1.
  - rewrite Hq1. simpl. by rewrite Hcap, (wf_queue_cap _ Hwf).
  - apply NoDup_singleton.
  - intros k. rewrite Hv, orb_true_iff, bool_decide_eq_true, list_elem_of_singleton.
    unfold visited_at. simpl. rewrite lookup_fmap. split; [|by left]. intros [|Hk]; [done|].
    by destruct (nodes g0 !! k).
  - by intros k ->%list_elem_of_singleton.
  - intros k ->%list_elem_of_singleton. apply rtc_refl.
  - by intros a b ?%elem_of_nil.
Qed.

Lemma traversal_complete g l :
  traversal_inv g0 g start l [] -> start ∈ l -> forall k, k ∈ l <-> reach g0 start k.
Proof.
  intros Hinv Hs k. rewrite <- (app_nil_r l). split; [apply Hinv|].
  rewrite app_nil_r. revert k. apply (rtc_ind_r (fun k => k ∈ l)); [done|].
  intros a b _ Hab Ha. rewrite <- (app_nil_r l). by eapply (ti_closed _ _ _ _ _ Hinv).
Qed.

(** [traverse] stops by itself, no assertion fires, and the callback runs
    exactly once on every node of the subgraph of [start]. *)
Lemma traverse_spec s :
  is_Some (nodes g0 !! start) ->
  exists l g', traverse per_node start g0 s = Ret (g', foldl (fun s k => f k s) s l) /\
    NoDup l /\ (forall k, k ∈ l <-> reach g0 start k) /\ same_graph g' g0 /\ wf g'.
Proof.
  intros Hstart. destruct (traverse_start s Hstart) as (g1 & -> & Hinv1).
  destruct (traverse_loop_spec (size g0) g1 [] [start] s Hinv1) as (l & g' & -> & Hinv & Hl); [simpl; lia|].
  exists l, g'. simpl in Hinv. split_and!; [done|..].
  - pose proof (ti_nodup _ _ _ _ _ Hinv) as Hnd. by rewrite app_nil_r in Hnd.
  - apply (traversal_complete g' l Hinv), Hl. by left.
  - apply Hinv.
  - apply wf_same_graph with g0; auto.
    + symmetry. apply Hinv.
    + apply Hinv.
    + by rewrite (ti_queue_cap _ _ _ _ _ Hinv), (wf_queue_cap _ Hwf).
Qed.

End TraverseProof.

(** *** Building the graph *)

Lemma make_wf count : (Z.of_nat count < 2 ^ 64)%Z -> wf (make count).
Proof.
  intros Hw. split; unfold size, capacity, deps, rdeps; simpl.
  - rewrite map_size_empty. lia.
  - done.
  - apply FixedSizeQueue.make_rep.
  - done.
  - intros a b. rewrite lookup_empty. by intros ?%elem_of_nil.
  - intros a b. rewrite !lookup_empty. simpl. by rewrite !elem_of_nil.
Qed.

(** An executable check of a finished graph. *)
Definition wf_check (g : t) : bool :=
  (size g <=? capacity g) && (Z.of_nat (capacity g) <? 2 ^ 64)%Z &&
  forallb (fun an =>
    forallb (fun b => bool_decide (is_Some (nodes g !! b)) && bool_decide (an.1 ∈ rdeps g b)) (depends_on an.2) &&
    forallb (fun b => bool_decide (an.1 ∈ deps g b)) (dependents_of an.2)) (map_to_list (nodes g)).

Lemma wf_check_sound g :
  traversal_queue g = FixedSizeQueue.make (capacity g `max` 2 - 1) -> wf_check g = true -> wf g.
Proof.
  intros Hq [[Hs%Nat.leb_le Hw%Z.ltb_lt]%andb_true_iff Hall]%andb_true_iff.
  rewrite forallb_forall in Hall.
  assert (Hn : forall a n, nodes g !! a = Some n ->
    (forall b, b ∈ depends_on n -> is_Some (nodes g !! b) /\ a ∈ rdeps g b) /\
    (forall b, b ∈ dependents_of n -> a ∈ deps g b)).
  { intros a n Han. specialize (Hall (a, n)). apply elem_of_map_to_list, list_elem_of_In in Han.
    apply Hall, andb_true_iff in Han as [H1 H2]. rewrite forallb_forall in H1, H2. split; intros b Hb%list_elem_of_In.
    - apply H1, andb_true_iff in Hb as [?%bool_decide_eq_true ?%bool_decide_eq_true]. done.
    - by apply H2, bool_decide_eq_true in Hb. }
  split; try done.
  - rewrite Hq. apply FixedSizeQueue.make_rep.
  - by rewrite Hq.
  - intros a b Hb. destruct (deps_dom _ _ _ Hb) as [n Han]. unfold deps in Hb. rewrite Han in Hb.
    by apply (Hn a n Han).
  - intros a b. split; intros Hb.
    + destruct (deps_dom _ _ _ Hb) as [n Han]. unfold deps in Hb. rewrite Han in Hb. by apply (Hn a n Han).
    + destruct (rdeps_dom _ _ _ Hb) as [n Hbn]. unfold rdeps in Hb. rewrite Hbn in Hb. by apply (Hn b n Hbn).
Qed.

Lemma try_emplace_spec k v g :
  wf g -> size g < capacity g -> nodes g !! k = None ->
  exists g', try_emplace k v g = Ret (k, g') /\ wf g' /\
    nodes g' = <[k := mkNode v [] [] false]> (nodes g) /\ capacity g' = capacity g /\
    (forall a, deps g' a = deps g a) /\ (forall a, rdeps g' a = rdeps g a).
Proof.
  intros [] Hsz Hk. unfold try_emplace. rewrite Hk, assert_dbg_true. simpl.
  set (g' := set_nodes _ g). exists g'.
  assert (Hd : forall a, deps g' a = deps g a /\ rdeps g' a = rdeps g a).
  { intros a. unfold deps, rdeps. simpl. rewrite lookup_insert. case_decide; [subst|done].
    by rewrite Hk. }
  split_and!; [done| |done|done|apply Hd|apply Hd]. split; unfold size, capacity in *; simpl; auto.
  - rewrite map_size_insert_None by done. lia.
  - intros a b. rewrite (proj1 (Hd a)). intros Hb%wf_edge_dom0. rewrite lookup_insert.
    case_decide; eauto.
  - intros a b. by rewrite (proj1 (Hd a)), (proj2 (Hd b)).
Qed.

Lemma try_emplace_present k v g n :
  nodes g !! k = Some n ->
  try_emplace k v g = if dbg_checks then Abort AssertionFailed else Ret (k, g).
Proof. intros Hk. unfold try_emplace, assert_dbg. rewrite Hk. by destruct dbg_checks. Qed.

Lemma addDependency_run a b g :
  is_Some (nodes g !! a) -> is_Some (nodes g !! b) ->
  length (deps g a) < capacity g -> length (rdeps g b) < capacity g ->
  exists g', addDependency a b g = Ret g' /\ capacity g' = capacity g /\
    size g' = size g /\ traversal_queue g' = traversal_queue g /\
    (forall k, is_Some (nodes g' !! k) <-> is_Some (nodes g !! k)) /\
    (forall k, deps g' k = if decide (k = a) then deps g k ++ [b] else deps g k) /\
    (forall k, rdeps g' k = if decide (k = b) then rdeps g k ++ [a] else rdeps g k).
Proof.
  intros [na Ha] [nb Hb] Hla Hlb. unfold addDependency.
  unfold deps in Hla. unfold rdeps in Hlb. rewrite Ha in Hla. rewrite Hb in Hlb. simpl in Hla, Hlb.
  rewrite !(at_Some _ _ _ Ha), !(at_Some _ _ _ Hb). simpl.
  rewrite (proj2 (Nat.ltb_lt _ _) Hla), (proj2 (Nat.ltb_lt _ _) Hlb), !assert_dbg_true. simpl.
  assert (Hnb : exists nb', <[a := add_depends_on b na]> (nodes g) !! b = Some nb' /\
    depends_on nb' = deps g b ++ (if decide (b = a) then [b] else []) /\
    dependents_of nb' = rdeps g b).
  { unfold deps, rdeps. rewrite lookup_insert, Hb. destruct (decide (a = b)) as [->|].
    - rewrite decide_True by done. simplify_eq. eauto.
    - rewrite decide_False by done. rewrite app_nil_r. eauto. }
  destruct Hnb as (nb' & Hnb' & Hd & Hr).
  rewrite (at_Some _ _ _ Hnb').
  destruct dbg_checks; simpl; (eexists; split_and!; [done|done| |done|..]).
  1,5: unfold size; simpl; by rewrite !map_size_insert_Some by eauto.
  1,4: intros k; simpl; rewrite !lookup_insert; repeat case_decide; subst; split; eauto.
  1,3: intros k; unfold deps at 1; simpl; rewrite !lookup_insert;
    destruct (decide (b = k)) as [->|]; simpl;
    [rewrite Hd; case_decide; by rewrite ?app_nil_r
    |destruct (decide (a = k)) as [->|];
      [rewrite decide_True by done; unfold deps; by rewrite Ha | by rewrite decide_False by congruence]].
  all: intros k; unfold rdeps at 1; simpl; rewrite !lookup_insert;
    destruct (decide (b = k)) as [->|]; simpl;
    [rewrite Hr; by rewrite decide_True
    |rewrite (decide_False (P := k = b)) by congruence; destruct (decide (a = k)) as [->|]; [unfold rdeps; by rewrite Ha|done]].
Qed.

Lemma addDependency_wf a b g g' :
  wf g -> is_Some (nodes g !! a) -> is_Some (nodes g !! b) ->
  length (deps g a) < capacity g -> length (rdeps g b) < capacity g ->
  addDependency a b g = Ret g' -> wf g'.
Proof.
  intros [] Ha Hb Hla Hlb Hrun.
  destruct (addDependency_run a b g Ha Hb Hla Hlb) as (g1 & Hg1 & Hc & Hs & Hq & Hdom & Hd & Hr).
  assert (g1 = g') as -> by congruence. split; rewrite ?Hc, ?Hs, ?Hq; auto.
  - intros x y. rewrite Hd, Hdom. case_decide; [subst|apply wf_edge_dom0].
    rewrite elem_of_snoc_iff. intros [| ->]; eauto.
  - intros x y. rewrite Hd, Hr. repeat case_decide; subst; rewrite ?elem_of_snoc_iff, ?wf_mirror0;
      naive_solver.
Qed.

(** Assigning a component leaves the shape of the graph alone. *)
Lemma put_spec k v g :
  is_Some (nodes g !! k) ->
  exists g', put k v g = Ret g' /\ capacity g' = capacity g /\ size g' = size g /\
    traversal_queue g' = traversal_queue g /\
    (forall j, is_Some (nodes g' !! j) <-> is_Some (nodes g !! j)) /\
    (forall j, deps g' j = deps g j) /\ (forall j, rdeps g' j = rdeps g j) /\
    (forall j, value <$> nodes g' !! j = if decide (j = k) then Some v else value <$> nodes g !! j).
Proof.
  intros [n Hn]. unfold put. rewrite (at_Some _ _ _ Hn). simpl.
  eexists; split_and!; [done|done| |done|..].
  - unfold size. simpl. by rewrite map_size_insert_Some by eauto.
  - intros j. simpl. rewrite lookup_insert. case_decide; subst; split; eauto.
  - intros j. unfold deps. simpl. rewrite lookup_insert. case_decide; subst; [by rewrite Hn|done].
  - intros j. unfold rdeps. simpl. rewrite lookup_insert. case_decide; subst; [by rewrite Hn|done].
  - intros j. simpl. rewrite lookup_insert.
    destruct (decide (k = j)) as [->|]; [by rewrite decide_True | by rewrite decide_False by congruence].
Qed.

Lemma wf_same_shape g g' :
  wf g -> capacity g' = capacity g -> size g' = size g ->
  traversal_queue g' = traversal_queue g ->
  (forall j, is_Some (nodes g' !! j) <-> is_Some (nodes g !! j)) ->
  (forall j, deps g' j = deps g j) -> (forall j, rdeps g' j = rdeps g j) -> wf g'.
Proof.
  intros [] Hc Hs Hq Hdom Hd Hr. split; rewrite ?Hc, ?Hs, ?Hq; auto.
  - intros a b. rewrite Hd, Hdom. apply wf_edge_dom0.
  - intros a b. by rewrite Hd, Hr.
Qed.

Lemma put_wf k v g g' : wf g -> put k v g = Ret g' -> wf g'.
Proof.
  intros Hwf Hput. destruct (nodes g !! k) as [n|] eqn:Hn.
  - destruct (put_spec k v g) as (g1 & Hg1 & ? & ? & ? & ? & ? & ? & _); [eauto|].
    assert (g1 = g') as -> by congruence. by eapply wf_same_shape.
  - unfold put, at_ in Hput. by rewrite Hn in Hput.
Qed.

End Graph.
Arguments t Key {_ _} T.
Arguments GraphNode : clear implicits.
Arguments mk {Key _ _ T} _ _ _.
Arguments mkNode {Key T} _ _ _ _.

End DependencyGraph.
