(* ===== verification/Components.v ===== *)
(** * The component interface and the Run Target component

    [IComponent] (process_group_manager/details/icomponent.hpp) is what the
    graph knows of its nodes; [RunTarget]
    (process_group_manager/details/run_target.hpp) is the virtual node of a
    configured Run Target. *)

From stdpp Require Import prelude.
From S2P Require Import Prelude.

(** [IdentifierHash] holds the [std::size_t] hash of a name; it is compared and
    ordered by that number. *)
Definition IdentifierHash := Z.

Inductive RequestResult :=
| kSuccess
| kTimeout
| kFailure.

Inductive TerminationResult :=
| kIgnore
| kTerminationFailure.

#[export] Instance RequestResult_eq_dec : EqDecision RequestResult.
Proof. solve_decision. Defined.
#[export] Instance TerminationResult_eq_dec : EqDecision TerminationResult.
Proof. solve_decision. Defined.

(** The methods the graph calls on the main thread, and what it relies on:
    asking for the state or for the identifier changes nothing, and a component
    is inactive once [deactivate] has returned.  [activate] and [deactivate]
    of process components otherwise run on the worker threads. *)
Class IComponent (T : Type) := {
  active : T -> bool;
  getIdentifier : T -> IdentifierHash;
  deactivate : T -> RequestResult * T;
  deactivate_inactive c : active (deactivate c).2 = false;
  deactivate_identifier c : getIdentifier (deactivate c).2 = getIdentifier c
}.

Module RunTarget.

Record t := mk {
  identifier_ : IdentifierHash;
  active_ : bool
}.

Definition make (index : IdentifierHash) : t := mk index false.

Definition activate (c : t) : RequestResult * t := (kSuccess, mk (identifier_ c) true).
Definition deactivate (c : t) : RequestResult * t := (kSuccess, mk (identifier_ c) false).
Definition tryHandleTermination (c : t) (status : Z) : TerminationResult * t := (kIgnore, c).
Definition getIdentifier (c : t) : IdentifierHash := identifier_ c.
Definition active (c : t) : bool := active_ c.

End RunTarget.

#[export] Instance RunTarget_component : IComponent RunTarget.t := {
  active := RunTarget.active;
  getIdentifier := RunTarget.getIdentifier;
  deactivate := RunTarget.deactivate;
  deactivate_inactive c := eq_refl;
  deactivate_identifier c := eq_refl
}.
