(* ===== verification/Transitions.v ===== *)
(** * Transitions

    [Transition<Key, T>] and [TransitionBuilder<Key, T>]
    (process_group_manager/details/transition.hpp): which nodes to stop and to
    start, and in which order, to get from the current component states to a
    target Run Target.  The proofs are in [TransitionProofs]. *)

From stdpp Require Import prelude fin_maps gmap.
From S2P Require Import Prelude Queues Depgraph Components.

Module Transition.

Inductive Action :=
| Stop
| Start.

Inductive Phase :=
| Stopping
| Starting
| Done.

#[export] Instance Action_eq_dec : EqDecision Action.
Proof. solve_decision. Defined.
#[export] Instance Phase_eq_dec : EqDecision Phase.
Proof. solve_decision. Defined.

Record NodeInfo := mkInfo {
  in_target_subgraph_ : bool;
  enqueued_ : bool
}.

(** What [node_information[key]] constructs for an absent key. *)
Definition no_info : NodeInfo := mkInfo false false.

Definition set_in_target (n : NodeInfo) : NodeInfo := mkInfo true (enqueued_ n).
Definition set_enqueued (b : bool) (n : NodeInfo) : NodeInfo := mkInfo (in_target_subgraph_ n) b.

Section Transition.
Context {Key : Type} `{Countable Key} `{!IterOrder Key} {T : Type} `{IComponent T} `{BuildMode}.

Notation graph := (DependencyGraph.t Key T).

Record State := mkState {
  target_root : Key;
  next_nodes : FixedSizeQueue.t Key;
  pending : Z;
  phase : Phase;
  node_information : gmap Key NodeInfo
}.

Definition set_target_root (k : Key) (s : State) : State :=
  mkState k (next_nodes s) (pending s) (phase s) (node_information s).
Definition set_next_nodes (q : FixedSizeQueue.t Key) (s : State) : State :=
  mkState (target_root s) q (pending s) (phase s) (node_information s).
Definition set_pending (p : Z) (s : State) : State :=
  mkState (target_root s) (next_nodes s) (wrap 64 p) (phase s) (node_information s).
Definition set_phase (p : Phase) (s : State) : State :=
  mkState (target_root s) (next_nodes s) (pending s) p (node_information s).
Definition set_node_information (m : gmap Key NodeInfo) (s : State) : State :=
  mkState (target_root s) (next_nodes s) (pending s) (phase s) m.

(** [node_information[key]] followed by the assignment of a field. *)
Definition update_info (key : Key) (f : NodeInfo -> NodeInfo) (s : State) : State :=
  set_node_information
    (<[key := f (default no_info (node_information s !! key))]> (node_information s)) s.

(** [Transition(graph)], with [State(graph.capacity())] *)
Definition make `{Inhabited Key} (g : graph) : State :=
  mkState inhabitant (FixedSizeQueue.make (DependencyGraph.capacity g)) 0 Done ∅.

(** [std::all_of]: stops at the first element that fails. *)
Fixpoint all_of (p : Key -> outcome bool) (l : list Key) : outcome bool :=
  match l with
  | [] => Ret true
  | k :: l' => b ← p k; if (b : bool) then all_of p l' else Ret false
  end.

Definition node_active (g : graph) (i : Key) : outcome bool :=
  c ← DependencyGraph.get g i; Ret (active c).

Definition stopped (g : graph) (i : Key) : outcome bool :=
  c ← DependencyGraph.get g i; Ret (negb (active c)).

Definition allDepsActive (g : graph) (i : Key) : outcome bool :=
  d ← DependencyGraph.dependsOn g i; all_of (node_active g) d.

Definition allDependentsStopped (g : graph) (i : Key) : outcome bool :=
  d ← DependencyGraph.dependents g i; all_of (stopped g) d.

Definition currentAction (s : State) : Action :=
  match phase s with Starting => Start | _ => Stop end.

Definition nextReady (s : State) : outcome (option (Key * Action) * State) :=
  if FixedSizeQueue.empty (next_nodes s) then Ret (None, s)
  else
    let '(r, q) := FixedSizeQueue.tryPop (next_nodes s) in
    k ← value_of r;
    Ret (Some (k, currentAction s), set_next_nodes q s).

Definition isFinished (s : State) : bool := bool_decide (phase s = Done).

Definition isValidNode (g : graph) (node : Key) : bool := DependencyGraph.contains g node.

Definition isReady (g : graph) (s : State) (k : Key) : outcome bool :=
  match phase s with
  | Starting =>
      i ← at_ (node_information s) k;
      if in_target_subgraph_ i then
        a ← node_active g k;
        if (a : bool) then Ret false else allDepsActive g k
      else Ret false
  | _ =>
      i ← at_ (node_information s) k;
      if in_target_subgraph_ i then Ret false
      else
        b ← stopped g k;
        if (b : bool) then Ret false else allDependentsStopped g k
  end.

Fixpoint clear_loop (fuel : nat) (q : FixedSizeQueue.t Key) : outcome (FixedSizeQueue.t Key) :=
  if FixedSizeQueue.empty q then Ret q
  else
    match fuel with
    | 0 => Abort OutOfFuel
    | S fuel' => clear_loop fuel' (FixedSizeQueue.tryPop q).2
    end.

Definition clearNextNodes (s : State) : outcome State :=
  q ← clear_loop (FixedSizeQueue.size (next_nodes s)) (next_nodes s);
  Ret (set_next_nodes q s).

(** The result of [next_nodes.push] is not looked at. *)
Definition push_ready (k : Key) (s : State) : State :=
  set_next_nodes (FixedSizeQueue.push k (next_nodes s)).2 s.

(** The callback of [setupActivation]. *)
Definition activation_visit (g : graph) (i : Key) (s : State) : outcome (list Key * State) :=
  let s1 := update_info i set_in_target s in
  a ← node_active g i;
  s2 ← (if (a : bool) then Ret s1
        else
          let s2 := set_pending (pending s1 + 1) s1 in
          d ← allDepsActive g i;
          Ret (if (d : bool) then push_ready i s2 else s2));
  ns ← DependencyGraph.dependsOn g i;
  Ret (ns, s2).

Definition setupActivation (root : Key) (g : graph) (s : State) : outcome (graph * State) :=
  DependencyGraph.traverse activation_visit root g s.

(** The callback of [setupDeactivation]. *)
Definition deactivation_visit (g : graph) (i : Key) (s : State) : outcome (list Key * State) :=
  ns ← DependencyGraph.dependsOn g i;
  Ret (ns, update_info i set_in_target s).

(** The scan over [node_information] of [setupDeactivation]. *)
Fixpoint stop_scan (g : graph) (l : list (Key * NodeInfo)) (s : State) : outcome State :=
  match l with
  | [] => Ret s
  | (key, info) :: l' =>
      b ← (if in_target_subgraph_ info then Ret true else stopped g key);
      s' ← (if (b : bool) then Ret s
            else
              let s1 := set_pending (pending s + 1) s in
              d ← allDependentsStopped g key;
              Ret (if (d : bool) then push_ready key s1 else s1));
      stop_scan g l' s'
  end.

Definition setupDeactivation (target : Key) (g : graph) (s : State) : outcome (graph * State) :=
  '(g1, s1) ← DependencyGraph.traverse deactivation_visit target g s;
  s2 ← stop_scan g1 (iter_order (node_information s1)) s1;
  Ret (g1, s2).

Definition advanceToStarting (g : graph) (s : State) : outcome (graph * State) :=
  let s1 := set_pending 0 (set_phase Starting s) in
  s2 ← clearNextNodes s1;
  let s3 := set_node_information (set_enqueued false <$> node_information s2) s2 in
  '(g1, s4) ← setupActivation (target_root s3) g s3;
  Ret (g1, if bool_decide (pending s4 = 0%Z) then set_phase Done s4 else s4).

Definition setupTransition (target : Key) (g : graph) (s : State) : outcome (graph * State) :=
  let s1 := set_node_information
    (foldl (fun m kn => <[kn.1 := no_info]> m) (node_information s)
           (iter_order (DependencyGraph.nodes g))) s in
  s2 ← clearNextNodes (set_target_root target s1);
  let s3 := set_phase Stopping (set_pending 0 s2) in
  '(g1, s4) ← setupDeactivation target g s3;
  if bool_decide (pending s4 = 0%Z) then advanceToStarting g1 s4 else Ret (g1, s4).

(** The loop over the neighbours of a finished node. *)
Fixpoint enqueue_successors (g : graph) (l : list Key) (s : State) : outcome State :=
  match l with
  | [] => Ret s
  | k :: l' =>
      r ← isReady g s k;
      e ← (if (r : bool) then i ← at_ (node_information s) k; Ret (negb (enqueued_ i)) else Ret false);
      s' ← (if (e : bool) then
              let s1 := update_info k (set_enqueued true) s in
              let '(pushSuccessful, q) := FixedSizeQueue.push k (next_nodes s1) in
              _ ← assert pushSuccessful;
              Ret (set_next_nodes q s1)
            else Ret s);
      enqueue_successors g l' s'
  end.

Definition onNodeFinished (node : Key) (g : graph) (s : State) : outcome (graph * State) :=
  _ ← assert (isValidNode g node);
  let s1 := set_pending (pending s - 1) s in
  if bool_decide (pending s1 = 0%Z) then
    match phase s1 with
    | Stopping => advanceToStarting g s1
    | _ => Ret (g, set_phase Done s1)
    end
  else
    successors ← match phase s1 with
                 | Starting => DependencyGraph.dependents g node
                 | _ => DependencyGraph.dependsOn g node
                 end;
    s2 ← enqueue_successors g successors s1;
    Ret (g, s2).

(** [TransitionBuilder::createTransition]: the builder owns the one transition
    object, whose state is reused. *)
Definition createTransition (target : Key) (g : graph) (s : State) : outcome (graph * State) :=
  _ ← assert (isValidNode g target);
  setupTransition target g s.

End Transition.
Arguments State Key {_ _}.
Arguments mkState {Key _ _} _ _ _ _ _.

End Transition.
