(* ===== verification/TransitionProofs.v ===== *)
(** * Correctness of the transitions

    The invariant of a running transition ([phase_inv]), that every operation
    of [Transition] keeps it without failing an assertion, and the system of a
    transition together with the worker threads that carry out its actions
    ([tstep]): order of the actions, completion, termination and the absence of
    deadlocks. *)

From stdpp Require Import prelude fin_maps gmap.
From S2P Require Import Prelude Queues Depgraph Components Transitions.
Import DependencyGraph Transition.

Module TransitionProofs.

Section Proofs.
Context {Key : Type} `{Countable Key} `{!IterOrder Key} {T : Type} `{IComponent T} `{BuildMode}.

Notation graph := (DependencyGraph.t Key T).
Notation state := (Transition.State Key).

Implicit Types (g : graph) (s : state) (k j : Key).

(** ** Reading the graph and the node information without failures *)

Definition act g k : bool := default false (active <$> (value <$> nodes g !! k)).
Definition tgt s k : bool := default false (in_target_subgraph_ <$> node_information s !! k).
Definition enq s k : bool := default false (enqueued_ <$> node_information s !! k).

Lemma node_active_spec g k : is_Some (nodes g !! k) -> node_active g k = Ret (act g k).
Proof. intros [n Hn]. unfold node_active, get, act, at_. by rewrite Hn. Qed.

Lemma stopped_spec g k : is_Some (nodes g !! k) -> stopped g k = Ret (negb (act g k)).
Proof. intros [n Hn]. unfold stopped, get, act, at_. by rewrite Hn. Qed.

Lemma all_of_spec (p : Key -> outcome bool) (f : Key -> bool) l :
  (forall k, k ∈ l -> p k = Ret (f k)) -> all_of p l = Ret (forallb f l).
Proof.
  induction l as [|k l IH]; intros Hp; [done|]. simpl. rewrite Hp by by left. simpl.
  destruct (f k); [|done]. apply IH. intros j Hj. apply Hp. by right.
Qed.

Lemma act_dom g k : act g k = true -> is_Some (nodes g !! k).
Proof. unfold act. by destruct (nodes g !! k). Qed.

#[export] Instance act_proper : Proper (same_graph ==> (=) ==> (=)) act.
Proof.
  intros g1 g2 Hg k ? <-. unfold act. pose proof (same_graph_lookup _ _ k Hg) as Hk.
  destruct (nodes g1 !! k), (nodes g2 !! k); simplify_eq/=; auto. by f_equal.
Qed.

(** The traversal callbacks see the graph with its scratch data in use. *)
Lemma allDepsActive_same g0 g k :
  wf g0 -> same_graph g g0 -> is_Some (nodes g0 !! k) ->
  allDepsActive g k = Ret (forallb (act g0) (deps g0 k)).
Proof.
  intros Hwf Hg Hk. unfold allDepsActive.
  rewrite dependsOn_spec by (by apply (same_graph_is_Some _ _ _ Hg)). simpl.
  rewrite (deps_proper _ _ Hg k k eq_refl).
  apply all_of_spec. intros j Hj. rewrite node_active_spec; [by rewrite Hg|].
  apply (same_graph_is_Some _ _ _ Hg). by eapply wf_edge_dom.
Qed.

Lemma allDepsActive_spec g k :
  wf g -> is_Some (nodes g !! k) -> allDepsActive g k = Ret (forallb (act g) (deps g k)).
Proof. intros. by apply allDepsActive_same. Qed.

Lemma allDependentsStopped_spec g k :
  wf g -> is_Some (nodes g !! k) ->
  allDependentsStopped g k = Ret (forallb (fun j => negb (act g j)) (rdeps g k)).
Proof.
  intros Hwf Hk. unfold allDependentsStopped. rewrite dependents_spec by done. simpl.
  apply all_of_spec. intros j Hj. apply stopped_spec. by eapply deps_dom, (wf_mirror g Hwf).
Qed.

(** ** The two phases under one roof

    In either phase the nodes [pre] must be [settled] before a node can be
    worked on, and [post] are the nodes a finished one may release. *)

Definition pre (p : Phase) g k : list Key :=
  match p with Starting => deps g k | _ => rdeps g k end.
Definition post (p : Phase) g k : list Key :=
  match p with Starting => rdeps g k | _ => deps g k end.
Definition settled (p : Phase) g k : bool :=
  match p with Starting => act g k | _ => negb (act g k) end.
Definition todo (p : Phase) (in_tgt : Key -> bool) g k : bool :=
  match p with Starting => in_tgt k && negb (act g k) | _ => negb (in_tgt k) && act g k end.

(** The flags describe the subgraph of the target. *)
Definition tgt_ok g s : Prop := forall k, tgt s k = true <-> reach g (target_root s) k.
Definition info_ok g s : Prop :=
  forall k, is_Some (node_information s !! k) <-> is_Some (nodes g !! k).

Lemma pre_post p g j k : wf g -> j ∈ pre p g k <-> k ∈ post p g j.
Proof. intros Hwf. destruct p; simpl; rewrite (wf_mirror g Hwf); done. Qed.

Lemma pre_dom p g j k : wf g -> j ∈ pre p g k -> is_Some (nodes g !! j).
Proof.
  intros Hwf. destruct p; simpl; rewrite <- ?(wf_mirror g Hwf);
    [apply deps_dom|apply (wf_edge_dom g Hwf)|apply deps_dom].
Qed.

Lemma post_dom p g j k : wf g -> j ∈ post p g k -> is_Some (nodes g !! j).
Proof.
  intros Hwf. destruct p; simpl; rewrite <- ?(wf_mirror g Hwf);
    [apply (wf_edge_dom g Hwf)|apply deps_dom|apply (wf_edge_dom g Hwf)].
Qed.

Lemma todo_ext p f f' g k : f k = f' k -> todo p f g k = todo p f' g k.
Proof. intros E. destruct p; simpl; by rewrite E. Qed.

Lemma todo_settled p f g k : todo p f g k = true -> settled p g k = false.
Proof. destruct p; simpl; rewrite andb_true_iff; intros [_ E]; destruct (act g k); done. Qed.

Lemma todo_dom p g s k :
  wf g -> is_Some (nodes g !! target_root s) -> tgt_ok g s -> todo p (tgt s) g k = true ->
  is_Some (nodes g !! k).
Proof.
  intros Hwf Hroot Htgt. destruct p; simpl; rewrite andb_true_iff; intros [E1 E2];
    try by apply act_dom.
  apply Htgt in E1. by eapply reach_dom.
Qed.

(** What an unsettled predecessor needs is still to be done in this phase: the
    target subgraph is closed under dependencies. *)
Lemma todo_pre p g s j k :
  wf g -> tgt_ok g s -> todo p (tgt s) g k = true -> j ∈ pre p g k ->
  settled p g j = false -> todo p (tgt s) g j = true.
Proof.
  intros Hwf Htgt Hk Hj Hs. destruct p; simpl in *; rewrite ?negb_false_iff in *.
  all: apply andb_true_iff in Hk as [Hk Hact]; apply andb_true_iff; split; rewrite ?Hs; auto.
  all: try (apply negb_true_iff; apply negb_true_iff in Hk; destruct (tgt s j) eqn:Etj; [|done];
    rewrite <- Hk; symmetry; apply Htgt; eapply rtc_r; [by apply Htgt|]; by apply (wf_mirror g Hwf)).
  apply Htgt. eapply rtc_r; [by apply Htgt|done].
Qed.

Lemma isReady_spec g s k :
  wf g -> info_ok g s -> is_Some (nodes g !! k) ->
  isReady g s k =
    Ret (todo (phase s) (tgt s) g k && forallb (settled (phase s) g) (pre (phase s) g k)).
Proof.
  intros Hwf Hinfo Hk. pose proof (proj2 (Hinfo k) Hk) as [i Hi].
  assert (Et : tgt s k = in_target_subgraph_ i) by (unfold tgt; by rewrite Hi).
  unfold isReady. rewrite (at_Some _ _ _ Hi).
  destruct (phase s); simpl; rewrite Et; destruct (in_target_subgraph_ i); simpl; try done.
  - rewrite stopped_spec by done. simpl. destruct (act g k); simpl; [|done].
    by rewrite allDependentsStopped_spec.
  - rewrite node_active_spec by done. simpl. destruct (act g k); simpl; [done|].
    by rewrite allDepsActive_spec.
  - rewrite stopped_spec by done. simpl. destruct (act g k); simpl; [|done].
    by rewrite allDependentsStopped_spec.
Qed.

(** ** The invariant of a running phase

    [Q] are the nodes waiting in [next_nodes], [run] the nodes handed out and
    not yet carried out, [dn] those carried out and not yet reported with
    [onNodeFinished], [B] those that wait for a predecessor. *)

Record phase_inv g s (Q run dn B : list Key) : Prop := {
  pi_wf : wf g;
  pi_root : is_Some (nodes g !! target_root s);
  pi_info : info_ok g s;
  pi_tgt : tgt_ok g s;
  pi_phase : phase s <> Done;
  pi_queue : FixedSizeQueue.rep (next_nodes s) Q;
  pi_cap : FixedSizeQueue.capacity (next_nodes s) = DependencyGraph.capacity g;
  pi_nodup : NoDup (Q ++ run ++ dn ++ B);
  pi_pending : pending s = Z.of_nat (length (Q ++ run ++ dn ++ B));
  pi_some : Q ++ run ++ dn ++ B <> [];
  pi_todo k : todo (phase s) (tgt s) g k = true <-> k ∈ Q ++ run ++ B;
  pi_done k : k ∈ dn -> settled (phase s) g k = true /\ is_Some (nodes g !! k);
  pi_ready k : k ∈ Q ++ run -> forall j, j ∈ pre (phase s) g k -> settled (phase s) g j = true;
  pi_blocked k : k ∈ B -> enq s k = false /\
    exists j, j ∈ pre (phase s) g k /\ j ∈ Q ++ run ++ dn ++ B;
  pi_enq k : k ∈ Q ++ run -> enq s k = true \/
    forall j, j ∈ pre (phase s) g k -> j ∉ Q ++ run ++ dn ++ B;
  pi_starting : phase s = Starting -> forall k, act g k = true -> tgt s k = true
}.

(** A finished transition: exactly the target subgraph is active. *)
Record done_inv g s : Prop := {
  di_wf : wf g;
  di_root : is_Some (nodes g !! target_root s);
  di_info : info_ok g s;
  di_tgt : tgt_ok g s;
  di_phase : phase s = Done;
  di_pending : pending s = 0%Z;
  di_queue : FixedSizeQueue.rep (next_nodes s) [];
  di_cap : FixedSizeQueue.capacity (next_nodes s) = DependencyGraph.capacity g;
  di_active k : act g k = tgt s k
}.

(** Graphs that look alike to a transition: same shape, same components active. *)
Record alike g' g : Prop := {
  al_cap : DependencyGraph.capacity g' = DependencyGraph.capacity g;
  al_dom k : is_Some (nodes g' !! k) <-> is_Some (nodes g !! k);
  al_deps k : deps g' k = deps g k;
  al_rdeps k : rdeps g' k = rdeps g k;
  al_act k : act g' k = act g k
}.

Lemma same_graph_alike g' g : same_graph g' g -> alike g' g.
Proof.
  intros Hg. split; [apply Hg|intros k; by apply same_graph_is_Some|..].
  - intros k. by apply deps_proper.
  - intros k. by apply rdeps_proper.
  - intros k. by apply act_proper.
Qed.

Lemma phase_preds_alike g' g p f k : alike g' g ->
  todo p f g' k = todo p f g k /\ settled p g' k = settled p g k /\ pre p g' k = pre p g k.
Proof. intros []. destruct p; simpl; by rewrite al_act0, ?al_deps0, ?al_rdeps0. Qed.

Lemma flags_alike g' g s : alike g' g ->
  (info_ok g s -> info_ok g' s) /\ (tgt_ok g s -> tgt_ok g' s) /\
  (is_Some (nodes g !! target_root s) -> is_Some (nodes g' !! target_root s)).
Proof.
  intros []. split_and!.
  - intros Hi k. by rewrite (Hi k), al_dom0.
  - intros Ht k. rewrite (Ht k). unfold reach. split; apply rtc_subrel; intros x y;
      unfold dep; by rewrite al_deps0.
  - by rewrite al_dom0.
Qed.

Lemma phase_inv_alike g' g s Q run dn B :
  alike g' g -> wf g' -> phase_inv g s Q run dn B -> phase_inv g' s Q run dn B.
Proof.
  intros Hg Hwf []. destruct (flags_alike g' g s Hg) as (Hf1 & Hf2 & Hf3).
  assert (Hpp := fun k => phase_preds_alike g' g (phase s) (tgt s) k Hg).
  split; auto.
  - rewrite pi_cap0. symmetry. apply Hg.
  - intros k. destruct (Hpp k) as (-> & _ & _). exact (pi_todo0 k).
  - intros k. destruct (Hpp k) as (_ & -> & _). rewrite (al_dom _ _ Hg). auto.
  - intros k Hk j. destruct (Hpp k) as (_ & _ & ->). destruct (Hpp j) as (_ & -> & _).
    exact (pi_ready0 k Hk j).
  - intros k. destruct (Hpp k) as (_ & _ & ->). auto.
  - intros k. destruct (Hpp k) as (_ & _ & ->). auto.
  - intros Hst j. rewrite (al_act _ _ Hg). auto.
Qed.

Lemma done_inv_alike g' g s : alike g' g -> wf g' -> done_inv g s -> done_inv g' s.
Proof.
  intros Hg Hwf []. destruct (flags_alike g' g s Hg) as (Hf1 & Hf2 & Hf3). split; auto.
  - rewrite di_cap0. symmetry. apply Hg.
  - intros k. by rewrite (al_act _ _ Hg).
Qed.

Lemma pi_dom g s Q run dn B k :
  phase_inv g s Q run dn B -> k ∈ Q ++ run ++ dn ++ B -> is_Some (nodes g !! k).
Proof.
  intros Hi Hk. destruct (decide (k ∈ dn)) as [Hd|Hd]; [by apply (pi_done _ _ _ _ _ _ Hi)|].
  apply (todo_dom (phase s) g s k); try apply Hi. set_solver.
Qed.

Lemma pi_bound g s Q run dn B :
  phase_inv g s Q run dn B -> length (Q ++ run ++ dn ++ B) <= DependencyGraph.size g.
Proof. intros Hi. apply nodup_nodes_bound; [apply Hi|]. intros k. by eapply pi_dom. Qed.

(** ** Setting up a phase

    Both setups go once through a list of nodes, count those that [need] an
    action and put those that are [rdy] into the queue. *)

Definition visit (upd : bool) (need rdy : Key -> bool) (k : Key) s : state :=
  let s1 := if upd then update_info k set_in_target s else s in
  if need k then
    let s2 := set_pending (pending s1 + 1) s1 in if rdy k then push_ready k s2 else s2
  else s1.

Definition heads (need rdy : Key -> bool) (l : list Key) : list Key :=
  filter (fun k => need k && rdy k = true) l.
Definition waiting (need rdy : Key -> bool) (l : list Key) : list Key :=
  filter (fun k => need k && negb (rdy k) = true) l.

Lemma heads_waiting_perm need rdy l :
  heads need rdy l ++ waiting need rdy l ≡ₚ filter (fun k => need k = true) l.
Proof.
  induction l as [|k l IH]; [done|]. unfold heads, waiting in *. rewrite !filter_cons.
  destruct (need k), (rdy k); simpl; [by rewrite IH| |done|done].
  by rewrite <- Permutation_middle, IH.
Qed.

Lemma heads_nil need rdy l :
  length (filter (fun k => need k = true) l) = 0 -> heads need rdy l = [].
Proof.
  rewrite <- (heads_waiting_perm need rdy l), length_app. intros Hz.
  apply length_zero_iff_nil. lia.
Qed.

(** What one visit does to everything but the queue. *)
Lemma visit_frame upd need rdy k s :
  let s' := visit upd need rdy k s in
  target_root s' = target_root s /\ phase s' = phase s /\
  (forall j, enq s' j = enq s j) /\
  (forall j, tgt s' j = tgt s j || upd && bool_decide (j = k)) /\
  (forall j, is_Some (node_information s' !! j) <->
     is_Some (node_information s !! j) \/ (upd = true /\ j = k)).
Proof.
  set (s1 := if upd then update_info k set_in_target s else s).
  assert (Hs : let s' := visit upd need rdy k s in target_root s' = target_root s /\
    phase s' = phase s /\ node_information s' = node_information s1).
  { unfold visit. fold s1. destruct (need k), (rdy k), upd; done. }
  destruct Hs as (Hr & Hp & Hn). split_and!; [done|done|..].
  all: intros j; unfold enq, tgt; rewrite Hn; destruct upd; simpl; rewrite ?orb_false_r; try done.
  all: try (split; [by left|by intros [?|[? _]]]).
  all: rewrite lookup_insert; destruct (decide (k = j)) as [->|]; simpl.
  - by destruct (node_information s !! j).
  - done.
  - by rewrite bool_decide_eq_true_2, orb_true_r.
  - by rewrite bool_decide_eq_false_2, orb_false_r by congruence.
  - split; [by right|eauto].
  - split; [by left|by intros [?|[_ ?]]].
Qed.

Lemma visit_queue upd need rdy k s Q :
  FixedSizeQueue.rep (next_nodes s) Q ->
  length Q < FixedSizeQueue.capacity (next_nodes s) ->
  (0 <= pending s)%Z -> (pending s + 1 < 2 ^ 64)%Z ->
  let s' := visit upd need rdy k s in
  FixedSizeQueue.rep (next_nodes s') (Q ++ heads need rdy [k]) /\
  FixedSizeQueue.capacity (next_nodes s') = FixedSizeQueue.capacity (next_nodes s) /\
  pending s' = (pending s + if need k then 1 else 0)%Z.
Proof.
  intros Hq Hroom Hp Hw. unfold visit, heads. rewrite filter_cons, filter_nil.
  set (s1 := if upd then update_info k set_in_target s else s).
  assert (En : next_nodes s1 = next_nodes s /\ pending s1 = pending s) by (by destruct upd).
  destruct En as [En Ep]. destruct (need k); simpl; [destruct (rdy k); simpl|].
  - destruct (FixedSizeQueue.push_ok (next_nodes s) Q k Hq) as (q & Hpush & Hrep & Hcap); [lia|].
    unfold push_ready. simpl. by rewrite En, Hpush, Ep, wrap_small by lia.
  - by rewrite app_nil_r, En, Ep, wrap_small by lia.
  - rewrite app_nil_r, En, Ep. split_and!; [done|done|lia].
Qed.

Lemma fold_visit upd need rdy l s Q :
  FixedSizeQueue.rep (next_nodes s) Q ->
  length Q + length l <= FixedSizeQueue.capacity (next_nodes s) ->
  (0 <= pending s)%Z -> (pending s + Z.of_nat (length l) < 2 ^ 64)%Z ->
  let s' := foldl (fun s k => visit upd need rdy k s) s l in
  target_root s' = target_root s /\ phase s' = phase s /\
  FixedSizeQueue.rep (next_nodes s') (Q ++ heads need rdy l) /\
  FixedSizeQueue.capacity (next_nodes s') = FixedSizeQueue.capacity (next_nodes s) /\
  pending s' = (pending s + Z.of_nat (length (filter (fun k => need k = true) l)))%Z /\
  (forall k, enq s' k = enq s k) /\
  (forall k, tgt s' k = tgt s k || upd && bool_decide (k ∈ l)) /\
  (forall k, is_Some (node_information s' !! k) <->
     is_Some (node_information s !! k) \/ (upd = true /\ k ∈ l)).
Proof.
  revert s Q. induction l as [|k l IH]; intros s Q Hq Hroom Hp Hw; simpl in *.
  { unfold heads. rewrite filter_nil, app_nil_r. split_and!; try done.
    - lia.
    - intros k. by rewrite andb_false_r, orb_false_r.
    - intros k. rewrite elem_of_nil. naive_solver. }
  destruct (visit_frame upd need rdy k s) as (Hr & Hph & He & Ht & Hs).
  destruct (visit_queue upd need rdy k s Q Hq) as (Hrep & Hcap & Hpend); [lia..|].
  assert (Hlen : length (heads need rdy [k]) <= 1) by (apply length_filter).
  destruct (IH (visit upd need rdy k s) (Q ++ heads need rdy [k]))
    as (I1 & I2 & I3 & I4 & I5 & I6 & I7 & I8);
    [done|rewrite length_app; lia|destruct (need k); lia|destruct (need k); lia|].
  split_and!; [congruence|congruence| |congruence|..].
  - unfold heads in *. by rewrite <- app_assoc, <- filter_app in I3.
  - rewrite I5, Hpend, filter_cons. destruct (need k); simpl; lia.
  - intros j. by rewrite I6.
  - intros j. rewrite I7, Ht, <- orb_assoc, <- andb_orb_distrib_r.
    by rewrite bool_decide_elem_cons.
  - intros j. rewrite I8, Hs, elem_of_cons. clear. tauto.
Qed.

Lemma elem_of_heads need rdy l k :
  k ∈ heads need rdy l <-> k ∈ l /\ need k = true /\ rdy k = true.
Proof. unfold heads. rewrite list_elem_of_filter, andb_true_iff. naive_solver. Qed.

Lemma elem_of_waiting need rdy l k :
  k ∈ waiting need rdy l <-> k ∈ l /\ need k = true /\ rdy k = false.
Proof. unfold waiting. rewrite list_elem_of_filter, andb_true_iff, negb_true_iff. naive_solver. Qed.

(** Everything has been counted once: the phase starts, or there is nothing to do. *)
Section PhaseStart.
Context (g : graph) (s : state) (l : list Key) (need rdy : Key -> bool).
Hypotheses (Hwf : wf g) (Hroot : is_Some (nodes g !! target_root s)) (Hinfo : info_ok g s)
  (Htgt : tgt_ok g s) (Hphase : phase s <> Done) (Hnd : NoDup l)
  (Hneed : forall k, todo (phase s) (tgt s) g k = true <-> k ∈ l /\ need k = true)
  (Hrdy : forall k, k ∈ l -> rdy k = forallb (settled (phase s) g) (pre (phase s) g k))
  (Hqueue : FixedSizeQueue.rep (next_nodes s) (heads need rdy l))
  (Hcap : FixedSizeQueue.capacity (next_nodes s) = DependencyGraph.capacity g)
  (Hpend : pending s = Z.of_nat (length (filter (fun k => need k = true) l)))
  (Henq : forall k, enq s k = false)
  (Hact : phase s = Starting -> forall k, act g k = true -> tgt s k = true).

Lemma phase_start_empty : pending s = 0%Z -> forall k, todo (phase s) (tgt s) g k = false.
Proof using Hneed Hpend.
  intros Hz k. destruct (todo _ _ _ k) eqn:E; [|done]. exfalso.
  apply Hneed in E as [Hk Hn]. rewrite Hz in Hpend.
  destruct (filter (fun k => need k = true) l) eqn:Ef; [|simpl in Hpend; done].
  assert (Hin : k ∈ filter (fun k => need k = true) l) by (by apply list_elem_of_filter).
  rewrite Ef in Hin. by apply elem_of_nil in Hin.
Qed.

Lemma start_cases k :
  todo (phase s) (tgt s) g k = true <-> k ∈ heads need rdy l ++ waiting need rdy l.
Proof.
  rewrite Hneed, elem_of_app, elem_of_heads, elem_of_waiting. destruct (rdy k); naive_solver.
Qed.

Lemma start_blocked k :
  k ∈ waiting need rdy l ->
  exists j, j ∈ pre (phase s) g k /\ j ∈ heads need rdy l ++ waiting need rdy l.
Proof.
  intros Hk. assert (Ht : todo (phase s) (tgt s) g k = true) by (apply start_cases; set_solver).
  apply elem_of_waiting in Hk as (Hl & _ & Hr). rewrite Hrdy in Hr by done.
  apply not_true_iff_false in Hr. rewrite forallb_forall in Hr.
  destruct (decide (Forall (fun j => settled (phase s) g j = true) (pre (phase s) g k))) as [Hf|Hf].
  { exfalso. apply Hr. intros j Hj. rewrite Forall_forall in Hf. by apply Hf, list_elem_of_In. }
  apply not_Forall_Exists, Exists_exists in Hf as (j & Hj & Hs); [|apply _].
  exists j. split; [done|]. apply start_cases. eapply todo_pre; [done..|].
  by apply not_true_iff_false.
Qed.

Lemma phase_start : pending s <> 0%Z ->
  phase_inv g s (heads need rdy l) [] [] (waiting need rdy l).
Proof.
  intros Hz. pose proof (heads_waiting_perm need rdy l) as Hperm. split; simpl; try done.
  - rewrite Hperm. by apply NoDup_filter.
  - by rewrite Hpend, Hperm.
  - intros E. rewrite <- Hperm, E in Hpend. simpl in Hpend. lia.
  - intros k. apply start_cases.
  - by intros k ?%elem_of_nil.
  - intros k. rewrite app_nil_r, elem_of_heads. intros (Hl & _ & Hr) j Hj.
    rewrite Hrdy, forallb_forall in Hr by done. by apply Hr, list_elem_of_In.
  - intros k Hk. split; [apply Henq|by apply start_blocked].
  - intros k. rewrite app_nil_r, elem_of_heads. intros (Hl & _ & Hr). right. intros j Hj Hin.
    rewrite Hrdy, forallb_forall in Hr by done. apply start_cases, todo_settled in Hin.
    rewrite Hr in Hin; [done|]. by apply list_elem_of_In.
Qed.

End PhaseStart.

(** Where a setup ends: a running phase with nothing handed out yet, or the end. *)
Definition set_up g s : Prop := done_inv g s \/ exists Q B, phase_inv g s Q [] [] B.

Lemma clear_loop_spec fuel (q : FixedSizeQueue.t Key) l :
  FixedSizeQueue.rep q l -> length l <= fuel ->
  exists q', clear_loop fuel q = Ret q' /\ FixedSizeQueue.rep q' [] /\
    FixedSizeQueue.capacity q' = FixedSizeQueue.capacity q.
Proof.
  revert q l. induction fuel as [|fuel IH]; intros q l Hq Hl; cbn [clear_loop];
    rewrite (FixedSizeQueue.rep_empty _ _ Hq).
  all: destruct l as [|k l]; [by eauto|simpl in *].
  - lia.
  - destruct (FixedSizeQueue.tryPop_cons _ _ _ Hq) as (q1 & -> & Hq1 & Hc1). simpl.
    destruct (IH q1 l) as (q' & -> & Hq' & Hc'); [done|lia|]. rewrite <- Hc1. eauto.
Qed.

Lemma clearNextNodes_spec s l :
  FixedSizeQueue.rep (next_nodes s) l ->
  exists q', clearNextNodes s = Ret (set_next_nodes q' s) /\ FixedSizeQueue.rep q' [] /\
    FixedSizeQueue.capacity q' = FixedSizeQueue.capacity (next_nodes s).
Proof.
  intros Hq. unfold clearNextNodes, FixedSizeQueue.size. rewrite (FixedSizeQueue.rep_count _ _ Hq).
  destruct (clear_loop_spec (length l) _ _ Hq) as (q' & -> & ?); [done|]. simpl. eauto.
Qed.

Lemma activation_visit_spec g0 g k s :
  wf g0 -> same_graph g g0 -> is_Some (nodes g0 !! k) ->
  activation_visit g k s =
    Ret (deps g0 k, visit true (fun j => negb (act g0 j))
                          (fun j => forallb (act g0) (deps g0 j)) k s).
Proof.
  intros Hwf Hg Hk. pose proof (proj2 (same_graph_is_Some _ _ _ Hg) Hk) as Hk'.
  unfold activation_visit, visit.
  rewrite node_active_spec, (allDepsActive_same g0), dependsOn_spec by done. simpl.
  rewrite (act_proper _ _ Hg k k eq_refl), (deps_proper _ _ Hg k k eq_refl).
  destruct (act g0 k); simpl; [done|]. by destruct (forallb _ _).
Qed.

Lemma deactivation_visit_spec g0 g k s :
  same_graph g g0 -> is_Some (nodes g0 !! k) ->
  deactivation_visit g k s =
    Ret (deps g0 k, visit true (fun _ => false) (fun _ => false) k s).
Proof.
  intros Hg Hk. unfold deactivation_visit.
  rewrite dependsOn_spec by (by apply (same_graph_is_Some _ _ _ Hg)). simpl. by rewrite Hg.
Qed.

(** What the two setups start from. *)
Record cleared g s : Prop := {
  cl_wf : wf g;
  cl_root : is_Some (nodes g !! target_root s);
  cl_info : info_ok g s;
  cl_pending : pending s = 0%Z;
  cl_queue : FixedSizeQueue.rep (next_nodes s) [];
  cl_cap : FixedSizeQueue.capacity (next_nodes s) = DependencyGraph.capacity g;
  cl_enq k : enq s k = false
}.

Lemma cleared_fold g s upd need rdy l :
  cleared g s -> NoDup l -> (forall k, k ∈ l -> is_Some (nodes g !! k)) ->
  let s' := foldl (fun s k => visit upd need rdy k s) s l in
  target_root s' = target_root s /\ phase s' = phase s /\
  FixedSizeQueue.rep (next_nodes s') (heads need rdy l) /\
  FixedSizeQueue.capacity (next_nodes s') = DependencyGraph.capacity g /\
  pending s' = Z.of_nat (length (filter (fun k => need k = true) l)) /\
  info_ok g s' /\ (forall k, enq s' k = false) /\
  (forall k, tgt s' k = tgt s k || upd && bool_decide (k ∈ l)).
Proof.
  intros [Hwf Hr Hi Hp Hq Hc He] Hnd Hdom.
  pose proof (nodup_nodes_bound g l Hnd Hdom). pose proof (wf_size g Hwf). pose proof (wf_width g Hwf).
  destruct (fold_visit upd need rdy l s [] Hq) as (E1 & E2 & E3 & E4 & E5 & E6 & E7 & E8);
    [simpl; lia|lia|lia|].
  split_and!; [done|done|done|congruence|rewrite E5, Hp; lia| |by intros k; rewrite E6|done].
  intros k. rewrite E8, (Hi k). split; [intros [?|[_ ?]]; eauto|by left].
Qed.

Lemma cleared_activation g s l :
  let need := fun j => negb (act g j) in let rdy := fun j => forallb (act g) (deps g j) in
  let s' := foldl (fun s k => visit true need rdy k s) s l in
  cleared g s -> tgt_ok g s -> phase s = Starting ->
  (forall k, act g k = true -> tgt s k = true) ->
  NoDup l -> (forall k, k ∈ l <-> reach g (target_root s) k) ->
  target_root s' = target_root s /\
  (if bool_decide (pending s' = 0%Z) then done_inv g (set_phase Done s')
   else phase s' = Starting /\ exists Q B, phase_inv g s' Q [] [] B).
Proof.
  intros need rdy s' Hcl Htgt Hph Hact Hnd Hl. pose proof Hcl as [Hwf Hroot _ _ _ _ _].
  destruct (cleared_fold g s true need rdy l Hcl Hnd) as (E1 & E2 & E3 & E4 & E5 & E6 & E7 & E8).
  { intros k Hk%Hl. by eapply reach_dom. }
  fold s' in E1, E2, E3, E4, E5, E6, E7, E8. split; [done|].
  assert (Ht : forall k, tgt s' k = tgt s k).
  { intros k. rewrite E8. simpl. case_bool_decide as Hk; [|by rewrite orb_false_r].
    rewrite orb_true_r. symmetry. by apply Htgt, Hl. }
  assert (Htgt' : tgt_ok g s') by (intros k; by rewrite Ht, E1).
  assert (Hroot' : is_Some (nodes g !! target_root s')) by (by rewrite E1).
  assert (Hneed : forall k, todo (phase s') (tgt s') g k = true <-> k ∈ l /\ need k = true).
  { intros k. rewrite E2, Hph. simpl. by rewrite andb_true_iff, Ht, (Htgt k), <- Hl. }
  case_bool_decide as Hz.
  - assert (Hno := phase_start_empty g s' l need Hneed E5 Hz). rewrite E2, Hph in Hno. simpl in Hno.
    split; try done.
    + simpl. rewrite heads_nil in E3; [done|]. lia.
    + intros k. specialize (Hno k). change (tgt (set_phase Done s') k) with (tgt s' k).
      destruct (act g k) eqn:Ea, (tgt s' k) eqn:Et; try done. apply Hact in Ea. congruence.
  - split; [congruence|]. exists (heads need rdy l), (waiting need rdy l).
    apply (phase_start g s' l need rdy); auto; rewrite ?E2, ?Hph; try done.
    intros _ k. rewrite Ht. auto.
Qed.

Lemma setupActivation_spec g s :
  cleared g s -> tgt_ok g s -> phase s = Starting ->
  (forall k, act g k = true -> tgt s k = true) ->
  exists g' s', setupActivation (target_root s) g s = Ret (g', s') /\ same_graph g' g /\
    target_root s' = target_root s /\
    (if bool_decide (pending s' = 0%Z) then done_inv g' (set_phase Done s')
     else phase s' = Starting /\ exists Q B, phase_inv g' s' Q [] [] B).
Proof.
  intros Hcl Htgt Hph Hact. pose proof Hcl as [Hwf Hroot _ _ _ _ _].
  destruct (traverse_spec activation_visit
    (visit true (fun j => negb (act g j)) (fun j => forallb (act g) (deps g j))) g
    (target_root s) Hwf (fun g1 k s1 => activation_visit_spec g g1 k s1 Hwf) s Hroot)
    as (l & g' & Hrun & Hnd & Hl & Hsame & Hwf').
  unfold setupActivation. rewrite Hrun. do 2 eexists. split; [done|]. split; [done|].
  destruct (cleared_activation g s l Hcl Htgt Hph Hact Hnd Hl) as [Hr Hcase]. split; [done|].
  case_bool_decide.
  - eapply done_inv_alike; [by apply same_graph_alike|done|done].
  - destruct Hcase as (Hp & Q & B & Hinv). split; [done|]. exists Q, B. eapply phase_inv_alike; [by apply same_graph_alike|done|done].
Qed.

(** The stopping phase has drained: nothing outside the target is active. *)
Lemma advanceToStarting_spec g s :
  wf g -> is_Some (nodes g !! target_root s) -> info_ok g s -> tgt_ok g s ->
  FixedSizeQueue.rep (next_nodes s) [] ->
  FixedSizeQueue.capacity (next_nodes s) = DependencyGraph.capacity g ->
  (forall k, act g k = true -> tgt s k = true) ->
  exists g' s', advanceToStarting g s = Ret (g', s') /\ same_graph g' g /\
    target_root s' = target_root s /\ phase s' <> Stopping /\ set_up g' s'.
Proof.
  intros Hwf Hroot Hinfo Htgt Hq Hcap Hact. unfold advanceToStarting.
  destruct (clearNextNodes_spec (set_pending 0 (set_phase Starting s)) [] Hq) as (q & -> & Hq' & Hc').
  simpl. set (s3 := set_node_information _ _).
  assert (Ht : forall k, tgt s3 k = tgt s k).
  { intros k. unfold tgt. simpl. rewrite lookup_fmap. by destruct (node_information s !! k). }
  assert (Hcl : cleared g s3).
  { split; try done; simpl in *.
    - intros k. simpl. by rewrite lookup_fmap, fmap_is_Some, (Hinfo k).
    - by rewrite Hc'.
    - intros k. unfold enq. simpl. rewrite lookup_fmap. by destruct (node_information s !! k). }
  destruct (setupActivation_spec g s3 Hcl) as (g' & s' & Hrun & Hsame & Hr & Hcase).
  - intros k. rewrite Ht. apply Htgt.
  - done.
  - intros k. rewrite Ht. apply Hact.
  - simpl in Hrun. rewrite Hrun. simpl. do 2 eexists. split; [done|].
    split; [done|]. case_bool_decide; simpl.
    + split_and!; [done|done|by left].
    + destruct Hcase as (Hp & HQ). split_and!; [done|congruence|by right].
Qed.

Lemma stop_scan_spec g s0 l s :
  wf g -> (forall k i, (k, i) ∈ l -> node_information s0 !! k = Some i /\ is_Some (nodes g !! k)) ->
  stop_scan g l s =
    Ret (foldl (fun s k => visit false (fun j => negb (tgt s0 j) && act g j)
                 (fun j => forallb (fun i => negb (act g i)) (rdeps g j)) k s) s l.*1).
Proof.
  intros Hwf. revert s. induction l as [|[k i] l IH]; intros s Hl; [done|].
  destruct (Hl k i) as [Hi Hk]; [by left|]. cbn [stop_scan].
  assert (Et : tgt s0 k = in_target_subgraph_ i) by (unfold tgt; by rewrite Hi).
  assert (IH' := fun s => IH s (fun k' i' Hin => Hl k' i' (list_elem_of_further _ _ _ Hin))).
  rewrite stopped_spec, allDependentsStopped_spec by done. simpl.
  unfold visit at 2. rewrite Et. destruct (in_target_subgraph_ i); simpl; [apply IH'|].
  destruct (act g k); simpl; [|apply IH']. destruct (forallb _ _); apply IH'.
Qed.

(** [s1] is what the traversal of [setupDeactivation] leaves. *)
Lemma cleared_deactivation g s :
  cleared g s -> tgt_ok g s -> phase s = Stopping ->
  exists s', stop_scan g (iter_order (node_information s)) s = Ret s' /\
    target_root s' = target_root s /\
    (if bool_decide (pending s' = 0%Z)
     then cleared g s' /\ tgt_ok g s' /\ phase s' = Stopping /\ forall k, act g k = true -> tgt s' k = true
     else exists Q B, phase_inv g s' Q [] [] B).
Proof.
  intros Hcl Htgt Hph. pose proof Hcl as [Hwf Hroot Hinfo _ _ _ _].
  rewrite (stop_scan_spec g s); [|done|intros k i Hk%elem_of_iter_order; split; [done|apply Hinfo; eauto]].
  set (need := fun j => negb (tgt s j) && act g j). set (rdy := fun j => forallb _ (rdeps g j)).
  set (l := (iter_order (node_information s)).*1).
  assert (Hl : forall k, k ∈ l <-> is_Some (nodes g !! k)).
  { intros k. unfold l. rewrite <- (Hinfo k), list_elem_of_fmap. split.
    - intros ([k' i] & -> & Hk). apply elem_of_iter_order in Hk. eauto.
    - intros [i Hi]. exists (k, i). by rewrite elem_of_iter_order. }
  eexists. split; [done|].
  destruct (cleared_fold g s false need rdy l Hcl (NoDup_iter_order _)) as (E1 & E2 & E3 & E4 & E5 & E6 & E7 & E8).
  { intros k. apply Hl. }
  set (s' := foldl _ s l) in *. split; [done|].
  assert (Ht : forall k, tgt s' k = tgt s k) by (intros k; by rewrite E8, orb_false_r).
  assert (Htgt' : tgt_ok g s') by (intros k; by rewrite Ht, E1).
  assert (Hroot' : is_Some (nodes g !! target_root s')) by (by rewrite E1).
  assert (Hneed : forall k, todo (phase s') (tgt s') g k = true <-> k ∈ l /\ need k = true).
  { intros k. rewrite E2, Hph. simpl. rewrite Ht, Hl. split; [|by intros [_ ?]].
    intros E. split; [|done]. apply andb_true_iff in E as [_ E]. by apply act_dom. }
  case_bool_decide as Hz.
  - assert (Hno := phase_start_empty g s' l need Hneed E5 Hz). rewrite E2, Hph in Hno. simpl in Hno.
    split_and!; [split; try done|done|congruence|].
    + rewrite heads_nil in E3; [done|]. lia.
    + intros k Ha. specialize (Hno k). rewrite Ha in Hno. by destruct (tgt s' k).
  - exists (heads need rdy l), (waiting need rdy l).
    apply (phase_start g s' l need rdy); auto; rewrite ?E2, ?Hph; try done. apply NoDup_iter_order.
Qed.

(** The loop of [setupTransition] over the graph. *)
Lemma reset_info_lookup {V} (l : list (Key * V)) (m : gmap Key NodeInfo) k :
  foldl (fun m kn => <[kn.1 := no_info]> m) m l !! k =
    if bool_decide (k ∈ l.*1) then Some no_info else m !! k.
Proof.
  revert m. induction l as [|[j v] l IH]; intros m; [done|]. simpl. rewrite IH.
  rewrite lookup_insert. destruct (decide (j = k)); repeat case_bool_decide; set_solver.
Qed.

Lemma setupDeactivation_spec g s target :
  cleared g s -> target_root s = target -> (forall k, tgt s k = false) -> phase s = Stopping ->
  exists g' s', setupDeactivation target g s = Ret (g', s') /\ same_graph g' g /\ wf g' /\
    target_root s' = target /\
    (if bool_decide (pending s' = 0%Z)
     then cleared g' s' /\ tgt_ok g' s' /\ phase s' = Stopping /\ forall k, act g' k = true -> tgt s' k = true
     else exists Q B, phase_inv g' s' Q [] [] B).
Proof.
  intros Hcl <- Hno Hph. pose proof Hcl as [Hwf Hroot _ _ _ _ _]. unfold setupDeactivation.
  destruct (traverse_spec deactivation_visit (visit true (fun _ => false) (fun _ => false)) g
    (target_root s) Hwf (fun g1 k s1 => deactivation_visit_spec g g1 k s1) s Hroot)
    as (l & g' & -> & Hnd & Hl & Hsame & Hwf').
  destruct (cleared_fold g s true (fun _ => false) (fun _ => false) l Hcl Hnd)
    as (E1 & E2 & E3 & E4 & E5 & E6 & E7 & E8).
  { intros k Hk%Hl. by eapply reach_dom. }
  set (s1 := foldl _ s l) in *.
  assert (Hnil : filter (fun _ : Key => false = true) l = []) 
    by (apply elem_of_nil_inv; by intros k [? _]%list_elem_of_filter).
  rewrite heads_nil in E3 by (by rewrite Hnil). rewrite Hnil in E5.
  destruct (flags_alike g' g s1 (same_graph_alike _ _ Hsame)) as (Hf1 & Hf2 & Hf3).
  assert (Htgt1 : tgt_ok g s1).
  { intros k. rewrite E8, Hno, E1, <- Hl. apply bool_decide_eq_true. }
  destruct (cleared_deactivation g' s1) as (s' & Hscan & Hr & Hcase); auto.
  - split; auto; [apply Hf3; by rewrite E1|]. rewrite E4. symmetry. apply Hsame.
  - congruence.
  - simpl. rewrite Hscan. simpl. exists g', s'. split_and!; try done. congruence.
Qed.

(** Whatever the previous transition left behind in the node information and in
    the queue, a new transition is set up completely and without a failure. *)
Lemma setupTransition_spec g s target l0 :
  wf g -> is_Some (nodes g !! target) ->
  (forall k, is_Some (node_information s !! k) -> is_Some (nodes g !! k)) ->
  FixedSizeQueue.rep (next_nodes s) l0 ->
  FixedSizeQueue.capacity (next_nodes s) = DependencyGraph.capacity g ->
  exists g' s', setupTransition target g s = Ret (g', s') /\ same_graph g' g /\
    target_root s' = target /\ set_up g' s'.
Proof.
  intros Hwf Hroot Hdom Hq Hcap. unfold setupTransition. cbv zeta.
  set (m := foldl _ (node_information s) _).
  assert (Hm : forall k, m !! k = if bool_decide (is_Some (nodes g !! k)) then Some no_info else None).
  { intros k. unfold m. rewrite reset_info_lookup.
    rewrite (bool_decide_ext _ (is_Some (nodes g !! k))).
    - case_bool_decide as Hk; [done|]. destruct (node_information s !! k) eqn:E; [|done].
      exfalso. eauto.
    - rewrite list_elem_of_fmap. split.
      + intros ([k' n] & -> & Hin). apply elem_of_iter_order in Hin. eauto.
      + intros [n Hn]. exists (k, n). by rewrite elem_of_iter_order. }
  destruct (clearNextNodes_spec (set_target_root target (set_node_information m s)) l0 Hq)
    as (q & -> & Hq' & Hc'). cbn [mbind outcome_bind].
  set (s3 := set_phase Stopping _).
  assert (Hcl : cleared g s3).
  { split; try done.
    - intros k. simpl. rewrite Hm. case_bool_decide; [by eauto|]. by split; [intros []|].
    - simpl. by rewrite Hc'.
    - intros k. unfold enq. simpl. rewrite Hm. by case_bool_decide. }
  destruct (setupDeactivation_spec g s3 target Hcl) as (g' & s' & -> & Hsame & Hwf' & Hr & Hcase); try done.
  { intros k. unfold tgt. simpl. rewrite Hm. by case_bool_decide. }
  cbn [mbind outcome_bind]. case_bool_decide.
  - destruct Hcase as ([] & Ht & Hp & Ha).
    destruct (advanceToStarting_spec g' s') as (g2 & s2 & -> & Hs2 & Hr2 & _ & Hup); auto.
    exists g2, s2. split_and!; [done|by rewrite Hs2|congruence|done].
  - exists g', s'. split_and!; try done. by right.
Qed.

Lemma createTransition_spec g s target l0 :
  wf g -> is_Some (nodes g !! target) ->
  (forall k, is_Some (node_information s !! k) -> is_Some (nodes g !! k)) ->
  FixedSizeQueue.rep (next_nodes s) l0 ->
  FixedSizeQueue.capacity (next_nodes s) = DependencyGraph.capacity g ->
  exists g' s', createTransition target g s = Ret (g', s') /\ same_graph g' g /\
    target_root s' = target /\ set_up g' s'.
Proof.
  intros. unfold createTransition, isValidNode, contains. rewrite bool_decide_eq_true_2 by done.
  by eapply setupTransition_spec.
Qed.

(** ** Running a phase *)

Definition ready g s k : bool :=
  todo (phase s) (tgt s) g k && forallb (settled (phase s) g) (pre (phase s) g k).

Lemma ready_spec g s k :
  ready g s k = true <->
  todo (phase s) (tgt s) g k = true /\ forall j, j ∈ pre (phase s) g k -> settled (phase s) g j = true.
Proof.
  unfold ready. rewrite andb_true_iff, forallb_forall. by setoid_rewrite <- list_elem_of_In.
Qed.

Lemma update_enqueued_spec g s j :
  info_ok g s -> is_Some (nodes g !! j) ->
  let s1 := update_info j (set_enqueued true) s in
  info_ok g s1 /\ (forall k, tgt s1 k = tgt s k) /\
  (forall k, enq s1 k = bool_decide (k = j) || enq s k).
Proof.
  intros Hi [i Hj]%Hi. simpl. unfold info_ok, tgt, enq. simpl. rewrite Hj. simpl.
  split_and!; intros k; rewrite lookup_insert; destruct (decide (j = k)) as [<-|Hne].
  - rewrite <- (Hi j), Hj. split; eauto.
  - apply Hi.
  - by rewrite Hj.
  - done.
  - by rewrite bool_decide_eq_true_2.
  - by rewrite bool_decide_eq_false_2 by congruence.
Qed.

(** [M] are the successors among [l] that become ready; they leave [B] for the
    queue, and their flag keeps them from being queued again. *)
Record enqueued_from g s (l Q B : list Key) s' (M B' : list Key) : Prop := {
  ef_perm : B ≡ₚ M ++ B';
  ef_queue : FixedSizeQueue.rep (next_nodes s') (Q ++ M);
  ef_cap : FixedSizeQueue.capacity (next_nodes s') = FixedSizeQueue.capacity (next_nodes s);
  ef_pending : pending s' = pending s;
  ef_phase : phase s' = phase s;
  ef_root : target_root s' = target_root s;
  ef_info : info_ok g s';
  ef_tgt k : tgt s' k = tgt s k;
  ef_enq k : enq s' k = bool_decide (k ∈ M) || enq s k;
  ef_ready j : j ∈ M -> ready g s j = true;
  ef_all j : j ∈ l -> ready g s j = true -> enq s' j = true
}.

(** Queueing one of them. *)
Lemma enqueued_from_cons g s s1 s' j l Q B B1 M B' :
  B ≡ₚ j :: B1 -> ready g s j = true ->
  FixedSizeQueue.capacity (next_nodes s1) = FixedSizeQueue.capacity (next_nodes s) ->
  pending s1 = pending s -> phase s1 = phase s -> target_root s1 = target_root s ->
  (forall k, tgt s1 k = tgt s k) -> (forall k, enq s1 k = bool_decide (k = j) || enq s k) ->
  (forall k, ready g s1 k = ready g s k) ->
  enqueued_from g s1 l (Q ++ [j]) B1 s' M B' ->
  enqueued_from g s (j :: l) Q B s' (j :: M) B'.
Proof.
  intros HB Hr Hc Hp Hph Hrt Ht He Hrd []. split; [| |congruence..| | | | |].
  - by rewrite HB, ef_perm0.
  - by rewrite <- app_assoc in ef_queue0.
  - done.
  - intros k. by rewrite ef_tgt0.
  - intros k. rewrite ef_enq0, He, orb_assoc, (orb_comm (bool_decide (k ∈ M))).
    by rewrite bool_decide_elem_cons.
  - intros k [->|Hk]%elem_of_cons; [done|]. rewrite <- Hrd. auto.
  - intros k [->|Hk]%elem_of_cons Hrk.
    + rewrite ef_enq0, He, (bool_decide_eq_true_2 (j = j)) by done. by rewrite orb_true_r.
    + apply ef_all0; [done|]. by rewrite Hrd.
Qed.

Lemma enqueued_from_skip g s s' j l Q B M B' :
  (ready g s j = true -> enq s j = true) ->
  enqueued_from g s l Q B s' M B' -> enqueued_from g s (j :: l) Q B s' M B'.
Proof.
  intros Hj []. split; auto. intros k [->|Hk]%elem_of_cons Hr; [|auto].
  rewrite ef_enq0, Hj by done. by rewrite orb_true_r.
Qed.

Lemma enqueue_successors_spec g l : forall s Q B,
  wf g -> info_ok g s -> FixedSizeQueue.rep (next_nodes s) Q ->
  length Q + length B <= FixedSizeQueue.capacity (next_nodes s) ->
  (forall j, j ∈ l -> is_Some (nodes g !! j)) ->
  (forall j, j ∈ l -> ready g s j = true -> enq s j = false -> j ∈ B) ->
  exists s' M B', enqueue_successors g l s = Ret s' /\ enqueued_from g s l Q B s' M B'.
Proof.
  induction l as [|j l IH]; intros s Q B Hwf Hi Hq Hroom Hdom HB.
  { exists s, [], B. split; [done|]. split; try done; [by rewrite app_nil_r|..]; intros k;
      by intros ?%elem_of_nil. }
  assert (Hj : is_Some (nodes g !! j)) by (apply Hdom; by left).
  assert (Hdom' : forall k, k ∈ l -> is_Some (nodes g !! k)) by (intros; apply Hdom; by right).
  assert (HB' : forall k, k ∈ l -> ready g s k = true -> enq s k = false -> k ∈ B)
    by (intros k Hk; apply HB; by right).
  pose proof (proj2 (Hi j) Hj) as [i Hji]. cbn [enqueue_successors].
  rewrite isReady_spec, (at_Some _ _ _ Hji) by done. fold (ready g s j).
  assert (He : enqueued_ i = enq s j) by (unfold enq; by rewrite Hji).
  destruct (ready g s j) eqn:Hr; cbn [mbind outcome_bind].
  2: { destruct (IH s Q B) as (s' & M & B' & Hrun & Hef); auto.
       exists s', M, B'. split; [done|]. apply enqueued_from_skip; [congruence|done]. }
  rewrite He. destruct (enq s j) eqn:Hej; cbn [negb mbind outcome_bind].
  { destruct (IH s Q B) as (s' & M & B' & Hrun & Hef); auto.
    exists s', M, B'. split; [done|]. by apply enqueued_from_skip. }
  assert (HjB : j ∈ B) by (apply HB; [by left|done|done]).
  apply elem_of_Permutation in HjB as [B1 HB1].
  assert (Hlen : length B = S (length B1)) by (by rewrite HB1).
  destruct (update_enqueued_spec g s j Hi Hj) as (Hi1 & Ht1 & He1).
  set (s1 := update_info j (set_enqueued true) s) in *.
  destruct (FixedSizeQueue.push_ok (next_nodes s) Q j Hq) as (q & Hpush & Hrep & Hcap); [lia|].
  change (next_nodes s1) with (next_nodes s). rewrite Hpush. cbn [mbind outcome_bind assert].
  assert (Hrd : forall k, ready g (set_next_nodes q s1) k = ready g s k).
  { intros k. unfold ready. simpl. f_equal. apply todo_ext, Ht1. }
  destruct (IH (set_next_nodes q s1) (Q ++ [j]) B1) as (s' & M & B' & Hrun & Hef); auto.
  - simpl. rewrite length_app, Hcap. simpl. lia.
  - intros k Hk Hrk Hek. rewrite Hrd in Hrk. change (enq s1 k = false) in Hek.
    rewrite He1 in Hek. apply orb_false_iff in Hek as [Hne Hek].
    apply bool_decide_eq_false in Hne. specialize (HB' k Hk Hrk Hek).
    rewrite HB1 in HB'. apply elem_of_cons in HB' as [|]; done.
  - exists s', (j :: M), B'. split; [done|].
    by eapply (enqueued_from_cons g s (set_next_nodes q s1)).
Qed.

(** Handing out a node only moves it from the queue to the running ones. *)
Lemma phase_inv_perm g s s' Q Q' run run' dn B :
  phase_inv g s Q run dn B -> Q ++ run ≡ₚ Q' ++ run' ->
  target_root s' = target_root s -> phase s' = phase s -> pending s' = pending s ->
  node_information s' = node_information s -> FixedSizeQueue.rep (next_nodes s') Q' ->
  FixedSizeQueue.capacity (next_nodes s') = FixedSizeQueue.capacity (next_nodes s) ->
  phase_inv g s' Q' run' dn B.
Proof.
  intros [] Hp Er Eph Epd En Hq Hc.
  assert (Hp4 : Q ++ run ++ dn ++ B ≡ₚ Q' ++ run' ++ dn ++ B) by (rewrite !app_assoc, Hp; done).
  assert (Hp3 : Q ++ run ++ B ≡ₚ Q' ++ run' ++ B) by (rewrite !app_assoc, Hp; done).
  assert (Ht : forall k, tgt s' k = tgt s k) by (intros k; unfold tgt; by rewrite En).
  assert (He : forall k, enq s' k = enq s k) by (intros k; unfold enq; by rewrite En).
  split; rewrite ?Er, ?Eph, <- ?Hp4; auto.
  - intros k. rewrite En. apply pi_info0.
  - intros k. rewrite Ht, Er. apply pi_tgt0.
  - congruence.
  - congruence.
  - intros E. apply pi_some0, Permutation_nil. symmetry. by rewrite Hp4, E.
  - intros k. rewrite <- Hp3, <- (pi_todo0 k). erewrite todo_ext; [done|apply Ht].
  - intros k. rewrite <- Hp. apply pi_ready0.
  - intros k. rewrite He. setoid_rewrite <- Hp4. apply pi_blocked0.
  - intros k. rewrite <- Hp, He. setoid_rewrite <- Hp4. apply pi_enq0.
  - intros Hst k. rewrite Ht. auto.
Qed.

Lemma nextReady_spec g s Q run dn B :
  phase_inv g s Q run dn B ->
  match Q with
  | [] => nextReady s = Ret (None, s)
  | k :: Q' => exists s', nextReady s = Ret (Some (k, currentAction s), s') /\
      phase s' = phase s /\ target_root s' = target_root s /\ phase_inv g s' Q' (k :: run) dn B
  end.
Proof.
  intros Hinv. pose proof (pi_queue _ _ _ _ _ _ Hinv) as Hq. unfold nextReady.
  rewrite (FixedSizeQueue.rep_empty _ _ Hq). destruct Q as [|k Q]; [done|].
  destruct (FixedSizeQueue.tryPop_cons _ _ _ Hq) as (q & -> & Hrep & Hcap). simpl.
  eexists; split_and!; [done..|]. eapply phase_inv_perm; eauto. simpl. apply Permutation_middle.
Qed.

(** A worker has carried out the action: the component is in its new state. *)
Section Work.
Context (g : graph) (s : state) (Q run dn B : list Key) (k : Key) (run' : list Key) (v : T).
Hypotheses (Hinv : phase_inv g s Q run dn B) (Hrun : run ≡ₚ k :: run')
  (Hv : active v = bool_decide (phase s = Starting)).

Lemma work_todo : todo (phase s) (tgt s) g k = true.
Proof using Hinv Hrun. apply (pi_todo _ _ _ _ _ _ Hinv). rewrite Hrun. clear. set_solver. Qed.

Lemma work_settled g' :
  (forall j, act g' j = if decide (j = k) then active v else act g j) ->
  (forall j, settled (phase s) g' j = bool_decide (j = k) || settled (phase s) g j) /\
  (forall j, todo (phase s) (tgt s) g' j = todo (phase s) (tgt s) g j && negb (bool_decide (j = k))).
Proof using Hinv Hv.
  intros Ha. pose proof (pi_phase _ _ _ _ _ _ Hinv) as Hph.
  split; intros j; specialize (Ha j); rewrite Hv in Ha;
    destruct (phase s); simpl in *; try done; rewrite Ha; case_decide; case_bool_decide; simpl;
    rewrite ?andb_true_r, ?andb_false_r; done.
Qed.

Lemma work_spec :
  exists g', put k v g = Ret g' /\ phase_inv g' s Q run' (k :: dn) B /\
    (forall j, deps g' j = deps g j) /\ DependencyGraph.size g' = DependencyGraph.size g.
Proof.
  pose proof work_todo as Htodo. pose proof Hinv as [].
  assert (Hk : is_Some (nodes g !! k)) by (eapply todo_dom; eauto).
  destruct (put_spec k v g Hk) as (g' & Hput & Hc & Hs & Hq & Hdom & Hd & Hr & Hval).
  exists g'. split; [done|]. split; [|done].
  assert (Ha : forall j, act g' j = if decide (j = k) then active v else act g j).
  { intros j. unfold act. rewrite Hval. destruct (decide (j = k)); done. }
  destruct (work_settled g' Ha) as [Hset Htd].
  assert (Hpre : forall j, pre (phase s) g' j = pre (phase s) g j).
  { intros j. destruct (phase s); simpl; auto. }
  assert (Hp4 : Q ++ run ++ dn ++ B ≡ₚ Q ++ run' ++ (k :: dn) ++ B).
  { rewrite Hrun. simpl. by rewrite <- (Permutation_middle run'). }
  assert (Hnd : NoDup (k :: Q ++ run' ++ dn ++ B)).
  { rewrite Hp4 in pi_nodup0. simpl in pi_nodup0. by rewrite <- !Permutation_middle in pi_nodup0. }
  split; rewrite <- ?Hp4, ?Hc; auto.
  - by eapply wf_same_shape.
  - by apply Hdom.
  - intros j. by rewrite Hdom, (pi_info0 j).
  - intros j. rewrite (pi_tgt0 j). unfold reach. split; apply rtc_subrel; intros x y; unfold dep; by rewrite Hd.
  - intros E. apply pi_some0, Permutation_nil. symmetry. by rewrite Hp4, E.
  - intros j. rewrite Htd, andb_true_iff, pi_todo0, Hrun, negb_true_iff, bool_decide_eq_false.
    apply NoDup_cons in Hnd as [Hnk _]. clear -Hnk. set_solver.
  - intros j. rewrite Hset, Hdom, elem_of_cons. intros [->|Hj]; [by rewrite bool_decide_eq_true_2|].
    destruct (pi_done0 j Hj) as [-> ?]. by rewrite orb_true_r.
  - intros j Hj i. rewrite Hpre, Hset. intros Hi. rewrite (pi_ready0 j); [by rewrite orb_true_r| |done].
    rewrite Hrun. clear -Hj. set_solver.
  - intros j Hj. rewrite Hpre. setoid_rewrite <- Hp4. auto.
  - intros j Hj. rewrite Hpre. setoid_rewrite <- Hp4. apply pi_enq0. rewrite Hrun. clear -Hj. set_solver.
  - intros Hst j. rewrite Ha. destruct (decide (j = k)) as [->|]; [intros _|by auto].
    rewrite Hst in Htodo. simpl in Htodo. by apply andb_true_iff in Htodo as [? _].
Qed.

End Work.

(** ** Finishing a node *)

Section Finish.
Context (g : graph) (s : state) (Q run dn B : list Key) (k : Key) (dn' : list Key).
Hypotheses (Hinv : phase_inv g s Q run dn B) (Hdn : dn ≡ₚ k :: dn').

Lemma finish_live : Q ++ run ++ dn ++ B ≡ₚ k :: Q ++ run ++ dn' ++ B.
Proof using Hdn. rewrite Hdn. simpl. by rewrite <- !Permutation_middle. Qed.

Lemma finish_fresh : k ∉ Q ++ run ++ dn' ++ B.
Proof using Hinv Hdn.
  pose proof (pi_nodup _ _ _ _ _ _ Hinv) as Hnd. rewrite finish_live in Hnd.
  by apply NoDup_cons in Hnd as [? _].
Qed.

Lemma finish_pending : wrap 64 (pending s - 1) = Z.of_nat (length (Q ++ run ++ dn' ++ B)).
Proof using Hinv Hdn.
  rewrite (pi_pending _ _ _ _ _ _ Hinv), finish_live. cbn [length].
  pose proof (pi_bound _ _ _ _ _ _ Hinv) as Hb. rewrite finish_live in Hb. cbn [length] in Hb.
  pose proof (wf_size g (pi_wf _ _ _ _ _ _ Hinv)). pose proof (wf_width g (pi_wf _ _ _ _ _ _ Hinv)).
  rewrite wrap_small; lia.
Qed.

(** A successor that is ready and not marked waits in [B]: the nodes in the
    queue or running without the mark have no predecessor among the live ones. *)
Lemma finish_successor j :
  j ∈ post (phase s) g k -> ready g s j = true -> enq s j = false -> j ∈ B.
Proof using Hinv Hdn.
  intros Hj [Ht _]%ready_spec He. destruct Hinv. apply pi_todo0 in Ht.
  rewrite app_assoc, elem_of_app in Ht. destruct Ht as [Hqr|]; [|done]. exfalso.
  destruct (pi_enq0 j Hqr) as [|Hno]; [congruence|].
  apply (Hno k); [by apply pre_post|]. rewrite finish_live. by left.
Qed.

(** Who is left blocked still has a live predecessor other than [k]. *)
Lemma finish_blocked s' M B' j :
  enqueued_from g (set_pending (pending s - 1) s) (post (phase s) g k) Q B s' M B' -> j ∈ B' ->
  enq s' j = false /\ exists i, i ∈ pre (phase s) g j /\ i ∈ Q ++ run ++ dn' ++ B.
Proof using Hinv Hdn.
  intros [] Hj. destruct Hinv as [].
  assert (HjB : j ∈ B) by (rewrite ef_perm0; set_solver +Hj).
  destruct (pi_blocked0 j HjB) as (He & i & Hi & Hlive).
  assert (He' : enq s' j = false).
  { rewrite ef_enq0. change (enq (set_pending (pending s - 1) s) j) with (enq s j).
    rewrite He, orb_false_r. apply bool_decide_eq_false. intros HM.
    assert (Hnd : NoDup (M ++ B')).
    { rewrite <- ef_perm0. by apply NoDup_app in pi_nodup0 as (_ & _ & (_ & _ & (_ & _ & ?)%NoDup_app)%NoDup_app). }
    apply NoDup_app in Hnd as (_ & Hnd & _). by apply (Hnd j). }
  split; [done|]. rewrite finish_live in Hlive. apply elem_of_cons in Hlive as [->|?]; [|by eauto].
  assert (Hnr : ready g s j <> true).
  { intros Hr. rewrite (ef_all0 j) in He'; [done|by apply pre_post|done]. }
  assert (Hjt : todo (phase s) (tgt s) g j = true) by (apply pi_todo0; set_solver +HjB).
  destruct (decide (Forall (fun i => settled (phase s) g i = true) (pre (phase s) g j))) as [Hf|Hf].
  { exfalso. apply Hnr, ready_spec. rewrite Forall_forall in Hf. done. }
  apply not_Forall_Exists, Exists_exists in Hf as (i & Hi' & Hs); [|apply _].
  apply not_true_iff_false in Hs. exists i. split; [done|].
  assert (Hit := todo_pre (phase s) g s i j pi_wf0 pi_tgt0 Hjt Hi' Hs).
  apply pi_todo0 in Hit. set_solver +Hit.
Qed.

Lemma finish_inv s' M B' :
  Q ++ run ++ dn' ++ B <> [] ->
  enqueued_from g (set_pending (pending s - 1) s) (post (phase s) g k) Q B s' M B' ->
  phase_inv g s' (Q ++ M) run dn' B'.
Proof using Hinv Hdn.
  intros Hne Hef. pose proof (fun j => finish_blocked s' M B' j Hef) as Hbl.
  pose proof finish_pending as Hpd. pose proof finish_live as Hlv. destruct Hef, Hinv. simpl in *.
  assert (Hp4 : (Q ++ M) ++ run ++ dn' ++ B' ≡ₚ Q ++ run ++ dn' ++ B).
  { rewrite ef_perm0, <- app_assoc. apply Permutation_app_head. rewrite !(app_assoc run).
    rewrite (Permutation_app_comm M), <- app_assoc. apply Permutation_app_head, Permutation_app_comm. }
  assert (Hp3 : (Q ++ M) ++ run ++ B' ≡ₚ Q ++ run ++ B).
  { rewrite ef_perm0, <- app_assoc. apply Permutation_app_head.
    rewrite (Permutation_app_comm M), <- app_assoc. apply Permutation_app_head, Permutation_app_comm. }
  assert (HE : forall j, enq s' j = bool_decide (j ∈ M) || enq s j) by done.
  assert (HT : forall j, tgt s' j = tgt s j) by done.
  split; rewrite ?ef_root0, ?ef_phase0; auto.
  - intros j. rewrite HT, ef_root0. apply pi_tgt0.
  - congruence.
  - rewrite Hp4. rewrite Hlv in pi_nodup0. by apply NoDup_cons in pi_nodup0 as [_ ?].
  - by rewrite ef_pending0, Hpd, Hp4.
  - intros E. apply Hne, Permutation_nil. symmetry. by rewrite <- Hp4, E.
  - intros j. rewrite Hp3, <- (pi_todo0 j). erewrite todo_ext; [done|apply HT].
  - intros j Hj. apply pi_done0. rewrite Hdn. by right.
  - intros j Hj. destruct (decide (j ∈ M)) as [HM|HM].
    + by apply ef_ready0, ready_spec in HM as [_ ?].
    + apply pi_ready0. set_solver +Hj HM.
  - intros j Hj. setoid_rewrite Hp4. by apply Hbl.
  - intros j Hj. rewrite HE. case_bool_decide as HM; [by left|]. simpl.
    destruct (pi_enq0 j) as [?|Hno]; [set_solver +Hj HM|by left|]. right. intros i Hi. rewrite Hp4.
    specialize (Hno i Hi). rewrite Hlv in Hno. by apply not_elem_of_cons in Hno as [_ ?].
  - intros Hst j. rewrite HT. auto.
Qed.

(** The last one of the phase: nothing is left to do in it. *)
Lemma finish_last : Q ++ run ++ dn' ++ B = [] ->
  Q = [] /\ forall j, todo (phase s) (tgt s) g j = false.
Proof using Hinv.
  intros E. pose proof E as [-> [-> [_ ->]%app_nil]%app_nil]%app_nil. split; [done|]. intros j.
  destruct (todo _ _ _ j) eqn:Et; [|done]. apply (pi_todo _ _ _ _ _ _ Hinv) in Et.
  by apply elem_of_nil in Et.
Qed.

End Finish.

(** What [onNodeFinished] leaves behind. *)
Inductive finished_to g s (Q run dn' B : list Key) (g' : graph) (s' : state) : Prop :=
| fin_same_phase Q' B' :
    phase s' = phase s -> phase_inv g' s' Q' run dn' B' -> Q' ++ B' ≡ₚ Q ++ B ->
    length Q <= length Q' -> finished_to g s Q run dn' B g' s'
| fin_next_phase :
    Q ++ run ++ dn' ++ B = [] -> phase s = Stopping -> phase s' <> Stopping -> set_up g' s' ->
    finished_to g s Q run dn' B g' s'
| fin_done :
    Q ++ run ++ dn' ++ B = [] -> phase s = Starting -> done_inv g' s' ->
    finished_to g s Q run dn' B g' s'.

Lemma onNodeFinished_spec g s Q run dn B k dn' :
  phase_inv g s Q run dn B -> dn ≡ₚ k :: dn' ->
  exists g' s', onNodeFinished k g s = Ret (g', s') /\ same_graph g' g /\
    target_root s' = target_root s /\ finished_to g s Q run dn' B g' s'.
Proof.
  intros Hinv Hdn. pose proof (finish_pending _ _ _ _ _ _ _ _ Hinv Hdn) as Hpd.
  assert (Hk : is_Some (nodes g !! k)).
  { apply (pi_done _ _ _ _ _ _ Hinv). rewrite Hdn. by left. }
  unfold onNodeFinished, isValidNode, contains. rewrite (bool_decide_eq_true_2 (is_Some (nodes g !! k))) by done.
  cbn [assert mbind outcome_bind]. cbv zeta. set (s1 := set_pending (pending s - 1) s).
  change (pending s1) with (wrap 64 (pending s - 1)). change (phase s1) with (phase s). rewrite Hpd.
  case_bool_decide as Hz.
  - assert (Hnil : Q ++ run ++ dn' ++ B = []) by (apply length_zero_iff_nil; lia).
    destruct (finish_last _ _ _ _ _ _ _ Hinv Hnil) as [-> Htodo]. pose proof Hinv as [].
    destruct (phase s) eqn:Hph; [| |done].
    + destruct (advanceToStarting_spec g s1) as (g' & s' & -> & Hs & Hr & Hp' & Hup); auto.
      { intros j Ha. specialize (Htodo j). simpl in Htodo. change (tgt s1 j) with (tgt s j).
        rewrite Ha in Htodo. by destruct (tgt s j). }
      exists g', s'. split_and!; try done. by apply fin_next_phase.
    + exists g, (set_phase Done s1). split_and!; try done. apply fin_done; [done..|].
      split; try done; simpl; [by rewrite Hpd, Hz|].
      intros j. specialize (Htodo j). simpl in Htodo. change (tgt (set_phase Done s1) j) with (tgt s j).
      destruct (act g j) eqn:Ea, (tgt s j) eqn:Et; try done. by rewrite pi_starting0 in Et.
  - assert (Hne : Q ++ run ++ dn' ++ B <> []) by (intros E; rewrite E in Hz; done).
    replace (match phase s with Starting => dependents g k | _ => dependsOn g k end)
      with (Ret (post (phase s) g k)).
    2: { rewrite dependents_spec, dependsOn_spec by done. by destruct (phase s). }
    cbn [mbind outcome_bind]. pose proof (pi_bound _ _ _ _ _ _ Hinv) as Hb. pose proof Hinv as [].
    destruct (enqueue_successors_spec g (post (phase s) g k) s1 Q B) as (s' & M & B' & Hrun & Hef); auto.
    + change (next_nodes s1) with (next_nodes s). rewrite pi_cap0. pose proof (wf_size g pi_wf0).
      rewrite !length_app in Hb. lia.
    + intros j Hj. by eapply post_dom.
    + intros j Hj Hr He. by eapply finish_successor.
    + rewrite Hrun. exists g, s'. split_and!; [done|done|by rewrite (ef_root _ _ _ _ _ _ _ _ Hef)|].
      eapply (fin_same_phase _ _ _ _ _ _ _ _ (Q ++ M) B').
      * by rewrite (ef_phase _ _ _ _ _ _ _ _ Hef).
      * by eapply finish_inv.
      * rewrite <- app_assoc. by rewrite (ef_perm _ _ _ _ _ _ _ _ Hef).
      * rewrite length_app. lia.
Qed.

End Proofs.
End TransitionProofs.
