(* ===== verification/TransitionSystem.v ===== *)
(** * A transition and its worker threads

    The graph's main thread takes ready nodes from the transition
    ([nextReady]), worker threads carry the actions out, and the main thread
    reports each finished node back ([onNodeFinished]).  [tstep] interleaves
    these in any order.  The theorems: the actions are handed out in dependency
    order, no assertion fails, the transition ends after a number of steps that
    is known beforehand, with exactly the subgraph of the target active, and it
    never gets stuck on an acyclic graph. *)

From stdpp Require Import prelude fin_maps gmap relations.
From S2P Require Import Prelude Queues Depgraph Components Transitions TransitionProofs.
Import DependencyGraph Transition TransitionProofs.

Module TransitionSystem.

Section System.
Context {Key : Type} `{Countable Key} `{!IterOrder Key} {T : Type} `{IComponent T} `{BuildMode}.

Notation graph := (DependencyGraph.t Key T).
Notation state := (Transition.State Key).

Implicit Types (g : graph) (s : state) (k : Key).

(** [handed] are the nodes with the workers, [carried] those whose completion
    event has not reached the main thread yet. *)
Record config := mkConfig {
  cgraph : graph;
  cstate : state;
  handed : list (Key * Action);
  carried : list Key
}.

Inductive tstep : config -> config -> Prop :=
| step_dispatch g s s' h c k a :
    nextReady s = Ret (Some (k, a), s') ->
    tstep (mkConfig g s h c) (mkConfig g s' ((k, a) :: h) c)
| step_work g g' s h h' c k a v :
    h ≡ₚ (k, a) :: h' -> put k v g = Ret g' -> active v = bool_decide (a = Start) ->
    tstep (mkConfig g s h c) (mkConfig g' s h' (k :: c))
| step_finish g g' s s' h c c' k :
    c ≡ₚ k :: c' -> onNodeFinished k g s = Ret (g', s') ->
    tstep (mkConfig g s h c) (mkConfig g' s' h c').

(** The transition object can be (re)used for the graph: it was made for it. *)
Record reusable (g : graph) (s : state) : Prop := {
  ru_dom k : is_Some (node_information s !! k) -> is_Some (nodes g !! k);
  ru_queue : exists l, FixedSizeQueue.rep (next_nodes s) l;
  ru_cap : FixedSizeQueue.capacity (next_nodes s) = DependencyGraph.capacity g
}.

(** A transition that has just been created. *)
Record created (g0 : graph) (target : Key) (c : config) : Prop := {
  cr_wf : wf g0;
  cr_target : is_Some (nodes g0 !! target);
  cr_run : exists s0, reusable g0 s0 /\
    createTransition target g0 s0 = Ret (cgraph c, cstate c);
  cr_handed : handed c = [];
  cr_carried : carried c = []
}.

Definition reachable (g0 : graph) (target : Key) (c : config) : Prop :=
  exists c0, created g0 target c0 /\ rtc tstep c0 c.

Lemma make_reusable `{Inhabited Key} (g : graph) : reusable g (Transition.make g).
Proof. split; [by intros k []|eexists; apply FixedSizeQueue.make_rep|done]. Qed.

(** The invariant of the whole system. *)
Record sys_inv (g0 : graph) (target : Key) (c : config) : Prop := {
  si_target : target_root (cstate c) = target;
  si_deps k : deps (cgraph c) k = deps g0 k;
  si_size : DependencyGraph.size (cgraph c) = DependencyGraph.size g0;
  si_phase : (done_inv (cgraph c) (cstate c) /\ handed c = [] /\ carried c = []) \/
    exists Q B, phase_inv (cgraph c) (cstate c) Q (handed c).*1 (carried c) B /\
      forall k a, (k, a) ∈ handed c -> a = currentAction (cstate c)
}.

Lemma reach_deps (g g0 : graph) a b :
  (forall k, deps g k = deps g0 k) -> reach g a b <-> reach g0 a b.
Proof. intros Hd. split; apply rtc_subrel; intros x y; unfold dep; by rewrite Hd. Qed.

Lemma set_up_inv g0 target g s :
  target_root s = target -> (forall k, deps g k = deps g0 k) ->
  DependencyGraph.size g = DependencyGraph.size g0 -> set_up g s ->
  sys_inv g0 target (mkConfig g s [] []).
Proof.
  intros Hr Hd Hs [Hdone|(Q & B & Hinv)]; split; simpl; auto. right. exists Q, B. split; [done|].
  by intros k a ?%elem_of_nil.
Qed.

Lemma created_inv g0 target c : created g0 target c -> sys_inv g0 target c.
Proof.
  intros [Hwf Ht (s0 & [Hdom [l Hq] Hcap] & Hrun) Hh Hc]. destruct c as [g s h cs]. simpl in *. subst.
  destruct (createTransition_spec g0 s0 target l) as (g' & s' & Hrun' & Hsame & Hr & Hup); try done.
  rewrite Hrun in Hrun'. simplify_eq. apply set_up_inv; auto.
  - intros k. by apply deps_proper.
  - by apply same_graph_size.
Qed.

Lemma currentAction_phase (s s' : state) : phase s' = phase s -> currentAction s' = currentAction s.
Proof. unfold currentAction. by intros ->. Qed.

Lemma step_dispatch_inv g0 target g s s' h c k a :
  nextReady s = Ret (Some (k, a), s') -> sys_inv g0 target (mkConfig g s h c) ->
  sys_inv g0 target (mkConfig g s' ((k, a) :: h) c).
Proof.
  intros Hn [Hr Hd Hs [(Hdone & _)|(Q & B & Hinv & Hact)]]; simpl in *.
  { unfold nextReady in Hn. by rewrite (FixedSizeQueue.rep_empty _ _ (di_queue _ _ Hdone)) in Hn. }
  pose proof (nextReady_spec _ _ _ _ _ _ Hinv) as Hspec. destruct Q as [|k' Q]; [congruence|].
  destruct Hspec as (s1 & Hrun & Hp & Hr1 & Hinv'). rewrite Hn in Hrun. simplify_eq.
  split; simpl; [done..|]. right. exists Q, B. split; [done|].
  rewrite (currentAction_phase _ _ Hp). intros j b [[= -> ->]|Hj]%elem_of_cons; eauto.
Qed.

Lemma currentAction_start (s : state) : phase s <> Done ->
  bool_decide (currentAction s = Start) = bool_decide (phase s = Starting).
Proof. unfold currentAction. by destruct (phase s). Qed.

Lemma step_work_inv g0 target g g' s h h' c k a v :
  h ≡ₚ (k, a) :: h' -> put k v g = Ret g' -> active v = bool_decide (a = Start) ->
  sys_inv g0 target (mkConfig g s h c) -> sys_inv g0 target (mkConfig g' s h' (k :: c)).
Proof.
  intros Hh Hput Hv [Hr Hd Hs [(_ & E & _)|(Q & B & Hinv & Hact)]]; simpl in *.
  { subst. by apply Permutation_nil_cons in Hh. }
  assert (Ha : a = currentAction s) by (apply (Hact k); rewrite Hh; by left). subst a.
  rewrite currentAction_start in Hv by apply Hinv.
  assert (Hh1 : h.*1 ≡ₚ k :: h'.*1) by (by rewrite Hh).
  destruct (work_spec g s Q h.*1 c B k h'.*1 v Hinv Hh1 Hv) as (g1 & Hput1 & Hinv1 & Hd1 & Hs1).
  rewrite Hput in Hput1. simplify_eq. split; simpl; [done|intros j; by rewrite Hd1|congruence|].
  right. exists Q, B. split; [done|]. intros j b Hj. apply (Hact j). rewrite Hh. by right.
Qed.

Lemma step_finish_inv g0 target g g' s s' h c c' k :
  c ≡ₚ k :: c' -> onNodeFinished k g s = Ret (g', s') ->
  sys_inv g0 target (mkConfig g s h c) -> sys_inv g0 target (mkConfig g' s' h c').
Proof.
  intros Hc Hrun [Hr Hd Hs [(_ & _ & E)|(Q & B & Hinv & Hact)]]; simpl in *.
  { subst. by apply Permutation_nil_cons in Hc. }
  destruct (onNodeFinished_spec g s Q h.*1 c B k c' Hinv Hc) as (g1 & s1 & Hrun1 & Hsame & Hr1 & Hfin).
  rewrite Hrun in Hrun1. simplify_eq.
  assert (Hd' : forall j, deps g1 j = deps g0 j) by (intros j; rewrite <- Hd; by apply deps_proper).
  assert (Hs' : DependencyGraph.size g1 = DependencyGraph.size g0) by (rewrite <- Hs; by apply same_graph_size).
  assert (Hempty : Q ++ h.*1 ++ c' ++ B = [] -> h = [] /\ c' = []).
  { intros (_ & (?%fmap_nil_inv & (? & _)%app_nil)%app_nil)%app_nil. done. }
  destruct Hfin as [Q' B' Hp Hinv' _ _|E _ _ Hup|E _ Hdone].
  - split; simpl; [done..|]. right. exists Q', B'. split; [done|].
    rewrite (currentAction_phase _ _ Hp). done.
  - destruct (Hempty E) as [-> ->]. by apply set_up_inv.
  - destruct (Hempty E) as [-> ->]. split; simpl; auto.
Qed.

Lemma step_inv g0 target c c' : sys_inv g0 target c -> tstep c c' -> sys_inv g0 target c'.
Proof.
  intros Hi Hst. destruct Hst; [by eapply step_dispatch_inv|by eapply step_work_inv|by eapply step_finish_inv].
Qed.

Lemma reachable_inv g0 target c : reachable g0 target c -> sys_inv g0 target c.
Proof.
  intros (c0 & Hc0 & Hsteps). apply created_inv in Hc0. induction Hsteps as [|c0 c1 c Hst _ IH]; [done|].
  apply IH. by eapply step_inv.
Qed.

(** ** The work left *)

Definition keys (g : graph) : list Key := elements (dom (nodes g) : gset Key).

(** The components that are not yet in the state the target asks for. *)
Definition outstanding (g : graph) (s : state) : list Key :=
  filter (fun k => act g k <> tgt s k) (keys g).

(** Every outstanding component is handed out, carried out and reported once. *)
Definition steps_left (c : config) : Z :=
  3 * Z.of_nat (length (outstanding (cgraph c) (cstate c)))
  + Z.of_nat (length (carried c)) - Z.of_nat (length (handed c)).

Lemma elem_of_keys g k : k ∈ keys g <-> is_Some (nodes g !! k).
Proof. unfold keys. by rewrite elem_of_elements, elem_of_dom. Qed.

Lemma NoDup_keys g : NoDup (keys g).
Proof. unfold keys. apply NoDup_elements. Qed.

Lemma length_keys g : length (keys g) = DependencyGraph.size g.
Proof. unfold keys, DependencyGraph.size. by rewrite <- size_dom. Qed.

Lemma si_wf g0 target c : sys_inv g0 target c -> wf (cgraph c).
Proof. by intros [_ _ _ [(Hd & _)|(Q & B & Hi & _)]]; [apply Hd|apply Hi]. Qed.

Lemma si_root g0 target c : sys_inv g0 target c -> is_Some (nodes (cgraph c) !! target).
Proof.
  intros [Ht _ _ [(Hd & _)|(Q & B & Hi & _)]]; rewrite <- Ht; [apply Hd|apply Hi].
Qed.

Lemma si_tgt g0 target c k :
  sys_inv g0 target c -> tgt (cstate c) k = true <-> reach g0 target k.
Proof.
  intros [Ht Hd _ Hp]. rewrite <- (reach_deps (cgraph c) g0) by done. rewrite <- Ht.
  destruct Hp as [(Hd' & _)|(Q & B & Hi & _)]; [apply Hd'|apply Hi].
Qed.

Lemma si_tgt_dom g0 target c k :
  sys_inv g0 target c -> tgt (cstate c) k = true -> k ∈ keys (cgraph c).
Proof.
  intros Hi Ht. apply elem_of_keys. apply (si_tgt _ _ _ _ Hi) in Ht.
  eapply reach_dom; [by eapply si_wf|by eapply si_root|].
  apply (reach_deps (cgraph c) g0); [apply Hi|done].
Qed.

Lemma elem_of_outstanding g0 target c k :
  sys_inv g0 target c ->
  k ∈ outstanding (cgraph c) (cstate c) <-> act (cgraph c) k <> tgt (cstate c) k.
Proof.
  intros Hi. unfold outstanding. rewrite list_elem_of_filter. split; [by intros [? _]|].
  intros Hne. split; [done|]. destruct (act (cgraph c) k) eqn:Ea.
  - by apply elem_of_keys, act_dom.
  - eapply si_tgt_dom; [done|]. by destruct (tgt _ k).
Qed.

Lemma todo_outstanding g s k : todo (phase s) (tgt s) g k = true -> act g k <> tgt s k.
Proof.
  destruct (phase s); simpl; rewrite andb_true_iff; intros [E1 E2];
    destruct (act g k), (tgt s k); done.
Qed.

Lemma left_nonneg g0 target c : sys_inv g0 target c -> (0 <= steps_left c)%Z.
Proof.
  intros Hinv. unfold steps_left.
  enough (length (handed c) <= length (outstanding (cgraph c) (cstate c))) by lia.
  pose proof Hinv as [_ _ _ [(_ & -> & _)|(Q & B & Hi & _)]]; [simpl; lia|].
  rewrite <- (length_fmap fst). apply submseteq_length, NoDup_submseteq.
  - pose proof (pi_nodup _ _ _ _ _ _ Hi) as Hn. by apply NoDup_app in Hn as (_ & _ & (? & _)%NoDup_app).
  - intros k Hk. apply (elem_of_outstanding g0 target); [done|].
    apply todo_outstanding, (pi_todo _ _ _ _ _ _ Hi). set_solver +Hk.
Qed.

(** Two configurations that differ in no component need the same work. *)
Lemma outstanding_same g0 target c c' :
  sys_inv g0 target c -> sys_inv g0 target c' ->
  (forall k, act (cgraph c') k = act (cgraph c) k) ->
  length (outstanding (cgraph c') (cstate c')) = length (outstanding (cgraph c) (cstate c)).
Proof.
  intros Hi Hi' Ha. apply Permutation_length, NoDup_Permutation; try apply NoDup_filter, NoDup_keys.
  intros k. rewrite (elem_of_outstanding _ _ _ _ Hi), (elem_of_outstanding _ _ _ _ Hi'), Ha.
  assert (E : tgt (cstate c') k = tgt (cstate c) k); [|by rewrite E].
  apply eq_true_iff_eq. by rewrite (si_tgt _ _ _ _ Hi), (si_tgt _ _ _ _ Hi').
Qed.

Lemma outstanding_work g0 target g g' s h h' c k a v :
  h ≡ₚ (k, a) :: h' -> put k v g = Ret g' -> active v = bool_decide (a = Start) ->
  sys_inv g0 target (mkConfig g s h c) -> sys_inv g0 target (mkConfig g' s h' (k :: c)) ->
  length (outstanding g s) = S (length (outstanding g' s)).
Proof.
  intros Hh Hput Hv Hi Hi'. pose proof Hi as [_ _ _ [(_ & E & _)|(Q & B & Hinv & Hact)]]; simpl in *.
  { subst. by apply Permutation_nil_cons in Hh. }
  assert (Ha : a = currentAction s) by (apply (Hact k); rewrite Hh; by left). subst a.
  rewrite currentAction_start in Hv by apply Hinv.
  assert (Hh1 : h.*1 ≡ₚ k :: h'.*1) by (by rewrite Hh).
  pose proof (work_todo g s Q h.*1 c B k h'.*1 Hinv Hh1) as Htodo.
  destruct (put_spec k v g) as (g1 & Hput1 & _ & _ & _ & _ & _ & _ & Hval).
  { eapply todo_dom; [apply Hinv..|done]. }
  assert (g1 = g') as -> by congruence.
  assert (Hact' : forall j, act g' j = if decide (j = k) then active v else act g j).
  { intros j. unfold act. rewrite Hval. by destruct (decide (j = k)). }
  change (S (length (outstanding g' s))) with (length (k :: outstanding g' s)).
  assert (Hk : act g' k = tgt s k).
  { rewrite Hact', decide_True, Hv by done. pose proof (pi_phase _ _ _ _ _ _ Hinv).
    destruct (phase s); simpl in *; apply andb_true_iff in Htodo as [Ht _];
      [by apply negb_true_iff in Ht as ->|by rewrite Ht|done]. }
  assert (Hout := fun j => elem_of_outstanding _ _ _ j Hi). assert (Hout' := fun j => elem_of_outstanding _ _ _ j Hi').
  simpl in Hout, Hout'. apply Permutation_length, NoDup_Permutation.
  - apply NoDup_filter, NoDup_keys.
  - apply NoDup_cons. split; [|apply NoDup_filter, NoDup_keys]. intros Hin%Hout'. by apply Hin.
  - intros j. rewrite elem_of_cons, Hout, Hout', Hact'. destruct (decide (j = k)) as [->|]; [|naive_solver].
    split; [by left|]. intros _. by apply todo_outstanding.
Qed.

(** Each step is one unit of the work left. *)
Lemma step_left g0 target c c' :
  sys_inv g0 target c -> sys_inv g0 target c' -> tstep c c' -> steps_left c' = (steps_left c - 1)%Z.
Proof.
  intros Hi Hi' Hst. unfold steps_left. destruct Hst as [g s s' h c k a Hn|g g' s h h' c k a v Hh Hput Hv|g g' s s' h c c' k Hc Hrun].
  - rewrite (outstanding_same g0 target (mkConfig g s h c)) by done. simpl. lia.
  - pose proof (outstanding_work _ _ _ _ _ _ _ _ _ _ _ Hh Hput Hv Hi Hi') as Ho.
    apply Permutation_length in Hh. simpl in *. lia.
  - rewrite (outstanding_same g0 target (mkConfig g s h c)); try done.
    + apply Permutation_length in Hc. simpl in *. lia.
    + simpl. pose proof Hi as [_ _ _ [(_ & _ & E)|(Q & B & Hinv & _)]]; simpl in *.
      { subst. by apply Permutation_nil_cons in Hc. }
      destruct (onNodeFinished_spec g s Q h.*1 c B k c' Hinv Hc) as (g1 & s1 & Hrun1 & Hsame & _).
      rewrite Hrun in Hrun1. simplify_eq. intros j. by apply act_proper.
Qed.

Lemma nsteps_left g0 target n c c' :
  sys_inv g0 target c -> nsteps tstep n c c' ->
  sys_inv g0 target c' /\ steps_left c' = (steps_left c - Z.of_nat n)%Z.
Proof.
  intros Hi Hn. revert Hi. induction Hn as [c|n c c1 c' Hst _ IH]; intros Hi; [split; [done|lia]|].
  assert (Hi1 : sys_inv g0 target c1) by (by eapply step_inv).
  destruct (IH Hi1) as [Hi' ->]. rewrite (step_left g0 target c c1) by done. split; [done|lia].
Qed.

(** ** The queue and the counter *)

(** What the queue and the pending counter stand for: [Q] is queued. *)
Record accounted (c : config) (Q : list Key) : Prop := {
  ac_queue : FixedSizeQueue.rep (next_nodes (cstate c)) Q;
  ac_room : FixedSizeQueue.capacity (next_nodes (cstate c)) = DependencyGraph.capacity (cgraph c);
  ac_once : NoDup (Q ++ (handed c).*1 ++ carried c);
  ac_sound k : k ∈ Q ++ (handed c).*1 ->
    todo (phase (cstate c)) (tgt (cstate c)) (cgraph c) k = true /\
    forall j, j ∈ pre (phase (cstate c)) (cgraph c) k -> settled (phase (cstate c)) (cgraph c) j = true;
  ac_complete k : todo (phase (cstate c)) (tgt (cstate c)) (cgraph c) k = true ->
    (forall j, j ∈ pre (phase (cstate c)) (cgraph c) k ->
       settled (phase (cstate c)) (cgraph c) j = true /\ j ∉ carried c) ->
    k ∈ Q ++ (handed c).*1;
  ac_pending : pending (cstate c) = Z.of_nat
    (length (filter (fun k => todo (phase (cstate c)) (tgt (cstate c)) (cgraph c) k = true) (keys (cgraph c)))
     + length (carried c));
  ac_range : (pending (cstate c) <= Z.of_nat (DependencyGraph.size (cgraph c)) < 2 ^ 64)%Z
}.

Lemma size_width g : wf g -> (Z.of_nat (DependencyGraph.size g) < 2 ^ 64)%Z.
Proof. intros Hwf. pose proof (wf_size _ Hwf). pose proof (wf_width _ Hwf). lia. Qed.

Lemma accounted_done c :
  done_inv (cgraph c) (cstate c) -> handed c = [] -> carried c = [] -> accounted c [].
Proof.
  intros [] Hh Hc. rename di_phase0 into Hph.
  assert (Hno : forall k, todo (phase (cstate c)) (tgt (cstate c)) (cgraph c) k = false).
  { intros k. rewrite Hph. simpl. rewrite di_active0. by destruct (tgt _ k). }
  split; rewrite ?Hh, ?Hc; try done; try (by intros k; rewrite Hno).
  - constructor.
  - by intros k ?%elem_of_nil.
  - rewrite di_pending0. replace (filter _ _) with (@nil Key); [done|]. symmetry.
    apply elem_of_nil_inv. intros k [E _]%list_elem_of_filter. by rewrite Hno in E.
  - rewrite di_pending0. split; [lia|]. by apply size_width.
Qed.

(** The nodes still to be worked on are those queued, handed out or blocked. *)
Lemma phase_todo g s Q run dn B : phase_inv g s Q run dn B ->
  Q ++ run ++ B ≡ₚ filter (fun k => todo (phase s) (tgt s) g k = true) (keys g).
Proof.
  intros Hi. apply NoDup_Permutation; [|apply NoDup_filter, NoDup_keys|].
  - eapply sublist_NoDup; [apply (pi_nodup _ _ _ _ _ _ Hi)|].
    apply sublist_app; [done|]. apply sublist_app; [done|]. by apply sublist_inserts_l.
  - intros k. rewrite list_elem_of_filter, elem_of_keys, <- (pi_todo _ _ _ _ _ _ Hi).
    split; [|tauto]. intros Ht. split; [done|]. by eapply todo_dom; [apply Hi..|].
Qed.

Lemma accounted_phase c Q B :
  phase_inv (cgraph c) (cstate c) Q (handed c).*1 (carried c) B -> accounted c Q.
Proof.
  intros Hi. pose proof Hi as []. pose proof (pi_bound _ _ _ _ _ _ Hi) as Hb. split; try done.
  - eapply sublist_NoDup; [apply pi_nodup0|]. apply sublist_app; [done|].
    apply sublist_app; [done|]. by apply sublist_inserts_r.
  - intros k Hk. split; [|by apply pi_ready0]. apply pi_todo0. set_solver +Hk.
  - intros k [Hk|[Hk|Hk]%elem_of_app]%pi_todo0%elem_of_app Hpre; [set_solver +Hk..|].
    exfalso. destruct (pi_blocked0 k Hk) as (_ & j & Hj & Hin). destruct (Hpre j Hj) as [Hs Hnc].
    assert (Hj3 : j ∈ Q ++ (handed c).*1 ++ B) by set_solver +Hin Hnc.
    apply pi_todo0, todo_settled in Hj3. congruence.
  - rewrite pi_pending0, <- (Permutation_length (phase_todo _ _ _ _ _ _ Hi)). rewrite !length_app. lia.
  - rewrite pi_pending0. split; [lia|by apply size_width].
Qed.

(** A report takes one off the counter or ends the phase. *)
Lemma report_counts g s Q run dn B k dn' : phase_inv g s Q run dn B -> dn ≡ₚ k :: dn' ->
  (1 <= pending s)%Z /\ exists g' s', onNodeFinished k g s = Ret (g', s') /\
    if bool_decide (pending s = 1%Z) then phase s' <> phase s
    else phase s' = phase s /\ pending s' = (pending s - 1)%Z.
Proof.
  intros Hinv Hc. destruct (onNodeFinished_spec _ _ _ _ _ _ _ _ Hinv Hc) as (g' & s' & -> & _ & _ & Hf).
  assert (Hp : pending s = Z.of_nat (S (length (Q ++ run ++ dn' ++ B)))).
  { rewrite (pi_pending _ _ _ _ _ _ Hinv), !length_app. rewrite Hc. simpl. lia. }
  split; [lia|]. exists g', s'. split; [done|].
  destruct Hf as [Q' B' Hph Hi' Hperm _|E Hph Hne _|E Hph Hd].
  - assert (Hlen : length (Q' ++ run ++ dn' ++ B') = length (Q ++ run ++ dn' ++ B)).
    { apply Permutation_length in Hperm. rewrite !length_app in *. lia. }
    assert (length (Q' ++ run ++ dn' ++ B') <> 0).
    { intros E%length_zero_iff_nil. by apply (pi_some _ _ _ _ _ _ Hi'). }
    rewrite bool_decide_eq_false_2 by lia. split; [done|].
    rewrite (pi_pending _ _ _ _ _ _ Hi'). lia.
  - rewrite E in Hp. rewrite bool_decide_eq_true_2 by done. congruence.
  - rewrite E in Hp. rewrite bool_decide_eq_true_2, (di_phase _ _ Hd) by done. congruence.
Qed.

(** ** Deadlocks *)

(** The dependencies can be numbered so that every edge goes down. *)
Definition acyclic g : Prop := exists rank : Key -> nat, forall a b, dep g a b -> rank b < rank a.

(** An executable check that a numbering goes down along every edge. *)
Definition rank_check (rank : Key -> nat) g : bool :=
  forallb (fun an => forallb (fun b => rank b <? rank an.1) (depends_on an.2)) (map_to_list (nodes g)).

Lemma rank_check_sound rank g : rank_check rank g = true -> acyclic g.
Proof.
  intros Hall. exists rank. intros a b. unfold dep, deps.
  destruct (nodes g !! a) as [n|] eqn:Ha; [|by intros ?%elem_of_nil]. simpl. intros Hb%list_elem_of_In.
  unfold rank_check in Hall. rewrite forallb_forall in Hall.
  apply elem_of_map_to_list, list_elem_of_In, Hall in Ha. rewrite forallb_forall in Ha.
  by apply Ha, Nat.ltb_lt in Hb.
Qed.

Lemma no_descent (B : list Key) (f : Key -> nat) :
  (forall k, k ∈ B -> exists j, j ∈ B /\ f j < f k) -> B = [].
Proof.
  intros Hdesc. assert (Hno : forall n k, k ∈ B -> f k < n -> False).
  { induction n as [|n IH]; intros k Hk Hn; [lia|].
    destruct (Hdesc k Hk) as (j & Hj & Hlt). apply (IH j); [done|lia]. }
  apply elem_of_nil_inv. intros k Hk. apply (Hno (S (f k)) k Hk). lia.
Qed.

Lemma rank_le_sum (rank : Key -> nat) B k : k ∈ B -> rank k <= sum_list (rank <$> B).
Proof.
  induction B as [|j B IH]; [by intros ?%elem_of_nil|]. intros [->|Hk]%elem_of_cons; simpl; [lia|].
  etrans; [exact (IH Hk)|apply Nat.le_add_l].
Qed.

(** With nothing queued, handed out or to report, nothing can be blocked. *)
Lemma blocked_none g s B : acyclic g -> phase_inv g s [] [] [] B -> B = [].
Proof.
  intros [rank Hrank] Hinv. pose proof (pi_wf _ _ _ _ _ _ Hinv) as Hwf.
  assert (Hpre : forall k, k ∈ B -> exists j, j ∈ B /\ j ∈ pre (phase s) g k).
  { intros k Hk. destruct (pi_blocked _ _ _ _ _ _ Hinv k Hk) as (_ & j & ? & ?). eauto. }
  destruct (phase s) eqn:Hph; simpl in Hpre; [|apply (no_descent B rank)|by destruct (pi_phase _ _ _ _ _ _ Hinv)].
  - apply (no_descent B (fun k => sum_list (rank <$> B) - rank k)). intros k Hk.
    destruct (Hpre k Hk) as (j & Hj & Hjk). exists j. split; [done|].
    apply (wf_mirror g Hwf), Hrank in Hjk. pose proof (rank_le_sum rank B j Hj). lia.
  - intros k Hk. destruct (Hpre k Hk) as (j & Hj & Hjk). exists j. split; [done|]. by apply Hrank.
Qed.

Lemma not_stuck g0 target c :
  acyclic (cgraph c) -> sys_inv g0 target c -> isFinished (cstate c) = false ->
  (exists k s', nextReady (cstate c) = Ret (Some (k, currentAction (cstate c)), s')) \/
  handed c <> [] \/ carried c <> [].
Proof.
  intros Hac Hr Hf. unfold isFinished in Hf. apply bool_decide_eq_false in Hf.
  pose proof Hr as [_ Hd _ [(Hdone & _)|(Q & B & Hinv & _)]]; [by destruct Hf; apply Hdone|].
  destruct Q as [|k Q].
  2: { left. destruct (nextReady_spec _ _ _ _ _ _ Hinv) as (s' & Hn & _). eauto. }
  right. destruct (handed c) as [|x h]; [|by left]. destruct (carried c) as [|y cs]; [|by right].
  exfalso. apply (pi_some _ _ _ _ _ _ Hinv). simpl. by eapply blocked_none.
Qed.

Lemma acyclic_deps g g' : (forall k, deps g' k = deps g k) -> acyclic g -> acyclic g'.
Proof. intros Hd [rank Hr]. exists rank. intros a b. unfold dep. rewrite Hd. apply Hr. Qed.

(** ** The theorems *)

(** C1: order of the actions.  Whatever the interleaving of the main thread and
    the workers, a component that is handed to a worker to be started belongs to
    the target, is inactive, and everything it depends on is active until the
    worker is done, and nothing outside the target is active any more; one that
    is handed out to be stopped does not belong to the target, is active, and
    nothing that depends on it is active. *)
Theorem actions_in_dependency_order g0 target c k a :
  reachable g0 target c -> (k, a) ∈ handed c ->
  let g := cgraph c in
  match a with
  | Start => reach g0 target k /\ act g k = false /\
             (forall j, dep g0 k j -> act g j = true) /\
             (forall j, act g j = true -> reach g0 target j)
  | Stop => ~ reach g0 target k /\ act g k = true /\ forall j, dep g0 j k -> act g j = false
  end.
Proof.
  intros Hr%reachable_inv Hk. pose proof Hr as [_ Hd _ [(_ & E & _)|(Q & B & Hinv & Hact)]].
  { rewrite E in Hk. by apply elem_of_nil in Hk. }
  assert (Htgt := fun j => si_tgt _ _ _ j Hr). assert (Hk1 : k ∈ (handed c).*1) by (by eapply (list_elem_of_fmap_2 fst) in Hk).
  assert (Ht : todo (phase (cstate c)) (tgt (cstate c)) (cgraph c) k = true).
  { apply (pi_todo _ _ _ _ _ _ Hinv). set_solver +Hk1. }
  assert (Hpre := pi_ready _ _ _ _ _ _ Hinv k ltac:(set_solver +Hk1)).
  rewrite (Hact k a Hk). unfold currentAction, dep. pose proof (pi_phase _ _ _ _ _ _ Hinv).
  destruct (phase (cstate c)) eqn:Hph; simpl in *; [| |done]; apply andb_true_iff in Ht as [Ht Ha].
  - split_and!; [|done|].
    + intros Hre%Htgt. by rewrite Hre in Ht.
    + intros j Hj. rewrite <- Hd in Hj. apply negb_true_iff, Hpre. by apply (wf_mirror _ (pi_wf _ _ _ _ _ _ Hinv)).
  - split_and!; [by apply Htgt|by apply negb_true_iff|by setoid_rewrite <- Hd|].
    intros j Hj. by apply Htgt, (pi_starting _ _ _ _ _ _ Hinv).
Qed.

(** C2: the transition never fails, loses no node and never miscounts.  In every
    reachable configuration the queue holds, without repetition, nodes that are
    to be worked on and ready, and every ready node is in the queue or with a
    worker, unless one of its prerequisites is carried out but not reported yet:
    no push was refused, those of the setup, whose result is not looked at,
    included.  The pending counter is exactly the number of nodes still to be
    worked on in this phase plus those carried out and not reported; it is at
    most the size of the graph and never wraps.  Asking for the next node
    returns the head of the queue, and reporting any carried out node returns:
    it takes exactly one off the counter, or, when that was the last one, ends
    the phase.  So no assertion fires and no lookup misses its key. *)
Theorem transition_never_aborts g0 target c :
  reachable g0 target c ->
  exists Q, accounted c Q /\
    match Q with
    | [] => nextReady (cstate c) = Ret (None, cstate c)
    | k :: Q' => exists s', nextReady (cstate c) = Ret (Some (k, currentAction (cstate c)), s') /\
        FixedSizeQueue.rep (next_nodes s') Q' /\ pending s' = pending (cstate c)
    end /\
    forall k, k ∈ carried c -> (1 <= pending (cstate c))%Z /\
      exists g' s', onNodeFinished k (cgraph c) (cstate c) = Ret (g', s') /\
        if bool_decide (pending (cstate c) = 1%Z) then phase s' <> phase (cstate c)
        else phase s' = phase (cstate c) /\ pending s' = (pending (cstate c) - 1)%Z.
Proof.
  intros Hr%reachable_inv. pose proof Hr as [_ _ _ [(Hdone & Hh & Hc)|(Q & B & Hinv & _)]].
  - exists []. split_and!; [by apply accounted_done| |rewrite Hc; by intros k ?%elem_of_nil].
    unfold nextReady. by rewrite (FixedSizeQueue.rep_empty _ _ (di_queue _ _ Hdone)).
  - exists Q. split_and!; [by eapply accounted_phase| |].
    + pose proof (nextReady_spec _ _ _ _ _ _ Hinv) as Hn. destruct Q as [|k Q]; [done|].
      destruct Hn as (s' & -> & _ & _ & Hinv'). exists s'. split_and!; [done|apply Hinv'|].
      rewrite (pi_pending _ _ _ _ _ _ Hinv), (pi_pending _ _ _ _ _ _ Hinv'). simpl.
      rewrite !length_app. simpl. rewrite !length_app. lia.
    + intros k [c' Hc]%elem_of_Permutation. by eapply report_counts.
Qed.

(** C3: a finished transition has reached its target: exactly the nodes of the
    target's subgraph are active, and nothing is left with the workers. *)
Theorem finished_reaches_target g0 target c :
  reachable g0 target c -> isFinished (cstate c) = true ->
  (forall k, act (cgraph c) k = true <-> reach g0 target k) /\ handed c = [] /\ carried c = [].
Proof.
  intros Hr%reachable_inv Hf. unfold isFinished in Hf. apply bool_decide_eq_true in Hf.
  pose proof Hr as [_ _ _ [(Hdone & Hh & Hc)|(Q & B & Hinv & _)]].
  - split; [|done]. intros k. rewrite (di_active _ _ Hdone). by apply (si_tgt _ _ _ _ Hr).
  - by apply (pi_phase _ _ _ _ _ _ Hinv) in Hf.
Qed.

(** C4: termination, exactly.  However the steps interleave, a transition that
    has finished took three steps (hand out, carry out, report) for each
    component whose state differed from what the target asks for, and a
    transition that has not finished took fewer than the bound that follows. *)
Theorem transition_terminates g0 target c0 c n :
  created g0 target c0 -> nsteps tstep n c0 c ->
  n <= 3 * DependencyGraph.size g0 /\
  (isFinished (cstate c) = true -> n = 3 * length (outstanding (cgraph c0) (cstate c0))).
Proof.
  intros Hc0 Hn. pose proof (created_inv _ _ _ Hc0) as Hi0.
  destruct (nsteps_left g0 target n c0 c Hi0 Hn) as [Hi Hl].
  pose proof (left_nonneg _ _ _ Hi) as Hnn.
  assert (Hl0 : steps_left c0 = (3 * Z.of_nat (length (outstanding (cgraph c0) (cstate c0))))%Z).
  { unfold steps_left. rewrite (cr_handed _ _ _ Hc0), (cr_carried _ _ _ Hc0). simpl length. lia. }
  assert (Hb : length (outstanding (cgraph c0) (cstate c0)) <= DependencyGraph.size g0).
  { rewrite <- (si_size _ _ _ Hi0), <- length_keys. apply length_filter. }
  split; [lia|]. unfold isFinished. intros Hf%bool_decide_eq_true.
  pose proof Hi as [_ _ _ [(Hdone & Hh & Hcc)|(Q & B & Hinv & _)]].
  - enough (Ho : outstanding (cgraph c) (cstate c) = []).
    { unfold steps_left in Hl. rewrite Ho, Hh, Hcc in Hl. simpl length in Hl.
      unfold steps_left in Hl0. lia. }
    apply elem_of_nil_inv. intros k. rewrite (elem_of_outstanding _ _ _ _ Hi). intros Hk.
    by apply Hk, (di_active _ _ Hdone).
  - by apply (pi_phase _ _ _ _ _ _ Hinv) in Hf.
Qed.

(** C5: no deadlock.  On an acyclic graph a transition that is not finished
    always has a node to hand out, a node with a worker, or a carried out node
    to report. *)
Theorem transition_deadlock_free g0 target c :
  acyclic g0 -> reachable g0 target c -> isFinished (cstate c) = false ->
  (exists k s', nextReady (cstate c) = Ret (Some (k, currentAction (cstate c)), s')) \/
  handed c <> [] \/ carried c <> [].
Proof.
  intros Hac Hr%reachable_inv Hf. eapply not_stuck; [|exact Hr|exact Hf].
  eapply acyclic_deps; [apply (si_deps _ _ _ Hr)|exact Hac].
Qed.

End System.
(** ** A schedule, to run the system on examples

    Hand out everything that is ready first, then carry out the oldest, then
    report. *)

Section Schedule.
Context `{IterOrder nat} `{BuildMode}.

Definition carry (a : Action) (v : RunTarget.t) : RunTarget.t :=
  match a with Start => (RunTarget.activate v).2 | Stop => (RunTarget.deactivate v).2 end.

Definition sched (c : config (Key := nat) (T := RunTarget.t)) : option config :=
  match nextReady (cstate c) with
  | Ret (Some (k, a), s') => Some (mkConfig (cgraph c) s' ((k, a) :: handed c) (carried c))
  | _ =>
    match handed c, carried c with
    | (k, a) :: h', _ =>
        match v ← DependencyGraph.get (cgraph c) k; put k (carry a v) (cgraph c) with
        | Ret g' => Some (mkConfig g' (cstate c) h' (k :: carried c))
        | _ => None
        end
    | [], k :: c' =>
        match onNodeFinished k (cgraph c) (cstate c) with
        | Ret (g', s') => Some (mkConfig g' s' [] c')
        | _ => None
        end
    | [], [] => None
    end
  end.

Fixpoint sched_n (n : nat) (c : config) : option config :=
  match n with 0 => Some c | S n' => c1 ← sched c; sched_n n' c1 end.

Lemma carry_active a v : active (carry a v) = bool_decide (a = Start).
Proof. by destruct a. Qed.

Lemma sched_tstep c c' : sched c = Some c' -> tstep c c'.
Proof.
  destruct c as [g s h cs]. unfold sched. simpl. destruct (nextReady s) as [[[[k a]|] s']|] eqn:Hn.
  { intros [= <-]. by apply step_dispatch. }
  all: destruct h as [|[k a] h]; [destruct cs as [|k cs]; [done|]|].
  1, 3: destruct (onNodeFinished k g s) as [[g1 s1]|] eqn:Hf; intros [= <-]; by eapply step_finish.
  all: destruct (DependencyGraph.get g k) as [v|]; [|done]; simpl;
    destruct (put k (carry a v) g) as [g'|] eqn:Hp; intros [= <-];
    eapply step_work; [done|done|apply carry_active].
Qed.

Lemma sched_n_steps n c c' : sched_n n c = Some c' -> nsteps tstep n c c'.
Proof.
  revert c. induction n as [|n IH]; intros c; simpl.
  - intros [= <-]. constructor.
  - intros (c1 & Hc1 & Hn)%bind_Some. econstructor; [by apply sched_tstep|by apply IH].
Qed.

End Schedule.

(** The example: from Run Target 2, which needs 3, to Run Target 0, which needs 1. *)
Module Example.

#[local] Instance order : IterOrder nat := map_order.
#[local] Instance build : BuildMode := debug_build.

Definition g0 : DependencyGraph.t nat RunTarget.t :=
  DependencyGraph.mk 4 (list_to_map
    [(0, mkNode (RunTarget.mk 10%Z false) [1] [] false);
     (1, mkNode (RunTarget.mk 11%Z false) [] [0] false);
     (2, mkNode (RunTarget.mk 12%Z true) [3] [] false);
     (3, mkNode (RunTarget.mk 13%Z true) [] [2] false)])
    (FixedSizeQueue.make 3).

Definition start : config :=
  match createTransition 0 g0 (Transition.make g0) with
  | Ret (g, s) => mkConfig g s [] []
  | Abort _ => mkConfig g0 (Transition.make g0) [] []
  end.

Definition after (n : nat) : config := default start (sched_n n start).

Lemma g0_wf : wf g0.
Proof. apply wf_check_sound; [done|]. by vm_compute. Qed.

Lemma g0_acyclic : acyclic g0.
Proof.
  apply (rank_check_sound (fun k => match k with 0 | 2 => 1 | _ => 0 end)). vm_compute. reflexivity.
Qed.

Lemma start_created : created g0 0 start.
Proof.
  split; [apply g0_wf|by eexists| |by vm_compute|by vm_compute].
  exists (Transition.make g0). split; [apply make_reusable|]. by vm_compute.
Qed.

Lemma after_steps n : sched_n n start = Some (after n) -> nsteps tstep n start (after n).
Proof. apply sched_n_steps. Qed.

Lemma after_reachable n : sched_n n start = Some (after n) -> reachable g0 0 (after n).
Proof.
  intros Hn. exists start. split; [apply start_created|]. apply rtc_nsteps; exists n; by apply after_steps.
Qed.

Lemma actions_in_dependency_order_witness :
  (0, Start) ∈ handed (after 10) /\ act (cgraph (after 10)) 0 = false /\
  (forall j, dep g0 0 j -> act (cgraph (after 10)) j = true).
Proof.
  assert (Hr : reachable g0 0 (after 10)) by (apply after_reachable; vm_compute; reflexivity).
  assert (Hin : (0, Start) ∈ handed (after 10)) by (vm_compute; left).
  destruct (actions_in_dependency_order g0 0 (after 10) 0 Start Hr Hin) as (_ & Ha & Hd & _).
  exact (conj Hin (conj Ha Hd)).
Defined.

Lemma transition_never_aborts_witness :
  2 ∈ carried (after 2) /\ exists Q, accounted (after 2) Q /\
  exists g' s', onNodeFinished 2 (cgraph (after 2)) (cstate (after 2)) = Ret (g', s').
Proof.
  assert (Hr : reachable g0 0 (after 2)) by (apply after_reachable; vm_compute; reflexivity).
  assert (Hin : 2 ∈ carried (after 2)) by (vm_compute; left).
  destruct (transition_never_aborts g0 0 (after 2) Hr) as (Q & Hq & _ & Hf).
  destruct (Hf 2 Hin) as (_ & g' & s' & Hrun & _).
  exact (conj Hin (ex_intro _ Q (conj Hq (ex_intro _ g' (ex_intro _ s' Hrun))))).
Defined.

Lemma finished_reaches_target_witness :
  isFinished (cstate (after 12)) = true /\ act (cgraph (after 12)) 1 = true /\ reach g0 0 1.
Proof.
  assert (Hr : reachable g0 0 (after 12)) by (apply after_reachable; vm_compute; reflexivity).
  assert (Hf : isFinished (cstate (after 12)) = true) by (vm_compute; reflexivity).
  assert (Ha : act (cgraph (after 12)) 1 = true) by (vm_compute; reflexivity).
  exact (conj Hf (conj Ha (proj1 (proj1 (finished_reaches_target g0 0 (after 12) Hr Hf) 1) Ha))).
Defined.

Lemma transition_terminates_witness :
  isFinished (cstate (after 12)) = true /\ 12 = 3 * length (outstanding (cgraph start) (cstate start)).
Proof.
  assert (Hs : nsteps tstep 12 start (after 12)) by (apply after_steps; vm_compute; reflexivity).
  assert (Hf : isFinished (cstate (after 12)) = true) by (vm_compute; reflexivity).
  exact (conj Hf (proj2 (transition_terminates g0 0 start (after 12) 12 start_created Hs) Hf)).
Defined.

Lemma transition_deadlock_free_witness :
  isFinished (cstate (after 3)) = false /\
  ((exists k s', nextReady (cstate (after 3)) = Ret (Some (k, currentAction (cstate (after 3))), s')) \/
   handed (after 3) <> [] \/ carried (after 3) <> []).
Proof.
  assert (Hr : reachable g0 0 (after 3)) by (apply after_reachable; vm_compute; reflexivity).
  assert (Hf : isFinished (cstate (after 3)) = false) by (vm_compute; reflexivity).
  exact (conj Hf (transition_deadlock_free g0 0 (after 3) g0_acyclic Hr Hf)).
Defined.

End Example.

End TransitionSystem.
