(* ===== verification/Graphs.v ===== *)
(** * The graph of the process group

    [Graph] (process_group_manager/details/graph.hpp, graph.cpp): the state of
    the process group, the transition in progress and the jobs with the workers.
    All of it runs on the main thread.  The job queue and the process component
    are used through interfaces ([WorkerQueue], [ProcessNode]).  The proofs are
    in [GraphProofs]. *)

From stdpp Require Import prelude fin_maps gmap strings.
From S2P Require Import Prelude Queues Depgraph Components Transitions.

(** ** Component tasks and events *)

Inductive ComponentTaskType :=
| kActivate
| kDeactivate.

(** A stop token names the stop source it belongs to. *)
Record ComponentTask := mkTask {
  type : ComponentTaskType;
  component : IdentifierHash;
  stop_token : nat
}.

#[export] Instance ComponentTaskType_eq_dec : EqDecision ComponentTaskType.
Proof. solve_decision. Defined.

(** The queue to the worker threads, as its producer sees it: a push is accepted
    or refused with an error.  A push that times out is tried again; [patience]
    bounds how often that happens before the workers take a job. *)
Class WorkerQueue (Q : Type) := {
  wq_push : ComponentTask -> Q -> (unit + ConcurrencyErrc) * Q;
  wq_accepted : Q -> list ComponentTask;
  wq_patience : Q -> nat;
  wq_push_ok task q q' : wq_push task q = (inl tt, q') -> wq_accepted q' = wq_accepted q ++ [task];
  wq_push_error task q q' e : wq_push task q = (inr e, q') -> wq_accepted q' = wq_accepted q;
  wq_push_timeout task q q' :
    wq_push task q = (inr kErrTimeout, q') -> wq_patience q' < wq_patience q
}.

(** What the graph needs of a process component beyond [IComponent]. *)
Class ProcessNode (P : Type) := {
  pn_component :: IComponent P;
  getPid : P -> Z
}.

(** [Graph::Component] *)
Inductive Component (P : Type) :=
| Process (p : P)
| Target (r : RunTarget.t).
Arguments Process {P} p.
Arguments Target {P} r.

(** [componentOf(c)] and the virtual calls through it. *)
Definition component_active `{ProcessNode P} (c : Component P) : bool :=
  match c with Process p => active p | Target r => active r end.
Definition component_identifier `{ProcessNode P} (c : Component P) : IdentifierHash :=
  match c with Process p => getIdentifier p | Target r => getIdentifier r end.
Definition component_deactivate `{ProcessNode P} (c : Component P) : RequestResult * Component P :=
  match c with
  | Process p => ((deactivate p).1, Process (deactivate p).2)
  | Target r => ((deactivate r).1, Target (deactivate r).2)
  end.

#[export] Instance Component_component `{ProcessNode P} : IComponent (Component P).
Proof.
  refine {| active := component_active; getIdentifier := component_identifier;
            deactivate := component_deactivate |}.
  - intros [p|r]; [apply deactivate_inactive|done].
  - intros [p|r]; [apply deactivate_identifier|done].
Defined.

(** [ComponentEvent]; the completion slot of a request is named by a number, and
    absent for a null pointer. *)
Inductive ComponentEvent :=
| ActivationSuccessful (node_identifier : IdentifierHash)
| ActivationFailed (node_identifier : IdentifierHash) (reason : RequestResult)
| DeactivationComplete (node_identifier : IdentifierHash)
| UnexpectedTermination (node_identifier : IdentifierHash)
| SupervisionFailure (process_identifier : IdentifierHash)
| JobSkipped (node_identifier : IdentifierHash)
| GetActiveRunTarget (completion : option nat)
| SetRequestedRunTarget (run_target : IdentifierHash) (completion : option nat).

Inductive GraphState :=
| kGraphSuccess
| kInTransition
| kAborting
| kUndefinedState.

#[export] Instance GraphState_eq_dec : EqDecision GraphState.
Proof. solve_decision. Defined.

Inductive RunTargetActivationSource :=
| kInitialActivation
| kStateManagerRequest
| kRecoveryAction.

#[export] Instance RunTargetActivationSource_eq_dec : EqDecision RunTargetActivationSource.
Proof. solve_decision. Defined.

Record PendingTransition := mkPending {
  run_target : IdentifierHash;
  source : RunTargetActivationSource
}.

(** [state_results[new_state][old_state]] *)
Definition state_results (new_state old_state : GraphState) : GraphState :=
  match new_state, old_state with
  | kGraphSuccess, (kGraphSuccess | kInTransition) => kGraphSuccess
  | kGraphSuccess, (kAborting | kUndefinedState) => kUndefinedState
  | kInTransition, kAborting => kAborting
  | kInTransition, _ => kInTransition
  | kAborting, (kInTransition | kAborting) => kAborting
  | kAborting, (kGraphSuccess | kUndefinedState) => kUndefinedState
  | kUndefinedState, kInTransition => kAborting
  | kUndefinedState, _ => kUndefinedState
  end.

Module Graph.

(** [off_state_name], [recovery_state_name] *)
Definition off_state_name : string := "Off".
Definition recovery_state_name : string := "fallback_run_target".

(** The parts of the configuration the graph is built from. *)
Record ComponentConfig := mkComponentConfig {
  component_name : string;
  component_depends_on : list string
}.
Record RunTargetConfig := mkRunTargetConfig {
  run_target_name : string;
  run_target_depends_on : list string;
  transition_timeout_ms : Z
}.
Record GraphConfig := mkGraphConfig {
  components_ : list ComponentConfig;
  run_targets_ : list RunTargetConfig;
  fallback_depends_on : list string;
  initial_run_target_ : string
}.

Section Graph.
Context `{!IterOrder IdentifierHash} {P : Type} `{ProcessNode P} {Q : Type} `{WorkerQueue Q} `{BuildMode}.
(** [IdentifierHash{name}], and the construction of a process node. *)
Context (hash : string -> IdentifierHash) (make_process : ComponentConfig -> P).

Notation graph := (DependencyGraph.t IdentifierHash (Component P)).

Record t := mk {
  jobs_in_progress_ : Z;
  nodes_ : graph;
  transition_ : Transition.State IdentifierHash;
  current_transition_ : bool;
  state_ : GraphState;
  requested_state_ : IdentifierHash;
  job_queue_ : Q;
  is_initial_state_transition_ : bool;
  transition_source_ : RunTargetActivationSource;
  pending_ : PendingTransition;
  request_start_time_ : Z;
  stop_source_ : nat;
  stop_requested_ : gset nat;
  off_state_transition_timeout_ : Z;
  active_run_target_callback_ : bool;
  activations_ : list (IdentifierHash * RunTargetActivationSource)
}.

Definition set_jobs (v : Z) (g : t) : t :=
  mk v (nodes_ g) (transition_ g) (current_transition_ g) (state_ g) (requested_state_ g) (job_queue_ g)
     (is_initial_state_transition_ g) (transition_source_ g) (pending_ g) (request_start_time_ g)
     (stop_source_ g) (stop_requested_ g) (off_state_transition_timeout_ g)
     (active_run_target_callback_ g) (activations_ g).
Definition set_transition (n : graph) (s : Transition.State IdentifierHash) (g : t) : t :=
  mk (jobs_in_progress_ g) n s (current_transition_ g) (state_ g) (requested_state_ g) (job_queue_ g)
     (is_initial_state_transition_ g) (transition_source_ g) (pending_ g) (request_start_time_ g)
     (stop_source_ g) (stop_requested_ g) (off_state_transition_timeout_ g)
     (active_run_target_callback_ g) (activations_ g).
Definition set_nodes (n : graph) (g : t) : t := set_transition n (transition_ g) g.
Definition set_current (g : t) : t :=
  mk (jobs_in_progress_ g) (nodes_ g) (transition_ g) true (state_ g) (requested_state_ g) (job_queue_ g)
     (is_initial_state_transition_ g) (transition_source_ g) (pending_ g) (request_start_time_ g)
     (stop_source_ g) (stop_requested_ g) (off_state_transition_timeout_ g)
     (active_run_target_callback_ g) (activations_ g).
Definition set_state_stop (v : GraphState) (src : nat) (stopped : gset nat) (g : t) : t :=
  mk (jobs_in_progress_ g) (nodes_ g) (transition_ g) (current_transition_ g) v (requested_state_ g)
     (job_queue_ g) (is_initial_state_transition_ g) (transition_source_ g) (pending_ g)
     (request_start_time_ g) src stopped (off_state_transition_timeout_ g)
     (active_run_target_callback_ g) (activations_ g).
Definition set_requested (v : IdentifierHash) (g : t) : t :=
  mk (jobs_in_progress_ g) (nodes_ g) (transition_ g) (current_transition_ g) (state_ g) v (job_queue_ g)
     (is_initial_state_transition_ g) (transition_source_ g) (pending_ g) (request_start_time_ g)
     (stop_source_ g) (stop_requested_ g) (off_state_transition_timeout_ g)
     (active_run_target_callback_ g) (activations_ g).
Definition set_job_queue (v : Q) (g : t) : t :=
  mk (jobs_in_progress_ g) (nodes_ g) (transition_ g) (current_transition_ g) (state_ g)
     (requested_state_ g) v (is_initial_state_transition_ g) (transition_source_ g) (pending_ g)
     (request_start_time_ g) (stop_source_ g) (stop_requested_ g) (off_state_transition_timeout_ g)
     (active_run_target_callback_ g) (activations_ g).
Definition set_initial (v : bool) (g : t) : t :=
  mk (jobs_in_progress_ g) (nodes_ g) (transition_ g) (current_transition_ g) (state_ g)
     (requested_state_ g) (job_queue_ g) v (transition_source_ g) (pending_ g)
     (request_start_time_ g) (stop_source_ g) (stop_requested_ g) (off_state_transition_timeout_ g)
     (active_run_target_callback_ g) (activations_ g).
Definition set_source (v : RunTargetActivationSource) (g : t) : t :=
  mk (jobs_in_progress_ g) (nodes_ g) (transition_ g) (current_transition_ g) (state_ g)
     (requested_state_ g) (job_queue_ g) (is_initial_state_transition_ g) v (pending_ g)
     (request_start_time_ g) (stop_source_ g) (stop_requested_ g) (off_state_transition_timeout_ g)
     (active_run_target_callback_ g) (activations_ g).
Definition set_pending_ (v : PendingTransition) (g : t) : t :=
  mk (jobs_in_progress_ g) (nodes_ g) (transition_ g) (current_transition_ g) (state_ g)
     (requested_state_ g) (job_queue_ g) (is_initial_state_transition_ g) (transition_source_ g) v
     (request_start_time_ g) (stop_source_ g) (stop_requested_ g) (off_state_transition_timeout_ g)
     (active_run_target_callback_ g) (activations_ g).
Definition setRequestStartTime (now : Z) (g : t) : t :=
  mk (jobs_in_progress_ g) (nodes_ g) (transition_ g) (current_transition_ g) (state_ g)
     (requested_state_ g) (job_queue_ g) (is_initial_state_transition_ g) (transition_source_ g)
     (pending_ g) now (stop_source_ g) (stop_requested_ g) (off_state_transition_timeout_ g)
     (active_run_target_callback_ g) (activations_ g).
Definition registerActiveRunTargetCallback (g : t) : t :=
  mk (jobs_in_progress_ g) (nodes_ g) (transition_ g) (current_transition_ g) (state_ g)
     (requested_state_ g) (job_queue_ g) (is_initial_state_transition_ g) (transition_source_ g)
     (pending_ g) (request_start_time_ g) (stop_source_ g) (stop_requested_ g)
     (off_state_transition_timeout_ g) true (activations_ g).
Definition notify_activation (a : IdentifierHash * RunTargetActivationSource) (g : t) : t :=
  mk (jobs_in_progress_ g) (nodes_ g) (transition_ g) (current_transition_ g) (state_ g)
     (requested_state_ g) (job_queue_ g) (is_initial_state_transition_ g) (transition_source_ g)
     (pending_ g) (request_start_time_ g) (stop_source_ g) (stop_requested_ g)
     (off_state_transition_timeout_ g) (active_run_target_callback_ g) (activations_ g ++ [a]).

(** ** Building the graph *)

(** The loops of [CreateDependencyGraph] over the components and the Run Targets:
    create the node, remember its dependencies. *)
Definition emplace_component (acc : graph * list (IdentifierHash * list string)) (c : ComponentConfig) :
    outcome (graph * list (IdentifierHash * list string)) :=
  '(index, g) ← DependencyGraph.try_emplace (hash (component_name c)) (Process (make_process c)) acc.1;
  Ret (g, acc.2 ++ [(index, component_depends_on c)]).

Definition emplace_run_target (acc : graph * list (IdentifierHash * list string)) (r : RunTargetConfig) :
    outcome (graph * list (IdentifierHash * list string)) :=
  let id := hash (run_target_name r) in
  '(index, g) ← DependencyGraph.try_emplace id (Target (RunTarget.make id)) acc.1;
  Ret (g, acc.2 ++ [(index, run_target_depends_on r)]).

(** The timeout of the last Run Target named Off, if there is one. *)
Definition off_timeout (l : list RunTargetConfig) : option Z :=
  foldl (fun o r => if bool_decide (run_target_name r = off_state_name)
                    then Some (transition_timeout_ms r) else o) None l.

Definition kDefaultOffStateTransitionTimeout : Z := 3000.

Definition wire (g : graph) (e : IdentifierHash * list string) : outcome graph :=
  foldM (fun g dep => DependencyGraph.addDependency e.1 (hash dep) g) g e.2.

Definition CreateDependencyGraph (g : graph) (config : GraphConfig) : outcome (graph * Z) :=
  acc1 ← foldM emplace_component (g, []) (components_ config);
  acc2 ← foldM emplace_run_target acc1 (run_targets_ config);
  let '(g2, deps) := acc2 in
  '(g3, timeout) ← match off_timeout (run_targets_ config) with
    | Some ms => Ret (g2, ms)
    | None =>
        let id := hash off_state_name in
        '(_, g') ← DependencyGraph.try_emplace id (Target (RunTarget.make id)) g2;
        Ret (g', kDefaultOffStateTransitionTimeout)
    end;
  let rid := hash recovery_state_name in
  '(fallback_index, g4) ← DependencyGraph.try_emplace rid (Target (RunTarget.make rid)) g3;
  g5 ← foldM wire g4 (deps ++ [(fallback_index, fallback_depends_on config)]);
  Ret (g5, timeout).

Definition make (max_num_nodes : nat) (config : GraphConfig) (job_queue : Q) : outcome t :=
  let n := DependencyGraph.make max_num_nodes in
  '(g, timeout) ← CreateDependencyGraph n config;
  Ret (mk 0 g (Transition.make n) false kGraphSuccess (hash "") job_queue false kStateManagerRequest
          (mkPending (hash "") kStateManagerRequest) 0 0 ∅ timeout false []).

(** ** State *)

Definition isValidRunTarget (pg_state : IdentifierHash) (g : t) : bool :=
  match DependencyGraph.nodes (nodes_ g) !! pg_state with
  | Some n => match DependencyGraph.value n with Target _ => true | Process _ => false end
  | None => false
  end.

Definition getState (g : t) : GraphState := state_ g.
Definition getRequestedRunTarget (g : t) : IdentifierHash := requested_state_ g.
Definition getPendingState (g : t) : IdentifierHash := run_target (pending_ g).
Definition getPendingTransition (g : t) : PendingTransition := pending_ g.
Definition getRequestStartTime (g : t) : Z := request_start_time_ g.
Definition getOffStateTransitionTimeout (g : t) : Z := off_state_transition_timeout_ g.

Definition setState (new_state : GraphState) (g : t) : bool * t :=
  let old_state := state_ g in
  let target_state := state_results new_state old_state in
  let become_transition := bool_decide (old_state <> kInTransition) && bool_decide (target_state = kInTransition) in
  let coming_from_transition := bool_decide (target_state <> kInTransition) && bool_decide (old_state = kInTransition) in
  let g' :=
    if become_transition then set_state_stop target_state (S (stop_source_ g)) (stop_requested_ g) g
    else if coming_from_transition then
      set_state_stop target_state (stop_source_ g) ({[stop_source_ g]} ∪ stop_requested_ g) g
    else set_state_stop target_state (stop_source_ g) (stop_requested_ g) g in
  (bool_decide (target_state = new_state), g').

Definition setPendingState (new_state : IdentifierHash) (src : RunTargetActivationSource) (g : t) :
    IdentifierHash * t :=
  (getPendingState g, set_pending_ (mkPending new_state src) g).

(** [*current_transition_] *)
Definition deref (g : t) : outcome unit := if current_transition_ g then Ret tt else Abort NullPointer.

Definition onNodeFinished (node : IdentifierHash) (g : t) : outcome t :=
  _ ← deref g;
  '(n, s) ← Transition.onNodeFinished node (nodes_ g) (transition_ g);
  Ret (set_transition n s g).

(** ** Handing out the ready nodes *)

Definition updateRunTargetInPlace (key : IdentifierHash) (rt : RunTarget.t) (task_type : ComponentTaskType)
    (g : t) : outcome t :=
  let '(result, rt') := match task_type with
    | kActivate => RunTarget.activate rt
    | kDeactivate => RunTarget.deactivate rt
    end in
  _ ← assert (bool_decide (result = kSuccess));
  n ← DependencyGraph.put key (Target rt') (nodes_ g);
  onNodeFinished (RunTarget.getIdentifier rt') (set_nodes n g).

Definition handleNonTransitionExecution (g : t) : t :=
  let g1 := if is_initial_state_transition_ g then set_initial false g else g in
  (setState kUndefinedState g1).2.

Fixpoint try_queue_loop (fuel : nat) (task : ComponentTask) (g : t) : outcome t :=
  if bool_decide (state_ g = kInTransition) then
    match fuel with
    | 0 => Abort OutOfFuel
    | S fuel' =>
        let '(push_res, q) := wq_push task (job_queue_ g) in
        let g1 := set_job_queue q g in
        match push_res with
        | inl _ => Ret (set_jobs (jobs_in_progress_ g1 + 1) g1)
        | inr kErrTimeout => try_queue_loop fuel' task g1
        | inr _ => Ret (handleNonTransitionExecution (setState kAborting g1).2)
        end
    end
  else Ret g.

Definition tryQueueNode (task : ComponentTask) (g : t) : outcome t :=
  try_queue_loop (S (wq_patience (job_queue_ g))) task g.

Definition task_of (a : Transition.Action) : ComponentTaskType :=
  match a with Transition.Start => kActivate | Transition.Stop => kDeactivate end.

(** The range-for over the transition: [begin()] and [++] are [nextReady()]. *)
Fixpoint queue_loop (fuel : nat) (g : t) : outcome t :=
  '(next, s) ← Transition.nextReady (transition_ g);
  let g1 := set_transition (nodes_ g) s g in
  match next with
  | None => Ret g1
  | Some (node, action) =>
      match fuel with
      | 0 => Abort OutOfFuel
      | S fuel' =>
          c ← DependencyGraph.get (nodes_ g1) node;
          g2 ← match c with
               | Target rt => updateRunTargetInPlace node rt (task_of action) g1
               | Process p => tryQueueNode (mkTask (task_of action) node (stop_source_ g1)) g1
               end;
          queue_loop fuel' g2
      end
  end.

Definition queueReadyNodes (g : t) : outcome t :=
  _ ← deref g; queue_loop (4 * DependencyGraph.size (nodes_ g)) g.

Definition finalizeTransitionSuccess (g : t) : t :=
  let g1 := if active_run_target_callback_ g then
      notify_activation (getRequestedRunTarget g,
        if is_initial_state_transition_ g then kInitialActivation else transition_source_ g) g
    else g in
  let g2 := if is_initial_state_transition_ g1 then set_initial false g1 else g1 in
  (setState kGraphSuccess g2).2.

(** [if (current_transition_->isFinished()) finalizeTransitionSuccess()] *)
Definition finalize_if_finished (g : t) : t :=
  if Transition.isFinished (transition_ g) then finalizeTransitionSuccess g else g.

(** ** Requests *)

Definition startTransition (pg_state : IdentifierHash) (src : RunTargetActivationSource) (g : t) :
    outcome (bool * t) :=
  let g1 := set_requested pg_state (set_source src g) in
  if isValidRunTarget pg_state g1 then
    let '(reached_transition, g2) := setState kInTransition g1 in
    _ ← assert_dbg reached_transition;
    '(n, s) ← Transition.createTransition pg_state (nodes_ g2) (transition_ g2);
    g3 ← queueReadyNodes (set_current (set_transition n s g2));
    Ret (true, finalize_if_finished g3)
  else Ret (false, g1).

Definition startInitialTransition (now : Z) (pg_state : IdentifierHash) (g : t) : outcome t :=
  '(started, g1) ← startTransition pg_state kStateManagerRequest (setRequestStartTime now (set_initial true g));
  Ret (if (started : bool) then g1 else set_initial false g1).

Definition off_state_ : IdentifierHash := hash off_state_name.

Definition startTransitionToOffState (now : Z) (g : t) : outcome (bool * t) :=
  let '(ok, g1) := setState kInTransition (setRequestStartTime now g) in
  if ok then
    '(started, g2) ← startTransition off_state_ kStateManagerRequest g1;
    _ ← assert started;
    Ret (true, g2)
  else Ret (false, g1).

Definition isTransitioningToOff (g : t) : bool :=
  bool_decide (state_ g = kInTransition) && bool_decide (requested_state_ g = off_state_).

Definition nodeExecuted (node : IdentifierHash) (result : RequestResult) (g : t) : outcome t :=
  let g1 := set_jobs (jobs_in_progress_ g - 1) g in
  let was_last_in_queue := bool_decide (jobs_in_progress_ g1 = 0%Z) in
  let g2 := if bool_decide (result <> kSuccess) then (setState kAborting g1).2 else g1 in
  if bool_decide (state_ g2 = kInTransition) then
    g3 ← onNodeFinished node g2;
    g4 ← queueReadyNodes g3;
    Ret (finalize_if_finished g4)
  else if was_last_in_queue then Ret (handleNonTransitionExecution g2)
  else Ret g2.

Definition handleComponentEvent (event : ComponentEvent) (g : t) : outcome t :=
  match event with
  | ActivationSuccessful id | DeactivationComplete id => nodeExecuted id kSuccess g
  | ActivationFailed id reason => nodeExecuted id reason g
  | UnexpectedTermination id =>
      let g1 := (setState kAborting g).2 in
      failing ← DependencyGraph.get (nodes_ g1) id;
      n ← DependencyGraph.put id (deactivate failing).2 (nodes_ g1);
      let g2 := set_nodes n g1 in
      Ret (if bool_decide (jobs_in_progress_ g2 = 0%Z) then handleNonTransitionExecution g2 else g2)
  | JobSkipped id => nodeExecuted id kSuccess g
  | SupervisionFailure _ | GetActiveRunTarget _ | SetRequestedRunTarget _ _ => Ret g
  end.

Definition cancel (g : t) : t :=
  let g1 := (setState kAborting g).2 in
  if (0 <? jobs_in_progress_ g1)%Z then g1 else (setState kUndefinedState g1).2.

(** The processes [forceTermination] is called for, in iteration order. *)
Definition forceKillProcesses (g : t) : list Z :=
  omap (fun kn => match DependencyGraph.value kn.2 with
                  | Process p => if (0 <? getPid p)%Z then Some (getPid p) else None
                  | Target _ => None
                  end) (iter_order (DependencyGraph.nodes (nodes_ g))).

Definition getProcessInfoNode (process_index : IdentifierHash) (g : t) : option P :=
  match DependencyGraph.nodes (nodes_ g) !! process_index with
  | Some n => match DependencyGraph.value n with Process p => Some p | Target _ => None end
  | None => None
  end.

End Graph.
Arguments t : clear implicits.
End Graph.
