(* ===== verification/GraphProofs.v ===== *)
(** * Correctness of the graph

    The invariant of a graph together with the jobs it has given to the workers
    ([graph_inv]), kept by every event and request in any order ([gstep]): the
    job accounting, the meaning of each graph state, and that no handler fails. *)

From stdpp Require Import prelude fin_maps gmap relations strings.
From S2P Require Import Prelude Queues Depgraph Components Transitions TransitionProofs.
From S2P Require Import TransitionSystem Graphs.
Import DependencyGraph Transition TransitionProofs TransitionSystem.

Module GraphProofs.

Section Proofs.
Context `{!IterOrder IdentifierHash} {P : Type} `{ProcessNode P} {Q : Type} `{WorkerQueue Q} `{BuildMode}.

Notation graph := (DependencyGraph.t IdentifierHash (Component P)).
Notation pgraph := (Graph.t P Q).
Notation config := (TransitionSystem.config (Key := IdentifierHash) (T := Component P)).

Implicit Types (g : pgraph) (n : graph) (k : IdentifierHash).

(** The workers' queue is not stopped while the main loop runs, so a push either
    is accepted or times out. *)
Hypothesis push_only_times_out : forall task (q q' : Q) e,
  wq_push task q = (inr e, q') -> e = kErrTimeout.

Definition config_of g (h : list (IdentifierHash * Action)) (c : list IdentifierHash) : config :=
  mkConfig (Graph.nodes_ g) (Graph.transition_ g) h c.

(** A Run Target node carries the key it is stored under. *)
Definition ids_ok n : Prop :=
  forall k r, value <$> nodes n !! k = Some (Target r) -> RunTarget.identifier_ r = k.

(** The fields that handing out nodes does not touch. *)
Record same_control g g' : Prop := {
  sc_current : Graph.current_transition_ g' = Graph.current_transition_ g;
  sc_state : Graph.state_ g' = Graph.state_ g;
  sc_requested : Graph.requested_state_ g' = Graph.requested_state_ g;
  sc_initial : Graph.is_initial_state_transition_ g' = Graph.is_initial_state_transition_ g;
  sc_source : Graph.transition_source_ g' = Graph.transition_source_ g;
  sc_pending : Graph.pending_ g' = Graph.pending_ g;
  sc_stop_source : Graph.stop_source_ g' = Graph.stop_source_ g;
  sc_stop_requested : Graph.stop_requested_ g' = Graph.stop_requested_ g;
  sc_callback : Graph.active_run_target_callback_ g' = Graph.active_run_target_callback_ g;
  sc_activations : Graph.activations_ g' = Graph.activations_ g
}.

#[export] Instance same_control_preorder : PreOrder same_control.
Proof. split; [by intros g|]. intros g1 g2 g3 [] []. split; congruence. Qed.

(** Which nodes there are and which of them are Run Targets, and the pending
    request: the handlers of the graph change neither. *)
Definition is_target n k : option bool :=
  (fun c => match c with Target _ => true | Process _ => false end) <$> (value <$> nodes n !! k).

Record same_face g g' : Prop := {
  sf_kind k : is_target (Graph.nodes_ g') k = is_target (Graph.nodes_ g) k;
  sf_pending : Graph.pending_ g' = Graph.pending_ g
}.

#[export] Instance same_face_preorder : PreOrder same_face.
Proof.
  split; [by intros g|]. intros g1 g2 g3 [] []. split; [|congruence]. intros k. by rewrite sf_kind1.
Qed.

Lemma put_kind n n' k c c' :
  put k c' n = Ret n' -> value <$> nodes n !! k = Some c ->
  (match c, c' with Target _, Target _ | Process _, Process _ => True | _, _ => False end) ->
  forall j, is_target n' j = is_target n j.
Proof.
  intros Hput Hk Hc j. destruct (put_spec k c' n) as (n1 & Hput1 & _ & _ & _ & _ & _ & _ & Hval).
  { destruct (nodes n !! k); eauto; done. }
  assert (n1 = n') as -> by congruence. unfold is_target. rewrite Hval.
  destruct (decide (j = k)) as [->|]; [|done]. rewrite Hk. by destruct c, c'.
Qed.

Lemma same_graph_kind n n' k : same_graph n' n -> is_target n' k = is_target n k.
Proof. intros Hs. unfold is_target. by rewrite (same_graph_value _ _ k Hs). Qed.

(** ** The job queue *)

Lemma try_queue_loop_spec fuel task g :
  Graph.state_ g = kInTransition -> wq_patience (Graph.job_queue_ g) < fuel ->
  exists q, Graph.try_queue_loop fuel task g =
      Ret (Graph.set_jobs (Graph.jobs_in_progress_ g + 1) (Graph.set_job_queue q g)) /\
    wq_accepted q = wq_accepted (Graph.job_queue_ g) ++ [task].
Proof.
  revert g. induction fuel as [|fuel IH]; intros g Hst Hp; [lia|]. cbn [Graph.try_queue_loop].
  rewrite bool_decide_eq_true_2 by done.
  destruct (wq_push task (Graph.job_queue_ g)) as [[[]|e] q] eqn:Hpush.
  - exists q. split; [done|]. by eapply wq_push_ok.
  - assert (e = kErrTimeout) as -> by (by eapply push_only_times_out).
    pose proof (wq_push_timeout _ _ _ Hpush) as Hless.
    destruct (IH (Graph.set_job_queue q g)) as (q' & Hrun & Hacc); [done|simpl; lia|].
    exists q'. split; [exact Hrun|]. rewrite Hacc. simpl. by rewrite (wq_push_error _ _ _ _ Hpush).
Qed.

Definition task_for g (ka : IdentifierHash * Action) : ComponentTask :=
  mkTask (Graph.task_of ka.2) ka.1 (Graph.stop_source_ g).

Lemma tryQueueNode_spec task g :
  Graph.state_ g = kInTransition ->
  exists q, Graph.tryQueueNode task g =
      Ret (Graph.set_jobs (Graph.jobs_in_progress_ g + 1) (Graph.set_job_queue q g)) /\
    wq_accepted q = wq_accepted (Graph.job_queue_ g) ++ [task].
Proof. intros. apply try_queue_loop_spec; [done|lia]. Qed.

(** ** Handing out *)

(** A Run Target is handed out, carried out and reported at once. *)
Lemma updateRunTargetInPlace_spec n0 target g h c k a r :
  sys_inv n0 target (config_of g ((k, a) :: h) c) -> Graph.current_transition_ g = true ->
  ids_ok (Graph.nodes_ g) -> value <$> nodes (Graph.nodes_ g) !! k = Some (Target r) ->
  exists g', Graph.updateRunTargetInPlace k r (Graph.task_of a) g = Ret g' /\
    rtc tstep (config_of g ((k, a) :: h) c) (config_of g' h c) /\ ids_ok (Graph.nodes_ g') /\
    same_control g g' /\ Graph.jobs_in_progress_ g' = Graph.jobs_in_progress_ g /\
    Graph.job_queue_ g' = Graph.job_queue_ g /\ same_face g g'.
Proof.
  intros Hinv Hcur Hids Hr. pose proof (Hids k r Hr) as Hid.
  set (r' := (match a with Start => RunTarget.activate r | Stop => RunTarget.deactivate r end).2).
  assert (Hr' : RunTarget.identifier_ r' = k) by (by destruct a).
  assert (Hk : is_Some (nodes (Graph.nodes_ g) !! k)) by (destruct (nodes (Graph.nodes_ g) !! k); eauto; done).
  destruct (put_spec k (Target r') (Graph.nodes_ g) Hk) as (n' & Hput & _ & _ & _ & _ & _ & _ & Hval).
  assert (Hst1 : tstep (config_of g ((k, a) :: h) c) (mkConfig n' (Graph.transition_ g) h (k :: c))).
  { eapply step_work; [done|exact Hput|]. by destruct a. }
  assert (Hinv1 := step_inv _ _ _ _ Hinv Hst1).
  pose proof Hinv1 as [_ _ _ [(_ & _ & E)|(Qs & B & Hph & _)]]; [done|]. simpl in Hph.
  destruct (onNodeFinished_spec _ _ _ _ _ _ k c Hph) as (n2 & s2 & Hfin & Hsame & _); [done|].
  exists (Graph.set_transition n2 s2 g). split_and!.
  - unfold Graph.updateRunTargetInPlace, Graph.onNodeFinished, Graph.deref, Graph.set_nodes.
    destruct a; simpl in *; fold r'; rewrite Hput; simpl; rewrite Hcur; simpl;
      change (RunTarget.getIdentifier r') with (RunTarget.identifier_ r'); rewrite Hr', Hfin; done.
  - eapply rtc_l; [exact Hst1|]. eapply rtc_l; [|apply rtc_refl]. by eapply step_finish.
  - intros j rj. simpl. rewrite (same_graph_value _ _ j Hsame), Hval.
    destruct (decide (j = k)) as [->|]; [congruence|by apply Hids].
  - done.
  - done.
  - done.
  - split; [|done]. intros j. simpl. rewrite (same_graph_kind _ _ j Hsame). by apply (put_kind _ _ _ _ _ Hput Hr).
Qed.

Lemma nextReady_cases n0 target (c : config) :
  sys_inv n0 target c ->
  nextReady (cstate c) = Ret (None, cstate c) \/
  exists k a s', nextReady (cstate c) = Ret (Some (k, a), s') /\
    is_Some (nodes (cgraph c) !! k).
Proof.
  intros [_ _ _ [(Hdone & _)|(Qs & B & Hph & _)]].
  - left. unfold nextReady. by rewrite (FixedSizeQueue.rep_empty _ _ (di_queue _ _ Hdone)).
  - pose proof (nextReady_spec _ _ _ _ _ _ Hph) as Hn. destruct Qs as [|k Qs]; [by left|].
    destruct Hn as (s' & Hn & _). right. exists k, (currentAction (cstate c)), s'. split; [done|].
    eapply pi_dom; [exact Hph|]. by left.
Qed.

Lemma steps_left_rtc n0 target (c c' : config) :
  sys_inv n0 target c -> rtc tstep c c' ->
  sys_inv n0 target c' /\ (steps_left c' <= steps_left c)%Z.
Proof.
  intros Hi [m Hm]%rtc_nsteps. destruct (nsteps_left _ _ _ _ _ Hi Hm) as [Hi' ->]. split; [done|lia].
Qed.

(** The result of handing out everything that is ready: [new] went to the workers. *)
Record handed_out g (h : list (IdentifierHash * Action)) (c : list IdentifierHash) g'
    (new : list (IdentifierHash * Action)) : Prop := {
  ho_steps : rtc tstep (config_of g h c) (config_of g' (reverse new ++ h) c);
  ho_ids : ids_ok (Graph.nodes_ g');
  ho_control : same_control g g';
  ho_face : same_face g g';
  ho_jobs : Graph.jobs_in_progress_ g' = (Graph.jobs_in_progress_ g + Z.of_nat (length new))%Z;
  ho_accepted : wq_accepted (Graph.job_queue_ g') =
    wq_accepted (Graph.job_queue_ g) ++ (task_for g <$> new);
  ho_drained : nextReady (Graph.transition_ g') = Ret (None, Graph.transition_ g')
}.

Lemma handed_out_target g g1 g2 h c g' new k a :
  tstep (config_of g h c) (config_of g1 ((k, a) :: h) c) ->
  rtc tstep (config_of g1 ((k, a) :: h) c) (config_of g2 h c) -> same_control g g2 ->
  Graph.jobs_in_progress_ g2 = Graph.jobs_in_progress_ g -> Graph.job_queue_ g2 = Graph.job_queue_ g -> same_face g g2 ->
  handed_out g2 h c g' new -> handed_out g h c g' new.
Proof.
  intros Hst Hsteps Hsc Hj Hq Hsf []. split; [|done|by etrans|by etrans|congruence| |done].
  - eapply rtc_l; [exact Hst|]. by etrans.
  - rewrite ho_accepted0, Hq. do 2 f_equal. unfold task_for. by rewrite (sc_stop_source _ _ Hsc).
Qed.

Lemma handed_out_process g g2 h c g' new k a :
  tstep (config_of g h c) (config_of g2 ((k, a) :: h) c) -> same_control g g2 ->
  Graph.jobs_in_progress_ g2 = (Graph.jobs_in_progress_ g + 1)%Z ->
  wq_accepted (Graph.job_queue_ g2) = wq_accepted (Graph.job_queue_ g) ++ [task_for g (k, a)] -> same_face g g2 ->
  handed_out g2 ((k, a) :: h) c g' new -> handed_out g h c g' ((k, a) :: new).
Proof.
  intros Hst Hsc Hj Hq Hsf []. split; [|done|by etrans|by etrans| | |done].
  - eapply rtc_l; [exact Hst|]. by rewrite reverse_cons, <- app_assoc.
  - rewrite ho_jobs0, Hj. simpl length. lia.
  - rewrite ho_accepted0, Hq, <- app_assoc. simpl. do 3 f_equal. unfold task_for.
    by rewrite (sc_stop_source _ _ Hsc).
Qed.

Lemma queue_loop_spec fuel : forall n0 target g h c,
  sys_inv n0 target (config_of g h c) -> ids_ok (Graph.nodes_ g) ->
  Graph.state_ g = kInTransition -> Graph.current_transition_ g = true ->
  (steps_left (config_of g h c) <= Z.of_nat fuel)%Z ->
  exists g' new, Graph.queue_loop fuel g = Ret g' /\ handed_out g h c g' new.
Proof.
  induction fuel as [|fuel IH]; intros n0 target g h c Hinv Hids Hst Hcur Hfuel;
    cbn [Graph.queue_loop]; destruct (nextReady_cases _ _ _ Hinv) as [Hn|(k & a & s' & Hn & Hk)];
    simpl in Hn; rewrite Hn; cbn [mbind outcome_bind].
  1, 3: eexists _, []; split; [done|]; split; [apply rtc_refl|done|done|done|simpl; lia|by rewrite app_nil_r|done].
  all: set (g1 := Graph.set_transition (Graph.nodes_ g) s' g);
    assert (Hst1 : tstep (config_of g h c) (config_of g1 ((k, a) :: h) c)) by (by apply step_dispatch);
    assert (Hinv1 := step_inv _ _ _ _ Hinv Hst1);
    pose proof (step_left _ _ _ _ Hinv Hinv1 Hst1) as Hl1; pose proof (left_nonneg _ _ _ Hinv1) as Hn1.
  { lia. }
  destruct Hk as [nd Hnd]. simpl in Hnd. unfold DependencyGraph.get.
  change (Graph.nodes_ g1) with (Graph.nodes_ g) at 1.
  rewrite (at_Some _ _ _ Hnd). cbn [mbind outcome_bind]. destruct (value nd) as [p|r] eqn:Hv.
  - destruct (tryQueueNode_spec (task_for g (k, a)) g1 Hst) as (q & Hrun & Hacc).
    change (mkTask (Graph.task_of a) k (Graph.stop_source_ g1)) with (task_for g (k, a)). rewrite Hrun.
    set (g2 := Graph.set_jobs _ _) in *.
    destruct (IH n0 target g2 ((k, a) :: h) c) as (g' & new & Hrun' & Hho); [exact Hinv1|done|done|done| |].
    { change (config_of g2 ((k, a) :: h) c) with (config_of g1 ((k, a) :: h) c). lia. }
    exists g', ((k, a) :: new). split; [done|]. by eapply (handed_out_process g g2).
  - destruct (updateRunTargetInPlace_spec n0 target g1 h c k a r) as (g2 & Hrun & Hsteps & Hids2 & Hsc & Hj & Hq & Hsf);
      [done|done|done|simpl; by rewrite Hnd, <- Hv|].
    rewrite Hrun. destruct (steps_left_rtc _ _ _ _ Hinv1 Hsteps) as [Hinv2 Hl2].
    destruct (IH n0 target g2 h c) as (g' & new & Hrun' & Hho); [done|done|by rewrite (sc_state _ _ Hsc)|by rewrite (sc_current _ _ Hsc)|lia|].
    exists g', new. split; [done|]. eapply (handed_out_target g g1 g2); try done.
    + by etrans; [|exact Hsc].
    + by etrans; [|exact Hsf].
Qed.

(** ** The graph and its jobs

    [inflight] are the accepted tasks no worker has answered yet; the others wait
    as events for the main thread: activations that failed, jobs skipped because
    of their stop token, and jobs carried out. *)

Record gsys := mkSys {
  sgraph : pgraph;
  inflight : list ComponentTask;
  failed : list IdentifierHash;
  skipped : list IdentifierHash;
  finished : list IdentifierHash
}.

Definition action_of (ty : ComponentTaskType) : Action :=
  match ty with kActivate => Start | kDeactivate => Stop end.
Definition job_of (task : ComponentTask) : IdentifierHash * Action :=
  (component task, action_of (type task)).

(** What the transition still waits for. *)
Definition unanswered (x : gsys) : list (IdentifierHash * Action) :=
  (job_of <$> inflight x) ++ ((., Start) <$> failed x).

Definition open_jobs (x : gsys) : nat :=
  length (inflight x) + length (failed x) + length (skipped x) + length (finished x).

Definition state_inv (x : gsys) : Prop :=
  let g := sgraph x in
  match Graph.state_ g with
  | kInTransition =>
      Graph.current_transition_ g = true /\ skipped x = [] /\ open_jobs x <> 0 /\
      isFinished (Graph.transition_ g) = false /\
      (exists n0, sys_inv n0 (Graph.requested_state_ g) (config_of g (unanswered x) (finished x))) /\
      Graph.stop_source_ g ∉ Graph.stop_requested_ g /\
      forall task, task ∈ inflight x -> stop_token task = Graph.stop_source_ g
  | kAborting =>
      open_jobs x <> 0 /\ forall task, task ∈ inflight x -> stop_token task ∈ Graph.stop_requested_ g
  | kUndefinedState => open_jobs x = 0
  | kGraphSuccess => open_jobs x = 0 /\ (Graph.current_transition_ g = true ->
      forall k, act (Graph.nodes_ g) k = true <-> reach (Graph.nodes_ g) (Graph.requested_state_ g) k)
  end.

Record graph_inv (x : gsys) : Prop := {
  gv_wf : wf (Graph.nodes_ (sgraph x));
  gv_acyclic : acyclic (Graph.nodes_ (sgraph x));
  gv_reusable : reusable (Graph.nodes_ (sgraph x)) (Graph.transition_ (sgraph x));
  gv_ids : ids_ok (Graph.nodes_ (sgraph x));
  gv_jobs : Graph.jobs_in_progress_ (sgraph x) = Z.of_nat (open_jobs x);
  gv_sources i : i ∈ Graph.stop_requested_ (sgraph x) -> i <= Graph.stop_source_ (sgraph x);
  gv_state : state_inv x
}.

Lemma sys_inv_reusable n0 target (c : config) :
  sys_inv n0 target c -> reusable (cgraph c) (cstate c).
Proof.
  intros [_ _ _ [(Hd & _)|(Qs & B & Hi & _)]]; split.
  - intros k. apply (di_info _ _ Hd).
  - eexists. apply (di_queue _ _ Hd).
  - apply (di_cap _ _ Hd).
  - intros k. apply (pi_info _ _ _ _ _ _ Hi).
  - eexists. apply (pi_queue _ _ _ _ _ _ Hi).
  - apply (pi_cap _ _ _ _ _ _ Hi).
Qed.

Lemma sys_inv_perm n0 target g h h' c :
  h ≡ₚ h' -> sys_inv n0 target (config_of g h c) -> sys_inv n0 target (config_of g h' c).
Proof.
  intros Hp [Ht Hd Hs [(Hdn & Hh & Hc)|(Qs & B & Hi & Ha)]]; split; auto.
  - left. simpl in *. rewrite Hh in Hp. apply Permutation_nil_l in Hp. auto.
  - right. exists Qs, B. simpl in *. split; [|intros k a; rewrite <- Hp; apply Ha].
    eapply phase_inv_perm; try done; try apply Hi. by rewrite Hp.
Qed.

Lemma job_task g (ka : IdentifierHash * Action) : job_of (task_for g ka) = ka.
Proof. by destruct ka as [k []]. Qed.

Lemma unanswered_new g i f (new : list (IdentifierHash * Action)) :
  reverse new ++ (job_of <$> i) ++ ((., Start) <$> f) ≡ₚ
  (job_of <$> i ++ (task_for g <$> new)) ++ ((., Start) <$> f).
Proof.
  rewrite fmap_app, <- list_fmap_compose, (list_fmap_ext _ id), list_fmap_id.
  - rewrite reverse_Permutation, app_assoc. apply Permutation_app_tail, Permutation_app_comm.
  - intros j x _. apply job_task.
Qed.

(** Every round of the loop hands out a node, so its fuel is enough. *)
Lemma steps_left_bound n0 target (c : config) :
  sys_inv n0 target c -> (steps_left c <= Z.of_nat (4 * DependencyGraph.size (cgraph c)))%Z.
Proof.
  intros Hinv. unfold steps_left.
  assert (Ho : length (outstanding (cgraph c) (cstate c)) <= DependencyGraph.size (cgraph c)).
  { rewrite <- length_keys. apply length_filter. }
  assert (Hc : length (carried c) <= DependencyGraph.size (cgraph c)); [|lia].
  pose proof Hinv as [_ _ _ [(_ & _ & ->)|(Qs & B & Hi & _)]]; [simpl; lia|].
  pose proof (pi_bound _ _ _ _ _ _ Hi) as Hb. rewrite !length_app in Hb. lia.
Qed.

Lemma open_jobs_unanswered g i f c :
  open_jobs (mkSys g i f [] c) = length (unanswered (mkSys g i f [] c)) + length c.
Proof. unfold open_jobs, unanswered. simpl. rewrite length_app, !length_fmap. lia. Qed.

(** Ending a transition that has finished. *)
Lemma finalize_inv n0 g :
  Graph.state_ g = kInTransition -> isFinished (Graph.transition_ g) = true ->
  sys_inv n0 (Graph.requested_state_ g) (config_of g [] []) -> acyclic (Graph.nodes_ g) ->
  ids_ok (Graph.nodes_ g) -> Graph.jobs_in_progress_ g = 0%Z ->
  (forall i, i ∈ Graph.stop_requested_ g -> i <= Graph.stop_source_ g) ->
  graph_inv (mkSys (Graph.finalizeTransitionSuccess g) [] [] [] []).
Proof.
  intros Hst Hf Hinv Hac Hids Hj Hsrc. unfold Graph.finalizeTransitionSuccess.
  set (g1 := if Graph.active_run_target_callback_ g then _ else g).
  set (g2 := if Graph.is_initial_state_transition_ g1 then _ else g1).
  assert (E : Graph.state_ g2 = kInTransition /\ Graph.nodes_ g2 = Graph.nodes_ g /\
    Graph.transition_ g2 = Graph.transition_ g /\ Graph.jobs_in_progress_ g2 = Graph.jobs_in_progress_ g /\
    Graph.stop_requested_ g2 = Graph.stop_requested_ g /\ Graph.stop_source_ g2 = Graph.stop_source_ g /\
    Graph.requested_state_ g2 = Graph.requested_state_ g).
  { unfold g2, g1. by repeat case_match. }
  destruct E as (E1 & E2 & E3 & E4 & E5 & E6 & E7). unfold Graph.setState. rewrite E1. simpl.
  split; simpl; rewrite ?E2, ?E3, ?E4, ?E5, ?E6; try done.
  - by apply (si_wf _ _ _ Hinv).
  - by apply (sys_inv_reusable _ _ _ Hinv).
  - intros i. rewrite elem_of_union, elem_of_singleton. intros [->|Hi]; [done|auto].
  - unfold state_inv. simpl. rewrite E2, E7. split; [done|]. intros _ k.
    pose proof Hinv as [_ Hd _ [(Hdone & _)|(Qs & B & Hi & _)]].
    + simpl in *. rewrite (di_active _ _ Hdone), (reach_deps _ n0) by done.
      apply (si_tgt _ _ _ k Hinv).
    + apply bool_decide_eq_true in Hf. by destruct (pi_phase _ _ _ _ _ _ Hi).
Qed.

Lemma finalize_frame g :
  let g' := Graph.finalize_if_finished g in
  wq_accepted (Graph.job_queue_ g') = wq_accepted (Graph.job_queue_ g) /\ same_face g g' /\
  Graph.requested_state_ g' = Graph.requested_state_ g /\
  (Graph.state_ g = kInTransition -> Graph.state_ g' <> kUndefinedState).
Proof.
  unfold Graph.finalize_if_finished, Graph.finalizeTransitionSuccess, Graph.setState.
  destruct (isFinished (Graph.transition_ g)); [|split_and!; [done..|congruence]].
  destruct (Graph.active_run_target_callback_ g); simpl;
    destruct (Graph.is_initial_state_transition_ g); simpl; destruct (Graph.state_ g); done.
Qed.

(** Handing out what is ready, and ending the transition if that was all of it. *)
Lemma run_transition n0 g i f c :
  let x := mkSys g i f [] c in
  Graph.state_ g = kInTransition -> Graph.current_transition_ g = true ->
  sys_inv n0 (Graph.requested_state_ g) (config_of g (unanswered x) c) ->
  acyclic (Graph.nodes_ g) -> ids_ok (Graph.nodes_ g) ->
  Graph.jobs_in_progress_ g = Z.of_nat (open_jobs x) ->
  (forall j, j ∈ Graph.stop_requested_ g -> j <= Graph.stop_source_ g) ->
  Graph.stop_source_ g ∉ Graph.stop_requested_ g ->
  (forall task, task ∈ i -> stop_token task = Graph.stop_source_ g) ->
  exists g' new, Graph.queueReadyNodes g = Ret g' /\
    wq_accepted (Graph.job_queue_ (Graph.finalize_if_finished g')) =
      wq_accepted (Graph.job_queue_ g) ++ new /\
    graph_inv (mkSys (Graph.finalize_if_finished g') (i ++ new) f [] c) /\
    same_face g (Graph.finalize_if_finished g') /\
    Graph.state_ (Graph.finalize_if_finished g') <> kUndefinedState /\
    Graph.requested_state_ (Graph.finalize_if_finished g') = Graph.requested_state_ g.
Proof.
  intros x Hst Hcur Hinv Hac Hids Hj Hsrc Hfresh Htok.
  unfold Graph.queueReadyNodes, Graph.deref. rewrite Hcur. cbn [mbind outcome_bind].
  destruct (queue_loop_spec _ n0 _ g (unanswered x) c Hinv Hids Hst Hcur (steps_left_bound _ _ _ Hinv))
    as (g' & new & Hrun & []).
  cbn [cgraph config_of] in Hrun. rewrite Hrun. exists g', (task_for g <$> new). split; [done|].
  destruct (steps_left_rtc _ _ _ _ Hinv ho_steps0) as [Hinv' _].
  apply (sys_inv_perm _ _ _ _ _ _ (unanswered_new g i f new)) in Hinv'.
  pose proof ho_control0 as [].
  assert (Hac' : acyclic (Graph.nodes_ g')).
  { eapply acyclic_deps; [|exact Hac]. intros k.
    by rewrite (si_deps _ _ _ Hinv' k : deps (Graph.nodes_ g') k = _), <- (si_deps _ _ _ Hinv k). }
  assert (Hj' : Graph.jobs_in_progress_ g' =
    Z.of_nat (open_jobs (mkSys g' (i ++ (task_for g <$> new)) f [] c))).
  { rewrite ho_jobs0, Hj. unfold open_jobs. simpl. rewrite length_app, length_fmap. lia. }
  assert (Hacc : wq_accepted (Graph.job_queue_ (Graph.finalize_if_finished g')) =
    wq_accepted (Graph.job_queue_ g) ++ (task_for g <$> new)).
  { rewrite <- ho_accepted0. apply finalize_frame. }
  split; [exact Hacc|]. rewrite (and_comm (graph_inv _)). split.
  { destruct (finalize_frame g') as (_ & Hsf & Hr & Hst'). rewrite Hr, sc_requested0. split_and!; [by etrans|apply Hst'; congruence|done]. } unfold Graph.finalize_if_finished. destruct (isFinished (Graph.transition_ g')) eqn:Hf.
  - assert (Hnil : (job_of <$> i ++ (task_for g <$> new)) ++ ((., Start) <$> f) = [] /\ c = []).
    { pose proof Hinv' as [_ _ _ [(_ & Hh & Hc)|(Qs & B & Hi & _)]]; [done|].
      apply bool_decide_eq_true in Hf. by destruct (pi_phase _ _ _ _ _ _ Hi). }
    destruct Hnil as [Hnil ->]. apply app_nil in Hnil as [Hi%fmap_nil_inv ->%fmap_nil_inv].
    rewrite Hi in *. eapply finalize_inv; try done; try congruence.
    + rewrite sc_requested0. exact Hinv'.
    + rewrite sc_stop_requested0, sc_stop_source0. done.
  - split; simpl; try done; [by apply (si_wf _ _ _ Hinv')|by apply (sys_inv_reusable _ _ _ Hinv')|
      by rewrite sc_stop_requested0, sc_stop_source0|].
    unfold state_inv. simpl. rewrite sc_state0, Hst. split_and!; try congruence.
    + rewrite open_jobs_unanswered. intros Hz.
      destruct (not_stuck n0 _ (config_of g' _ c) Hac' Hinv' Hf) as [(k & s' & Hn)|[Hne|Hne]].
      * simpl in Hn. by rewrite ho_drained0 in Hn.
      * apply Hne, length_zero_iff_nil. simpl. unfold unanswered in Hz. simpl in Hz. lia.
      * apply Hne, length_zero_iff_nil. simpl. lia.
    + exists n0. rewrite sc_requested0. exact Hinv'.
    + intros task. rewrite elem_of_app, sc_stop_source0. intros [|Hin]; [auto|].
      by apply list_elem_of_fmap in Hin as (ka & -> & _).
Qed.

(** ** Every event and request keeps the invariant *)

(** What the handlers leave alone when they only change the graph state. *)
Definition same_data g g' : Prop :=
  Graph.nodes_ g' = Graph.nodes_ g /\ Graph.transition_ g' = Graph.transition_ g /\
  Graph.jobs_in_progress_ g' = Graph.jobs_in_progress_ g /\ Graph.job_queue_ g' = Graph.job_queue_ g /\
  Graph.requested_state_ g' = Graph.requested_state_ g /\
  Graph.current_transition_ g' = Graph.current_transition_ g /\
  Graph.stop_source_ g' = Graph.stop_source_ g.

Lemma setState_abort g :
  let g' := (Graph.setState kAborting g).2 in
  same_data g g' /\ Graph.state_ g' = state_results kAborting (Graph.state_ g) /\
  Graph.stop_requested_ g' =
    (if bool_decide (Graph.state_ g = kInTransition) then {[Graph.stop_source_ g]} else ∅) ∪ Graph.stop_requested_ g.
Proof.
  unfold Graph.setState, same_data. destruct (Graph.state_ g); simpl; rewrite ?(left_id_L ∅ (∪)); done.
Qed.

Lemma handleNonTransition_spec g :
  Graph.state_ g <> kInTransition ->
  let g' := Graph.handleNonTransitionExecution g in
  same_data g g' /\ Graph.state_ g' = kUndefinedState /\ Graph.stop_requested_ g' = Graph.stop_requested_ g.
Proof.
  intros Hst. unfold Graph.handleNonTransitionExecution, same_data.
  set (g1 := if Graph.is_initial_state_transition_ g then _ else g).
  assert (E : Graph.state_ g1 = Graph.state_ g) by (unfold g1; by case_match).
  unfold Graph.setState. rewrite E. unfold g1.
  destruct (Graph.state_ g), (Graph.is_initial_state_transition_ g); simpl; done.
Qed.

Lemma setState_face st g : same_face g (Graph.setState st g).2.
Proof. unfold Graph.setState. split; simpl; by repeat case_match. Qed.

Lemma nonTransition_face (b : bool) g : same_face g (if b then Graph.handleNonTransitionExecution g else g).
Proof.
  destruct b; [|done]. unfold Graph.handleNonTransitionExecution. etrans; [|apply setState_face].
  by case_match.
Qed.

(** The last answer of an aborted transition moves the graph to [kUndefinedState]. *)
Lemma after_abort g i f sk c :
  let x := mkSys g i f sk c in
  wf (Graph.nodes_ g) -> acyclic (Graph.nodes_ g) -> reusable (Graph.nodes_ g) (Graph.transition_ g) ->
  ids_ok (Graph.nodes_ g) -> Graph.jobs_in_progress_ g = Z.of_nat (open_jobs x) ->
  (forall j, j ∈ Graph.stop_requested_ g -> j <= Graph.stop_source_ g) ->
  Graph.state_ g <> kInTransition -> (open_jobs x <> 0 -> Graph.state_ g = kAborting) ->
  (forall task, task ∈ i -> stop_token task ∈ Graph.stop_requested_ g) ->
  graph_inv (mkSys (if bool_decide (Graph.jobs_in_progress_ g = 0%Z)
                    then Graph.handleNonTransitionExecution g else g) i f sk c).
Proof.
  intros x Hwf Hac Hru Hids Hj Hsrc Hst Hab Htok. case_bool_decide as Hz.
  - destruct (handleNonTransition_spec g Hst) as ((E1 & E2 & E3 & _ & _ & _ & E7) & E8 & E9).
    split; simpl; rewrite ?E1, ?E2, ?E3, ?E7, ?E9; try done.
    unfold state_inv. simpl. rewrite E8. change (open_jobs x = 0). lia.
  - split; simpl; try done. assert (Hne : open_jobs x <> 0) by lia.
    unfold state_inv. simpl. rewrite Hab by done. done.
Qed.

(** Setting [kAborting] keeps the invariant: the tokens of all jobs are stopped. *)
Lemma abort_inv x :
  graph_inv x ->
  let g' := (Graph.setState kAborting (sgraph x)).2 in
  graph_inv (mkSys g' (inflight x) (failed x) (skipped x) (finished x)) /\
  Graph.state_ g' <> kInTransition /\ (open_jobs x <> 0 -> Graph.state_ g' = kAborting) /\
  (forall task, task ∈ inflight x -> stop_token task ∈ Graph.stop_requested_ g') /\
  same_data (sgraph x) g'.
Proof.
  intros []. destruct x as [g i f sk c]. cbn [sgraph inflight failed skipped finished] in *. cbv zeta.
  destruct (setState_abort g) as (Hsd & E8 & E9). pose proof Hsd as (E1 & E2 & E3 & E4 & E5 & E6 & E7).
  set (g' := (Graph.setState kAborting g).2) in *. clearbody g'.
  assert (Hst : Graph.state_ g' <> kInTransition) by (rewrite E8; by destruct (Graph.state_ g)).
  assert (Hab : open_jobs (mkSys g i f sk c) <> 0 -> Graph.state_ g' = kAborting).
  { intros Hne. unfold state_inv in gv_state0. simpl in gv_state0. rewrite E8.
    destruct (Graph.state_ g); try done; by destruct gv_state0. }
  assert (Htok : forall task, task ∈ i -> stop_token task ∈ Graph.stop_requested_ g').
  { intros task Hin. rewrite E9. unfold state_inv, open_jobs in gv_state0. simpl in gv_state0.
    assert (Hi : length i <> 0) by (destruct i; [by apply elem_of_nil in Hin|done]).
    destruct (Graph.state_ g); simpl; [lia| | |lia].
    - destruct gv_state0 as (_ & _ & _ & _ & _ & _ & Ht). rewrite (Ht _ Hin). set_solver +.
    - destruct gv_state0 as (_ & Ht). specialize (Ht _ Hin). set_solver +Ht. }
  split_and!; try done. split; simpl; rewrite ?E1, ?E2, ?E3, ?E7, ?E9; try done.
  - intros j. case_bool_decide; [|set_solver +gv_sources0].
    rewrite elem_of_union, elem_of_singleton. intros [->|]; auto.
  - unfold state_inv in *. simpl in *. rewrite E8.
    destruct (Graph.state_ g); simpl; [by destruct gv_state0|..|done].
    + split; [by destruct gv_state0 as (_ & _ & ? & _)|done].
    + split; [by destruct gv_state0|done].
Qed.

Lemma setState_undefined g :
  Graph.state_ g = kUndefinedState -> (Graph.setState kUndefinedState g).2 = g.
Proof. intros Hst. unfold Graph.setState. rewrite Hst. simpl. destruct g. simpl in Hst. by subst. Qed.

Lemma cancel_inv x :
  graph_inv x -> graph_inv (mkSys (Graph.cancel (sgraph x)) (inflight x) (failed x) (skipped x) (finished x)).
Proof.
  intros Hx. destruct (abort_inv x Hx) as (Hx' & Hst & Hab & Htok & _). unfold Graph.cancel.
  pose proof (gv_jobs _ Hx') as Hj. pose proof (gv_state _ Hx') as Hs. cbn [sgraph] in Hj.
  destruct (setState_abort (sgraph x)) as (_ & E8 & _).
  set (g' := (Graph.setState kAborting (sgraph x)).2) in *. clearbody g'.
  destruct (0 <? Graph.jobs_in_progress_ g')%Z eqn:Hz; [done|]. apply Z.ltb_ge in Hz.
  rewrite setState_undefined; [done|]. unfold state_inv in Hs. cbn [sgraph] in Hs. rewrite E8 in *.
  unfold open_jobs in *.
  destruct (Graph.state_ (sgraph x)); simpl in *; try done; destruct Hs as [Hs _]; lia.
Qed.

Lemma crash_inv x k :
  graph_inv x -> is_Some (nodes (Graph.nodes_ (sgraph x)) !! k) ->
  exists g', Graph.handleComponentEvent (UnexpectedTermination k) (sgraph x) = Ret g' /\
    Graph.job_queue_ g' = Graph.job_queue_ (sgraph x) /\
    graph_inv (mkSys g' (inflight x) (failed x) (skipped x) (finished x)) /\ same_face (sgraph x) g'.
Proof.
  intros Hx [nd Hnd]. destruct (abort_inv x Hx) as (Hx' & Hst & Hab & Htok & Hsd).
  pose proof (setState_face kAborting (sgraph x)) as Hf1.
  pose proof Hsd as (E1 & E2 & E3 & E4 & _). unfold Graph.handleComponentEvent. cbv zeta.
  set (g1 := (Graph.setState kAborting (sgraph x)).2) in *. clearbody g1. destruct Hx' as []. simpl in *.
  unfold DependencyGraph.get. rewrite E1, (at_Some _ _ _ Hnd). cbn [mbind outcome_bind].
  destruct (put_spec k (deactivate (value nd)).2 (Graph.nodes_ (sgraph x)))
    as (n' & Hput & Hc & Hs & Hq & Hdom & Hd & Hr & Hval); [eauto|].
  simpl in Hput. rewrite Hput. cbn [mbind outcome_bind]. set (g2 := Graph.set_nodes n' g1).
  eexists. split; [done|]. rewrite E1 in *. split.
  { change (Graph.jobs_in_progress_ g2) with (Graph.jobs_in_progress_ g1). case_bool_decide; [|done].
    destruct (handleNonTransition_spec g2) as ((_ & _ & _ & Hqq & _) & _); [done|]. by rewrite Hqq. }
  split; [|etrans; [exact Hf1|]; etrans; [|apply nonTransition_face]; split; [|done];
    simpl; rewrite E1; eapply put_kind; [exact Hput|by rewrite Hnd|by destruct (value nd)]].
  apply (after_abort g2); try done; simpl.
  - by eapply put_wf.
  - by eapply acyclic_deps.
  - destruct gv_reusable0 as [Hd1 Hd2 Hd3]. split; [|done|by rewrite Hd3, Hc]. intros j. rewrite Hdom. apply Hd1.
  - intros j r. rewrite Hval. destruct (decide (j = k)) as [->|]; [|apply gv_ids0].
    pose proof (gv_ids0 k) as Hid. rewrite Hnd in Hid. simpl in Hid.
    destruct (value nd) as [p|r']; simpl; [done|]. intros [= <-]. exact (Hid r' eq_refl).
Qed.

(** An answer that arrives when the transition is being aborted, or that aborts it. *)
Lemma nodeExecuted_abort x k res i f sk c :
  graph_inv x -> open_jobs x = S (open_jobs (mkSys (sgraph x) i f sk c)) -> i ⊆ inflight x ->
  res <> kSuccess \/ Graph.state_ (sgraph x) <> kInTransition ->
  exists g', Graph.nodeExecuted k res (sgraph x) = Ret g' /\
    Graph.job_queue_ g' = Graph.job_queue_ (sgraph x) /\ graph_inv (mkSys g' i f sk c) /\
    same_face (sgraph x) g'.
Proof.
  intros Hx Hopen Hi Hcase. destruct (abort_inv x Hx) as (Hx' & Hst & Hab & Htok & Hsd).
  unfold Graph.nodeExecuted. cbv zeta. set (g1 := Graph.set_jobs _ (sgraph x)).
  set (g2 := if bool_decide (res <> kSuccess) then (Graph.setState kAborting g1).2 else g1).
  assert (Hab' : Graph.state_ (sgraph x) = kInTransition \/ Graph.state_ (sgraph x) = kAborting).
  { pose proof (gv_state _ Hx) as Hs. unfold state_inv in Hs.
    destruct (Graph.state_ (sgraph x)); auto; [destruct Hs as [Hs _]|]; lia. }
  assert (E : Graph.state_ g2 = kAborting /\ Graph.nodes_ g2 = Graph.nodes_ (sgraph x) /\
    Graph.transition_ g2 = Graph.transition_ (sgraph x) /\
    Graph.jobs_in_progress_ g2 = (Graph.jobs_in_progress_ (sgraph x) - 1)%Z /\
    Graph.job_queue_ g2 = Graph.job_queue_ (sgraph x) /\
    Graph.stop_source_ g2 = Graph.stop_source_ (sgraph x) /\
    Graph.stop_requested_ g2 = Graph.stop_requested_ ((Graph.setState kAborting (sgraph x)).2)).
  { unfold g2, g1, Graph.setState. simpl. case_bool_decide as Hr; destruct Hab' as [Hs|Hs]; rewrite Hs; simpl;
      rewrite ?Hs; try done. by destruct Hcase. }
  assert (Hsf : same_face (sgraph x) g2).
  { unfold g2. etrans; [|by case_match; [apply setState_face|reflexivity]]. done. }
  destruct E as (E1 & E2 & E3 & E4 & E5 & E6 & E7). clearbody g2.
  rewrite E1. cbn [bool_decide decide_rel GraphState_eq_dec]. rewrite bool_decide_eq_false_2 by done.
  change (Graph.jobs_in_progress_ g1) with (Graph.jobs_in_progress_ (sgraph x) - 1)%Z. rewrite <- E4.
  exists (if bool_decide (Graph.jobs_in_progress_ g2 = 0%Z) then Graph.handleNonTransitionExecution g2 else g2).
  split_and!.
  - by case_bool_decide.
  - case_bool_decide; [|done]. destruct (handleNonTransition_spec g2) as ((_ & _ & _ & Hq & _) & _); congruence.
  - destruct Hx' as []. destruct Hx. cbn [sgraph] in *. destruct Hsd as (Es1 & Es2 & Es3 & _ & _ & _ & Es7).
    apply (after_abort g2); rewrite ?E2, ?E3, ?E6, ?E7, ?E1, ?E4; try done.
    + change (open_jobs (mkSys g2 i f sk c)) with (open_jobs (mkSys (sgraph x) i f sk c)). lia.
    + by rewrite <- Es7.
    + intros task Hin. by apply Htok, Hi.
  - etrans; [exact Hsf|]. apply nonTransition_face.
Qed.

(** A carried out job is reported while the transition runs. *)
Lemma nodeExecuted_done x k c' :
  graph_inv x -> Graph.state_ (sgraph x) = kInTransition -> finished x ≡ₚ k :: c' ->
  exists g' new, Graph.nodeExecuted k kSuccess (sgraph x) = Ret g' /\
    wq_accepted (Graph.job_queue_ g') = wq_accepted (Graph.job_queue_ (sgraph x)) ++ new /\
    graph_inv (mkSys g' (inflight x ++ new) (failed x) (skipped x) c') /\ same_face (sgraph x) g'.
Proof.
  intros [] Hst Hc. unfold state_inv in gv_state0. rewrite Hst in gv_state0.
  destruct gv_state0 as (Hcur & Hsk & _ & _ & (n0 & Hinv) & Hfresh & Htok).
  destruct x as [g i f sk c]. simpl in *. subst sk.
  unfold Graph.nodeExecuted. cbv zeta. cbn [bool_decide]. rewrite (bool_decide_eq_false_2 (kSuccess <> kSuccess)) by auto.
  set (g1 := Graph.set_jobs _ g). rewrite (bool_decide_eq_true_2 (Graph.state_ g1 = _)) by done.
  pose proof Hinv as [_ _ _ [(_ & _ & E)|(Qs & B & Hph & _)]].
  { simpl in E. subst. by apply Permutation_nil_cons in Hc. }
  destruct (onNodeFinished_spec _ _ _ _ _ _ k c' Hph Hc) as (n2 & s2 & Hfin & Hsame & _).
  unfold Graph.onNodeFinished at 1, Graph.deref at 1. simpl in Hfin. simpl.
  rewrite Hcur. simpl. rewrite Hfin. simpl.
  set (g3 := Graph.set_transition n2 s2 g1).
  set (h := unanswered (mkSys g i f [] c)) in *.
  assert (Hstep : tstep (config_of g h c) (config_of g3 h c')) by (by eapply step_finish).
  pose proof (step_inv _ _ _ _ Hinv Hstep) as Hinv3.
  destruct (run_transition n0 g3 i f c') as (g4 & new & -> & Hacc & Hx' & Hsf & _ & _); try done.
  - eapply acyclic_deps; [|exact gv_acyclic0]. intros j. by apply deps_proper.
  - intros j r. simpl. rewrite (same_graph_value _ _ j Hsame). apply gv_ids0.
  - simpl. rewrite gv_jobs0. unfold open_jobs. simpl. apply Permutation_length in Hc. simpl in Hc. lia.
  - simpl. do 2 eexists. split_and!; [done|done|done|]. etrans; [|exact Hsf]. split; [|done].
    intros j. by apply same_graph_kind.
Qed.

Lemma start_inv x target src :
  graph_inv x -> Graph.state_ (sgraph x) = kGraphSuccess \/ Graph.state_ (sgraph x) = kUndefinedState ->
  Graph.isValidRunTarget target (sgraph x) = true ->
  exists g' new, Graph.startTransition target src (sgraph x) = Ret (true, g') /\
    wq_accepted (Graph.job_queue_ g') = wq_accepted (Graph.job_queue_ (sgraph x)) ++ new /\
    graph_inv (mkSys g' (inflight x ++ new) (failed x) (skipped x) (finished x)) /\
    same_face (sgraph x) g' /\ Graph.state_ g' <> kUndefinedState /\ Graph.requested_state_ g' = target.
Proof.
  intros [] Hst Hv.
  assert (Hz : open_jobs x = 0).
  { unfold state_inv in gv_state0. destruct Hst as [E|E]; rewrite E in gv_state0; tauto. }
  destruct x as [g i f sk c]. unfold open_jobs in Hz. simpl in *.
  destruct i; [|simpl in Hz; lia]. destruct f; [|simpl in Hz; lia].
  destruct sk; [|simpl in Hz; lia]. destruct c; [|simpl in Hz; lia].
  assert (Ht : is_Some (nodes (Graph.nodes_ g) !! target)).
  { unfold Graph.isValidRunTarget in Hv. destruct (nodes (Graph.nodes_ g) !! target); eauto; done. }
  unfold Graph.startTransition. change (Graph.isValidRunTarget target (Graph.set_requested _ _))
    with (Graph.isValidRunTarget target g). rewrite Hv.
  set (g1 := Graph.set_requested target (Graph.set_source src g)).
  set (g2 := Graph.set_state_stop kInTransition (S (Graph.stop_source_ g)) (Graph.stop_requested_ g) g1).
  replace (Graph.setState kInTransition g1) with (true, g2).
  2: { unfold Graph.setState, g2. change (Graph.state_ g1) with (Graph.state_ g).
       destruct Hst as [-> | ->]; done. }
  rewrite assert_dbg_true. cbn [mbind outcome_bind].
  destruct gv_reusable0 as [Hdom [l Hq] Hcap].
  destruct (createTransition_spec (Graph.nodes_ g) (Graph.transition_ g) target l) as (n3 & s3 & Hrun & Hsame & Hr & Hup); auto.
  change (Graph.nodes_ g2) with (Graph.nodes_ g). change (Graph.transition_ g2) with (Graph.transition_ g).
  rewrite Hrun. cbn [mbind outcome_bind]. set (g3 := Graph.set_current (Graph.set_transition n3 s3 g2)).
  destruct (run_transition (Graph.nodes_ g) g3 [] [] []) as (g4 & new & -> & Hacc & Hx' & Hsf & Hu & Hrq); try done.
  - apply set_up_inv; [done| | |done].
    + intros j. by apply deps_proper.
    + by apply same_graph_size.
  - eapply acyclic_deps; [|exact gv_acyclic0]. intros j. by apply deps_proper.
  - intros j r. simpl. rewrite (same_graph_value _ _ j Hsame). apply gv_ids0.
  - simpl. intros j Hj. specialize (gv_sources0 j Hj). lia.
  - simpl. intros Hin. apply gv_sources0 in Hin. lia.
  - by intros task ?%elem_of_nil.
  - simpl. do 2 eexists. split_and!; [done|done|done| |done|done]. etrans; [|exact Hsf]. split; [|done].
    intros j. by apply same_graph_kind.
Qed.

(** ** The workers *)

Lemma sys_inv_alike n0 target n n' st h c :
  alike n' n -> wf n' -> DependencyGraph.size n' = DependencyGraph.size n ->
  sys_inv n0 target (mkConfig n st h c) -> sys_inv n0 target (mkConfig n' st h c).
Proof.
  intros Hal Hwf Hsz [Ht Hd Hs Hp]. split; simpl in *; [done| |congruence|].
  - intros k. by rewrite (al_deps _ _ Hal).
  - destruct Hp as [(Hdn & Hh & Hc)|(Qs & B & Hi & Ha)].
    + left. split_and!; [by eapply done_inv_alike|done|done].
    + right. exists Qs, B. split; [by eapply phase_inv_alike|done].
Qed.

(** Writing a component back leaves the static part of the invariant alone. *)
Lemma put_static g k p p' n' :
  wf (Graph.nodes_ g) -> acyclic (Graph.nodes_ g) -> reusable (Graph.nodes_ g) (Graph.transition_ g) ->
  ids_ok (Graph.nodes_ g) -> value <$> nodes (Graph.nodes_ g) !! k = Some (Process p) ->
  put k (Process p') (Graph.nodes_ g) = Ret n' ->
  wf n' /\ acyclic n' /\ reusable n' (Graph.transition_ g) /\ ids_ok n' /\
  (active p' = active p -> alike n' (Graph.nodes_ g)) /\
  DependencyGraph.size n' = DependencyGraph.size (Graph.nodes_ g).
Proof.
  intros Hwf Hac [Hd1 Hd2 Hd3] Hids Hp Hput.
  destruct (put_spec k (Process p') (Graph.nodes_ g)) as (n1 & Hput1 & Hc & Hs & Hq & Hdom & Hd & Hr & Hval).
  { destruct (nodes (Graph.nodes_ g) !! k); eauto; done. }
  assert (n1 = n') as -> by congruence. split_and!; try done.
  - by eapply put_wf.
  - by eapply acyclic_deps.
  - split; [|done|congruence]. intros j. rewrite Hdom. apply Hd1.
  - intros j r. rewrite Hval. destruct (decide (j = k)); [done|apply Hids].
  - intros Ha. split; try done. intros j. unfold act. rewrite Hval.
    destruct (decide (j = k)) as [->|]; [|done]. rewrite Hp. simpl. done.
Qed.

Lemma work_ok_inv x task i' p p' n' :
  graph_inv x -> inflight x ≡ₚ task :: i' ->
  value <$> nodes (Graph.nodes_ (sgraph x)) !! component task = Some (Process p) ->
  put (component task) (Process p') (Graph.nodes_ (sgraph x)) = Ret n' ->
  active p' = bool_decide (type task = kActivate) ->
  graph_inv (mkSys (Graph.set_nodes n' (sgraph x)) i' (failed x) (skipped x) (component task :: finished x)).
Proof.
  intros [] Hi Hp Hput Ha. destruct (put_static _ _ _ _ _ gv_wf0 gv_acyclic0 gv_reusable0 gv_ids0 Hp Hput)
    as (Hwf' & Hac' & Hru' & Hids' & _). destruct x as [g i f sk c]. simpl in *.
  assert (Hlen : length i = S (length i')) by (by rewrite Hi).
  assert (Hin : task ∈ i) by (rewrite Hi; by left).
  assert (Hsub : i' ⊆ i) by (intros t Ht; rewrite Hi; by right).
  split; simpl; try done.
  - rewrite gv_jobs0. unfold open_jobs. simpl. lia.
  - unfold state_inv, open_jobs in *. simpl in *. destruct (Graph.state_ g); [lia| | |lia].
    + destruct gv_state0 as (Hcur & Hsk & _ & Hf & (n0 & Hinv) & Hfr & Htok).
      split_and!; try done; [lia| |by intros t Ht; apply Htok, Hsub]. exists n0.
      eapply (step_inv _ _ (config_of g (unanswered (mkSys g i f sk c)) c)); [done|].
      eapply step_work with (k := component task) (a := action_of (type task)) (v := Process p'); [|done|].
      * unfold unanswered. simpl. by rewrite Hi.
      * simpl. unfold component_active. rewrite Ha. by destruct (type task).
    + destruct gv_state0 as [Hne Htok]. split; [lia|]. intros t Ht. by apply Htok, Hsub.
Qed.

Lemma work_fail_inv x task i' p p' n' :
  graph_inv x -> inflight x ≡ₚ task :: i' -> type task = kActivate ->
  value <$> nodes (Graph.nodes_ (sgraph x)) !! component task = Some (Process p) ->
  put (component task) (Process p') (Graph.nodes_ (sgraph x)) = Ret n' -> active p' = active p ->
  graph_inv (mkSys (Graph.set_nodes n' (sgraph x)) i' (component task :: failed x) (skipped x) (finished x)).
Proof.
  intros [] Hi Hty Hp Hput Ha. destruct (put_static _ _ _ _ _ gv_wf0 gv_acyclic0 gv_reusable0 gv_ids0 Hp Hput)
    as (Hwf' & Hac' & Hru' & Hids' & Hal & Hsz). specialize (Hal Ha). destruct x as [g i f sk c]. simpl in *.
  assert (Hlen : length i = S (length i')) by (by rewrite Hi).
  assert (Hsub : i' ⊆ i) by (intros t Ht; rewrite Hi; by right).
  split; simpl; try done.
  - rewrite gv_jobs0. unfold open_jobs. simpl. lia.
  - unfold state_inv, open_jobs in *. simpl in *. destruct (Graph.state_ g); [lia| | |lia].
    + destruct gv_state0 as (Hcur & Hsk & _ & Hf & (n0 & Hinv) & Hfr & Htok).
      split_and!; try done; [lia| |by intros t Ht; apply Htok, Hsub]. exists n0.
      eapply sys_inv_alike; [exact Hal|done|done|].
      apply (sys_inv_perm n0 _ g (unanswered (mkSys g i f sk c))); [|exact Hinv]. unfold unanswered. simpl.
      rewrite Hi. simpl. unfold job_of at 1. rewrite Hty. simpl. apply Permutation_middle.
    + destruct gv_state0 as [Hne Htok]. split; [lia|]. intros t Ht. by apply Htok, Hsub.
Qed.

Lemma skip_inv x task i' :
  graph_inv x -> inflight x ≡ₚ task :: i' -> stop_token task ∈ Graph.stop_requested_ (sgraph x) ->
  graph_inv (mkSys (sgraph x) i' (failed x) (component task :: skipped x) (finished x)).
Proof.
  intros [] Hi Htk. destruct x as [g i f sk c]. simpl in *.
  assert (Hlen : length i = S (length i')) by (by rewrite Hi).
  assert (Hin : task ∈ i) by (rewrite Hi; by left).
  assert (Hsub : i' ⊆ i) by (intros t Ht; rewrite Hi; by right).
  split; simpl; try done.
  - rewrite gv_jobs0. unfold open_jobs. simpl. lia.
  - unfold state_inv, open_jobs in *. simpl in *. destruct (Graph.state_ g); [lia| | |lia].
    + destruct gv_state0 as (_ & _ & _ & _ & _ & Hfr & Htok). by rewrite (Htok _ Hin) in Htk.
    + destruct gv_state0 as [Hne Htok]. split; [lia|]. intros t Ht. by apply Htok, Hsub.
Qed.

(** ** The system *)

(** The steps of the workers, and the events and requests of the main thread. *)
Inductive gstep : gsys -> gsys -> Prop :=
| gs_work_ok x task i' p p' n' :
    inflight x ≡ₚ task :: i' ->
    value <$> nodes (Graph.nodes_ (sgraph x)) !! component task = Some (Process p) ->
    put (component task) (Process p') (Graph.nodes_ (sgraph x)) = Ret n' ->
    active p' = bool_decide (type task = kActivate) ->
    gstep x (mkSys (Graph.set_nodes n' (sgraph x)) i' (failed x) (skipped x) (component task :: finished x))
| gs_work_fail x task i' p p' n' :
    inflight x ≡ₚ task :: i' -> type task = kActivate ->
    value <$> nodes (Graph.nodes_ (sgraph x)) !! component task = Some (Process p) ->
    put (component task) (Process p') (Graph.nodes_ (sgraph x)) = Ret n' -> active p' = active p ->
    gstep x (mkSys (Graph.set_nodes n' (sgraph x)) i' (component task :: failed x) (skipped x) (finished x))
| gs_skip x task i' :
    inflight x ≡ₚ task :: i' -> stop_token task ∈ Graph.stop_requested_ (sgraph x) ->
    gstep x (mkSys (sgraph x) i' (failed x) (component task :: skipped x) (finished x))
| gs_finished x k e c' g' new :
    finished x ≡ₚ k :: c' -> e = ActivationSuccessful k \/ e = DeactivationComplete k ->
    Graph.handleComponentEvent e (sgraph x) = Ret g' ->
    wq_accepted (Graph.job_queue_ g') = wq_accepted (Graph.job_queue_ (sgraph x)) ++ new ->
    gstep x (mkSys g' (inflight x ++ new) (failed x) (skipped x) c')
| gs_failed x k reason f' g' new :
    failed x ≡ₚ k :: f' -> reason <> kSuccess ->
    Graph.handleComponentEvent (ActivationFailed k reason) (sgraph x) = Ret g' ->
    wq_accepted (Graph.job_queue_ g') = wq_accepted (Graph.job_queue_ (sgraph x)) ++ new ->
    gstep x (mkSys g' (inflight x ++ new) f' (skipped x) (finished x))
| gs_skipped x k s' g' new :
    skipped x ≡ₚ k :: s' -> Graph.handleComponentEvent (JobSkipped k) (sgraph x) = Ret g' ->
    wq_accepted (Graph.job_queue_ g') = wq_accepted (Graph.job_queue_ (sgraph x)) ++ new ->
    gstep x (mkSys g' (inflight x ++ new) (failed x) s' (finished x))
| gs_crash x k g' :
    is_Some (nodes (Graph.nodes_ (sgraph x)) !! k) ->
    Graph.handleComponentEvent (UnexpectedTermination k) (sgraph x) = Ret g' ->
    gstep x (mkSys g' (inflight x) (failed x) (skipped x) (finished x))
| gs_cancel x :
    gstep x (mkSys (Graph.cancel (sgraph x)) (inflight x) (failed x) (skipped x) (finished x))
| gs_start x target src g' new :
    Graph.state_ (sgraph x) = kGraphSuccess \/ Graph.state_ (sgraph x) = kUndefinedState ->
    Graph.isValidRunTarget target (sgraph x) = true ->
    Graph.startTransition target src (sgraph x) = Ret (true, g') ->
    wq_accepted (Graph.job_queue_ g') = wq_accepted (Graph.job_queue_ (sgraph x)) ++ new ->
    gstep x (mkSys g' (inflight x ++ new) (failed x) (skipped x) (finished x)).

(** Answers to aborted jobs hand out nothing new. *)
Lemma nothing_new g g' (new : list ComponentTask) :
  Graph.job_queue_ g' = Graph.job_queue_ g ->
  wq_accepted (Graph.job_queue_ g') = wq_accepted (Graph.job_queue_ g) ++ new -> new = [].
Proof. intros ->. apply app_self_nil. Qed.

Lemma open_jobs_finished x k c' : finished x ≡ₚ k :: c' ->
  open_jobs x = S (open_jobs (mkSys (sgraph x) (inflight x) (failed x) (skipped x) c')).
Proof. intros E%Permutation_length. unfold open_jobs. simpl in *. lia. Qed.

Lemma open_jobs_failed x k f' : failed x ≡ₚ k :: f' ->
  open_jobs x = S (open_jobs (mkSys (sgraph x) (inflight x) f' (skipped x) (finished x))).
Proof. intros E%Permutation_length. unfold open_jobs. simpl in *. lia. Qed.

Lemma open_jobs_skipped x k s' : skipped x ≡ₚ k :: s' ->
  open_jobs x = S (open_jobs (mkSys (sgraph x) (inflight x) (failed x) s' (finished x))).
Proof. intros E%Permutation_length. unfold open_jobs. simpl in *. lia. Qed.

Lemma skipped_not_running x k s' :
  graph_inv x -> skipped x ≡ₚ k :: s' -> Graph.state_ (sgraph x) <> kInTransition.
Proof.
  intros Hx Hs Hst. pose proof (gv_state _ Hx) as Hinv. unfold state_inv in Hinv. rewrite Hst in Hinv.
  destruct Hinv as (_ & E & _). rewrite E in Hs. by apply Permutation_nil_cons in Hs.
Qed.

(** Reporting a carried out job, in whatever state. *)
Lemma finished_event x k c' :
  graph_inv x -> finished x ≡ₚ k :: c' ->
  exists g' new, Graph.nodeExecuted k kSuccess (sgraph x) = Ret g' /\
    wq_accepted (Graph.job_queue_ g') = wq_accepted (Graph.job_queue_ (sgraph x)) ++ new /\
    graph_inv (mkSys g' (inflight x ++ new) (failed x) (skipped x) c') /\ same_face (sgraph x) g'.
Proof.
  intros Hx Hc. destruct (decide (Graph.state_ (sgraph x) = kInTransition)) as [Hst|Hst].
  - by apply nodeExecuted_done.
  - destruct (nodeExecuted_abort x k kSuccess (inflight x) (failed x) (skipped x) c' Hx)
      as (g' & Hrun & Hq & Hx' & Hsf); [by eapply open_jobs_finished|done|by right|].
    exists g', []. rewrite !app_nil_r, Hq. done.
Qed.

Lemma gstep_inv x x' : graph_inv x -> gstep x x' -> graph_inv x'.
Proof.
  intros Hx Hst. destruct Hst as [x task i' p p' n' Hi Hp Hput Ha|x task i' p p' n' Hi Hty Hp Hput Ha|
    x task i' Hi Htk|x k e c' g' new Hc He Hrun Hnew|x k reason f' g' new Hf Hr Hrun Hnew|
    x k s' g' new Hs Hrun Hnew|x k g' Hk Hrun|x|x target src g' new Hst Hv Hrun Hnew].
  - by eapply work_ok_inv.
  - by eapply work_fail_inv.
  - by eapply skip_inv.
  - destruct (finished_event x k c' Hx Hc) as (g1 & new1 & Hrun1 & Hnew1 & Hx' & _).
    assert (Hrun' : Graph.nodeExecuted k kSuccess (sgraph x) = Ret g') by (by destruct He as [-> | ->]).
    assert (g1 = g') as -> by congruence. assert (new1 = new) as -> by (eapply (app_inv_head (wq_accepted (Graph.job_queue_ (sgraph x)))); by rewrite <- Hnew, <- Hnew1). done.
  - destruct (nodeExecuted_abort x k reason (inflight x) f' (skipped x) (finished x) Hx)
      as (g1 & Hrun1 & Hq & Hx' & _); [by eapply open_jobs_failed|done|by left|].
    simpl in Hrun. assert (g1 = g') as -> by congruence. by rewrite (nothing_new _ _ _ Hq Hnew), app_nil_r.
  - destruct (nodeExecuted_abort x k kSuccess (inflight x) (failed x) s' (finished x) Hx)
      as (g1 & Hrun1 & Hq & Hx' & _); [by eapply open_jobs_skipped|done|right; by eapply skipped_not_running|].
    simpl in Hrun. assert (g1 = g') as -> by congruence. by rewrite (nothing_new _ _ _ Hq Hnew), app_nil_r.
  - destruct (crash_inv x k Hx Hk) as (g1 & Hrun1 & _ & Hx' & _). assert (g1 = g') as -> by congruence. done.
  - by apply cancel_inv.
  - destruct (start_inv x target src Hx Hst Hv) as (g1 & new1 & Hrun1 & Hnew1 & Hx' & _).
    assert (g1 = g') as -> by congruence. assert (new1 = new) as -> by (eapply (app_inv_head (wq_accepted (Graph.job_queue_ (sgraph x)))); by rewrite <- Hnew, <- Hnew1). done.
Qed.

(** A graph as its constructor leaves it. *)
Record initial (x : gsys) : Prop := {
  in_wf : wf (Graph.nodes_ (sgraph x));
  in_acyclic : acyclic (Graph.nodes_ (sgraph x));
  in_ids : ids_ok (Graph.nodes_ (sgraph x));
  in_reusable : reusable (Graph.nodes_ (sgraph x)) (Graph.transition_ (sgraph x));
  in_state : Graph.state_ (sgraph x) = kGraphSuccess;
  in_current : Graph.current_transition_ (sgraph x) = false;
  in_jobs : Graph.jobs_in_progress_ (sgraph x) = 0%Z;
  in_stop : Graph.stop_requested_ (sgraph x) = ∅;
  in_open : open_jobs x = 0
}.

Definition g_reachable (x : gsys) : Prop := exists x0, initial x0 /\ rtc gstep x0 x.

Lemma g_reachable_inv x : g_reachable x -> graph_inv x.
Proof.
  intros (x0 & [] & Hsteps). assert (Hx0 : graph_inv x0).
  { split; try done; [by rewrite in_jobs0, in_open0|by rewrite in_stop0|].
    unfold state_inv. rewrite in_state0, in_current0. done. }
  clear -Hx0 Hsteps push_only_times_out. induction Hsteps; [done|]. by eauto using gstep_inv.
Qed.

(** ** The theorems *)

(** C6: no handler of the graph fails.  In every state the graph can be in, with
    whatever mix of finished, failed and skipped jobs still to report, each
    answer a worker may give, an unexpected termination of any component and,
    when the graph is idle, a transition to any configured Run Target are
    handled without a failed assertion, a missing node or an endless loop. *)
Theorem graph_handlers_return x :
  g_reachable x ->
  let g := sgraph x in
  (forall k, k ∈ finished x -> returns (Graph.handleComponentEvent (ActivationSuccessful k) g) (fun _ => True) /\
                              returns (Graph.handleComponentEvent (DeactivationComplete k) g) (fun _ => True)) /\
  (forall k r, k ∈ failed x -> r <> kSuccess -> returns (Graph.handleComponentEvent (ActivationFailed k r) g) (fun _ => True)) /\
  (forall k, k ∈ skipped x -> returns (Graph.handleComponentEvent (JobSkipped k) g) (fun _ => True)) /\
  (forall k, is_Some (nodes (Graph.nodes_ g) !! k) ->
     returns (Graph.handleComponentEvent (UnexpectedTermination k) g) (fun _ => True)) /\
  (forall target src, Graph.state_ g = kGraphSuccess \/ Graph.state_ g = kUndefinedState ->
     Graph.isValidRunTarget target g = true ->
     returns (Graph.startTransition target src g) (fun r => r.1 = true)).
Proof.
  intros Hx%g_reachable_inv g. split_and!.
  - intros k [c' Hc]%elem_of_Permutation.
    destruct (finished_event x k c' Hx Hc) as (g' & new & Hrun & _). unfold g, Graph.handleComponentEvent. by rewrite Hrun.
  - intros k r [f' Hf]%elem_of_Permutation Hr.
    destruct (nodeExecuted_abort x k r (inflight x) f' (skipped x) (finished x) Hx)
      as (g' & Hrun & _); [by eapply open_jobs_failed|done|by left|]. unfold g, Graph.handleComponentEvent. by rewrite Hrun.
  - intros k [s' Hs]%elem_of_Permutation.
    destruct (nodeExecuted_abort x k kSuccess (inflight x) (failed x) s' (finished x) Hx)
      as (g' & Hrun & _); [by eapply open_jobs_skipped|done|right; by eapply skipped_not_running|].
    unfold g, Graph.handleComponentEvent. by rewrite Hrun.
  - intros k Hk. destruct (crash_inv x k Hx Hk) as (g' & Hrun & _). unfold g. by rewrite Hrun.
  - intros target src Hst Hv. destruct (start_inv x target src Hx Hst Hv) as (g' & new & Hrun & _).
    unfold g. by rewrite Hrun.
Qed.

(** C7: [kSuccess] means what it says.  Once a first transition has been
    started, a graph in state [kSuccess] has exactly the components of the
    requested Run Target active and no job open. *)
Theorem success_means_target_active x :
  g_reachable x -> Graph.state_ (sgraph x) = kGraphSuccess -> Graph.current_transition_ (sgraph x) = true ->
  (forall k, act (Graph.nodes_ (sgraph x)) k = true <->
             reach (Graph.nodes_ (sgraph x)) (Graph.requested_state_ (sgraph x)) k) /\
  open_jobs x = 0.
Proof.
  intros Hx%g_reachable_inv Hst Hcur. pose proof (gv_state _ Hx) as Hs. unfold state_inv in Hs.
  rewrite Hst in Hs. destruct Hs as [? Hs]. auto.
Qed.

(** Job accounting.  [jobs_in_progress_] counts exactly the jobs that have
    been queued and whose event has not been handled: it is never negative, it
    is zero in the two final states and positive while a transition runs or is
    being aborted, so a running or aborting graph always has an event to come. *)
Theorem jobs_accounted_for x :
  g_reachable x ->
  Graph.jobs_in_progress_ (sgraph x) = Z.of_nat (open_jobs x) /\
  match Graph.state_ (sgraph x) with
  | kInTransition | kAborting => open_jobs x <> 0
  | kGraphSuccess | kUndefinedState => open_jobs x = 0
  end.
Proof.
  intros Hx%g_reachable_inv. split; [apply Hx|]. pose proof (gv_state _ Hx) as Hs. unfold state_inv in Hs.
  destruct (Graph.state_ (sgraph x)); tauto.
Qed.

(** Cancellation reaches every job.  While a transition runs no job of it
    has been asked to stop; once it is being aborted every job that is still
    with the workers has. *)
Theorem stop_tokens_follow_state x task :
  g_reachable x -> task ∈ inflight x ->
  (stop_token task ∈ Graph.stop_requested_ (sgraph x) <-> Graph.state_ (sgraph x) <> kInTransition).
Proof.
  intros Hx%g_reachable_inv Hin. pose proof (gv_state _ Hx) as Hs. unfold state_inv in Hs.
  assert (Hne : open_jobs x <> 0).
  { unfold open_jobs. destruct (inflight x); [by apply elem_of_nil in Hin|simpl; lia]. }
  destruct (Graph.state_ (sgraph x)); [by destruct Hs| | |done].
  - destruct Hs as (_ & _ & _ & _ & _ & Hfr & Htok). rewrite (Htok _ Hin). split; [done|]. by intros [].
  - split; [done|]. intros _. by apply Hs.
Qed.

(** An aborted transition ends.  In state [kAborting] each answer takes one
    job off the count; the last one moves the graph to [kUndefinedState], any
    other leaves it in [kAborting]; none hands out new work or touches the
    pending request. *)
Theorem abort_drains g k res :
  Graph.state_ g = kAborting ->
  exists g', Graph.nodeExecuted k res g = Ret g' /\
    Graph.jobs_in_progress_ g' = (Graph.jobs_in_progress_ g - 1)%Z /\
    Graph.job_queue_ g' = Graph.job_queue_ g /\
    Graph.state_ g' = (if bool_decide (Graph.jobs_in_progress_ g = 1%Z)
                       then kUndefinedState else kAborting) /\
    same_face g g'.
Proof.
  intros Hst. unfold Graph.nodeExecuted. cbv zeta.
  set (g1 := Graph.set_jobs _ g).
  set (g2 := if bool_decide (res <> kSuccess) then (Graph.setState kAborting g1).2 else g1).
  assert (E : Graph.state_ g2 = kAborting /\ Graph.jobs_in_progress_ g2 = Graph.jobs_in_progress_ g1 /\
    Graph.job_queue_ g2 = Graph.job_queue_ g).
  { unfold g2, Graph.setState. case_bool_decide; simpl; rewrite Hst; done. }
  assert (Hsf : same_face g g2).
  { unfold g2. etrans; [|by case_match; [apply setState_face|reflexivity]]. done. }
  destruct E as (E1 & E2 & E3). clearbody g2. rewrite E1. rewrite (bool_decide_eq_false_2 (kAborting = _)) by done.
  change (Graph.jobs_in_progress_ g1) with (Graph.jobs_in_progress_ g - 1)%Z in *.
  case_bool_decide as Hz.
  - destruct (handleNonTransition_spec g2) as ((_ & _ & Hj & Hq & _) & Hs & _); [congruence|].
    eexists. split_and!; [done|congruence|congruence| |].
    + by rewrite bool_decide_eq_true_2 by lia.
    + etrans; [exact Hsf|]. apply (nonTransition_face true).
  - exists g2. split_and!; try done. by rewrite bool_decide_eq_false_2 by lia.
Qed.

(** An executable check of [ids_ok]. *)
Definition ids_check n : bool :=
  forallb (fun kn => match value kn.2 with Target r => bool_decide (RunTarget.identifier_ r = kn.1) | _ => true end)
    (map_to_list (nodes n)).

Lemma ids_check_sound n : ids_check n = true -> ids_ok n.
Proof.
  unfold ids_check. rewrite forallb_forall. intros Hall k r Hk.
  destruct (nodes n !! k) as [nd|] eqn:E; [|done]. simpl in Hk. injection Hk as Hv.
  apply elem_of_map_to_list, list_elem_of_In, Hall in E. simpl in E. rewrite Hv in E.
  by apply bool_decide_eq_true in E.
Qed.

End Proofs.

(** ** An example: one process below one Run Target *)

Module Example.

(** The smallest process component and a job queue with room for everything. *)
Record proc := mkProc { proc_id : IdentifierHash; proc_active : bool }.

#[export] Instance proc_component : IComponent proc := {
  active := proc_active;
  getIdentifier := proc_id;
  deactivate p := (kSuccess, mkProc (proc_id p) false);
  deactivate_inactive p := eq_refl;
  deactivate_identifier p := eq_refl
}.
#[export] Instance proc_node : ProcessNode proc := { getPid p := 1%Z }.

#[export] Instance list_queue : WorkerQueue (list ComponentTask).
Proof.
  refine {| wq_push task q := (inl tt, q ++ [task]); wq_accepted q := q; wq_patience q := 0 |};
    intros; by simplify_eq.
Defined.

#[local] Instance order : IterOrder IdentifierHash := map_order.
#[local] Instance build : BuildMode := debug_build.

Lemma list_queue_accepts task (q q' : list ComponentTask) e :
  wq_push task q = (inr e, q') -> e = kErrTimeout.
Proof. done. Qed.

Definition hash (s : string) : IdentifierHash :=
  (if bool_decide (s = "") then 0 else if bool_decide (s = "Off") then 1
   else if bool_decide (s = "fallback_run_target") then 2 else if bool_decide (s = "Startup") then 3 else 4)%Z.

Definition config : Graph.GraphConfig :=
  Graph.mkGraphConfig [Graph.mkComponentConfig "app" []]
    [Graph.mkRunTargetConfig "Startup" ["app"] 1000%Z] [] "Startup".

Notation made := (Graph.make hash (fun c => mkProc (hash (Graph.component_name c)) false) 4 config []).

Definition g_init : Graph.t proc (list ComponentTask) :=
  Eval vm_compute in match made with Ret g => g | Abort _ => Graph.mk 0%Z (DependencyGraph.make 0)
    (Transition.make (DependencyGraph.make 0 : DependencyGraph.t IdentifierHash (Component proc)))
    false kGraphSuccess 0%Z [] false kStateManagerRequest (mkPending 0%Z kStateManagerRequest) 0%Z 0 ∅ 0%Z false [] end.

Lemma g_init_made : made = Ret g_init.
Proof. vm_compute. reflexivity. Qed.

Definition x_init : gsys := mkSys g_init [] [] [] [].

Definition run (o : outcome (Graph.t proc (list ComponentTask))) : Graph.t proc (list ComponentTask) :=
  match o with Ret g => g | Abort _ => g_init end.

Definition task_app : ComponentTask := mkTask kActivate 4%Z 1.

(** "Startup" has been requested: the process is with the workers; then it has
    been started; then its event has been handled; or the request was cancelled. *)
Definition x_start : gsys := Eval vm_compute in
  mkSys (run ('(_, g) ← Graph.startTransition 3%Z kStateManagerRequest g_init; Ret g)) [task_app] [] [] [].
Definition x_work : gsys := Eval vm_compute in
  mkSys (run (n ← put 4%Z (Process (mkProc 4%Z true)) (Graph.nodes_ (sgraph x_start));
              Ret (Graph.set_nodes n (sgraph x_start)))) [] [] [] [4%Z].
Definition x_success : gsys := Eval vm_compute in
  mkSys (run (Graph.handleComponentEvent (ActivationSuccessful 4%Z) (sgraph x_work))) [] [] [] [].
Definition x_cancel : gsys := Eval vm_compute in
  mkSys (Graph.cancel (sgraph x_start)) [task_app] [] [] [].

Lemma x_init_initial : initial x_init.
Proof.
  split; try reflexivity.
  - apply wf_check_sound; vm_compute; reflexivity.
  - apply (rank_check_sound (fun k => if bool_decide (k = 3%Z) then 1 else 0)). vm_compute. reflexivity.
  - apply ids_check_sound. vm_compute. reflexivity.
  - split; [by intros k []|eexists; apply (FixedSizeQueue.make_rep 4)|reflexivity].
Qed.

Lemma reach_start : g_reachable x_start.
Proof.
  exists x_init. split; [apply x_init_initial|]. eapply rtc_l; [|apply rtc_refl].
  apply (gs_start x_init 3%Z kStateManagerRequest (sgraph x_start) [task_app]).
  - by left.
  - vm_compute. reflexivity.
  - vm_compute. reflexivity.
  - reflexivity.
Qed.

Lemma reach_then x x' : g_reachable x -> gstep x x' -> g_reachable x'.
Proof. intros (x0 & H0 & Hs) Hst. exists x0. split; [done|]. by eapply rtc_r. Qed.

Lemma reach_work : g_reachable x_work.
Proof.
  eapply reach_then; [apply reach_start|].
  apply (gs_work_ok x_start task_app [] (mkProc 4%Z false) (mkProc 4%Z true) (Graph.nodes_ (sgraph x_work))).
  - reflexivity.
  - vm_compute. reflexivity.
  - vm_compute. reflexivity.
  - reflexivity.
Qed.

Lemma reach_success : g_reachable x_success.
Proof.
  eapply reach_then; [apply reach_work|].
  apply (gs_finished x_work 4%Z (ActivationSuccessful 4%Z) [] (sgraph x_success) []).
  - reflexivity.
  - by left.
  - vm_compute. reflexivity.
  - vm_compute. reflexivity.
Qed.

Lemma reach_cancel : g_reachable x_cancel.
Proof. eapply reach_then; [apply reach_start|]. exact (gs_cancel x_start). Qed.

Lemma graph_handlers_return_witness :
  4%Z ∈ finished x_work /\
  returns (Graph.handleComponentEvent (ActivationSuccessful 4%Z) (sgraph x_work)) (fun _ => True).
Proof.
  assert (Hin : 4%Z ∈ finished x_work) by left.
  exact (conj Hin (proj1 (proj1 (graph_handlers_return list_queue_accepts x_work reach_work) 4%Z Hin))).
Defined.

Lemma success_means_target_active_witness :
  Graph.state_ (sgraph x_success) = kGraphSuccess /\
  (act (Graph.nodes_ (sgraph x_success)) 4%Z = true <->
   reach (Graph.nodes_ (sgraph x_success)) 3%Z 4%Z).
Proof.
  split; [reflexivity|].
  exact (proj1 (success_means_target_active list_queue_accepts x_success reach_success eq_refl eq_refl) 4%Z).
Defined.

Lemma jobs_accounted_for_witness :
  Graph.jobs_in_progress_ (sgraph x_start) = Z.of_nat (open_jobs x_start) /\ open_jobs x_start <> 0.
Proof. exact (jobs_accounted_for list_queue_accepts x_start reach_start). Defined.

Lemma stop_tokens_follow_state_witness :
  stop_token task_app ∈ Graph.stop_requested_ (sgraph x_cancel).
Proof.
  apply (stop_tokens_follow_state list_queue_accepts x_cancel task_app reach_cancel); [left|discriminate].
Defined.

Lemma abort_drains_witness :
  exists g', Graph.nodeExecuted 4%Z kSuccess (sgraph x_cancel) = Ret g' /\
    Graph.jobs_in_progress_ g' = 0%Z /\ Graph.state_ g' = kUndefinedState.
Proof.
  destruct (abort_drains (sgraph x_cancel) 4%Z kSuccess eq_refl) as (g' & Hrun & Hj & _ & Hs & _).
  exists g'. split; [exact Hrun|]. split; [exact Hj|exact Hs].
Defined.

End Example.

End GraphProofs.
