(* ===== verification/Manager.v ===== *)
(** * The process group manager

    [ComponentEventQueue] (process_group_manager/details/component_event_queue.hpp),
    the worker side of the events ([ProcessMonitor],
    process_group_manager/details/process_monitor.cpp) and the main loop of
    [ProcessGroupManager] (process_group_manager/process_group_manager.cpp) with
    its requests, recovery and shutdown.  The proofs are in [ManagerProofs]. *)

From stdpp Require Import prelude fin_maps gmap strings.
From S2P Require Import Prelude Queues Depgraph Components Transitions Graphs.

(** ** The event queue *)

Module ComponentEventQueue.

Record t := mk {
  queue_ : MpscBoundedQueue.t ComponentEvent;
  capacity_ : nat;
  overflow_ : bool
}.

Definition make (components : nat) : t :=
  mk (MpscBoundedQueue.make (components * 3)) (components * 3) false.

Definition push (event : ComponentEvent) (q : t) : bool * t :=
  let '(result, q') := MpscBoundedQueue.push event (queue_ q) in
  match result with
  | inl _ => (true, mk q' (capacity_ q) (overflow_ q))
  | inr e => (false, mk q' (capacity_ q) (bool_decide (e = kErrOverflow) || overflow_ q))
  end.

Definition waitForEvents (self : nat) (q : t) : outcome (bool * t) :=
  '(r, q') ← MpscBoundedQueue.wait self (queue_ q);
  Ret (match r with inl _ => true | inr _ => false end, mk q' (capacity_ q) (overflow_ q)).

Definition getNextEvent (self : nat) (q : t) : outcome (option ComponentEvent * t) :=
  '(r, q') ← MpscBoundedQueue.tryPop self (queue_ q);
  Ret (r, mk q' (capacity_ q) (overflow_ q)).

Definition getOverflow (q : t) : bool := overflow_ q.
Definition stop (q : t) : t := mk (MpscBoundedQueue.stop (queue_ q)) (capacity_ q) (overflow_ q).
Definition capacity (q : t) : nat := capacity_ q.

(** The destructor stops the queue before the queue checks that it is stopped. *)
Definition destroy (q : t) : outcome unit := MpscBoundedQueue.destroy (queue_ (stop q)).

End ComponentEventQueue.

(** ** The workers *)

Module ProcessMonitor.
Section Monitor.
Context {C : Type} (activate deactivate : C -> RequestResult * C) (getIdentifier : C -> IdentifierHash).

(** The component call of a task, on the thread of a worker. *)
Definition run_task (task : ComponentTask) (component : C) : RequestResult * C :=
  match type task with kActivate => activate component | kDeactivate => deactivate component end.

Definition handle_success (task : ComponentTask) (node_identifier : IdentifierHash) (q : ComponentEventQueue.t) : ComponentEventQueue.t :=
  match type task with
  | kActivate => (ComponentEventQueue.push (ActivationSuccessful node_identifier) q).2
  | kDeactivate => (ComponentEventQueue.push (DeactivationComplete node_identifier) q).2
  end.

Definition handle_failure (task : ComponentTask) (node_identifier : IdentifierHash) (error : RequestResult) (q : ComponentEventQueue.t) :
    ComponentEventQueue.t :=
  match type task with
  | kActivate => (ComponentEventQueue.push (ActivationFailed node_identifier error) q).2
  | kDeactivate => q
  end.

(** [doWork] on the component of the task. *)
Definition doWork (task : ComponentTask) (stop_requested : bool) (component : C) (q : ComponentEventQueue.t) : C * ComponentEventQueue.t :=
  if stop_requested then (component, (ComponentEventQueue.push (JobSkipped (getIdentifier component)) q).2)
  else
    let '(result, component1) := run_task task component in
    (component1,
     match result with
     | kSuccess => handle_success task (getIdentifier component1) q
     | kTimeout | kFailure => handle_failure task (getIdentifier component1) result q
     end).

(** [terminated]: the event for the main thread after a process has ended. *)
Definition terminated (tryHandleTermination : Z -> C -> TerminationResult * C) (status : Z) (component : C) (q : ComponentEventQueue.t) :
    C * ComponentEventQueue.t :=
  let '(r, component1) := tryHandleTermination status component in
  (component1,
   match r with
   | kTerminationFailure => (ComponentEventQueue.push (UnexpectedTermination (getIdentifier component1)) q).2
   | kIgnore => q
   end).

End Monitor.
End ProcessMonitor.

(** ** The manager *)

Inductive ExecErrc :=
| kGeneralError
| kInvalidArguments
| kCommunicationError
| kMetaModelError
| kCancelled
| kFailed
| kFailedUnexpectedTerminationOnExit
| kFailedUnexpectedTerminationOnEnter
| kInvalidTransition
| kAlreadyInState
| kInTransitionToSameState
| kActivationInProgress
| kRequestQueueIsFull
| kRunTargetDoesntExist
| kNotImplemented.

#[export] Instance ExecErrc_eq_dec : EqDecision ExecErrc.
Proof. solve_decision. Defined.

(** What [CompletionSlot::complete] is called with. *)
Inductive response :=
| ActiveRunTarget (r : IdentifierHash + ExecErrc)
| SetRequested (r : unit + ExecErrc).

Module ProcessGroupManager.

Section Manager.
Context `{!IterOrder IdentifierHash} {P : Type} `{ProcessNode P} {Q : Type} `{WorkerQueue Q} `{BuildMode}.
Context (hash : string -> IdentifierHash).

Notation graph := (Graph.t P Q).

(** [completions_] records the completed slots, [watchdog_fired_] and
    [watchdog_serviced_] the calls of the watchdog; the graph exists. *)
Record t := mk {
  graph_ : graph;
  event_queue_ : ComponentEventQueue.t;
  completions_ : list (nat * response);
  overflow_logged_ : bool;
  watchdog_fired_ : nat;
  watchdog_serviced_ : nat
}.

Definition set_graph (g : graph) (m : t) : t :=
  mk g (event_queue_ m) (completions_ m) (overflow_logged_ m) (watchdog_fired_ m) (watchdog_serviced_ m).
Definition set_queue (q : ComponentEventQueue.t) (m : t) : t :=
  mk (graph_ m) q (completions_ m) (overflow_logged_ m) (watchdog_fired_ m) (watchdog_serviced_ m).
Definition complete (slot : option nat) (r : response) (m : t) : t :=
  match slot with
  | Some i => mk (graph_ m) (event_queue_ m) (completions_ m ++ [(i, r)]) (overflow_logged_ m)
                 (watchdog_fired_ m) (watchdog_serviced_ m)
  | None => m
  end.

Definition recovery_state_ : IdentifierHash := hash Graph.recovery_state_name.

(** The main thread. *)
Definition main_thread : nat := 0.

Definition handleRecoveryRequest (now : Z) (process_identifier : IdentifierHash) (m : t) : t :=
  let old_state := Graph.getRequestedRunTarget (graph_ m) in
  let graph_state := Graph.getState (graph_ m) in
  let set_pending g := Graph.setRequestStartTime now (Graph.setPendingState recovery_state_ kRecoveryAction g).2 in
  if bool_decide (graph_state = kInTransition) then
    if bool_decide (old_state <> recovery_state_) then
      set_graph (Graph.cancel (set_pending (graph_ m))) m
    else m
  else if bool_decide (graph_state = kGraphSuccess) && bool_decide (old_state = recovery_state_) then m
  else set_graph (set_pending (graph_ m)) m.

Definition handleGetActiveRunTarget (slot : option nat) (m : t) : t :=
  let result := match Graph.getState (graph_ m) with
    | kGraphSuccess => inl (Graph.getRequestedRunTarget (graph_ m))
    | kAborting | kInTransition | kUndefinedState => inr kActivationInProgress
    end in
  complete slot (ActiveRunTarget result) m.

Definition handleSetRequestedRunTarget (now : Z) (run_target : IdentifierHash) (slot : option nat) (m : t) : t :=
  let old_state := Graph.getRequestedRunTarget (graph_ m) in
  let graph_state := Graph.getState (graph_ m) in
  let set_pending g := Graph.setRequestStartTime now (Graph.setPendingState run_target kStateManagerRequest g).2 in
  let '(response, g) :=
    if negb (Graph.isValidRunTarget run_target (graph_ m)) then (inr kRunTargetDoesntExist, graph_ m)
    else if bool_decide (graph_state = kInTransition) then
      if bool_decide (old_state <> run_target) then (inl tt, Graph.cancel (set_pending (graph_ m)))
      else (inr kInTransitionToSameState, graph_ m)
    else if bool_decide (graph_state = kGraphSuccess) && bool_decide (old_state = run_target) then
      (inr kAlreadyInState, graph_ m)
    else (inl tt, set_pending (graph_ m)) in
  complete slot (SetRequested response) (set_graph g m).

(** The body of the loop of [processComponentEvents]. *)
Definition process_event (now : Z) (event : ComponentEvent) (m : t) : outcome t :=
  match event with
  | SupervisionFailure id => Ret (handleRecoveryRequest now id m)
  | GetActiveRunTarget slot => Ret (handleGetActiveRunTarget slot m)
  | SetRequestedRunTarget target slot => Ret (handleSetRequestedRunTarget now target slot m)
  | _ => g ← Graph.handleComponentEvent event (graph_ m); Ret (set_graph g m)
  end.

(** Drains what is queued when it starts; [fuel] is the number of events. *)
Fixpoint process_loop (fuel : nat) (now : Z) (m : t) : outcome t :=
  '(event, q) ← ComponentEventQueue.getNextEvent main_thread (event_queue_ m);
  let m1 := set_queue q m in
  match event with
  | None => Ret m1
  | Some e =>
      match fuel with
      | 0 => Abort OutOfFuel
      | S fuel' => m2 ← process_event now e m1; process_loop fuel' now m2
      end
  end.

Definition queue_length (m : t) : nat :=
  FixedSizeQueue.size (MpscBoundedQueue.queue_ (ComponentEventQueue.queue_ (event_queue_ m))).

Definition processComponentEvents (now : Z) (m : t) : outcome t := process_loop (queue_length m) now m.

Definition startInitialTransition (now : Z) (initial_run_target : string) (m : t) : outcome t :=
  g ← Graph.startInitialTransition now (hash initial_run_target) (graph_ m); Ret (set_graph g m).

Definition processGroupHandler (now : Z) (pg : graph) : outcome graph :=
  let graph_state := Graph.getState pg in
  if bool_decide (graph_state = kGraphSuccess) || bool_decide (graph_state = kUndefinedState) then
    let last_source := source (Graph.getPendingTransition pg) in
    let '(last_state, pg1) := Graph.setPendingState (hash "") kStateManagerRequest pg in
    pg2 ← (if bool_decide (last_state <> hash "") &&
              (bool_decide (last_state <> Graph.getRequestedRunTarget pg1) ||
               bool_decide (graph_state = kUndefinedState)) then
             '(started, g) ← Graph.startTransition last_state last_source pg1;
             _ ← assert started;
             Ret g
           else Ret pg1);
    if bool_decide (Graph.getState pg2 = kUndefinedState) then
      '(started, g) ← Graph.startTransition recovery_state_ kRecoveryAction (Graph.setRequestStartTime now pg2);
      _ ← assert started;
      Ret g
    else Ret pg2
  else Ret pg.

(** One round of the loop of [run]. *)
Definition run_cycle (now : Z) (m : t) : outcome t :=
  '(available, q) ← ComponentEventQueue.waitForEvents main_thread (event_queue_ m);
  m1 ← (if (available : bool) then processComponentEvents now (set_queue q m) else Ret (set_queue q m));
  let m2 :=
    if ComponentEventQueue.getOverflow (event_queue_ m1) && negb (overflow_logged_ m1) then
      mk (graph_ m1) (event_queue_ m1) (completions_ m1) true (S (watchdog_fired_ m1)) (watchdog_serviced_ m1)
    else m1 in
  g ← processGroupHandler now (graph_ m2);
  Ret (mk g (event_queue_ m2) (completions_ m2) (overflow_logged_ m2) (watchdog_fired_ m2) (S (watchdog_serviced_ m2))).

(** The client side: push the request; [None] is the wait on the slot. *)
Definition getActiveRunTarget (slot : nat) (m : t) : option (IdentifierHash + ExecErrc) * t :=
  let '(push_result, q) := ComponentEventQueue.push (GetActiveRunTarget (Some slot)) (event_queue_ m) in
  (if push_result then None else Some (inr kFailed), set_queue q m).

Definition setRequestedRunTarget (run_target : IdentifierHash) (slot : nat) (m : t) :
    option (unit + ExecErrc) * t :=
  let '(push_result, q) := ComponentEventQueue.push (SetRequestedRunTarget run_target (Some slot)) (event_queue_ m) in
  (if push_result then None else Some (inr kFailed), set_queue q m).

(** ** Shutdown

    [env i] is what the other threads do during the [i]-th wait: they change
    components and push events. *)

(** The inner loop of [waitForStateCompletion]. *)
Fixpoint shutdown_drain (fuel : nat) (m : t) : outcome t :=
  '(event, q) ← ComponentEventQueue.getNextEvent main_thread (event_queue_ m);
  let m1 := set_queue q m in
  match event with
  | None => Ret m1
  | Some e =>
      match fuel with
      | 0 => Abort OutOfFuel
      | S fuel' =>
          m2 ← match e with
               | SupervisionFailure _ => Ret m1
               | _ => g ← Graph.handleComponentEvent e (graph_ m1); Ret (set_graph g m1)
               end;
          shutdown_drain fuel' m2
      end
  end.

Definition kSleepIntervalMs : Z := 10.

(** [fuel] counts the rounds; [remaining_ms] falls by 10 in each. *)
Fixpoint wait_loop (fuel : nat) (env : nat -> t -> t) (s : GraphState) (remaining_ms : Z) (m : t) :
    outcome t :=
  if bool_decide (Graph.getState (graph_ m) = s) && (0 <? remaining_ms)%Z then
    match fuel with
    | 0 => Abort OutOfFuel
    | S fuel' =>
        let m0 := env fuel' m in
        '(_, q) ← ComponentEventQueue.waitForEvents main_thread (event_queue_ m0);
        m1 ← shutdown_drain (queue_length m0) (set_queue q m0);
        wait_loop fuel' env s (remaining_ms - kSleepIntervalMs) m1
    end
  else Ret m.

Definition wait_rounds (max_wait_ms : Z) : nat := S (Z.to_nat (max_wait_ms / kSleepIntervalMs)).

Definition waitForStateCompletion (env : nat -> t -> t) (s : GraphState) (max_wait_ms : Z) (m : t) :
    outcome (bool * t) :=
  m1 ← wait_loop (wait_rounds max_wait_ms) env s max_wait_ms m;
  Ret (bool_decide (Graph.getState (graph_ m1) <> s), m1).

Definition kMaxSigKillDelay : Z := 500.

(** [static_cast<int32_t>] *)
Definition to_int32 (z : Z) : Z := (wrap 32 (z + 2 ^ 31) - 2 ^ 31)%Z.

(** The result names the processes killed by force when the transition to Off
    timed out, [None] when it did not. *)
Definition allProcessGroupsOff (env1 env2 : nat -> t -> t) (now : Z) (m : t) : outcome (option (list Z) * t) :=
  m2 ← (if Graph.isTransitioningToOff hash (graph_ m) then Ret m
        else
          '(_, m1) ← waitForStateCompletion env1 kAborting 2000 (set_graph (Graph.cancel (graph_ m)) m);
          '(_, g) ← Graph.startTransitionToOffState hash now (graph_ m1);
          Ret (set_graph g m1));
  let timeout := to_int32 (Graph.getOffStateTransitionTimeout (graph_ m2) + kMaxSigKillDelay) in
  '(completed, m3) ← waitForStateCompletion env2 kInTransition timeout m2;
  Ret (if (completed : bool) then None else Some (Graph.forceKillProcesses (graph_ m3)), m3).

(** ** The whole of [run]

    [rounds]: the rounds of the loop until [em_cancelled] is seen, each with what the other threads do before it
    and the time. *)
Definition run_rounds (rounds : list ((t -> t) * Z)) (m : t) : outcome t :=
  foldM (fun m '(env, now) => run_cycle now (env m)) m rounds.

Definition run (initial_run_target : string) (rounds : list ((t -> t) * Z)) (env1 env2 : nat -> t -> t) (start off : Z) (m : t) :
    outcome (bool * option (list Z) * t) :=
  m1 ← startInitialTransition start initial_run_target m;
  m2 ← run_rounds rounds m1;
  '(killed, m3) ← allProcessGroupsOff env1 env2 off m2;
  Ret (true, killed, m3).

End Manager.
Arguments t : clear implicits.
End ProcessGroupManager.
