(* ===== verification/ManagerProofs.v ===== *)
(** * Correctness of the process group manager

    The invariant that couples the graph, the jobs with the workers and the
    events in the queue ([mgr_inv]), kept by every round of the main loop; the
    answers to the state manager's requests; recovery; shutdown. *)

From stdpp Require Import prelude fin_maps gmap relations strings.
From S2P Require Import Prelude Queues Depgraph Components Transitions TransitionProofs.
From S2P Require Import TransitionSystem Graphs GraphProofs Manager.
Import DependencyGraph TransitionProofs TransitionSystem GraphProofs.

Module ManagerProofs.

(** ** The event queue *)

Section EventQueue.
Implicit Types (q : ComponentEventQueue.t) (E : list ComponentEvent).

Definition queue_rep q E : Prop :=
  MpscBoundedQueue.rep ProcessGroupManager.main_thread (ComponentEventQueue.queue_ q) E.

Lemma getNextEvent_spec q E :
  queue_rep q E ->
  exists q', ComponentEventQueue.getNextEvent ProcessGroupManager.main_thread q = Ret (head E, q') /\
    queue_rep q' (tail E) /\ ComponentEventQueue.overflow_ q' = ComponentEventQueue.overflow_ q /\
    MpscBoundedQueue.stopped_ (ComponentEventQueue.queue_ q') = MpscBoundedQueue.stopped_ (ComponentEventQueue.queue_ q).
Proof.
  intros Hq. destruct (MpscBoundedQueue.tryPop_spec _ _ _ Hq) as (q' & Hrun & Hq' & _ & Hs).
  unfold ComponentEventQueue.getNextEvent. rewrite Hrun. simpl. eauto.
Qed.

Lemma waitForEvents_spec q E :
  queue_rep q E ->
  exists q', ComponentEventQueue.waitForEvents ProcessGroupManager.main_thread q =
      Ret (negb (MpscBoundedQueue.stopped_ (ComponentEventQueue.queue_ q)) && negb (bool_decide (E = [])), q') /\
    queue_rep q' E /\ ComponentEventQueue.overflow_ q' = ComponentEventQueue.overflow_ q /\
    MpscBoundedQueue.stopped_ (ComponentEventQueue.queue_ q') = MpscBoundedQueue.stopped_ (ComponentEventQueue.queue_ q).
Proof.
  intros Hq. destruct (MpscBoundedQueue.wait_spec _ _ _ Hq) as (q' & Hrun & Hq' & _ & Hs).
  unfold ComponentEventQueue.waitForEvents. rewrite Hrun. simpl.
  destruct (MpscBoundedQueue.stopped_ (ComponentEventQueue.queue_ q)); simpl; [eauto|].
  case_bool_decide; simpl; eauto.
Qed.

Lemma queue_length_rep {P Q} (m : ProcessGroupManager.t P Q) E :
  queue_rep (ProcessGroupManager.event_queue_ m) E -> ProcessGroupManager.queue_length m = length E.
Proof. intros [Hq _]. apply (FixedSizeQueue.rep_count _ _ Hq). Qed.

(** No event is lost silently.  A push either appends the event behind
    everything that is queued, or refuses it and leaves the queue as it was;
    a refusal because the queue is full sets the overflow flag, which the main
    loop answers with the watchdog, and the flag is never cleared. *)
Theorem event_never_lost_silently q E e :
  queue_rep q E ->
  let '(accepted, q') := ComponentEventQueue.push e q in
  let stopped := MpscBoundedQueue.stopped_ (ComponentEventQueue.queue_ q) in
  let full := bool_decide (length E = MpscBoundedQueue.capacity (ComponentEventQueue.queue_ q)) in
  accepted = negb stopped && negb full /\
  queue_rep q' (if accepted then E ++ [e] else E) /\
  ComponentEventQueue.overflow_ q' = (negb stopped && full) || ComponentEventQueue.overflow_ q.
Proof.
  intros Hq. unfold ComponentEventQueue.push.
  pose proof (MpscBoundedQueue.push_spec _ _ _ e Hq) as Hp.
  destruct (MpscBoundedQueue.push e (ComponentEventQueue.queue_ q)) as [r q']. destruct Hp as (_ & _ & Hp).
  destruct (MpscBoundedQueue.stopped_ _); [destruct Hp as [-> ?]; done|].
  case_bool_decide; destruct Hp as [-> ?]; done.
Qed.

Lemma event_never_lost_silently_witness :
  queue_rep (ComponentEventQueue.make 1) [] /\
  (ComponentEventQueue.push (JobSkipped 7%Z) (ComponentEventQueue.make 1)).1 = true.
Proof.
  assert (Hq : queue_rep (ComponentEventQueue.make 1) []) by (apply (MpscBoundedQueue.mpsc_make_rep 0 3)).
  pose proof (event_never_lost_silently (ComponentEventQueue.make 1) [] (JobSkipped 7%Z) Hq) as Hp.
  split; [exact Hq|]. destruct (ComponentEventQueue.push _ _) as [r q']. exact (proj1 Hp).
Defined.

(** ** The answers of the workers *)

Section Workers.
Context {C : Type} (activate deactivate : C -> RequestResult * C) (getIdentifier : C -> IdentifierHash).

(** The event that answers a task with this result, if any. *)
Definition answer_of (task : ComponentTask) (k : IdentifierHash) (result : RequestResult) : list ComponentEvent :=
  match result, type task with
  | kSuccess, kActivate => [ActivationSuccessful k]
  | kSuccess, kDeactivate => [DeactivationComplete k]
  | (kTimeout | kFailure), kActivate => [ActivationFailed k result]
  | (kTimeout | kFailure), kDeactivate => []
  end.

Definition has_room q E : Prop :=
  MpscBoundedQueue.stopped_ (ComponentEventQueue.queue_ q) = false /\ length E < MpscBoundedQueue.capacity (ComponentEventQueue.queue_ q).

Lemma push_room q E e : queue_rep q E -> has_room q E -> queue_rep (ComponentEventQueue.push e q).2 (E ++ [e]).
Proof.
  intros Hq [Hs Hr]. pose proof (event_never_lost_silently q E e Hq) as Hp. destruct (ComponentEventQueue.push e q) as [a q'].
  cbv zeta in Hp. rewrite Hs, bool_decide_eq_false_2 in Hp by lia. by destruct Hp as (-> & Hp & _).
Qed.

(** A worker that takes a job calls the component at most once, not at all when the job was abandoned, and puts exactly one answer into the event
    queue; only a deactivation that fails has none. *)
Lemma doWork_answers task (stop_requested : bool) c q E : queue_rep q E -> has_room q E ->
  let '(c', q') := ProcessMonitor.doWork activate deactivate getIdentifier task stop_requested c q in
  if stop_requested then c' = c /\ queue_rep q' (E ++ [JobSkipped (getIdentifier c)])
  else let '(r, c1) := ProcessMonitor.run_task activate deactivate task c in c' = c1 /\ queue_rep q' (E ++ answer_of task (getIdentifier c1) r).
Proof.
  intros Hq Hr. unfold ProcessMonitor.doWork. destruct stop_requested; [split; [done|by apply push_room]|].
  destruct (ProcessMonitor.run_task _ _ _ _) as [r c1]. split; [done|].
  unfold ProcessMonitor.handle_success, ProcessMonitor.handle_failure, answer_of.
  destruct r, (type task); rewrite ?app_nil_r; by (apply push_room || idtac).
Qed.

End Workers.

End EventQueue.

Section Proofs.
Context `{!IterOrder IdentifierHash} {P : Type} `{ProcessNode P} {Q : Type} `{WorkerQueue Q} `{BuildMode}.
Context (hash : string -> IdentifierHash).

Notation pgraph := (Graph.t P Q).
Notation manager := (ProcessGroupManager.t P Q).

Implicit Types (g : pgraph) (m : manager) (E : list ComponentEvent).

Hypothesis push_only_times_out : forall task (q q' : Q) e,
  wq_push task q = (inr e, q') -> e = kErrTimeout.

(** ** The answers that wait in the event queue *)

Definition finished_of E : list IdentifierHash :=
  omap (fun e => match e with ActivationSuccessful k | DeactivationComplete k => Some k | _ => None end) E.
Definition failed_of E : list IdentifierHash :=
  omap (fun e => match e with ActivationFailed k _ => Some k | _ => None end) E.
Definition skipped_of E : list IdentifierHash :=
  omap (fun e => match e with JobSkipped k => Some k | _ => None end) E.

(** The graph, the jobs [i] with the workers and the answers in the queue. *)
Definition sys_of g (i : list ComponentTask) E : gsys :=
  mkSys g i (failed_of E) (skipped_of E) (finished_of E).

(** What [ProcessMonitor] puts into events. *)
Definition legit g (e : ComponentEvent) : Prop :=
  match e with
  | UnexpectedTermination k => is_Some (is_target (Graph.nodes_ g) k)
  | ActivationFailed _ r => r <> kSuccess
  | _ => True
  end.

(** A pending request has been checked, and the fallback Run Target exists. *)
Definition valid_target g (k : IdentifierHash) : Prop := is_target (Graph.nodes_ g) k = Some true.

#[export] Instance valid_target_dec g k : Decision (valid_target g k).
Proof. unfold valid_target. apply _. Defined.

Record static_ok g : Prop := {
  so_pending : run_target (Graph.pending_ g) = hash "" \/ valid_target g (run_target (Graph.pending_ g));
  so_recovery : valid_target g (ProcessGroupManager.recovery_state_ hash)
}.

Record mgr_inv m (i : list ComponentTask) E : Prop := {
  mi_queue : queue_rep (ProcessGroupManager.event_queue_ m) E;
  mi_graph : graph_inv (sys_of (ProcessGroupManager.graph_ m) i E);
  mi_legit : Forall (legit (ProcessGroupManager.graph_ m)) E;
  mi_static : static_ok (ProcessGroupManager.graph_ m)
}.

Lemma isValidRunTarget_spec k g :
  Graph.isValidRunTarget k g = bool_decide (valid_target g k).
Proof.
  apply eq_true_iff_eq. rewrite bool_decide_eq_true.
  unfold Graph.isValidRunTarget, valid_target, is_target.
  destruct (nodes (Graph.nodes_ g) !! k) as [n|]; [|done]. simpl. by destruct (value n).
Qed.

Lemma legit_same_face g g' e : same_face g g' -> legit g e -> legit g' e.
Proof. intros []. destruct e; simpl; try done. by rewrite sf_kind0. Qed.

Lemma static_same_face g g' : same_face g g' -> static_ok g -> static_ok g'.
Proof.
  intros [] []. unfold valid_target in *. split; unfold valid_target; [rewrite sf_pending0|]; by rewrite sf_kind0.
Qed.

(** Setting the pending request, its time and source does not concern the jobs. *)
Definition pend (now : Z) (k : IdentifierHash) (src : RunTargetActivationSource) g : pgraph :=
  Graph.setRequestStartTime now (Graph.setPendingState k src g).2.

Lemma pend_inv now k src g i f sk c :
  graph_inv (mkSys g i f sk c) -> graph_inv (mkSys (pend now k src g) i f sk c).
Proof. intros []. by split. Qed.

Lemma pend_static now k src g : static_ok g -> valid_target g k -> static_ok (pend now k src g).
Proof. intros [] Hk. split; [by right|done]. Qed.

Lemma cancel_face g : same_face g (Graph.cancel g).
Proof.
  unfold Graph.cancel. etrans; [apply (setState_face kAborting)|]. case_match; [done|apply setState_face].
Qed.

(** ** One event *)

Definition slots_of E : list nat :=
  omap (fun e => match e with GetActiveRunTarget s | SetRequestedRunTarget _ s => s | _ => None end) E.

Definition completed_slots m : list nat := (ProcessGroupManager.completions_ m).*1.

(** The result of handling the oldest event [e] of [e :: E]. *)
Record event_handled m (e : ComponentEvent) E (i : list ComponentTask) m' (new : list ComponentTask) : Prop := {
  eh_queue : ProcessGroupManager.event_queue_ m' = ProcessGroupManager.event_queue_ m;
  eh_graph : graph_inv (sys_of (ProcessGroupManager.graph_ m') (i ++ new) E);
  eh_kind k : is_target (Graph.nodes_ (ProcessGroupManager.graph_ m')) k =
              is_target (Graph.nodes_ (ProcessGroupManager.graph_ m)) k;
  eh_static : static_ok (ProcessGroupManager.graph_ m');
  eh_slots : completed_slots m' = completed_slots m ++ slots_of [e]
}.

(** An event that the graph handles. *)
Lemma graph_event_handled m e E i g' new :
  static_ok (ProcessGroupManager.graph_ m) -> slots_of [e] = [] ->
  same_face (ProcessGroupManager.graph_ m) g' -> graph_inv (sys_of g' (i ++ new) E) ->
  event_handled m e E i (ProcessGroupManager.set_graph g' m) new.
Proof.
  intros Hs He Hf Hg. split; [done|done|apply Hf|by eapply static_same_face|].
  by rewrite He, app_nil_r.
Qed.

Lemma recovery_handled now id m E i :
  graph_inv (sys_of (ProcessGroupManager.graph_ m) i E) -> static_ok (ProcessGroupManager.graph_ m) ->
  event_handled m (SupervisionFailure id) E i (ProcessGroupManager.handleRecoveryRequest hash now id m) [].
Proof.
  intros Hg Hs. pose proof (pend_inv now (ProcessGroupManager.recovery_state_ hash) kRecoveryAction _ _ _ _ _ Hg) as Hp.
  pose proof (pend_static now _ kRecoveryAction _ Hs (so_recovery _ Hs)) as Hps.
  unfold ProcessGroupManager.handleRecoveryRequest.
  repeat case_match; (split; simpl; rewrite ?app_nil_r; try done).
  - exact (cancel_inv _ Hp).
  - intros k. by rewrite (sf_kind _ _ (cancel_face _)).
  - eapply static_same_face; [apply cancel_face|exact Hps].
Qed.

Lemma set_requested_handled now target slot m E i :
  graph_inv (sys_of (ProcessGroupManager.graph_ m) i E) -> static_ok (ProcessGroupManager.graph_ m) ->
  event_handled m (SetRequestedRunTarget target slot) E i
    (ProcessGroupManager.handleSetRequestedRunTarget now target slot m) [].
Proof.
  intros Hg Hs. pose proof (pend_inv now target kStateManagerRequest _ _ _ _ _ Hg) as Hp.
  unfold ProcessGroupManager.handleSetRequestedRunTarget. rewrite isValidRunTarget_spec.
  assert (Hslots : forall g r, completed_slots (ProcessGroupManager.complete slot r (ProcessGroupManager.set_graph g m)) =
    completed_slots m ++ slots_of [SetRequestedRunTarget target slot]).
  { intros g r. unfold completed_slots. destruct slot; simpl; [by rewrite fmap_app|by rewrite app_nil_r]. }
  assert (Hgr : forall g r, ProcessGroupManager.graph_ (ProcessGroupManager.complete slot r (ProcessGroupManager.set_graph g m)) = g)
    by (by destruct slot).
  assert (Hq : forall g r, ProcessGroupManager.event_queue_ (ProcessGroupManager.complete slot r (ProcessGroupManager.set_graph g m)) =
    ProcessGroupManager.event_queue_ m) by (by destruct slot).
  destruct (bool_decide (valid_target _ target)) eqn:Hv; cbn [negb]; [apply bool_decide_eq_true in Hv|].
  2: { split; rewrite ?Hq, ?Hgr, ?Hslots, ?app_nil_r; done. }
  pose proof (pend_static now _ kStateManagerRequest _ Hs Hv) as Hps.
  repeat (case_bool_decide; cbn [andb]); cbv beta iota zeta;
    (split; rewrite ?Hq, ?Hgr, ?Hslots, ?app_nil_r; try done).
  - exact (cancel_inv _ Hp).
  - intros k. by rewrite (sf_kind _ _ (cancel_face _)).
  - eapply static_same_face; [apply cancel_face|exact Hps].
Qed.

Lemma get_active_handled slot m E i :
  graph_inv (sys_of (ProcessGroupManager.graph_ m) i E) -> static_ok (ProcessGroupManager.graph_ m) ->
  event_handled m (GetActiveRunTarget slot) E i (ProcessGroupManager.handleGetActiveRunTarget slot m) [].
Proof.
  intros Hg Hs. unfold ProcessGroupManager.handleGetActiveRunTarget, completed_slots.
  split; destruct slot; simpl; rewrite ?app_nil_r; try done. unfold completed_slots. simpl. by rewrite fmap_app.
Qed.

Lemma process_event_spec now e m E i :
  graph_inv (sys_of (ProcessGroupManager.graph_ m) i (e :: E)) -> legit (ProcessGroupManager.graph_ m) e ->
  static_ok (ProcessGroupManager.graph_ m) ->
  exists m' new, ProcessGroupManager.process_event hash now e m = Ret m' /\ event_handled m e E i m' new.
Proof.
  intros Hg He Hs. destruct e as [k|k r|k|k|k|k|slot|target slot]; unfold ProcessGroupManager.process_event.
  1, 3: destruct (finished_event push_only_times_out _ k (finished_of E) Hg) as (g' & new & Hrun & _ & Hg' & Hf); [done|];
    unfold Graph.handleComponentEvent; simpl in Hrun; rewrite Hrun;
    exists (ProcessGroupManager.set_graph g' m), new; split; [done|by apply graph_event_handled].
  - destruct (nodeExecuted_abort _ k r i (failed_of E) (skipped_of E) (finished_of E) Hg)
      as (g' & Hrun & _ & Hg' & Hf); [by apply (open_jobs_failed (sys_of _ i (ActivationFailed k r :: E)) k (failed_of E))|done|by left|].
    unfold Graph.handleComponentEvent. simpl in Hrun. rewrite Hrun.
    exists (ProcessGroupManager.set_graph g' m), []. split; [done|]. apply graph_event_handled; rewrite ?app_nil_r; done.
  - destruct (crash_inv _ k Hg) as (g' & Hrun & _ & Hg' & Hf).
    { simpl in *. unfold is_target in He. by rewrite !fmap_is_Some in He. }
    cbn [sgraph sys_of] in Hrun. rewrite Hrun.
    exists (ProcessGroupManager.set_graph g' m), []. split; [done|]. apply graph_event_handled; rewrite ?app_nil_r; done.
  - eexists _, []. split; [done|]. by apply recovery_handled.
  - assert (Hsk : skipped_of (JobSkipped k :: E) ≡ₚ k :: skipped_of E) by done.
    destruct (nodeExecuted_abort _ k kSuccess i (failed_of E) (skipped_of E) (finished_of E) Hg)
      as (g' & Hrun & _ & Hg' & Hf); [by apply (open_jobs_skipped (sys_of _ i (JobSkipped k :: E)) k (skipped_of E))|done
        |right; by apply (skipped_not_running (sys_of _ i (JobSkipped k :: E)) k (skipped_of E))|].
    unfold Graph.handleComponentEvent. simpl in Hrun. rewrite Hrun.
    exists (ProcessGroupManager.set_graph g' m), []. split; [done|]. apply graph_event_handled; rewrite ?app_nil_r; done.
  - eexists _, []. split; [done|]. by apply get_active_handled.
  - eexists _, []. split; [done|]. by apply set_requested_handled.
Qed.

(** ** The main loop *)

(** What no event and no round changes: the run targets and whether the queue is open. *)
Definition keeps m m' : Prop :=
  (forall k, is_target (Graph.nodes_ (ProcessGroupManager.graph_ m')) k = is_target (Graph.nodes_ (ProcessGroupManager.graph_ m)) k) /\
  MpscBoundedQueue.stopped_ (ComponentEventQueue.queue_ (ProcessGroupManager.event_queue_ m')) =
  MpscBoundedQueue.stopped_ (ComponentEventQueue.queue_ (ProcessGroupManager.event_queue_ m)).

Lemma keeps_trans m1 m2 m3 : keeps m1 m2 -> keeps m2 m3 -> keeps m1 m3.
Proof. intros [Ha Hb] [Hc Hd]. split; [intros k; by rewrite Hc, Ha|by rewrite Hd, Hb]. Qed.

(** The events of [E] are handled one after the other. *)
Definition handle_all (now : Z) m E : outcome manager :=
  foldM (fun m e => ProcessGroupManager.process_event hash now e m) m E.

(** Handling an event does not look at the queue. *)
Lemma process_event_queue q now e m :
  ProcessGroupManager.process_event hash now e (ProcessGroupManager.set_queue q m) =
  (m' ← ProcessGroupManager.process_event hash now e m; Ret (ProcessGroupManager.set_queue q m')).
Proof.
  destruct e; cbn [ProcessGroupManager.process_event]; cbn [ProcessGroupManager.graph_ ProcessGroupManager.set_queue];
    try (by destruct (Graph.handleComponentEvent _ _)).
  - unfold ProcessGroupManager.handleRecoveryRequest. cbn. by repeat case_match.
  - unfold ProcessGroupManager.handleGetActiveRunTarget. cbn. by destruct completion.
  - unfold ProcessGroupManager.handleSetRequestedRunTarget. cbn. case_match. by destruct completion.
Qed.

Lemma handle_all_queue q now E : forall m,
  handle_all now (ProcessGroupManager.set_queue q m) E =
  (m' ← handle_all now m E; Ret (ProcessGroupManager.set_queue q m')).
Proof.
  unfold handle_all. induction E as [|e E IH]; intros m; cbn [foldM]; [done|]. rewrite process_event_queue.
  destruct (ProcessGroupManager.process_event hash now e m) as [m1|]; cbn [mbind outcome_bind]; [apply IH|done].
Qed.

(** The loop reaches the state in which the events [E] have been handled and [rest]
    is still queued. *)
Lemma process_loop_prefix now E rest : forall fuel m i,
  mgr_inv m i (E ++ rest) -> length E <= fuel ->
  exists m' new, ProcessGroupManager.process_loop hash fuel now m = ProcessGroupManager.process_loop hash (fuel - length E) now m' /\
    mgr_inv m' (i ++ new) rest /\ completed_slots m' = completed_slots m ++ slots_of E /\ keeps m m' /\
    exists mf, handle_all now m E = Ret mf /\ ProcessGroupManager.set_queue (ProcessGroupManager.event_queue_ m') mf = m'.
Proof.
  induction E as [|e E IH]; intros fuel m i Hm Hf.
  - exists m, []. rewrite Nat.sub_0_r, !app_nil_r. split_and!; try done. exists m. split; [done|by destruct m].
  - destruct Hm as []. destruct (getNextEvent_spec _ _ mi_queue0) as (q & Hrun & Hq & _ & Hst). simpl in Hrun.
    destruct fuel as [|fuel]; [simpl in Hf; lia|]. cbn [ProcessGroupManager.process_loop length Nat.sub]. rewrite Hrun.
    cbn [mbind outcome_bind]. apply Forall_cons in mi_legit0 as [He HE].
    destruct (process_event_spec now e (ProcessGroupManager.set_queue q m) (E ++ rest) i) as (m1 & new1 & Hrun1 & []); [done..|].
    rewrite Hrun1. cbn [mbind outcome_bind].
    destruct (IH fuel m1 (i ++ new1)) as (m2 & new2 & Hrun2 & Hinv2 & Hsl2 & Hk2 & mf & Hmf & Eq2); [|simpl in Hf; lia|].
    + split; [by rewrite eh_queue0|done| |done]. eapply Forall_impl; [exact HE|]. intros e' He'.
      destruct e'; simpl in *; try done. by rewrite eh_kind0.
    + exists m2, (new1 ++ new2). rewrite app_assoc. split_and!; [done|done| | |].
      * rewrite Hsl2, eh_slots0, <- app_assoc. f_equal. unfold slots_of. by rewrite <- omap_app.
      * eapply keeps_trans; [|exact Hk2]. split; [done|]. by rewrite eh_queue0.
      * rewrite process_event_queue in Hrun1. unfold handle_all. cbn [foldM].
        destruct (ProcessGroupManager.process_event hash now e m) as [m1'|]; [|done].
        cbn [mbind outcome_bind] in *. injection Hrun1 as <-. rewrite handle_all_queue in Hmf.
        change (foldM _ m1' E) with (handle_all now m1' E).
        destruct (handle_all now m1' E) as [mg|]; [|done]. injection Hmf as <-. by exists mg.
Qed.

Lemma process_loop_spec now E fuel m i :
  mgr_inv m i E -> length E <= fuel ->
  exists m' new, ProcessGroupManager.process_loop hash fuel now m = Ret m' /\ mgr_inv m' (i ++ new) [] /\
    completed_slots m' = completed_slots m ++ slots_of E /\ keeps m m' /\
    exists mf, handle_all now m E = Ret mf /\ ProcessGroupManager.graph_ m' = ProcessGroupManager.graph_ mf.
Proof.
  intros Hm Hf. rewrite <- (app_nil_r E) in Hm.
  destruct (process_loop_prefix now E [] fuel m i Hm Hf) as (m1 & new & -> & [] & Hsl & Hk & mf & Hmf & Eq).
  destruct (getNextEvent_spec _ _ mi_queue0) as (q & Hrun & Hq & _ & Hst). simpl in Hrun.
  exists (ProcessGroupManager.set_queue q m1), new. split_and!;
    [destruct (fuel - length E); cbn [ProcessGroupManager.process_loop]; by rewrite Hrun|done..| |].
  - by eapply keeps_trans; [exact Hk|].
  - exists mf. split; [done|]. by rewrite <- Eq.
Qed.

Lemma process_loop_watchdog fuel : forall now m m',
  ProcessGroupManager.process_loop hash fuel now m = Ret m' ->
  ProcessGroupManager.watchdog_serviced_ m' = ProcessGroupManager.watchdog_serviced_ m.
Proof.
  induction fuel as [|fuel IH]; intros now m m'; cbn [ProcessGroupManager.process_loop];
    destruct (ComponentEventQueue.getNextEvent _ _) as [[[e|] q]|]; try done; cbn [mbind outcome_bind];
    try (intros [= <-]; done).
  destruct (ProcessGroupManager.process_event _ _ _ _) as [m1|] eqn:He; [|done]. cbn [mbind outcome_bind].
  intros ->%IH. destruct e; unfold ProcessGroupManager.process_event in He;
    try (destruct (Graph.handleComponentEvent _ _) as [g|]; [|done]; injection He as <-; done).
  - injection He as <-. unfold ProcessGroupManager.handleRecoveryRequest. by repeat case_match.
  - injection He as <-. unfold ProcessGroupManager.handleGetActiveRunTarget. by destruct completion.
  - injection He as <-. unfold ProcessGroupManager.handleSetRequestedRunTarget. case_match. by destruct completion.
Qed.

(** Starting a transition from the handler. *)
Lemma start_handled g i E k src :
  graph_inv (sys_of g i E) -> static_ok g -> valid_target g k ->
  Graph.state_ g = kGraphSuccess \/ Graph.state_ g = kUndefinedState ->
  exists g' new, Graph.startTransition k src g = Ret (true, g') /\ graph_inv (sys_of g' (i ++ new) E) /\
    same_face g g' /\ Graph.state_ g' <> kUndefinedState /\ Graph.requested_state_ g' = k.
Proof.
  intros Hg Hs Hk Hst. destruct (start_inv push_only_times_out (sys_of g i E) k src Hg Hst) as (g' & new & Hrun & _ & Hg' & Hf & Hu & Hr).
  { simpl. rewrite isValidRunTarget_spec. by apply bool_decide_eq_true. }
  exists g', new. split_and!; done.
Qed.

(** What the handler makes of an idle graph with [p] pending. *)
Definition next_target g : option IdentifierHash :=
  let p := run_target (Graph.pending_ g) in
  if bool_decide (p <> hash "") &&
     (bool_decide (p <> Graph.requested_state_ g) || bool_decide (Graph.state_ g = kUndefinedState)) then Some p
  else if bool_decide (Graph.state_ g = kUndefinedState) then Some (ProcessGroupManager.recovery_state_ hash)
  else None.

Lemma processGroupHandler_spec now g i E :
  graph_inv (sys_of g i E) -> static_ok g ->
  exists g' new, ProcessGroupManager.processGroupHandler hash now g = Ret g' /\
    graph_inv (sys_of g' (i ++ new) E) /\ static_ok g' /\
    (forall k, is_target (Graph.nodes_ g') k = is_target (Graph.nodes_ g) k) /\
    Graph.state_ g' <> kUndefinedState /\
    (Graph.state_ g = kGraphSuccess \/ Graph.state_ g = kUndefinedState ->
     Graph.requested_state_ g' = default (Graph.requested_state_ g) (next_target g)).
Proof.
  intros Hg Hs. unfold ProcessGroupManager.processGroupHandler, Graph.getState.
  destruct (bool_decide (Graph.state_ g = kGraphSuccess) || bool_decide (Graph.state_ g = kUndefinedState)) eqn:Hst.
  2: { apply orb_false_iff in Hst as [E1%bool_decide_eq_false E2%bool_decide_eq_false].
       exists g, []. rewrite app_nil_r. split_and!; try done. by intros [|]. }
  apply orb_true_iff in Hst. rewrite !bool_decide_eq_true in Hst.
  unfold Graph.setPendingState, Graph.getPendingState, Graph.getPendingTransition, Graph.getRequestedRunTarget.
  set (p := run_target (Graph.pending_ g)). set (g1 := Graph.set_pending_ _ g).
  assert (Hg1 : graph_inv (sys_of g1 i E)) by (destruct Hg; by split).
  assert (Hs1 : static_ok g1) by (destruct Hs; split; [by left|done]).
  change (Graph.requested_state_ g1) with (Graph.requested_state_ g). unfold next_target. fold p.
  destruct (bool_decide (p <> hash "") && _) eqn:Hp.
  - apply andb_true_iff in Hp as [Hp%bool_decide_eq_true _].
    assert (Hv : valid_target g1 p) by (by destruct (so_pending _ Hs)).
    destruct (start_handled g1 i E p (source (Graph.pending_ g)) Hg1 Hs1 Hv Hst) as (g' & new & -> & Hg' & Hf & Hu & Hr).
    cbn [mbind outcome_bind assert]. rewrite bool_decide_eq_false_2 by done.
    exists g', new. split_and!; try done; [by eapply static_same_face|apply Hf].
  - clear Hp. cbn [mbind outcome_bind]. change (Graph.state_ g1) with (Graph.state_ g). case_bool_decide as Hu.
    + destruct (start_handled (Graph.setRequestStartTime now g1) i E (ProcessGroupManager.recovery_state_ hash) kRecoveryAction)
        as (g' & new & -> & Hg' & Hf & Hu' & Hr); [destruct Hg1; by split|destruct Hs1; by split|apply Hs1|right; exact Hu|].
      cbn [mbind outcome_bind assert]. exists g', new.
      split_and!; try done; [|apply Hf]. eapply static_same_face; [exact Hf|]. destruct Hs1. by split.
    + exists g1, []. rewrite app_nil_r. split_and!; done.
Qed.

(** The main loop keeps going.  From any consistent state of graph, workers
    and event queue, one round of [run] handles every queued event and every
    request without failing, completes the slot of each request in the order the
    requests came, services the watchdog once, and leaves a consistent state in
    which the graph is not idle in an undefined state: recovery has started. *)
Theorem main_loop_round now m i E :
  mgr_inv m i E ->
  MpscBoundedQueue.stopped_ (ComponentEventQueue.queue_ (ProcessGroupManager.event_queue_ m)) = false ->
  exists m' new, ProcessGroupManager.run_cycle hash now m = Ret m' /\ mgr_inv m' (i ++ new) [] /\
    completed_slots m' = completed_slots m ++ slots_of E /\
    Graph.state_ (ProcessGroupManager.graph_ m') <> kUndefinedState /\
    ProcessGroupManager.watchdog_serviced_ m' = S (ProcessGroupManager.watchdog_serviced_ m) /\ keeps m m'.
Proof.
  intros Hm Hst. pose proof Hm as []. unfold ProcessGroupManager.run_cycle.
  destruct (waitForEvents_spec _ _ mi_queue0) as (q & -> & Hq & _ & Hsq). rewrite Hst. cbn [negb andb mbind outcome_bind].
  assert (Hm1 : mgr_inv (ProcessGroupManager.set_queue q m) i E) by (by split).
  assert (Hp : exists m1 new, (if negb (bool_decide (E = []))
      then ProcessGroupManager.processComponentEvents hash now (ProcessGroupManager.set_queue q m)
      else Ret (ProcessGroupManager.set_queue q m)) = Ret m1 /\
    mgr_inv m1 (i ++ new) [] /\ completed_slots m1 = completed_slots m ++ slots_of E /\
    ProcessGroupManager.watchdog_serviced_ m1 = ProcessGroupManager.watchdog_serviced_ m /\ keeps m m1).
  { assert (Hkq : keeps m (ProcessGroupManager.set_queue q m)) by done. case_bool_decide as HE; cbn [negb].
    - subst E. eexists _, []. rewrite !app_nil_r. split_and!; done.
    - unfold ProcessGroupManager.processComponentEvents.
      rewrite (queue_length_rep _ E) by apply Hm1.
      destruct (process_loop_spec now E (length E) _ i Hm1) as (m1 & new & Hrun & Hinv & Hsl & Hk & _); [done|].
      exists m1, new. split_and!; [done..|by rewrite (process_loop_watchdog _ _ _ _ Hrun)|by eapply keeps_trans]. }
  destruct Hp as (m1 & new & -> & [] & Hsl & Hwd & Hkm). cbn [mbind outcome_bind]. cbv zeta.
  set (m2 := if ComponentEventQueue.getOverflow _ && _ then _ else m1).
  assert (E2 : ProcessGroupManager.graph_ m2 = ProcessGroupManager.graph_ m1 /\
    ProcessGroupManager.event_queue_ m2 = ProcessGroupManager.event_queue_ m1 /\
    ProcessGroupManager.completions_ m2 = ProcessGroupManager.completions_ m1 /\
    ProcessGroupManager.watchdog_serviced_ m2 = ProcessGroupManager.watchdog_serviced_ m1).
  { unfold m2. by case_match. }
  destruct E2 as (E21 & E22 & E23 & E24). clearbody m2. rewrite E21.
  destruct (processGroupHandler_spec now _ _ _ mi_graph1 mi_static1) as (g' & new' & -> & Hg' & Hs' & Hk & Hu & _).
  cbn [mbind outcome_bind]. eexists _, (new ++ new'). rewrite app_assoc. split_and!; [done| | |done| |].
  - split; simpl; [by rewrite E22|done| |done]. apply Forall_nil. done.
  - unfold completed_slots in *. simpl. by rewrite E23.
  - simpl. congruence.
  - eapply keeps_trans; [exact Hkm|]. split; simpl; [intros k; by rewrite Hk|by rewrite E22].
Qed.

(** An accepted request is served.  When the graph is idle and a request is
    pending that asks for something else than what is there, the handler starts
    exactly that Run Target; with nothing pending and the graph in an undefined
    state it starts the fallback Run Target; otherwise it changes nothing. *)
Theorem pending_request_served now g i E :
  graph_inv (sys_of g i E) -> static_ok g ->
  Graph.state_ g = kGraphSuccess \/ Graph.state_ g = kUndefinedState ->
  exists g', ProcessGroupManager.processGroupHandler hash now g = Ret g' /\
    Graph.state_ g' <> kUndefinedState /\
    Graph.requested_state_ g' =
      (let p := run_target (Graph.pending_ g) in
       if bool_decide (p = hash "") then
         if bool_decide (Graph.state_ g = kUndefinedState) then hash Graph.recovery_state_name
         else Graph.requested_state_ g
       else p).
Proof.
  intros Hg Hs Hst. destruct (processGroupHandler_spec now g i E Hg Hs) as (g' & new & Hrun & _ & _ & _ & Hu & Hr).
  exists g'. split_and!; [done|done|]. rewrite (Hr Hst). unfold next_target. cbv zeta.
  destruct (decide (run_target (Graph.pending_ g) = hash "")) as [Hp|Hp].
  - rewrite (bool_decide_eq_false_2 (run_target _ <> _)), (bool_decide_eq_true_2 (run_target _ = hash "")) by auto.
    simpl. by case_bool_decide.
  - rewrite (bool_decide_eq_true_2 (run_target _ <> _)), (bool_decide_eq_false_2 (run_target _ = hash "")) by auto.
    simpl. repeat case_bool_decide; simpl; congruence.
Qed.

(** The answer to a query for the active Run Target is true.  The handler
    completes the caller's slot once; if it names a Run Target, exactly the
    components of that Run Target are active, otherwise a transition is running
    or failed and the answer is [kActivationInProgress]. *)
Theorem active_run_target_truthful slot m i E :
  mgr_inv m i E -> Graph.current_transition_ (ProcessGroupManager.graph_ m) = true ->
  let g := ProcessGroupManager.graph_ m in
  exists r, ProcessGroupManager.completions_ (ProcessGroupManager.handleGetActiveRunTarget (Some slot) m) =
      ProcessGroupManager.completions_ m ++ [(slot, ActiveRunTarget r)] /\
    match r with
    | inl target => forall k, act (Graph.nodes_ g) k = true <-> reach (Graph.nodes_ g) target k
    | inr e => e = kActivationInProgress /\ Graph.state_ g <> kGraphSuccess
    end.
Proof.
  intros Hm Hcur g. pose proof (gv_state _ (mi_graph _ _ _ Hm)) as Hs. unfold state_inv in Hs. simpl in Hs.
  unfold ProcessGroupManager.handleGetActiveRunTarget, Graph.getState. fold g in Hs, Hcur |- *.
  eexists. split; [reflexivity|].
  destruct (Graph.state_ g) eqn:Hst; try done. destruct Hs as [_ Hs]. exact (Hs Hcur).
Qed.

(** ** Shutdown *)

Lemma shutdown_drain_spec E : forall fuel m i,
  mgr_inv m i E -> length E <= fuel ->
  exists m' new, ProcessGroupManager.shutdown_drain fuel m = Ret m' /\ mgr_inv m' (i ++ new) [] /\
    ProcessGroupManager.completions_ m' = ProcessGroupManager.completions_ m /\
    (forall k, is_target (Graph.nodes_ (ProcessGroupManager.graph_ m')) k =
               is_target (Graph.nodes_ (ProcessGroupManager.graph_ m)) k).
Proof.
  induction E as [|e E IH]; intros fuel m i [] Hf;
    destruct (getNextEvent_spec _ _ mi_queue0) as (q & Hrun & Hq & _ & _); simpl in Hrun.
  - exists (ProcessGroupManager.set_queue q m), []. rewrite !app_nil_r.
    destruct fuel; cbn [ProcessGroupManager.shutdown_drain]; rewrite Hrun; done.
  - destruct fuel as [|fuel]; [simpl in Hf; lia|]. cbn [ProcessGroupManager.shutdown_drain]. rewrite Hrun.
    cbn [mbind outcome_bind]. apply Forall_cons in mi_legit0 as [He HE].
    assert (Hstep : exists m1 new1, match e with
        | SupervisionFailure _ => Ret (ProcessGroupManager.set_queue q m)
        | _ => g ← Graph.handleComponentEvent e (ProcessGroupManager.graph_ (ProcessGroupManager.set_queue q m));
               Ret (ProcessGroupManager.set_graph g (ProcessGroupManager.set_queue q m))
        end = Ret m1 /\ ProcessGroupManager.event_queue_ m1 = q /\
      graph_inv (sys_of (ProcessGroupManager.graph_ m1) (i ++ new1) E) /\
      static_ok (ProcessGroupManager.graph_ m1) /\
      ProcessGroupManager.completions_ m1 = ProcessGroupManager.completions_ m /\
      (forall k, is_target (Graph.nodes_ (ProcessGroupManager.graph_ m1)) k =
                 is_target (Graph.nodes_ (ProcessGroupManager.graph_ m)) k)).
    { destruct e;
        try (eexists _, []; rewrite app_nil_r; split_and!; [done..|by destruct m]).
      all: destruct (process_event_spec 0%Z _ (ProcessGroupManager.set_queue q m) E i mi_graph0 He mi_static0)
        as (m1 & new1 & Hrun1 & []); unfold ProcessGroupManager.process_event in Hrun1;
        exists m1, new1; (split; [exact Hrun1|]);
        destruct (Graph.handleComponentEvent _ _) as [g|]; [|done]; injection Hrun1 as <-; done. }
    destruct Hstep as (m1 & new1 & -> & Hq1 & Hg1 & Hs1 & Hc1 & Hk1). cbn [mbind outcome_bind].
    destruct (IH fuel m1 (i ++ new1)) as (m2 & new2 & Hrun2 & Hinv2 & Hc2 & Hk2); [|simpl in Hf; lia|].
    + split; [by rewrite Hq1|done| |done]. eapply Forall_impl; [exact HE|]. intros e' He'.
      destruct e'; simpl in *; try done. by rewrite Hk1.
    + exists m2, (new1 ++ new2). rewrite app_assoc. split_and!; [done|done|congruence|].
      intros k. by rewrite Hk2, Hk1.
Qed.

(** What the other threads may do during the waits: they carry out jobs and push
    events; the graph state, the slots and the configuration are the main
    thread's. *)
Record fair_env (env : nat -> manager -> manager) : Prop := {
  fe_inv j m i E : mgr_inv m i E -> exists i' E', mgr_inv (env j m) i' E';
  fe_state j m : Graph.state_ (ProcessGroupManager.graph_ (env j m)) = Graph.state_ (ProcessGroupManager.graph_ m);
  fe_completions j m : ProcessGroupManager.completions_ (env j m) = ProcessGroupManager.completions_ m;
  fe_kind j m k : is_target (Graph.nodes_ (ProcessGroupManager.graph_ (env j m))) k =
                  is_target (Graph.nodes_ (ProcessGroupManager.graph_ m)) k
}.

Lemma wait_loop_spec env s : fair_env env -> forall fuel remaining m i E,
  mgr_inv m i E -> (remaining < ProcessGroupManager.kSleepIntervalMs * Z.of_nat fuel)%Z ->
  exists m' i' E', ProcessGroupManager.wait_loop fuel env s remaining m = Ret m' /\ mgr_inv m' i' E' /\
    ProcessGroupManager.completions_ m' = ProcessGroupManager.completions_ m /\
    (forall k, is_target (Graph.nodes_ (ProcessGroupManager.graph_ m')) k =
               is_target (Graph.nodes_ (ProcessGroupManager.graph_ m)) k).
Proof.
  intros Henv. induction fuel as [|fuel IH]; intros remaining m i E Hm Hf; cbn [ProcessGroupManager.wait_loop].
  - unfold ProcessGroupManager.kSleepIntervalMs in Hf. rewrite (proj2 (Z.ltb_ge _ _)), andb_false_r by lia.
    exists m, i, E. done.
  - destruct (_ && _); [|exists m, i, E; done].
    destruct (fe_inv _ Henv fuel m i E Hm) as (i0 & E0 & Hm0).
    destruct (waitForEvents_spec _ _ (mi_queue _ _ _ Hm0)) as (q & Hrun & Hq & _). rewrite Hrun.
    cbn [mbind outcome_bind]. rewrite (queue_length_rep _ E0) by apply Hm0.
    assert (Hmq : mgr_inv (ProcessGroupManager.set_queue q (env fuel m)) i0 E0) by (destruct Hm0; by split).
    destruct (shutdown_drain_spec E0 (length E0) _ i0 Hmq) as (m1 & new & -> & Hm1 & Hc1 & Hk1); [done|].
    cbn [mbind outcome_bind].
    destruct (IH (remaining - ProcessGroupManager.kSleepIntervalMs)%Z m1 _ [] Hm1) as (m2 & i2 & E2 & -> & Hm2 & Hc2 & Hk2).
    { unfold ProcessGroupManager.kSleepIntervalMs in *. lia. }
    exists m2, i2, E2. split_and!; [done|done| |].
    + by rewrite Hc2, Hc1, <- (fe_completions _ Henv fuel m).
    + intros k. by rewrite Hk2, Hk1, <- (fe_kind _ Henv fuel m).
Qed.

Lemma waitForStateCompletion_spec env s max m i E :
  fair_env env -> mgr_inv m i E ->
  exists m' i' E', ProcessGroupManager.waitForStateCompletion env s max m =
      Ret (bool_decide (Graph.state_ (ProcessGroupManager.graph_ m') <> s), m') /\ mgr_inv m' i' E' /\
    ProcessGroupManager.completions_ m' = ProcessGroupManager.completions_ m /\
    (forall k, is_target (Graph.nodes_ (ProcessGroupManager.graph_ m')) k =
               is_target (Graph.nodes_ (ProcessGroupManager.graph_ m)) k).
Proof.
  intros Henv Hm. unfold ProcessGroupManager.waitForStateCompletion.
  destruct (wait_loop_spec env s Henv (ProcessGroupManager.wait_rounds max) max m i E Hm) as (m' & i' & E' & -> & Hm' & Hc & Hk).
  { unfold ProcessGroupManager.wait_rounds, ProcessGroupManager.kSleepIntervalMs.
    pose proof (Z.div_mod max 10 ltac:(lia)). pose proof (Z.mod_pos_bound max 10 ltac:(lia)). lia. }
  exists m', i', E'. done.
Qed.

Lemma cancel_not_running g : Graph.state_ (Graph.cancel g) <> kInTransition.
Proof.
  unfold Graph.cancel. destruct (setState_abort g) as (_ & Hs & _).
  set (g1 := (Graph.setState kAborting g).2) in *. clearbody g1.
  assert (Hs1 : Graph.state_ g1 <> kInTransition) by (rewrite Hs; by destruct (Graph.state_ g)).
  case_match; [done|]. unfold Graph.setState. by destruct (Graph.state_ g1).
Qed.

Lemma nodeExecuted_not_running k r g g' :
  Graph.state_ g <> kInTransition -> Graph.nodeExecuted k r g = Ret g' -> Graph.state_ g' <> kInTransition.
Proof.
  intros Hst. unfold Graph.nodeExecuted. cbv zeta. set (g1 := Graph.set_jobs _ g).
  set (g2 := if bool_decide (r <> kSuccess) then (Graph.setState kAborting g1).2 else g1).
  assert (Hst2 : Graph.state_ g2 <> kInTransition).
  { unfold g2. case_bool_decide; [|done]. destruct (setState_abort g1) as (_ & -> & _).
    simpl. by destruct (Graph.state_ g). }
  clearbody g2. rewrite bool_decide_eq_false_2 by done.
  case_bool_decide; intros [= <-]; [|done]. by destruct (handleNonTransition_spec g2 Hst2) as (_ & -> & _).
Qed.

Lemma event_not_running e g g' :
  Graph.state_ g <> kInTransition -> Graph.handleComponentEvent e g = Ret g' -> Graph.state_ g' <> kInTransition.
Proof.
  intros Hst. destruct e as [k|k r|k|k|k|k|slot|target slot]; unfold Graph.handleComponentEvent;
    try (by apply nodeExecuted_not_running); try (by intros [= <-]).
  cbv zeta. destruct (setState_abort g) as (_ & Hs & _). set (g1 := (Graph.setState kAborting g).2) in *. clearbody g1.
  destruct (DependencyGraph.get _ _) as [c|]; [|done]. cbn [mbind outcome_bind].
  destruct (put _ _ _) as [n|]; [|done]. cbn [mbind outcome_bind]. intros [= <-].
  assert (Hs1 : Graph.state_ (Graph.set_nodes n g1) <> kInTransition).
  { simpl. rewrite Hs. by destruct (Graph.state_ g). }
  case_bool_decide; [|done]. by destruct (handleNonTransition_spec _ Hs1) as (_ & -> & _).
Qed.

Lemma shutdown_drain_not_running fuel : forall m m',
  Graph.state_ (ProcessGroupManager.graph_ m) <> kInTransition ->
  ProcessGroupManager.shutdown_drain fuel m = Ret m' ->
  Graph.state_ (ProcessGroupManager.graph_ m') <> kInTransition.
Proof.
  induction fuel as [|fuel IH]; intros m m' Hst; cbn [ProcessGroupManager.shutdown_drain];
    destruct (ComponentEventQueue.getNextEvent _ _) as [[[e|] q]|]; try done; cbn [mbind outcome_bind];
    try (intros [= <-]; done).
  intros Hrun. destruct (match e with SupervisionFailure _ => _ | _ => _ end) as [m1|] eqn:He; [|done].
  cbn [mbind outcome_bind] in Hrun. apply (IH m1); [|done].
  destruct e; try (injection He as <-; done);
    destruct (Graph.handleComponentEvent _ _) as [g|] eqn:Hh; try done; injection He as <-;
    by eapply event_not_running.
Qed.

Lemma wait_loop_not_running env s : fair_env env -> forall fuel remaining m m',
  Graph.state_ (ProcessGroupManager.graph_ m) <> kInTransition ->
  ProcessGroupManager.wait_loop fuel env s remaining m = Ret m' ->
  Graph.state_ (ProcessGroupManager.graph_ m') <> kInTransition.
Proof.
  intros Henv. induction fuel as [|fuel IH]; intros remaining m m' Hst; cbn [ProcessGroupManager.wait_loop].
  { case_match; [done|]. by intros [= <-]. }
  destruct (_ && _); [|by intros [= <-]].
  destruct (ComponentEventQueue.waitForEvents _ _) as [[r q]|]; [|done]. cbn [mbind outcome_bind].
  destruct (ProcessGroupManager.shutdown_drain _ _) as [m1|] eqn:Hd; [|done]. cbn [mbind outcome_bind].
  apply IH. eapply shutdown_drain_not_running; [|exact Hd]. simpl. by rewrite (fe_state _ Henv).
Qed.

(** Setting [kInTransition] before [startTransition] does it is harmless. *)
Lemma startTransition_twice k src g :
  Graph.state_ g = kGraphSuccess \/ Graph.state_ g = kUndefinedState ->
  Graph.isValidRunTarget k g = true ->
  Graph.startTransition k src (Graph.setState kInTransition g).2 = Graph.startTransition k src g.
Proof.
  intros Hst Hv. unfold Graph.startTransition.
  assert (Hv2 : forall g', Graph.nodes_ g' = Graph.nodes_ g -> Graph.isValidRunTarget k g' = true).
  { intros g' E. rewrite <- Hv. unfold Graph.isValidRunTarget. by rewrite E. }
  rewrite !Hv2; [|done|by destruct g; simpl in Hst; destruct Hst as [-> | ->]].
  assert (E2 : Graph.setState kInTransition (Graph.set_requested k (Graph.set_source src (Graph.setState kInTransition g).2)) =
    Graph.setState kInTransition (Graph.set_requested k (Graph.set_source src g))).
  { destruct g. simpl in Hst. destruct Hst as [-> | ->]; reflexivity. }
  by rewrite E2.
Qed.

(** The transition to Off starts from an idle graph, and is refused while jobs
    of an aborted transition are out. *)
Lemma startTransitionToOffState_spec now g i E :
  graph_inv (sys_of g i E) -> static_ok g -> valid_target g (hash Graph.off_state_name) ->
  Graph.state_ g <> kInTransition ->
  exists ok g' new, Graph.startTransitionToOffState hash now g = Ret (ok, g') /\
    graph_inv (sys_of g' (i ++ new) E) /\ same_face g g' /\
    (if bool_decide (Graph.state_ g = kAborting)
     then ok = false /\ g' = Graph.setRequestStartTime now g
     else ok = true /\ Graph.requested_state_ g' = hash Graph.off_state_name /\ Graph.state_ g' <> kUndefinedState).
Proof.
  intros Hg Hs Hoff Hst. unfold Graph.startTransitionToOffState.
  set (g0 := Graph.setRequestStartTime now g).
  assert (Hg0 : graph_inv (sys_of g0 i E)) by (destruct Hg; by split).
  assert (Hs0 : static_ok g0) by (destruct Hs; by split).
  case_bool_decide as Hab.
  - assert (E0 : Graph.setState kInTransition g0 = (false, g0)).
    { unfold Graph.setState. change (Graph.state_ g0) with (Graph.state_ g). rewrite Hab. simpl.
      unfold g0. destruct g. simpl in *. by subst. }
    rewrite E0. exists false, g0, []. rewrite app_nil_r. split_and!; [done|done|by split|done|done].
  - assert (Hidle : Graph.state_ g0 = kGraphSuccess \/ Graph.state_ g0 = kUndefinedState).
    { simpl. destruct (Graph.state_ g); auto; done. }
    assert (E0 : (Graph.setState kInTransition g0).1 = true).
    { unfold Graph.setState. simpl in *. by destruct Hidle as [-> | ->]. }
    pose proof (startTransition_twice (hash Graph.off_state_name) kStateManagerRequest g0 Hidle) as E1.
    destruct (Graph.setState kInTransition g0) as [ok g1]. simpl in E0, E1. subst ok.
    unfold Graph.off_state_. rewrite E1 by (rewrite isValidRunTarget_spec; by apply bool_decide_eq_true).
    destruct (start_handled g0 i E _ kStateManagerRequest Hg0 Hs0 Hoff Hidle) as (g' & new & -> & Hg' & Hf & Hu & Hr).
    cbn [mbind outcome_bind assert]. exists true, g', new. split_and!; try done.
    by etrans; [|exact Hf].
Qed.

(** Cancelling, waiting for the cancellation and starting the transition to Off. *)
Lemma off_phase_spec env now m i E :
  fair_env env -> mgr_inv m i E -> valid_target (ProcessGroupManager.graph_ m) (hash Graph.off_state_name) ->
  exists b m1 ok g i2 E2,
    ProcessGroupManager.waitForStateCompletion env kAborting 2000
      (ProcessGroupManager.set_graph (Graph.cancel (ProcessGroupManager.graph_ m)) m) = Ret (b, m1) /\
    Graph.startTransitionToOffState hash now (ProcessGroupManager.graph_ m1) = Ret (ok, g) /\
    mgr_inv (ProcessGroupManager.set_graph g m1) i2 E2 /\
    ProcessGroupManager.completions_ m1 = ProcessGroupManager.completions_ m.
Proof.
  intros Henv Hm Hoff. set (m0 := ProcessGroupManager.set_graph _ m).
  assert (Hm0 : mgr_inv m0 i E).
  { destruct Hm. split; [done|exact (cancel_inv _ mi_graph0)| |eapply static_same_face; [apply cancel_face|done]].
    eapply Forall_impl; [exact mi_legit0|]. intros e. apply legit_same_face, cancel_face. }
  assert (Hst0 : Graph.state_ (ProcessGroupManager.graph_ m0) <> kInTransition) by apply cancel_not_running.
  destruct (waitForStateCompletion_spec env kAborting 2000 m0 i E Henv Hm0) as (m1 & i1 & E1 & Hw & Hm1 & Hc1 & Hk1).
  assert (Hst1 : Graph.state_ (ProcessGroupManager.graph_ m1) <> kInTransition).
  { unfold ProcessGroupManager.waitForStateCompletion in Hw.
    destruct (ProcessGroupManager.wait_loop _ _ _ _ _) as [mw|] eqn:Hwl; [|done]. simpl in Hw. injection Hw as _ <-.
    by eapply (wait_loop_not_running env kAborting Henv). }
  pose proof Hm1 as [].
  destruct (startTransitionToOffState_spec now (ProcessGroupManager.graph_ m1) i1 E1)
    as (ok & g & new & Hrun & Hg & Hf & _); [done|done| |done|].
  { unfold valid_target in *. rewrite Hk1. simpl. by rewrite (sf_kind _ _ (cancel_face _)). }
  eexists _, m1, ok, g, (i1 ++ new), E1. split_and!; [exact Hw|exact Hrun| |done].
  split; [done|done| |by eapply static_same_face].
  eapply Forall_impl; [exact mi_legit0|]. intros e. by apply legit_same_face.
Qed.

(** Shutdown comes to an end.  With the workers and the OS handler free to
    carry out jobs and push events, [allProcessGroupsOff] returns: its two waits
    are bounded by their time budgets, no handler fails, and when it does not
    resort to killing by force no transition is running any more.  Requests of
    the state manager that arrive meanwhile are taken from the queue but their
    slots are not completed. *)
Theorem shutdown_returns env1 env2 now m i E :
  fair_env env1 -> fair_env env2 -> mgr_inv m i E ->
  valid_target (ProcessGroupManager.graph_ m) (hash Graph.off_state_name) ->
  exists killed m', ProcessGroupManager.allProcessGroupsOff hash env1 env2 now m = Ret (killed, m') /\
    ProcessGroupManager.completions_ m' = ProcessGroupManager.completions_ m /\
    (killed = None <-> Graph.state_ (ProcessGroupManager.graph_ m') <> kInTransition).
Proof.
  intros He1 He2 Hm Hoff. unfold ProcessGroupManager.allProcessGroupsOff.
  assert (Hfirst : exists m2 i2 E2, (if Graph.isTransitioningToOff hash (ProcessGroupManager.graph_ m) then Ret m
      else '(_, m1) ← ProcessGroupManager.waitForStateCompletion env1 kAborting 2000
                        (ProcessGroupManager.set_graph (Graph.cancel (ProcessGroupManager.graph_ m)) m);
           '(_, g) ← Graph.startTransitionToOffState hash now (ProcessGroupManager.graph_ m1);
           Ret (ProcessGroupManager.set_graph g m1)) = Ret m2 /\ mgr_inv m2 i2 E2 /\
    ProcessGroupManager.completions_ m2 = ProcessGroupManager.completions_ m).
  { destruct (Graph.isTransitioningToOff _ _); [by exists m, i, E|].
    destruct (off_phase_spec env1 now m i E He1 Hm Hoff) as (b & m1 & ok & g & i2 & E2 & -> & Hst & Hm2 & Hc).
    cbn [mbind outcome_bind]. rewrite Hst. cbn [mbind outcome_bind]. by exists (ProcessGroupManager.set_graph g m1), i2, E2. }
  destruct Hfirst as (m2 & i2 & E2 & -> & Hm2 & Hc2). cbn [mbind outcome_bind]. cbv zeta.
  destruct (waitForStateCompletion_spec env2 kInTransition
    (ProcessGroupManager.to_int32 (Graph.getOffStateTransitionTimeout (ProcessGroupManager.graph_ m2) +
       ProcessGroupManager.kMaxSigKillDelay)) m2 i2 E2 He2 Hm2) as (m3 & i3 & E3 & -> & Hm3 & Hc3 & _).
  cbn [mbind outcome_bind]. eexists _, m3. split_and!; [done|congruence|].
  case_bool_decide; split; done.
Qed.

(** ** The whole of [run] *)

(** What the other threads may do between two rounds. *)
Record fair_round (env : manager -> manager) : Prop := {
  fr_inv m i E : mgr_inv m i E -> exists i' E', mgr_inv (env m) i' E';
  fr_keeps m : keeps m (env m);
  fr_serviced m : ProcessGroupManager.watchdog_serviced_ (env m) = ProcessGroupManager.watchdog_serviced_ m
}.

Definition open m : Prop := MpscBoundedQueue.stopped_ (ComponentEventQueue.queue_ (ProcessGroupManager.event_queue_ m)) = false.

Lemma valid_keeps m m' k : keeps m m' -> valid_target (ProcessGroupManager.graph_ m) k -> valid_target (ProcessGroupManager.graph_ m') k.
Proof. intros [Hk _]. unfold valid_target. by rewrite Hk. Qed.

Lemma open_keeps m m' : keeps m m' -> open m -> open m'.
Proof. intros [_ Hs]. unfold open. by rewrite Hs. Qed.

Lemma startInitialTransition_spec now target m i E :
  mgr_inv m i E -> Graph.state_ (ProcessGroupManager.graph_ m) = kGraphSuccess \/ Graph.state_ (ProcessGroupManager.graph_ m) = kUndefinedState ->
  valid_target (ProcessGroupManager.graph_ m) (hash target) ->
  exists m' new, ProcessGroupManager.startInitialTransition hash now target m = Ret m' /\ mgr_inv m' (i ++ new) E /\ keeps m m' /\
    Graph.requested_state_ (ProcessGroupManager.graph_ m') = hash target /\
    ProcessGroupManager.watchdog_serviced_ m' = ProcessGroupManager.watchdog_serviced_ m.
Proof.
  intros [] Hst Hv. unfold ProcessGroupManager.startInitialTransition, Graph.startInitialTransition.
  set (g0 := Graph.setRequestStartTime now _).
  destruct (start_handled g0 i E (hash target) kStateManagerRequest) as (g' & new & -> & Hg & Hf & _ & Hr); [by destruct mi_graph0; split|by destruct mi_static0; split|done|done|].
  cbn [mbind outcome_bind]. eexists _, new. split; [done|]. split_and!; try done.
  - split; simpl; [done|done| |].
    + eapply Forall_impl; [exact mi_legit0|]. intros e. by apply (legit_same_face g0).
    + eapply (static_same_face g0); [done|]. by destruct mi_static0; split.
  - split; [|done]. intros k. exact (sf_kind _ _ Hf k).
Qed.

Lemma run_rounds_spec rounds : Forall (fun r => fair_round r.1) rounds -> forall m i E, mgr_inv m i E -> open m ->
  exists m' i' E', ProcessGroupManager.run_rounds hash rounds m = Ret m' /\ mgr_inv m' i' E' /\ keeps m m' /\
    ProcessGroupManager.watchdog_serviced_ m' = length rounds + ProcessGroupManager.watchdog_serviced_ m.
Proof.
  unfold ProcessGroupManager.run_rounds. induction 1 as [|[env now] rounds He _ IH]; intros m i E Hm Ho; cbn [foldM].
  { by exists m, i, E. }
  destruct (fr_inv _ He m i E Hm) as (i1 & E1 & Hm1). pose proof (fr_keeps _ He m) as Hk. simpl in *.
  destruct (main_loop_round now (env m) i1 E1 Hm1 (open_keeps _ _ Hk Ho)) as (m2 & new & -> & Hm2 & _ & _ & Hw & Hk2).
  cbn [mbind outcome_bind].
  destruct (IH m2 _ _ Hm2) as (m3 & i3 & E3 & -> & Hm3 & Hk3 & Hw3); [by do 2 (eapply open_keeps; [eassumption|])|].
  exists m3, i3, E3. split_and!; [done|done|by repeat (eapply keeps_trans; [eassumption|])|]. rewrite Hw3, Hw, (fr_serviced _ He). lia.
Qed.

(** The transition to [k] has been started on the components of [g]. *)
Definition activates (k : IdentifierHash) (src : RunTargetActivationSource) g g' : Prop :=
  (exists g0, Graph.nodes_ g0 = Graph.nodes_ g /\ Graph.state_ g0 = Graph.state_ g /\
     Graph.startTransition k src g0 = Ret (true, g')) /\
  Graph.requested_state_ g' = k /\ Graph.state_ g' <> kUndefinedState.

(** What a round makes of the graph [g] that the events have left: a running
    or aborting one is left alone, one that is idle gets the pending Run Target
    if it is another one, and one that has failed gets the pending Run Target if
    there is one and the fallback otherwise. *)
Definition round_result g g' : Prop :=
  let p := run_target (Graph.pending_ g) in
  match Graph.state_ g with
  | kInTransition | kAborting => g' = g
  | kUndefinedState =>
      if bool_decide (p = hash "") then activates (hash Graph.recovery_state_name) kRecoveryAction g g'
      else activates p (source (Graph.pending_ g)) g g'
  | kGraphSuccess =>
      if bool_decide (p = hash "") || bool_decide (p = Graph.requested_state_ g)
      then g' = (Graph.setPendingState (hash "") kStateManagerRequest g).2
      else activates p (source (Graph.pending_ g)) g g'
  end.

Lemma start_activates g g0 i E k src :
  graph_inv (sys_of g0 i E) -> static_ok g0 -> valid_target g0 k ->
  Graph.nodes_ g0 = Graph.nodes_ g -> Graph.state_ g0 = Graph.state_ g ->
  Graph.state_ g = kGraphSuccess \/ Graph.state_ g = kUndefinedState ->
  exists g', Graph.startTransition k src g0 = Ret (true, g') /\ activates k src g g' /\
    bool_decide (Graph.state_ g' = kUndefinedState) = false.
Proof.
  intros Hg Hs Hk En Es Hst. rewrite <- Es in Hst.
  destruct (start_handled g0 i E k src Hg Hs Hk Hst) as (g' & new & Hrun & _ & _ & Hu & Hr).
  exists g'. split_and!; [done|split; [by exists g0|done]|by apply bool_decide_eq_false].
Qed.

Lemma processGroupHandler_result now g i E g' :
  graph_inv (sys_of g i E) -> static_ok g ->
  ProcessGroupManager.processGroupHandler hash now g = Ret g' -> round_result g g'.
Proof.
  intros Hg Hs. unfold ProcessGroupManager.processGroupHandler, Graph.getState, round_result.
  unfold Graph.setPendingState, Graph.getPendingState, Graph.getPendingTransition, Graph.getRequestedRunTarget; cbn [snd].
  set (p := run_target (Graph.pending_ g)). set (g1 := Graph.set_pending_ _ g). cbv zeta.
  change (Graph.requested_state_ g1) with (Graph.requested_state_ g).
  assert (Hg1 : graph_inv (sys_of g1 i E)) by (destruct Hg; by split).
  assert (Hs1 : static_ok g1) by (destruct Hs; split; [by left|done]).
  assert (Hv : p <> hash "" -> valid_target g1 p) by (by destruct (so_pending _ Hs)).
  pose proof (start_activates g g1 i E p (source (Graph.pending_ g)) Hg1 Hs1) as Hgo.
  assert (Hback : Graph.state_ g = kUndefinedState -> exists g2,
    Graph.startTransition (ProcessGroupManager.recovery_state_ hash) kRecoveryAction (Graph.setRequestStartTime now g1) = Ret (true, g2) /\
    activates (ProcessGroupManager.recovery_state_ hash) kRecoveryAction g g2).
  { intros Hu. destruct (start_activates g (Graph.setRequestStartTime now g1) i E (ProcessGroupManager.recovery_state_ hash) kRecoveryAction)
      as (g2 & ? & ? & _); [by destruct Hg1; split|by destruct Hs1; split|apply Hs1|done|done|by right|by exists g2]. }
  assert (Hp2 : bool_decide (p <> hash "") = negb (bool_decide (p = hash ""))) by (by rewrite bool_decide_not).
  assert (Hr2 : bool_decide (p <> Graph.requested_state_ g) = negb (bool_decide (p = Graph.requested_state_ g)))
    by (by rewrite bool_decide_not).
  rewrite Hp2, Hr2. clear Hp2 Hr2. change (Graph.state_ g1) with (Graph.state_ g).
  assert (Hrun : p <> hash "" -> Graph.state_ g = kGraphSuccess \/ Graph.state_ g = kUndefinedState ->
    (pg2 ← ('(started, g0) ← Graph.startTransition p (source (Graph.pending_ g)) g1; _ ← assert started; Ret g0);
     if bool_decide (Graph.state_ pg2 = kUndefinedState) then
       '(started, g0) ← Graph.startTransition (ProcessGroupManager.recovery_state_ hash) kRecoveryAction
         (Graph.setRequestStartTime now pg2);
       _ ← assert started; Ret g0
     else Ret pg2) = Ret g' -> activates p (source (Graph.pending_ g)) g g').
  { intros Hp Hst. destruct (Hgo (Hv Hp) eq_refl eq_refl Hst) as (g2 & -> & Ha & Hu).
    cbn [mbind outcome_bind assert]. rewrite Hu. by intros [= <-]. }
  destruct (Graph.state_ g) eqn:Est; [change (bool_decide (kGraphSuccess = kUndefinedState)) with false
    |by intros [= <-]|by intros [= <-]|change (bool_decide (kUndefinedState = kUndefinedState)) with true];
    cbn [bool_decide orb]; rewrite ?orb_true_r, ?orb_false_r, ?andb_true_r;
    change (bool_decide (kGraphSuccess = kGraphSuccess)) with true; cbn [orb];
    destruct (bool_decide (p = hash "")) eqn:Hp; cbn [negb andb orb].
  - cbn [mbind outcome_bind]. change (Graph.state_ g1) with (Graph.state_ g). rewrite Est. by intros [= <-].
  - apply bool_decide_eq_false in Hp. destruct (bool_decide (p = Graph.requested_state_ g)); cbn [negb]; [|by auto].
    cbn [mbind outcome_bind]. change (Graph.state_ g1) with (Graph.state_ g). rewrite Est. by intros [= <-].
  - cbn [mbind outcome_bind]. change (Graph.state_ g1) with (Graph.state_ g). rewrite Est.
    destruct (Hback eq_refl) as (g2 & -> & Ha). by intros [= <-].
  - apply bool_decide_eq_false in Hp. by auto.
Qed.

(** One round, step by step: the queued events in order, then the handler. *)
Lemma round_steps now m i E m' : mgr_inv m i E -> open m -> ProcessGroupManager.run_cycle hash now m = Ret m' ->
  exists mh, handle_all now m E = Ret mh /\
    round_result (ProcessGroupManager.graph_ mh) (ProcessGroupManager.graph_ m').
Proof.
  intros Hm Hst. pose proof Hm as []. unfold ProcessGroupManager.run_cycle.
  destruct (waitForEvents_spec _ _ mi_queue0) as (q & -> & Hq & _ & _). rewrite Hst. cbn [negb andb mbind outcome_bind].
  assert (Hm1 : mgr_inv (ProcessGroupManager.set_queue q m) i E) by (by split).
  destruct (process_loop_spec now E (length E) _ i Hm1) as (mq & new & Hpc & Hmq & _ & _ & mf & Hmf & Eg); [done|].
  unfold ProcessGroupManager.processComponentEvents. rewrite (queue_length_rep _ E), Hpc by done.
  rewrite handle_all_queue in Hmf. destruct (handle_all now m E) as [mh|] eqn:Eh; [|done]. injection Hmf as <-.
  intros Hrun. exists mh. split; [done|]. simpl in Eg.
  assert (Hh : ProcessGroupManager.processGroupHandler hash now (ProcessGroupManager.graph_ mh) =
    Ret (ProcessGroupManager.graph_ m')).
  { case_bool_decide as HE; cbn [negb mbind outcome_bind] in Hrun.
    1: subst E; injection Eh as <-.
    all: cbv zeta in Hrun; match type of Hrun with context [ProcessGroupManager.processGroupHandler _ _ ?g] =>
        first [replace g with (ProcessGroupManager.graph_ m) in Hrun by (by case_match)
              |replace g with (ProcessGroupManager.graph_ mh) in Hrun by (by case_match)] end.
    all: destruct (ProcessGroupManager.processGroupHandler _ _ _) as [g|]; [|done]; by injection Hrun as <-. }
  rewrite <- Eg in Hh |- *. eapply processGroupHandler_result; [apply Hmq..|exact Hh].
Qed.

(** C8: the manager runs until it is cancelled.  From a consistent idle graph, with other threads that carry out jobs, report and push
    requests as they may, [run] starts the initial transition, gets through every round and the shutdown, and returns
    true.  The watchdog is serviced once in every round.  Every round takes all events that are queued and completes the slot of
    each request among them in order; of the graph that these events leave it makes what [round_result] says: a
    transition that is running or being aborted is left alone, an idle graph gets the Run Target that is pending if it
    is another one, and a graph that has failed gets the transition to the pending Run Target if one was requested and
    to the fallback Run Target otherwise, so that none is left failed.  When the shutdown does not kill by force, no
    transition is running after it. *)
Theorem manager_runs_until_cancelled target rounds env1 env2 start off m i E :
  mgr_inv m i E -> open m ->
  Graph.state_ (ProcessGroupManager.graph_ m) = kGraphSuccess \/ Graph.state_ (ProcessGroupManager.graph_ m) = kUndefinedState ->
  valid_target (ProcessGroupManager.graph_ m) (hash target) -> valid_target (ProcessGroupManager.graph_ m) (hash Graph.off_state_name) ->
  Forall (fun r => fair_round r.1) rounds -> fair_env env1 -> fair_env env2 ->
  exists m1 m2 killed m3,
    ProcessGroupManager.startInitialTransition hash start target m = Ret m1 /\ Graph.requested_state_ (ProcessGroupManager.graph_ m1) = hash target /\
    ProcessGroupManager.run_rounds hash rounds m1 = Ret m2 /\
    ProcessGroupManager.watchdog_serviced_ m2 = length rounds + ProcessGroupManager.watchdog_serviced_ m /\
    ProcessGroupManager.run hash target rounds env1 env2 start off m = Ret (true, killed, m3) /\
    (killed = None <-> Graph.state_ (ProcessGroupManager.graph_ m3) <> kInTransition) /\
    (forall pre env now post, rounds = pre ++ (env, now) :: post ->
       exists mp mq j F, ProcessGroupManager.run_rounds hash pre m1 = Ret mp /\ mgr_inv (env mp) j F /\
         ProcessGroupManager.run_cycle hash now (env mp) = Ret mq /\ completed_slots mq = completed_slots (env mp) ++ slots_of F /\
         Graph.state_ (ProcessGroupManager.graph_ mq) <> kUndefinedState /\
         exists mh, handle_all now (env mp) F = Ret mh /\ round_result (ProcessGroupManager.graph_ mh) (ProcessGroupManager.graph_ mq)).
Proof.
  intros Hm Ho Hst Hv Hoff Hr He1 He2.
  destruct (startInitialTransition_spec start target m i E Hm Hst Hv) as (m1 & new & Hr1 & Hm1 & Hk1 & Hreq & Hw1).
  pose proof (open_keeps _ _ Hk1 Ho) as Ho1.
  destruct (run_rounds_spec rounds Hr m1 _ _ Hm1 Ho1) as (m2 & i2 & E2 & Hr2 & Hm2 & Hk2 & Hw2).
  destruct (shutdown_returns env1 env2 off m2 i2 E2 He1 He2 Hm2) as (killed & m3 & Hr3 & _ & Hkill).
  { by do 2 (eapply valid_keeps; [eassumption|]). }
  exists m1, m2, killed, m3. split_and!; try done; [by rewrite Hw2, Hw1| |].
  - unfold ProcessGroupManager.run. rewrite Hr1. cbn [mbind outcome_bind]. rewrite Hr2. cbn [mbind outcome_bind]. by rewrite Hr3.
  - intros pre env now post ->. apply Forall_app in Hr as [Hpre [He _]%Forall_cons].
    destruct (run_rounds_spec pre Hpre m1 _ _ Hm1 Ho1) as (mp & j & F & Hp & Hmp & Hkp & _).
    destruct (fr_inv _ He mp j F Hmp) as (j' & F' & Hme). pose proof (fr_keeps _ He mp) as Hke. simpl in *.
    destruct (main_loop_round now (env mp) j' F' Hme) as (mq & newq & Hq & _ & Hc & Hu & _); [by do 2 (eapply open_keeps; [eassumption|])|].
    exists mp, mq, j', F'. split_and!; try done. eapply round_steps; [exact Hme| |exact Hq]. by do 2 (eapply open_keeps; [eassumption|]).
Qed.

(** A cancellation that times out.  If the jobs of the cancelled transition
    are not all answered within the two seconds of the first wait, the transition
    to Off is refused, the refusal is not looked at, and shutdown ends at once:
    no component is stopped by it and no process is killed by force. *)
Theorem cancellation_timeout_ends_shutdown env1 env2 now m m1 :
  Graph.isTransitioningToOff hash (ProcessGroupManager.graph_ m) = false ->
  ProcessGroupManager.waitForStateCompletion env1 kAborting 2000
    (ProcessGroupManager.set_graph (Graph.cancel (ProcessGroupManager.graph_ m)) m) = Ret (false, m1) ->
  exists m', ProcessGroupManager.allProcessGroupsOff hash env1 env2 now m = Ret (None, m') /\
    Graph.nodes_ (ProcessGroupManager.graph_ m') = Graph.nodes_ (ProcessGroupManager.graph_ m1) /\
    Graph.state_ (ProcessGroupManager.graph_ m') = kAborting /\ completed_slots m' = completed_slots m1.
Proof.
  intros Hoff Hw. unfold ProcessGroupManager.allProcessGroupsOff. rewrite Hoff, Hw. cbn [mbind outcome_bind].
  assert (Hst : Graph.state_ (ProcessGroupManager.graph_ m1) = kAborting).
  { unfold ProcessGroupManager.waitForStateCompletion in Hw.
    destruct (ProcessGroupManager.wait_loop _ _ _ _ _) as [mw|]; [|done]. simpl in Hw. injection Hw as Hb ->.
    apply bool_decide_eq_false in Hb. by apply dec_stable. }
  unfold Graph.startTransitionToOffState, Graph.setState. simpl. rewrite Hst. simpl.
  unfold ProcessGroupManager.waitForStateCompletion, ProcessGroupManager.wait_rounds.
  cbn [ProcessGroupManager.wait_loop]. simpl. eexists. split; [reflexivity|]. done.
Qed.

End Proofs.

(** ** Examples *)

Module Example.
Import GraphProofs.Example.

#[local] Instance order : IterOrder IdentifierHash := map_order.
#[local] Instance build : BuildMode := debug_build.

Notation manager := (ProcessGroupManager.t proc (list ComponentTask)).

(** The process of the graph example has been started and reports; meanwhile the
    state manager asks for the active Run Target. *)
Definition events : list ComponentEvent := [ActivationSuccessful 4%Z; GetActiveRunTarget (Some 9)].

Definition q_events : ComponentEventQueue.t :=
  foldl (fun q e => (ComponentEventQueue.push e q).2) (ComponentEventQueue.make 1) events.

Definition m_work : manager := ProcessGroupManager.mk (sgraph x_work) q_events [] false 0 0.
Definition m_success : manager :=
  ProcessGroupManager.mk (sgraph x_success) (ComponentEventQueue.make 1) [] false 0 0.
Definition m_start : manager :=
  ProcessGroupManager.mk (sgraph x_start) (ComponentEventQueue.make 1) [] false 0 0.

Lemma empty_rep : queue_rep (ComponentEventQueue.make 1) [].
Proof. apply (MpscBoundedQueue.mpsc_make_rep 0 3). Qed.

Lemma events_rep : queue_rep q_events events.
Proof.
  pose proof (MpscBoundedQueue.push_spec 0 _ [] (ActivationSuccessful 4%Z) empty_rep) as (_ & _ & _ & H1).
  exact (proj2 (proj2 (proj2 (MpscBoundedQueue.push_spec 0 _ _ (GetActiveRunTarget (Some 9)) H1)))).
Qed.

Lemma static_of (g : Graph.t proc (list ComponentTask)) : run_target (Graph.pending_ g) = hash "" ->
  is_target (Graph.nodes_ g) (hash Graph.recovery_state_name) = Some true ->
  static_ok hash g.
Proof. intros Hp Hr. split; [by left|exact Hr]. Qed.

Lemma m_work_inv : mgr_inv hash m_work [] events.
Proof.
  split; [exact events_rep|exact (g_reachable_inv list_queue_accepts _ reach_work)|by repeat constructor|].
  apply static_of; vm_compute; reflexivity.
Qed.

Lemma m_success_inv : mgr_inv hash m_success [] [].
Proof.
  split; [exact empty_rep|exact (g_reachable_inv list_queue_accepts _ reach_success)|constructor|].
  apply static_of; vm_compute; reflexivity.
Qed.

Lemma m_start_inv : mgr_inv hash m_start [task_app] [].
Proof.
  split; [exact empty_rep|exact (g_reachable_inv list_queue_accepts _ reach_start)|constructor|].
  apply static_of; vm_compute; reflexivity.
Qed.

Lemma main_loop_round_witness :
  exists m' new, ProcessGroupManager.run_cycle hash 7%Z m_work = Ret m' /\ mgr_inv hash m' ([] ++ new) [] /\
    completed_slots m' = [9] /\ Graph.state_ (ProcessGroupManager.graph_ m') <> kUndefinedState.
Proof.
  destruct (main_loop_round hash list_queue_accepts 7%Z m_work [] events m_work_inv eq_refl)
    as (m' & new & Hrun & Hinv & Hc & Hs & _).
  exact (ex_intro _ m' (ex_intro _ new (conj Hrun (conj Hinv (conj Hc Hs))))).
Defined.

(** The State Manager has asked for Off. *)
Definition g_pending : Graph.t proc (list ComponentTask) :=
  (Graph.setPendingState 1%Z kStateManagerRequest (sgraph x_success)).2.

Lemma pending_request_served_witness :
  exists g', ProcessGroupManager.processGroupHandler hash 7%Z g_pending = Ret g' /\
    Graph.requested_state_ g' = 1%Z.
Proof.
  assert (Hg : graph_inv (sys_of g_pending [] [])) by (destruct (mi_graph _ _ _ _ m_success_inv); by split).
  assert (Hs : static_ok hash g_pending) by (split; [right|]; vm_compute; reflexivity).
  destruct (pending_request_served hash list_queue_accepts 7%Z g_pending [] [] Hg Hs (or_introl eq_refl))
    as (g' & Hrun & _ & Hr).
  exact (ex_intro _ g' (conj Hrun Hr)).
Defined.

Lemma active_run_target_truthful_witness :
  exists r, ProcessGroupManager.completions_ (ProcessGroupManager.handleGetActiveRunTarget (Some 9) m_success) =
    [(9, ActiveRunTarget r)].
Proof.
  destruct (active_run_target_truthful hash 9 m_success [] [] m_success_inv eq_refl) as (r & Hc & _).
  exact (ex_intro _ r Hc).
Defined.

Lemma quiet_env : fair_env hash (fun _ (m : manager) => m).
Proof. split; eauto. Qed.

Lemma shutdown_returns_witness :
  exists killed m', ProcessGroupManager.allProcessGroupsOff hash (fun _ m => m) (fun _ m => m) 7%Z m_start = Ret (killed, m').
Proof.
  assert (Hoff : valid_target (sgraph x_start) (hash Graph.off_state_name)) by (vm_compute; reflexivity).
  destruct (shutdown_returns hash list_queue_accepts _ _ 7%Z m_start [task_app] [] quiet_env quiet_env m_start_inv Hoff)
    as (killed & m' & Hrun & _).
  exact (ex_intro _ killed (ex_intro _ m' Hrun)).
Defined.

(** The manager of the example before its first transition, and three quiet rounds. *)
Definition m_init : manager := ProcessGroupManager.mk g_init (ComponentEventQueue.make 1) [] false 0 0.

Lemma m_init_inv : mgr_inv hash m_init [] [].
Proof.
  split; [exact empty_rep|exact (g_reachable_inv list_queue_accepts x_init (ex_intro _ x_init (conj x_init_initial (rtc_refl _ _))))|constructor|].
  apply static_of; vm_compute; reflexivity.
Qed.

Lemma quiet_round : fair_round hash (fun m : manager => m).
Proof. split; eauto. intros m. by split. Qed.

Lemma manager_runs_until_cancelled_witness :
  exists killed m3, ProcessGroupManager.run hash "Startup" [(fun m => m, 1%Z); (fun m => m, 2%Z); (fun m => m, 3%Z)] (fun _ m => m) (fun _ m => m) 0%Z 4%Z m_init =
    Ret (true, killed, m3).
Proof.
  destruct (manager_runs_until_cancelled hash list_queue_accepts "Startup" [(fun m => m, 1%Z); (fun m => m, 2%Z); (fun m => m, 3%Z)]
    (fun _ m => m) (fun _ m => m) 0%Z 4%Z m_init [] [] m_init_inv) as (m1 & m2 & killed & m3 & _ & _ & _ & _ & Hrun & _).
  - reflexivity.
  - left. reflexivity.
  - vm_compute. reflexivity.
  - vm_compute. reflexivity.
  - repeat constructor; apply quiet_round.
  - exact quiet_env.
  - exact quiet_env.
  - exact (ex_intro _ killed (ex_intro _ m3 Hrun)).
Defined.

(** The worker that starts the process is stuck. *)
Definition m_stuck : manager := Eval vm_compute in
  match ProcessGroupManager.waitForStateCompletion (fun _ m => m) kAborting 2000
    (ProcessGroupManager.set_graph (Graph.cancel (sgraph x_start)) m_start) with
  | Ret (_, m) => m
  | Abort _ => m_start
  end.

Lemma cancellation_timeout_ends_shutdown_witness :
  exists m', ProcessGroupManager.allProcessGroupsOff hash (fun _ m => m) (fun _ m => m) 7%Z m_start = Ret (None, m') /\
    Graph.state_ (ProcessGroupManager.graph_ m') = kAborting.
Proof.
  assert (Hw : ProcessGroupManager.waitForStateCompletion (fun _ m => m) kAborting 2000
    (ProcessGroupManager.set_graph (Graph.cancel (sgraph x_start)) m_start) = Ret (false, m_stuck))
    by (vm_compute; reflexivity).
  assert (Hoff : Graph.isTransitioningToOff hash (sgraph x_start) = false) by (vm_compute; reflexivity).
  destruct (cancellation_timeout_ends_shutdown hash _ (fun _ m => m) 7%Z m_start m_stuck Hoff Hw) as (m' & Hrun & _ & Hs & _).
  exact (ex_intro _ m' (conj Hrun Hs)).
Defined.

End Example.
End ManagerProofs.
