(* ===== verification/Vectors.v ===== *)
(** * Vectors that do not grow

    [FixedSizeVector] (alive_monitor/details/common/FixedSizeVector.hpp), the storage of the history buffer, and [LockedVector] (LockedVector.hpp), which only
    shows its elements.  A [std::vector] is its elements and its capacity; reading an element that does not exist is an [Abort]. *)

From stdpp Require Import prelude.
From S2P Require Import Prelude.

Module FixedSizeVector.
Section vectors.
Context {A : Type}.

(** [std::vector]: a moved-from vector is empty and without storage. *)
Record vector := mkVector { elements : list A; storage : nat }.
Definition moved_from : vector := mkVector [] 0.

(** [reserve] may round the capacity up; the allocator says by how much. *)
Definition make (f_length extra : nat) : vector := mkVector [] (f_length + extra).

(** The move operations: the new value, and what is left of the source. *)
Definition assign (same_object : bool) (this f_inputBuffer_r : vector) : vector * vector :=
  if same_object then (this, this) else (mkVector (elements f_inputBuffer_r) (storage f_inputBuffer_r), moved_from).
Definition assign_vector (this f_inputVector_r : vector) : vector * vector := (f_inputVector_r, moved_from).
Definition move_construct (f_inputBuffer_r : vector) : vector * vector := assign false (mkVector [] 0) f_inputBuffer_r.
Definition from_vector (f_inputVector_r : vector) : vector * vector := assign_vector (mkVector [] 0) f_inputVector_r.

Definition clear (v : vector) : vector := mkVector [] (storage v).
Definition size (v : vector) : nat := length (elements v).
Definition capacity (v : vector) : nat := storage v.

Definition emplace_back (x : A) (v : vector) : bool * vector :=
  if size v <? capacity v then (true, mkVector (elements v ++ [x]) (storage v)) else (false, v).
(** Copies or moves the element in. *)
Definition push_back (x : A) (v : vector) : bool * vector :=
  if size v <? capacity v then (true, mkVector (elements v ++ [x]) (storage v)) else (false, v).

Definition get (f_index : nat) (v : vector) : outcome A := value_of (elements v !! f_index).
Definition set (f_index : nat) (x : A) (v : vector) : outcome vector :=
  if f_index <? size v then Ret (mkVector (<[f_index := x]> (elements v)) (storage v)) else Abort OutOfRange.
Definition front (v : vector) : outcome A := get 0 v.
Definition back (v : vector) : outcome A := if size v =? 0 then Abort OutOfRange else get (size v - 1) v.

(** Iterators are pointers into the storage, as offsets from its beginning. *)
Definition begin_ (v : vector) : nat := 0.
Definition end_ (v : vector) : nat := size v.

(** ** Properties *)

(** No operation but a move changes the capacity, so that pointers to the elements stay valid; and the elements stay within it. *)
Definition fits (v : vector) : Prop := size v <= capacity v.

Lemma push_back_spec x v : fits v ->
  push_back x v = (bool_decide (size v < capacity v), mkVector (elements v ++ (if bool_decide (size v < capacity v) then [x] else [])) (capacity v)) /\
  fits (push_back x v).2.
Proof.
  unfold push_back, fits. intros Hf. destruct (Nat.ltb_spec (size v) (capacity v)).
  - rewrite bool_decide_eq_true_2 by done. split; [done|]. unfold size in *. simpl. rewrite length_app. simpl. unfold capacity in *. simpl. lia.
  - rewrite bool_decide_eq_false_2 by lia. rewrite app_nil_r. by destruct v.
Qed.

(** Pushing a list keeps what fits, in order. *)
Definition push_all (l : list A) (v : vector) : vector := foldl (fun v x => (push_back x v).2) v l.

Lemma push_all_keeps l : forall v, fits v ->
  push_all l v = mkVector (elements v ++ take (capacity v - size v) l) (capacity v).
Proof.
  unfold fits, size, capacity. intros [es cap]. revert es. induction l as [|x l IH]; intros es Hf; simpl in *; [by rewrite take_nil, app_nil_r|].
  change (push_all l (push_back x (mkVector es cap)).2 = mkVector (es ++ take (cap - length es) (x :: l)) cap).
  unfold push_back, size, capacity. simpl. destruct (Nat.ltb_spec (length es) cap) as [Hlt|Hge]; simpl.
  - rewrite IH by (rewrite length_app; simpl; lia). rewrite length_app. simpl.
    replace (cap - length es) with (S (cap - (length es + 1))) by lia. simpl. by rewrite <- app_assoc.
  - rewrite IH by done. by replace (cap - length es) with 0 by lia.
Qed.

Lemma set_get i x v v' : set i x v = Ret v' -> get i v' = Ret x /\ size v' = size v /\ capacity v' = capacity v /\ forall j, j <> i -> get j v' = get j v.
Proof.
  unfold set. destruct (Nat.ltb_spec i (size v)) as [Hi|]; [|done]. intros [= <-]. unfold get, size, capacity. simpl.
  rewrite length_insert, list_lookup_insert_eq by done. split; [done|]. split; [done|]. split; [done|].
  intros j Hj. by rewrite list_lookup_insert_ne.
Qed.

(** Reading succeeds exactly inside the elements. *)
Lemma get_ok i v : returns (get i v) (fun _ => True) <-> begin_ v <= i < end_ v.
Proof.
  unfold get, begin_, end_, size. destruct (elements v !! i) as [x|] eqn:E; simpl.
  - apply lookup_lt_Some in E. split; [lia | done].
  - apply lookup_ge_None in E. split; [done | lia].
Qed.

Lemma back_push x v v' : push_back x v = (true, v') -> back v' = Ret x.
Proof.
  unfold push_back, back, get, size. destruct (_ <? _); [|done]. intros [= <-]. simpl. rewrite length_app. simpl. rewrite Nat.add_1_r. simpl.
  by rewrite Nat.sub_0_r, lookup_app_r, Nat.sub_diag by lia.
Qed.
End vectors.
Arguments vector : clear implicits.
End FixedSizeVector.

(** [LockedVector]: made from a vector, with its reading operations only. *)
Module LockedVector.
Import FixedSizeVector.
Section locked.
Context {A : Type}.

Definition make (f_fixedSizeVector_r : vector A) : vector A * vector A := move_construct f_fixedSizeVector_r.
Definition make_from_vector (f_araCoreVector_r : vector A) : vector A * vector A := from_vector f_araCoreVector_r.
Definition front (v : vector A) : outcome A := FixedSizeVector.front v.
Definition back (v : vector A) : outcome A := FixedSizeVector.back v.
Definition size (v : vector A) : nat := FixedSizeVector.size v.

(** What goes in is what is shown. *)
Lemma make_keeps v : (make v).1 = v /\ (make v).2 = moved_from /\ make_from_vector v = make v.
Proof. by destruct v. Qed.
End locked.
End LockedVector.
