(* ===== verification/TimeSorting.v ===== *)
(** * The time sorting buffer

    [TimeSortingBuffer] (alive_monitor/details/common/TimeSortingBuffer.hpp): a
    doubly linked chain through the elements of a [FixedSizeVector], kept sorted
    by timestamp.  A pointer to an element is its index in the vector, whose
    storage never moves.  The buffer refines stable insertion into a sorted list. *)

From stdpp Require Import prelude fin_maps gmap sorting.
From S2P Require Import Prelude.

Module TimeSortingBuffer.

Section Buffer.
Context {A : Type}.

Record SortChainElement := mkElem {
  previous_p : option nat;
  next_p : option nat;
  element : A;
  timestamp : Z
}.

(** [timeSortedBuffer] is a [FixedSizeVector] of [capacity] elements. *)
Record t := mk {
  timeSortedBuffer : list SortChainElement;
  capacity : nat;
  sortChainStart_p : option nat;
  sortChainEnd_p : option nat;
  lastReportedElement_p : option nat
}.

Definition make (f_bufferSize : nat) : t := mk [] f_bufferSize None None None.

Definition set_elem (i : nat) (e : SortChainElement) (b : t) : t :=
  mk (<[i := e]> (timeSortedBuffer b)) (capacity b) (sortChainStart_p b) (sortChainEnd_p b)
     (lastReportedElement_p b).
Definition set_previous (p : option nat) (e : SortChainElement) : SortChainElement :=
  mkElem p (next_p e) (element e) (timestamp e).
Definition set_next (p : option nat) (e : SortChainElement) : SortChainElement :=
  mkElem (previous_p e) p (element e) (timestamp e).
Definition set_start (p : option nat) (b : t) : t :=
  mk (timeSortedBuffer b) (capacity b) p (sortChainEnd_p b) (lastReportedElement_p b).
Definition set_end (p : option nat) (b : t) : t :=
  mk (timeSortedBuffer b) (capacity b) (sortChainStart_p b) p (lastReportedElement_p b).
Definition set_last (p : option nat) (b : t) : t :=
  mk (timeSortedBuffer b) (capacity b) (sortChainStart_p b) (sortChainEnd_p b) p.

(** [*p] *)
Definition deref (p : option nat) (b : t) : outcome (nat * SortChainElement) :=
  match p with
  | Some i => match timeSortedBuffer b !! i with Some e => Ret (i, e) | None => Abort OutOfRange end
  | None => Abort NullPointer
  end.

(** [p->previous_p = q] for a pointer that may be null. *)
Definition link_previous (p : option nat) (q : option nat) (b : t) : outcome t :=
  match p with
  | None => Ret b
  | Some _ => '(i, e) ← deref p b; Ret (set_elem i (set_previous q e) b)
  end.

Definition pushFront (new : nat) (first : option nat) (b : t) : outcome t :=
  '(_, e) ← deref (Some new) b;
  let b1 := set_elem new (mkElem None first (element e) (timestamp e)) b in
  b2 ← link_previous first (Some new) b1;
  Ret (set_start (Some new) b2).

Definition pushAfter (new cur : nat) (b : t) : outcome t :=
  '(_, c) ← deref (Some cur) b;
  '(_, e) ← deref (Some new) b;
  let b1 := set_elem new (set_next (next_p c) e) b in
  b2 ← link_previous (next_p c) (Some new) b1;
  '(_, c2) ← deref (Some cur) b2;
  let b3 := set_elem cur (set_next (Some new) c2) b2 in
  '(_, e3) ← deref (Some new) b3;
  let b4 := set_elem new (set_previous (Some cur) e3) b3 in
  Ret (if bool_decide (Some cur = sortChainEnd_p b4) then set_end (Some new) b4 else b4).

(** The search for the insertion spot, from the end. *)
Fixpoint sort_loop (fuel : nat) (new : nat) (cur : option nat) (b : t) : outcome t :=
  match fuel with
  | 0 => Abort OutOfFuel
  | S fuel' =>
      '(_, e) ← deref (Some new) b;
      '(i, c) ← deref cur b;
      if (timestamp c <=? timestamp e)%Z then pushAfter new i b
      else
        match previous_p c with
        | None => pushFront new (Some i) b
        | Some _ => sort_loop fuel' new (previous_p c) b
        end
  end.

Definition sort (new : nat) (b : t) : outcome t :=
  match sortChainStart_p b with
  | None => b1 ← pushFront new None b; Ret (set_end (Some new) b1)
  | Some _ => sort_loop (length (timeSortedBuffer b)) new (sortChainEnd_p b) b
  end.

Definition push (x : A) (f_timestamp : Z) (b : t) : outcome (bool * t) :=
  if length (timeSortedBuffer b) <? capacity b then
    let new := length (timeSortedBuffer b) in
    b' ← sort new (mk (timeSortedBuffer b ++ [mkElem None None x f_timestamp]) (capacity b)
                      (sortChainStart_p b) (sortChainEnd_p b) (lastReportedElement_p b));
    Ret (true, b')
  else Ret (false, b).

Definition getNextElement (b : t) : outcome (option A * t) :=
  if length (timeSortedBuffer b) =? 0 then Ret (None, b)
  else
    match lastReportedElement_p b with
    | None => '(i, e) ← deref (sortChainStart_p b) b; Ret (Some (element e), set_last (Some i) b)
    | Some _ =>
        '(_, l) ← deref (lastReportedElement_p b) b;
        match next_p l with
        | None => Ret (None, b)
        | Some _ => '(i, e) ← deref (next_p l) b; Ret (Some (element e), set_last (Some i) b)
        end
    end.

Definition clear (b : t) : t := mk [] (capacity b) None None None.

(** ** Representation *)

(** The segment [ord] of the chain between [prev] and [next]. *)
Fixpoint dls (buf : list SortChainElement) (prev : option nat) (ord : list nat) (next : option nat) : Prop :=
  match ord with
  | [] => True
  | j :: ord' => exists e, buf !! j = Some e /\ previous_p e = prev /\
      next_p e = (match ord' with [] => next | k :: _ => Some k end) /\ dls buf (Some j) ord' next
  end.

Definition head_or (ord : list nat) (d : option nat) : option nat :=
  match ord with [] => d | j :: _ => Some j end.
Definition last_or (ord : list nat) (d : option nat) : option nat :=
  match last ord with None => d | Some j => Some j end.

(** What the chain holds at a vector index. *)
Definition entry (buf : list SortChainElement) (j : nat) : option (Z * A) :=
  (fun e => (timestamp e, element e)) <$> buf !! j.

(** The buffer holds [l], oldest first, and the next [i] of them have been reported. *)
Record rep (b : t) (l : list (Z * A)) (i : nat) : Prop := {
  rp_chain : exists ord, dls (timeSortedBuffer b) None ord None /\ NoDup ord /\
    length ord = length (timeSortedBuffer b) /\
    mapM (entry (timeSortedBuffer b)) ord = Some l /\
    sortChainStart_p b = head ord /\ sortChainEnd_p b = last ord /\
    lastReportedElement_p b = match i with 0 => None | S i' => ord !! i' end /\ i <= length ord;
  rp_bound : length l <= capacity b
}.

(** The specification: insertion behind everything that is not newer. *)
Fixpoint insert (x : Z * A) (l : list (Z * A)) : list (Z * A) :=
  match l with
  | [] => [x]
  | y :: l' => if (y.1 <=? x.1)%Z then y :: insert x l' else x :: l
  end.

Definition sorted (l : list (Z * A)) : Prop := StronglySorted (fun x y => (x.1 <= y.1)%Z) l.

Lemma make_buffer_rep n : rep (make n) [] 0.
Proof. split; [exists []|simpl; lia]. split_and!; try done. apply NoDup_nil_2. Qed.

Lemma clear_rep b : rep (clear b) [] 0.
Proof. split; [exists []|simpl; lia]. split_and!; try done. apply NoDup_nil_2. Qed.

(** ** The chain *)

Lemma dls_app buf ord1 : forall prev ord2 next,
  dls buf prev (ord1 ++ ord2) next <->
  dls buf prev ord1 (head_or ord2 next) /\ dls buf (last_or ord1 prev) ord2 next.
Proof.
  induction ord1 as [|j ord1 IH]; intros prev ord2 next; simpl; [naive_solver|].
  assert (Hh : match ord1 ++ ord2 with [] => next | k :: _ => Some k end =
    match ord1 with [] => head_or ord2 next | k :: _ => Some k end).
  { destruct ord1; [by destruct ord2|done]. }
  assert (Hl : last_or (j :: ord1) prev = last_or ord1 (Some j)).
  { unfold last_or. destruct ord1; [done|]. rewrite last_cons_cons. by destruct (last (n :: ord1)) eqn:E; [|apply last_None in E]. }
  rewrite Hl. setoid_rewrite IH. setoid_rewrite Hh. naive_solver.
Qed.

(** Writing outside a segment does not touch it. *)
Lemma dls_frame buf j e : forall ord prev next,
  j ∉ ord -> dls buf prev ord next -> dls (<[j := e]> buf) prev ord next.
Proof.
  induction ord as [|k ord IH]; intros prev next Hj; simpl; [done|].
  apply not_elem_of_cons in Hj as [Hne Hj]. intros (ek & Hk & Hp & Hn & Hrest).
  exists ek. split_and!; auto. by rewrite list_lookup_insert_ne by congruence.
Qed.

Lemma dls_extend buf x : forall ord prev next,
  dls buf prev ord next -> dls (buf ++ [x]) prev ord next.
Proof.
  induction ord as [|k ord IH]; intros prev next; simpl; [done|].
  intros (ek & Hk & Hp & Hn & Hrest). exists ek. split_and!; auto. by apply lookup_app_l_Some.
Qed.

Lemma dls_lookup buf : forall ord prev next j,
  dls buf prev ord next -> j ∈ ord -> is_Some (buf !! j).
Proof.
  induction ord as [|k ord IH]; intros prev next j Hd Hj; [by apply elem_of_nil in Hj|].
  destruct Hd as (e & He & _ & _ & Hd). apply elem_of_cons in Hj as [->|Hj]; eauto.
Qed.

Lemma entry_insert buf j e e' k :
  buf !! j = Some e -> timestamp e' = timestamp e -> element e' = element e ->
  entry (<[j := e']> buf) k = entry buf k.
Proof.
  intros Hj Ht He. unfold entry. destruct (decide (j = k)) as [->|Hne].
  - rewrite list_lookup_insert_eq by (by eapply lookup_lt_Some). rewrite Hj. simpl. by rewrite Ht, He.
  - by rewrite list_lookup_insert_ne.
Qed.

(** The vector after relinking: same entries, a new chain. *)
Record relinked (b b' : t) (ord : list nat) : Prop := {
  rl_chain : dls (timeSortedBuffer b') None ord None;
  rl_entry k : entry (timeSortedBuffer b') k = entry (timeSortedBuffer b) k;
  rl_length : length (timeSortedBuffer b') = length (timeSortedBuffer b);
  rl_capacity : capacity b' = capacity b;
  rl_last : lastReportedElement_p b' = lastReportedElement_p b;
  rl_start : sortChainStart_p b' = head ord;
  rl_end : sortChainEnd_p b' = last ord
}.

(** Making [n] the predecessor of the head of a segment. *)
Lemma link_previous_spec b prev ord n :
  dls (timeSortedBuffer b) prev ord None -> NoDup ord ->
  exists buf', link_previous (head ord) (Some n) b =
      Ret (mk buf' (capacity b) (sortChainStart_p b) (sortChainEnd_p b) (lastReportedElement_p b)) /\
    dls buf' (Some n) ord None /\ (forall k, entry buf' k = entry (timeSortedBuffer b) k) /\
    length buf' = length (timeSortedBuffer b) /\
    (forall k, k ∉ ord -> buf' !! k = timeSortedBuffer b !! k) /\
    (forall seg p q, (forall k, k ∈ seg -> k ∉ ord) -> dls (timeSortedBuffer b) p seg q -> dls buf' p seg q).
Proof.
  destruct b as [buf cap st en la]. simpl. intros Hd Hnd. destruct ord as [|k ord]; simpl.
  { exists buf. split_and!; try done. }
  destruct Hd as (ek & Hk & Hp & Hn & Hrest). rewrite Hk. simpl. apply NoDup_cons in Hnd as [Hnk Hnd].
  exists (<[k := set_previous (Some n) ek]> buf). split_and!; try done.
  - exists (set_previous (Some n) ek). rewrite list_lookup_insert_eq by (by eapply lookup_lt_Some).
    split_and!; try done. by apply dls_frame.
  - intros j. by eapply entry_insert.
  - by rewrite length_insert.
  - intros j Hj. apply not_elem_of_cons in Hj as [? _]. by rewrite list_lookup_insert_ne.
  - intros seg p q Hseg. apply dls_frame. intros Hin. apply (Hseg k Hin). by left.
Qed.

Lemma pushFront_spec b ord n :
  dls (timeSortedBuffer b) None ord None -> NoDup (n :: ord) -> is_Some (timeSortedBuffer b !! n) ->
  (ord <> [] -> sortChainEnd_p b = last ord) ->
  exists b', pushFront n (head ord) b = Ret b' /\
    relinked b (set_end (last (n :: ord)) b') (n :: ord) /\
    (ord <> [] -> sortChainEnd_p b' = last (n :: ord)).
Proof.
  intros Hd [Hn Hnd]%NoDup_cons [e He] Hend. unfold pushFront. simpl. rewrite He. simpl.
  set (e1 := mkElem None (head ord) (element e) (timestamp e)). set (b1 := set_elem n e1 b).
  destruct (link_previous_spec b1 None ord n) as (buf' & -> & Hd' & Hent & Hlen & Hother & _).
  { simpl. by apply dls_frame. } { done. }
  simpl. eexists. split; [done|]. split.
  - split; simpl; [|intros k; rewrite Hent; simpl; by eapply entry_insert|by rewrite Hlen; simpl; rewrite length_insert|done..].
    + exists e1. rewrite Hother by done. simpl. rewrite list_lookup_insert_eq by (by eapply lookup_lt_Some).
      split_and!; try done.
  - intros Hne. simpl. rewrite Hend by done. destruct ord; [done|]. by rewrite last_cons_cons.
Qed.

Lemma pushAfter_spec b ord1 c ord2 n :
  dls (timeSortedBuffer b) None (ord1 ++ c :: ord2) None -> NoDup (n :: ord1 ++ c :: ord2) ->
  is_Some (timeSortedBuffer b !! n) -> sortChainStart_p b = head (ord1 ++ c :: ord2) ->
  sortChainEnd_p b = last (ord1 ++ c :: ord2) ->
  exists b', pushAfter n c b = Ret b' /\ relinked b b' (ord1 ++ c :: n :: ord2).
Proof.
  intros Hd Hnd [e He] Hst Hend. apply NoDup_cons in Hnd as [Hn Hnd].
  apply NoDup_app in Hnd as (Hnd1 & Hdisj & [Hc Hnd2]%NoDup_cons).
  apply dls_app in Hd as [Hd1 (ec & Hec & Hcp & Hcn & Hd2)].
  assert (Hnc : n <> c) by set_solver. assert (Hn1 : n ∉ ord1) by set_solver. assert (Hn2 : n ∉ ord2) by set_solver.
  assert (Hc1 : c ∉ ord1) by (intros Hin; apply (Hdisj c Hin); by left).
  unfold pushAfter. simpl. rewrite Hec. simpl. rewrite He. simpl.
  set (e1 := set_next (next_p ec) e). set (b1 := set_elem n e1 b).
  replace (next_p ec) with (head ord2) by (rewrite Hcn; by destruct ord2).
  destruct (link_previous_spec b1 (Some c) ord2 n) as (buf2 & -> & Hd2' & Hent & Hlen & Hother & Hseg).
  { simpl. by apply dls_frame. } { done. }
  simpl in Hent, Hlen, Hother, Hseg. simpl. rewrite Hother by done. rewrite list_lookup_insert_ne by done.
  rewrite Hec. simpl. set (c3 := set_next (Some n) ec).
  rewrite list_lookup_insert_ne by done. rewrite Hother by done.
  rewrite list_lookup_insert_eq by (by eapply lookup_lt_Some). simpl.
  set (buf4 := <[n := set_previous (Some c) e1]> (<[c := c3]> buf2)).
  assert (Hbc : buf2 !! c = Some ec) by (by rewrite Hother, list_lookup_insert_ne by done).
  assert (Hbn : buf2 !! n = Some e1) by (rewrite Hother by done; apply list_lookup_insert_eq; by eapply lookup_lt_Some).
  assert (Hchain : dls buf4 None (ord1 ++ c :: n :: ord2) None).
  { apply dls_app. split.
    - apply dls_frame; [done|]. apply dls_frame; [done|]. apply Hseg; [|by apply dls_frame].
      intros k Hk Hk2. apply (Hdisj k Hk). by right.
    - exists c3. unfold buf4. rewrite list_lookup_insert_ne by done.
      rewrite list_lookup_insert_eq by (by eapply lookup_lt_Some). split_and!; try done.
      exists (set_previous (Some c) e1).
      rewrite list_lookup_insert_eq by (rewrite length_insert; by eapply lookup_lt_Some). split_and!; try done.
      by apply dls_frame, dls_frame. }
  assert (Hentry : forall k, entry buf4 k = entry (timeSortedBuffer b) k).
  { intros k. unfold buf4. rewrite (entry_insert _ n e1) by (try done; by rewrite list_lookup_insert_ne by done).
    rewrite (entry_insert _ c ec) by done. rewrite Hent. by eapply entry_insert. }
  assert (Hlen4 : length buf4 = length (timeSortedBuffer b)).
  { unfold buf4. by rewrite !length_insert, Hlen, length_insert. }
  assert (Hl : last (ord1 ++ c :: n :: ord2) = if bool_decide (Some c = sortChainEnd_p b) then Some n else sortChainEnd_p b).
  { rewrite Hend, !last_app_cons. destruct ord2 as [|k ord2]; simpl; [by rewrite bool_decide_eq_true_2|].
    rewrite bool_decide_eq_false_2; [done|]. intros E. symmetry in E. apply last_Some_elem_of in E. by apply Hc. }
  eexists. split; [done|]. case_bool_decide; (split; simpl; try done); by destruct ord1.
Qed.

(** ** The search for the insertion spot *)

Definition newer (b : t) (z : Z) (ord : list nat) : Prop :=
  Forall (fun k => exists e, timeSortedBuffer b !! k = Some e /\ (z < timestamp e)%Z) ord.
Definition ends_not_newer (b : t) (z : Z) (ord : list nat) : Prop :=
  ord = [] \/ exists c e, last ord = Some c /\ timeSortedBuffer b !! c = Some e /\ (timestamp e <= z)%Z.

Lemma sort_loop_spec b n e : timeSortedBuffer b !! n = Some e ->
  forall fuel ord1 ord2,
  dls (timeSortedBuffer b) None (ord1 ++ ord2) None -> NoDup (n :: ord1 ++ ord2) ->
  sortChainStart_p b = head (ord1 ++ ord2) -> sortChainEnd_p b = last (ord1 ++ ord2) ->
  ord1 <> [] -> length ord1 <= fuel -> newer b (timestamp e) ord2 ->
  exists o1 o2 b', sort_loop fuel n (last ord1) b = Ret b' /\ ord1 ++ ord2 = o1 ++ o2 /\
    relinked b b' (o1 ++ n :: o2) /\ newer b (timestamp e) o2 /\ ends_not_newer b (timestamp e) o1.
Proof.
  intros He. induction fuel as [|fuel IH]; intros ord1 ord2 Hd Hnd Hst Hend Hne Hf Hnew.
  { by destruct ord1; simpl in Hf; [|lia]. }
  destruct (exists_last Hne) as (ord1' & c & ->). rewrite length_app in Hf. simpl in Hf.
  rewrite <- app_assoc in Hd, Hnd, Hst, Hend |- *. simpl in Hd, Hnd, Hst, Hend |- *.
  pose proof Hd as Hd'. apply dls_app in Hd' as [_ (ec & Hc & Hp & Hn & _)].
  cbn [sort_loop]. rewrite last_snoc. simpl. rewrite He. simpl. rewrite Hc. simpl.
  destruct (Z.leb_spec (timestamp ec) (timestamp e)) as [Hle|Hlt].
  { destruct (pushAfter_spec b ord1' c ord2 n) as (b' & -> & Hr); try done.
    exists (ord1' ++ [c]), ord2, b'. rewrite <- !app_assoc. split_and!; try done.
    right. exists c, ec. by rewrite last_snoc. }
  assert (Hnew' : newer b (timestamp e) (c :: ord2)) by (constructor; eauto).
  unfold last_or in Hp. destruct (last ord1') as [c'|] eqn:El; rewrite Hp; last first.
  { apply last_None in El as ->. simpl in *.
    destruct (pushFront_spec b (c :: ord2) n) as (b' & Heq & Hr & Hse); try done.
    simpl in Heq. rewrite Heq. exists [], (c :: ord2), b'. split_and!; try done; [|by left].
    destruct Hr. split; try done. by apply Hse. }
  rewrite <- El. apply IH; try done; [by intros ->|lia].
Qed.

(** The chain as a list, behind the insertion spot. *)
Lemma insert_split (x : Z * A) : forall l1 l2,
  sorted (l1 ++ l2) -> Forall (fun y => x.1 < y.1)%Z l2 ->
  (l1 = [] \/ exists y, last l1 = Some y /\ (y.1 <= x.1)%Z) ->
  insert x (l1 ++ l2) = l1 ++ x :: l2.
Proof.
  induction l1 as [|y l1 IH]; intros l2 Hs Hnew Hlast; simpl.
  - destruct l2 as [|y l2]; [done|]. simpl. apply Forall_cons in Hnew as [Hy _].
    by rewrite (proj2 (Z.leb_gt _ _)) by done.
  - destruct Hlast as [|(yl & Hl & Hle)]; [done|]. apply StronglySorted_inv in Hs as [Hs Hall].
    assert (Hyl : (y.1 <= x.1)%Z).
    { destruct l1 as [|y' l1]; [by simplify_eq/=|]. rewrite last_cons_cons in Hl.
      apply (Forall_app _ (y' :: l1) l2) in Hall as [Hall _]. rewrite Forall_forall in Hall.
      apply last_Some_elem_of, Hall in Hl. lia. }
    rewrite (proj2 (Z.leb_le _ _)) by done. f_equal. apply IH; try done.
    destruct l1 as [|y' l1]; [by left|]. right. exists yl. by rewrite last_cons_cons in Hl.
Qed.

Lemma insert_perm (x : Z * A) l : insert x l ≡ₚ x :: l.
Proof.
  induction l as [|y l IH]; simpl; [done|]. case_match; [|done]. rewrite IH. by constructor.
Qed.

Lemma insert_sorted (x : Z * A) l : sorted l -> sorted (insert x l).
Proof.
  induction 1 as [|y l Hs IH Hall]; simpl; [by repeat constructor|].
  destruct (Z.leb_spec y.1 x.1) as [Hle|Hlt].
  - constructor; [done|]. rewrite insert_perm. by constructor.
  - constructor; [by constructor|]. constructor; [lia|]. eapply Forall_impl; [done|]. simpl. intros. lia.
Qed.

(** ** The operations refine the list and the number of reported elements *)

Fixpoint insert_pos (x : Z * A) (l : list (Z * A)) : nat :=
  match l with [] => 0 | y :: l' => if (y.1 <=? x.1)%Z then S (insert_pos x l') else 0 end.

(** An element put before a reported one will not be reported. *)
Definition shift_reported (x : Z * A) (l : list (Z * A)) (i : nat) : nat :=
  if i <=? insert_pos x l then i else S i.

Lemma insert_pos_split (x : Z * A) l1 l2 : insert x (l1 ++ l2) = l1 ++ x :: l2 ->
  Forall (fun y => x.1 < y.1)%Z l2 -> insert_pos x (l1 ++ l2) = length l1.
Proof.
  intros Hi Hnew. induction l1 as [|y l1 IH]; simpl in *.
  - destruct l2 as [|y l2]; [done|]. apply Forall_cons in Hnew as [Hy _]. simpl.
    by rewrite (proj2 (Z.leb_gt _ _)) by done.
  - destruct (Z.leb_spec y.1 x.1); [|injection Hi as <- _; lia]. f_equal. apply IH. by injection Hi.
Qed.

Lemma lookup_shift (o1 o2 : list nat) n i : i <= length (o1 ++ o2) ->
  match i with 0 => None | S i' => (o1 ++ o2) !! i' end =
  match (if i <=? length o1 then i else S i) with 0 => None | S i' => (o1 ++ n :: o2) !! i' end.
Proof.
  intros Hi. destruct (Nat.leb_spec i (length o1)) as [H|H].
  - destruct i as [|i]; [done|]. by rewrite !lookup_app_l by lia.
  - destruct i as [|i]; [lia|]. rewrite !lookup_app_r by lia.
    by replace (S i - length o1) with (S (i - length o1)) by lia.
Qed.

Lemma entries_newer b l ord z :
  Forall2 (fun k y => entry (timeSortedBuffer b) k = Some y) ord l -> newer b z ord -> Forall (fun y => z < y.1)%Z l.
Proof.
  induction 1 as [|k y ord l Hk Hf IH]; intros Hn; constructor; apply Forall_cons in Hn as [(e & He & Hz) Hn]; auto.
  unfold entry in Hk. rewrite He in Hk. by injection Hk as <-.
Qed.

Lemma entries_end b l ord z :
  Forall2 (fun k y => entry (timeSortedBuffer b) k = Some y) ord l -> ends_not_newer b z ord ->
  l = [] \/ exists y, last l = Some y /\ (y.1 <= z)%Z.
Proof.
  intros Hf [->|(c & e & Hl & He & Hz)]; [left; by apply Forall2_nil_inv_l in Hf|right].
  apply last_Some in Hl as [ord' ->]. apply Forall2_app_inv_l in Hf as (l1 & l2 & _ & Hf & ->).
  apply Forall2_cons_inv_l in Hf as (y & l3 & Hy & ->%Forall2_nil_inv_l & ->).
  exists y. rewrite last_snoc. split; [done|]. unfold entry in Hy. rewrite He in Hy. by injection Hy as <-.
Qed.

Lemma sort_spec b ord l n e :
  timeSortedBuffer b !! n = Some e -> NoDup (n :: ord) -> dls (timeSortedBuffer b) None ord None ->
  length ord <= length (timeSortedBuffer b) ->
  sortChainStart_p b = head ord -> sortChainEnd_p b = last ord ->
  Forall2 (fun k y => entry (timeSortedBuffer b) k = Some y) ord l -> sorted l ->
  exists b' o1 o2 l1 l2, sort n b = Ret b' /\ ord = o1 ++ o2 /\ l = l1 ++ l2 /\ length l1 = length o1 /\
    relinked b b' (o1 ++ n :: o2) /\
    insert (timestamp e, element e) l = l1 ++ (timestamp e, element e) :: l2 /\
    insert_pos (timestamp e, element e) l = length o1.
Proof.
  intros He Hnd Hd Hlen Hst Hend Hf Hs. unfold sort. rewrite Hst. destruct ord as [|k ord].
  { apply Forall2_nil_inv_l in Hf as ->. simpl.
    destruct (pushFront_spec b [] n) as (b' & Heq & Hr & _); try done.
    cbn [head] in Heq. rewrite Heq. simpl. exists (set_end (Some n) b'), [], [], [], []. by split_and!. }
  rewrite Hend. cbn [head].
  destruct (sort_loop_spec b n e He (length (timeSortedBuffer b)) (k :: ord) [])
    as (o1 & o2 & b' & Heq & Ho & Hr & Hnew & Hle); rewrite ?app_nil_r; try done; [constructor|].
  rewrite Heq. rewrite app_nil_r in Ho. rewrite Ho in Hf.
  apply Forall2_app_inv_l in Hf as (l1 & l2 & Hf1 & Hf2 & ->).
  pose proof (entries_newer _ _ _ _ Hf2 Hnew) as Hn. pose proof (entries_end _ _ _ _ Hf1 Hle) as Hl.
  assert (Hi : insert (timestamp e, element e) (l1 ++ l2) = l1 ++ (timestamp e, element e) :: l2)
    by (by apply insert_split).
  exists b', o1, o2, l1, l2. split_and!; try done; [by symmetry; eapply Forall2_length|].
  rewrite insert_pos_split by done. by symmetry; eapply Forall2_length.
Qed.

Lemma buffer_push_spec b l i x z : rep b l i -> sorted l ->
  exists b', push x z b = Ret (bool_decide (length l < capacity b), b') /\ capacity b' = capacity b /\
    if bool_decide (length l < capacity b)
    then rep b' (insert (z, x) l) (shift_reported (z, x) l i) else b' = b.
Proof.
  intros [(ord & Hd & Hnd & Hlen & Hm & Hst & Hend & Hlast & Hi) Hb] Hs.
  apply mapM_Some in Hm. pose proof (Forall2_length _ _ _ Hm) as Hl. unfold push.
  replace (length (timeSortedBuffer b) <? capacity b) with (bool_decide (length l < capacity b))
    by (rewrite <- Hl, Hlen; case_bool_decide; [by rewrite (proj2 (Nat.ltb_lt _ _))|by rewrite (proj2 (Nat.ltb_ge _ _)) by lia]).
  case_bool_decide as Hcap; [|by exists b].
  set (n := length (timeSortedBuffer b)). set (b0 := mk _ _ _ _ _).
  assert (Hn : n ∉ ord). { intros Hin. destruct (dls_lookup _ _ _ _ _ Hd Hin) as [? E%lookup_lt_Some]. lia. }
  destruct (sort_spec b0 ord l n (mkElem None None x z)) as (b' & o1 & o2 & l1 & l2 & -> & -> & -> & Hll & Hr & Hins & Hpos);
    try done.
  { simpl. apply list_lookup_middle. done. } { by apply NoDup_cons. } { by apply dls_extend. }
  { simpl. rewrite length_app. simpl. lia. }
  { eapply Forall2_impl; [done|]. simpl. intros k y. unfold entry. intros E.
    destruct (timeSortedBuffer b !! k) eqn:Ek; [|done]. by rewrite (lookup_app_l_Some _ _ _ _ Ek). }
  simpl in Hins, Hpos. exists b'. destruct Hr as [Hc He Hle Hca Hla Hs0 He0]. simpl in *. split_and!; try done. split.
  2:{ rewrite insert_perm. simpl. lia. }
  exists (o1 ++ n :: o2). split_and!; try done.
  - rewrite <- (Permutation_middle o1 o2 n). by apply NoDup_cons.
  - rewrite Hle. revert Hlen. rewrite !length_app. simpl. lia.
  - apply mapM_Some. rewrite Hins. apply Forall2_app_inv_r in Hm as (o1' & o2' & Hm1 & Hm2 & Heq).
    apply app_inj_1 in Heq as [<- <-]; [|apply Forall2_length in Hm1; lia].
    assert (Hx : forall k y, entry (timeSortedBuffer b) k = Some y -> entry (timeSortedBuffer b') k = Some y).
    { intros k y. rewrite He. unfold entry. intros E.
      destruct (timeSortedBuffer b !! k) eqn:Ek; [|done]. by rewrite (lookup_app_l_Some _ _ _ _ Ek). }
    apply Forall2_app; [|constructor]; [by eapply Forall2_impl| |by eapply Forall2_impl].
    rewrite He. unfold entry. by rewrite list_lookup_middle.
  - rewrite Hla, Hlast. unfold shift_reported. rewrite Hpos. by apply lookup_shift.
  - unfold shift_reported. rewrite Hpos. revert Hi. rewrite !length_app. simpl. destruct (Nat.leb_spec i (length o1)); intros; lia.
Qed.

Lemma getNextElement_spec b l i : rep b l i ->
  exists b', getNextElement b = Ret (snd <$> l !! i, b') /\ capacity b' = capacity b /\
    rep b' l (if bool_decide (i < length l) then S i else i).
Proof.
  intros [(ord & Hd & Hnd & Hlen & Hm & Hst & Hend & Hlast & Hi) Hb].
  apply mapM_Some in Hm. pose proof (Forall2_length _ _ _ Hm) as Hl. unfold getNextElement.
  assert (Hget : forall k, ord !! i = Some k -> exists e, timeSortedBuffer b !! k = Some e /\
    snd <$> l !! i = Some (element e) /\ rep (set_last (Some k) b) l (S i)).
  { intros k Hk. destruct (Forall2_lookup_l _ _ _ _ _ Hm Hk) as (y & Hy & He). rewrite Hy. unfold entry in He.
    destruct (timeSortedBuffer b !! k) as [e|] eqn:Ee; [|done]. injection He as <-. exists e. split_and!; try done.
    split; [|done]. exists ord. split_and!; try done; [by apply mapM_Some|by apply lookup_lt_Some in Hk]. }
  assert (Hno : length ord <= i -> snd <$> l !! i = None) by (intros; rewrite lookup_ge_None_2 by lia; done).
  assert (Hrep : rep b l i) by (split; [exists ord; split_and!; try done; by apply mapM_Some|done]).
  destruct (decide (i < length l)) as [Hlt|Hge].
  - rewrite bool_decide_eq_true_2 by done. rewrite (proj2 (Nat.eqb_neq _ _)) by lia.
    destruct (lookup_lt_is_Some_2 ord i ltac:(lia)) as [k Hk]. destruct (Hget k Hk) as (e & He & -> & Hr).
    exists (set_last (Some k) b). rewrite Hlast. destruct i as [|i].
    + rewrite Hst. destruct ord; [done|]. injection Hk as ->. simpl. by rewrite He.
    + destruct (lookup_lt_is_Some_2 ord i ltac:(lia)) as [p Hp]. rewrite Hp.
      pose proof (take_drop_middle _ _ _ Hp) as Hsplit. rewrite <- Hsplit in Hd.
      apply dls_app in Hd as [_ (ep & Hep & _ & Hnx & _)]. simpl. rewrite Hep. simpl. rewrite Hnx.
      assert (Hd : drop (S i) ord = k :: drop (S (S i)) ord) by (by apply drop_S). rewrite Hd.
      simpl. by rewrite He.
  - rewrite bool_decide_eq_false_2 by done. exists b. rewrite Hno by lia.
    destruct (Nat.eqb_spec (length (timeSortedBuffer b)) 0) as [E|E]; [done|].
    assert (Hil : i = length ord) by lia. rewrite Hlast. destruct i as [|i]; [lia|].
    destruct (lookup_lt_is_Some_2 ord i ltac:(lia)) as [p Hp]. rewrite Hp.
    pose proof (take_drop_middle _ _ _ Hp) as Hsplit. rewrite <- Hsplit in Hd.
    apply dls_app in Hd as [_ (ep & Hep & _ & Hnx & _)]. simpl. rewrite Hep. simpl. rewrite Hnx.
    by rewrite drop_ge by lia.
Qed.

Lemma rep_length b l i : rep b l i -> length (timeSortedBuffer b) = length l.
Proof.
  intros [(ord & _ & _ & Hlen & Hm & _) _]. apply mapM_Some, Forall2_length in Hm. congruence.
Qed.

Lemma rep_stored b l i z x : rep b l i -> (z, x) ∈ l -> exists e, e ∈ timeSortedBuffer b /\ timestamp e = z.
Proof.
  intros [(ord & _ & _ & _ & Hm & _) _] Hin. apply mapM_Some in Hm. apply list_elem_of_lookup in Hin as [k Hk].
  destruct (Forall2_lookup_r _ _ _ _ _ Hm Hk) as (j & _ & He). unfold entry in He.
  destruct (timeSortedBuffer b !! j) as [e|] eqn:Ej; [|done]. injection He as Ez _.
  exists e. split; [by eapply list_elem_of_lookup_2|done].
Qed.

(** Nothing is newer: the element goes to the end. *)
Lemma insert_last (x : Z * A) l : Forall (fun y => y.1 <= x.1)%Z l -> insert x l = l ++ [x].
Proof.
  induction 1 as [|y l Hy Hl IH]; simpl; [done|]. rewrite (proj2 (Z.leb_le _ _)) by done. by rewrite IH.
Qed.

(** ** Sequences of operations *)

Inductive op := Push (x : A) (z : Z) | Next | Clear.
Inductive answer := Pushed (ok : bool) | Element (x : option A) | Cleared.

Definition exec (o : op) (b : t) : outcome (answer * t) :=
  match o with
  | Push x z => '(ok, b') ← push x z b; Ret (Pushed ok, b')
  | Next => '(x, b') ← getNextElement b; Ret (Element x, b')
  | Clear => Ret (Cleared, clear b)
  end.

Fixpoint exec_all (os : list op) (b : t) : outcome (list answer * t) :=
  match os with
  | [] => Ret ([], b)
  | o :: os' => '(a, b1) ← exec o b; '(r, b2) ← exec_all os' b1; Ret (a :: r, b2)
  end.

(** The specification keeps the entries in order and the number of reported ones. *)
Definition spec_exec (cap : nat) (o : op) (s : list (Z * A) * nat) : answer * (list (Z * A) * nat) :=
  let '(l, i) := s in
  match o with
  | Push x z =>
      if bool_decide (length l < cap)
      then (Pushed true, (insert (z, x) l, shift_reported (z, x) l i)) else (Pushed false, s)
  | Next => (Element (snd <$> l !! i), (l, if bool_decide (i < length l) then S i else i))
  | Clear => (Cleared, ([], 0))
  end.

Fixpoint spec_exec_all (cap : nat) (os : list op) (s : list (Z * A) * nat) : list answer * (list (Z * A) * nat) :=
  match os with
  | [] => ([], s)
  | o :: os' => let '(a, s1) := spec_exec cap o s in let '(r, s2) := spec_exec_all cap os' s1 in (a :: r, s2)
  end.

Lemma exec_spec o b l i : rep b l i -> sorted l ->
  exists b' l' i', exec o b = Ret ((spec_exec (capacity b) o (l, i)).1, b') /\
    (spec_exec (capacity b) o (l, i)).2 = (l', i') /\ rep b' l' i' /\ sorted l' /\ capacity b' = capacity b.
Proof.
  intros Hr Hs. destruct o as [x z| |]; simpl.
  - destruct (buffer_push_spec b l i x z Hr Hs) as (b' & -> & Hc & Hp). case_bool_decide; subst; simpl.
    + eexists b', _, _. split_and!; try done. by apply insert_sorted.
    + by eexists b, _, _.
  - destruct (getNextElement_spec b l i Hr) as (b' & -> & Hc & Hp). simpl. by eexists b', _, _.
  - eexists (clear b), [], 0. split_and!; try done; [apply clear_rep|constructor].
Qed.

Lemma exec_all_spec : forall os b l i, rep b l i -> sorted l ->
  exists b', exec_all os b = Ret ((spec_exec_all (capacity b) os (l, i)).1, b').
Proof.
  induction os as [|o os IH]; intros b l i Hr Hs; cbn [exec_all spec_exec_all]; [eauto|].
  destruct (exec_spec o b l i Hr Hs) as (b1 & l1 & i1 & -> & E & Hr1 & Hs1 & Hc).
  destruct (spec_exec _ o (l, i)) as [a s1]. simpl in *. subst s1.
  destruct (IH b1 l1 i1 Hr1 Hs1) as (b2 & E2). rewrite Hc in E2. simpl. rewrite E2. exists b2. simpl.
  by destruct (spec_exec_all _ _ _).
Qed.

(** C12: any sequence of [push], [getNextElement] and [clear] on a fresh buffer
    of any size runs without a null or dangling pointer, with a terminating
    search for the insertion spot, and answers like the ordered list: [push]
    fails exactly when the buffer is full, an element goes behind all that are
    not newer, and [getNextElement] walks through the list. *)
Theorem time_sorting_buffer_refines_list (n : nat) (os : list op) :
  exists b', exec_all os (make n) = Ret ((spec_exec_all n os ([], 0)).1, b').
Proof. apply (exec_all_spec os (make n) [] 0); [apply make_buffer_rep|constructor]. Qed.

(** *** Stability *)

Fixpoint insert_all (xs : list (Z * A)) (l : list (Z * A)) : list (Z * A) :=
  match xs with [] => l | x :: xs' => insert_all xs' (insert x l) end.

Lemma insert_same (x : Z * A) (z : Z) l : sorted l ->
  filter (fun y => y.1 = z) (insert x l) =
  filter (fun y => y.1 = z) l ++ (if bool_decide (x.1 = z) then [x] else []).
Proof.
  induction 1 as [|y l Hs IH Hall]; simpl.
  { rewrite filter_cons, filter_nil. case_bool_decide; by case_decide. }
  destruct (Z.leb_spec y.1 x.1) as [Hle|Hlt].
  - rewrite !filter_cons. rewrite IH. by destruct (decide (y.1 = z)).
  - rewrite filter_cons. case_bool_decide; case_decide; try done; [|by rewrite app_nil_r].
    rewrite filter_cons_False by lia.
    assert (Hnil : filter (fun y => y.1 = z) l = []); [|by rewrite Hnil].
    assert (Hf : Forall (fun w => w.1 <> z) l) by (eapply Forall_impl; [exact Hall|simpl; intros; lia]).
    clear -Hf. induction Hf; [done|]. by rewrite filter_cons_False.
Qed.

Lemma insert_all_sorts xs : forall l, sorted l ->
  sorted (insert_all xs l) /\ insert_all xs l ≡ₚ l ++ xs /\
  forall z, filter (fun y => y.1 = z) (insert_all xs l) = filter (fun y => y.1 = z) (l ++ xs).
Proof.
  induction xs as [|x xs IH]; intros l Hs; simpl; [by rewrite app_nil_r|].
  destruct (IH (insert x l) (insert_sorted _ _ Hs)) as (Hs' & Hp & Hf). split_and!; [done| |].
  - rewrite Hp, insert_perm. by rewrite <- Permutation_middle.
  - intros z. rewrite Hf, !filter_app, insert_same by done. rewrite filter_cons, <- app_assoc. f_equal.
    case_bool_decide; by case_decide.
Qed.

Definition push_all (xs : list (Z * A)) : list op := (fun x => Push x.2 x.1) <$> xs.

Lemma push_all_spec xs : forall b l, rep b l 0 -> sorted l -> length l + length xs <= capacity b ->
  exists b', exec_all (push_all xs) b = Ret (replicate (length xs) (Pushed true), b') /\
    rep b' (insert_all xs l) 0.
Proof.
  induction xs as [|[z x] xs IH]; intros b l Hr Hs Hc; [simpl; eauto|]. simpl in Hc.
  change (push_all ((z, x) :: xs)) with (Push x z :: push_all xs). cbn [exec_all exec].
  destruct (buffer_push_spec b l 0 x z Hr Hs) as (b1 & -> & Hcap & Hp). rewrite bool_decide_eq_true_2 in * by lia.
  destruct (IH b1 (insert (z, x) l)) as (b2 & Heq & Hr2); [done|by apply insert_sorted| |].
  { rewrite insert_perm, Hcap. simpl. lia. }
  exists b2. cbn [mbind outcome_bind]. by rewrite Heq.
Qed.

Lemma drain_spec : forall k b l i, rep b l i -> i + k = length l ->
  exists b', exec_all (replicate k Next) b = Ret ((fun x => Element (Some x.2)) <$> drop i l, b') /\ rep b' l (length l).
Proof.
  induction k as [|k IH]; intros b l i Hr Hk; simpl.
  { rewrite drop_ge by lia. exists b. by replace i with (length l) in Hr by lia. }
  destruct (getNextElement_spec b l i Hr) as (b1 & -> & _ & Hr1). rewrite bool_decide_eq_true_2 in Hr1 by lia.
  destruct (lookup_lt_is_Some_2 l i ltac:(lia)) as [y Hy]. rewrite Hy, (drop_S _ _ _ Hy). simpl.
  destruct (IH b1 l (S i) Hr1 ltac:(lia)) as (b2 & -> & Hr2). simpl. eauto.
Qed.

Lemma exec_all_app os1 os2 b r1 b1 r2 b2 :
  exec_all os1 b = Ret (r1, b1) -> exec_all os2 b1 = Ret (r2, b2) ->
  exec_all (os1 ++ os2) b = Ret (r1 ++ r2, b2).
Proof.
  revert b r1. induction os1 as [|o os1 IH]; intros b r1 H1 H2; simpl in *; [by injection H1 as <- <-|].
  destruct (exec o b) as [[a b']|]; [|done]. simpl in *.
  destruct (exec_all os1 b') as [[r b'']|] eqn:E; [|done]. simpl in H1. injection H1 as <- <-.
  by rewrite (IH b' r E H2).
Qed.

(** Elements pushed into an empty buffer that is large enough are all
    accepted and then reported exactly once each, oldest timestamp first, those
    with equal timestamps in the order in which they were pushed; then the end is
    reported. *)
Theorem buffer_sorts_stably (n : nat) (xs : list (Z * A)) : length xs <= n ->
  exists l b', sorted l /\ l ≡ₚ xs /\
    (forall z, filter (fun y => y.1 = z) l = filter (fun y => y.1 = z) xs) /\
    exec_all (push_all xs ++ replicate (length xs) Next ++ [Next]) (make n) =
      Ret (replicate (length xs) (Pushed true) ++ ((fun x => Element (Some x.2)) <$> l) ++ [Element None], b').
Proof.
  intros Hn. destruct (insert_all_sorts xs []) as (Hs & Hp & Hf); [constructor|].
  destruct (push_all_spec xs (make n) []) as (b1 & H1 & Hr1); [apply make_buffer_rep|constructor|done|].
  assert (Hl : 0 + length xs = length (insert_all xs [])) by (by rewrite Hp).
  destruct (drain_spec (length xs) b1 (insert_all xs []) 0 Hr1 Hl) as (b2 & H2 & Hr2).
  destruct (getNextElement_spec _ _ _ Hr2) as (b3 & H3 & _). rewrite lookup_ge_None_2 in H3 by lia.
  exists (insert_all xs []), b3. split_and!; try done.
  eapply exec_all_app; [exact H1|]. eapply exec_all_app; [exact H2|]. simpl. by rewrite H3.
Qed.

End Buffer.
Arguments t : clear implicits.
Arguments SortChainElement : clear implicits.

Lemma buffer_sorts_stably_witness :
  length [(7%Z, true); (3%Z, false); (7%Z, false)] <= 3 /\
  exists l b', sorted l /\ l ≡ₚ [(7%Z, true); (3%Z, false); (7%Z, false)] /\
    (forall z, filter (fun y => y.1 = z) l = filter (fun y => y.1 = z) [(7%Z, true); (3%Z, false); (7%Z, false)]) /\
    exec_all (push_all [(7%Z, true); (3%Z, false); (7%Z, false)] ++ replicate 3 Next ++ [Next]) (make 3) =
      Ret (replicate 3 (Pushed true) ++ ((fun x => Element (Some x.2)) <$> l) ++ [Element None], b').
Proof. split; [simpl; lia|]. apply (buffer_sorts_stably 3). simpl. lia. Defined.

Example sorted_example :
  fst <$> (match exec_all (push_all [(7%Z, 1); (3%Z, 2); (7%Z, 3)] ++ [Next; Next; Next; Push 4 9%Z]) (make 3) with
   | Ret r => Some r | Abort _ => None end) =
  Some [Pushed true; Pushed true; Pushed true; Element (Some 2); Element (Some 1); Element (Some 3); Pushed false].
Proof. vm_compute. reflexivity. Qed.

End TimeSortingBuffer.
