(* ===== verification/Timers.v ===== *)
(** * Time conversion, the cycle timer and its validator

    alive_monitor/details/timers: [TimeConversion], [CycleTimer] and
    [CycleTimeValidator].  A [std::chrono] duration is a [Z] in the range of a
    signed 64-bit integer, a [timespec] its two fields. *)

From stdpp Require Import prelude.
From S2P Require Import Prelude.

Record timespec := mkTimespec { tv_sec : Z; tv_nsec : Z }.

Definition NANOS_PER_SEC : Z := 1000000000.
Definition NANOS_PER_MILLI : Z := 1000000.

Module TimeConversion.
Local Open Scope Z_scope.

(** [duration_cast] to a coarser unit truncates towards zero. *)
Definition max_seconds : Z := Z.quot INT64_MAX NANOS_PER_SEC.

Definition convertToNanoSec (f_timespec : timespec) : Z :=
  if (max_seconds <? tv_sec f_timespec) || (tv_sec f_timespec <? 0) then 0
  else if (INT64_MAX <? tv_nsec f_timespec) || (tv_nsec f_timespec <? 0) then 0
  else if INT64_MAX - tv_sec f_timespec * NANOS_PER_SEC <? tv_nsec f_timespec then 0
  else tv_sec f_timespec * NANOS_PER_SEC + tv_nsec f_timespec.

Definition convertMilliSecToNanoSec (f_timeValueMilliSec : Z) : Z :=
  if f_timeValueMilliSec <? 0 then 0
  else if Z.quot INT64_MAX NANOS_PER_MILLI <? f_timeValueMilliSec then INT64_MAX
  else f_timeValueMilliSec * NANOS_PER_MILLI.

Definition convertNanoSecToMilliSec (f_timeValueNanoSec : Z) : Z :=
  Z.quot f_timeValueNanoSec NANOS_PER_MILLI.

(** A timespec of the operating system. *)
Definition representable (ts : timespec) : Prop :=
  0 <= tv_sec ts /\ 0 <= tv_nsec ts /\ tv_sec ts * NANOS_PER_SEC + tv_nsec ts <= INT64_MAX.

#[export] Instance representable_dec ts : Decision (representable ts).
Proof. unfold representable. apply _. Defined.

Lemma convertToNanoSec_spec ts :
  convertToNanoSec ts =
  if decide (representable ts) then tv_sec ts * NANOS_PER_SEC + tv_nsec ts else 0.
Proof.
  unfold convertToNanoSec. assert (Hm : max_seconds = 9223372036) by reflexivity.
  assert (Hmax : INT64_MAX = 9223372036854775807) by reflexivity.
  case_decide as Hd; unfold representable, NANOS_PER_SEC in *; rewrite Hmax in *; rewrite Hm;
    destruct (Z.ltb_spec 9223372036 (tv_sec ts)), (Z.ltb_spec (tv_sec ts) 0); simpl; try lia;
    destruct (Z.ltb_spec 9223372036854775807 (tv_nsec ts)), (Z.ltb_spec (tv_nsec ts) 0); simpl; try lia;
    destruct (Z.ltb_spec (9223372036854775807 - tv_sec ts * 1000000000) (tv_nsec ts)); lia.
Qed.

Lemma convertToNanoSec_range ts : 0 <= convertToNanoSec ts <= INT64_MAX.
Proof.
  rewrite convertToNanoSec_spec. case_decide as Hd; [unfold representable, NANOS_PER_SEC in *; lia|by compute].
Qed.

Lemma convertMilliSecToNanoSec_range ms : 0 <= convertMilliSecToNanoSec ms <= INT64_MAX.
Proof.
  unfold convertMilliSecToNanoSec. assert (Hm : Z.quot INT64_MAX NANOS_PER_MILLI = 9223372036854) by reflexivity.
  assert (Hmax : INT64_MAX = 9223372036854775807) by reflexivity. unfold NANOS_PER_MILLI in *. rewrite Hm, Hmax.
  destruct (Z.ltb_spec ms 0); [lia|]. destruct (Z.ltb_spec 9223372036854 ms); lia.
Qed.

(** Every 32-bit number of milliseconds is converted exactly. *)
Lemma convertMilliSecToNanoSec_uint32 ms : 0 <= ms <= UINT32_MAX ->
  convertMilliSecToNanoSec ms = ms * NANOS_PER_MILLI.
Proof.
  unfold convertMilliSecToNanoSec. assert (Hm : Z.quot INT64_MAX NANOS_PER_MILLI = 9223372036854) by reflexivity.
  assert (Hmax : UINT32_MAX = 4294967295) by reflexivity. rewrite Hm, Hmax. intros.
  rewrite (proj2 (Z.ltb_ge _ _)) by lia. by rewrite (proj2 (Z.ltb_ge _ _)) by lia.
Qed.

End TimeConversion.

(** ** The system clock, as the code sees it

    [OsClockInterface]: the results of the system calls are inputs. *)

Record OsClock := {
  clockGetTime : Z * timespec;   (* return code and the time written *)
  clockGetRes : Z * timespec
}.

Module CycleTimer.
Local Open Scope Z_scope.

Definition kDeadlineAlreadyOver : Z := -1.
Definition EINTR : Z := 4.

Record t := mk {
  osInterface : option OsClock;
  sleepIntervalNs : Z;
  deadline : timespec
}.

Definition make (os : option OsClock) : t := mk os 0 (mkTimespec 0 0).

Definition init (f_sleepIntervalNs : Z) (c : t) : Z * t :=
  match osInterface c with
  | None => (-2, mk None (-2) (deadline c))
  | Some os =>
      if f_sleepIntervalNs <=? 0 then (-3, mk (Some os) (-3) (deadline c))
      else
        let i := if (clockGetTime os).1 =? -1 then -1 else f_sleepIntervalNs in
        (i, mk (Some os) i (deadline c))
  end.

(** The clock has moved on when [start] reads it: the reading is an argument. *)
Definition start (reading : Z * timespec) (c : t) : Z * t :=
  let c' := mk (osInterface c) (sleepIntervalNs c) reading.2 in
  if reading.1 =? 0 then (TimeConversion.convertToNanoSec (deadline c'), c') else (0, c').

(** The loop that carries whole seconds.  The 64-bit [tv_nsec] cannot overflow:
    the interval comes from a 32-bit number of milliseconds. *)
Fixpoint carry_loop (fuel : nat) (ts : timespec) : outcome timespec :=
  match fuel with
  | O => Abort OutOfFuel
  | S fuel' =>
      if NANOS_PER_SEC <=? tv_nsec ts
      then carry_loop fuel' (mkTimespec (tv_sec ts + 1) (tv_nsec ts - NANOS_PER_SEC)) else Ret ts
  end.

Definition handleNanoSecOverflow (ts : timespec) : outcome timespec :=
  carry_loop (S (Z.to_nat (tv_nsec ts / NANOS_PER_SEC))) ts.

Definition calcNextShot (c : t) : outcome t :=
  d ← handleNanoSecOverflow (mkTimespec (tv_sec (deadline c)) (tv_nsec (deadline c) + sleepIntervalNs c));
  Ret (mk (osInterface c) (sleepIntervalNs c) d).

(** [sleep]: the clock reading, then one answer of [clockNanosleep] per call,
    each with the exit flag as it is before the call.  With the list
    exhausted the thread is still asleep. *)
Fixpoint sleep_loop (calls : list (bool * Z)) (result : Z) : option Z :=
  if result =? EINTR then
    match calls with
    | [] => None
    | (exitRequested, r) :: calls' => if exitRequested then Some result else sleep_loop calls' r
    end
  else Some result.

Definition late (now d : timespec) : bool :=
  (tv_sec d <? tv_sec now) || ((tv_sec now =? tv_sec d) && (tv_nsec d <? tv_nsec now)).

Definition sleep (now : Z * timespec) (calls : list (bool * Z)) (c : t) : option (Z * Z) :=
  if (now.1 =? 0) && late now.2 (deadline c) then
    Some (kDeadlineAlreadyOver,
          (tv_nsec now.2 - tv_nsec (deadline c)) + (tv_sec now.2 - tv_sec (deadline c)) * NANOS_PER_SEC)
  else r ← sleep_loop calls EINTR; Some (r, 0).

(** ** Properties *)

Definition nanos (ts : timespec) : Z := tv_sec ts * NANOS_PER_SEC + tv_nsec ts.
Definition normal (ts : timespec) : Prop := 0 <= tv_nsec ts < NANOS_PER_SEC.

Lemma carry_loop_spec : forall fuel ts, 0 <= tv_nsec ts < Z.of_nat fuel * NANOS_PER_SEC ->
  exists ts', carry_loop fuel ts = Ret ts' /\ nanos ts' = nanos ts /\ normal ts'.
Proof.
  unfold nanos, normal. assert (HN : NANOS_PER_SEC = 1000000000) by reflexivity.
  induction fuel as [|fuel IH]; intros ts Hts; simpl; [lia|].
  destruct (Z.leb_spec NANOS_PER_SEC (tv_nsec ts)) as [H|H]; [|exists ts; split_and!; [done|lia..]].
  destruct (IH (mkTimespec (tv_sec ts + 1) (tv_nsec ts - NANOS_PER_SEC))) as (ts' & -> & E & Hn); simpl; [lia|].
  exists ts'. simpl in E. split_and!; [done|lia|lia|lia].
Qed.

Lemma handleNanoSecOverflow_spec ts : 0 <= tv_nsec ts ->
  exists ts', handleNanoSecOverflow ts = Ret ts' /\ nanos ts' = nanos ts /\ normal ts'.
Proof.
  intros H. apply carry_loop_spec. assert (HN : NANOS_PER_SEC = 1000000000) by reflexivity.
  rewrite Nat2Z.inj_succ, Z2Nat.id by (apply Z.div_pos; lia).
  pose proof (Z.div_mod (tv_nsec ts) NANOS_PER_SEC ltac:(lia)).
  pose proof (Z.mod_pos_bound (tv_nsec ts) NANOS_PER_SEC ltac:(lia)). lia.
Qed.

Fixpoint shots (k : nat) (c : t) : outcome t :=
  match k with O => Ret c | S k' => c' ← calcNextShot c; shots k' c' end.

(** The deadlines of the cyclic executor do not drift: from a normalised
    start and a non-negative interval, the carry loop of every [calcNextShot]
    terminates, the [k]-th deadline is exactly [k] intervals after the start, and
    it is a normalised [timespec]. *)
Theorem deadlines_do_not_drift (k : nat) (c : t) :
  normal (deadline c) -> 0 <= sleepIntervalNs c ->
  exists c', shots k c = Ret c' /\ sleepIntervalNs c' = sleepIntervalNs c /\ normal (deadline c') /\
    nanos (deadline c') = nanos (deadline c) + Z.of_nat k * sleepIntervalNs c.
Proof.
  intros Hn Hi. revert c Hn Hi. induction k as [|k IH]; intros c Hn Hi; [exists c; split_and!; try done; lia|].
  cbn [shots]. unfold calcNextShot.
  destruct (handleNanoSecOverflow_spec (mkTimespec (tv_sec (deadline c)) (tv_nsec (deadline c) + sleepIntervalNs c)))
    as (d & -> & E & Hd); simpl; [destruct Hn; lia|].
  destruct (IH (mk (osInterface c) (sleepIntervalNs c) d)) as (c' & -> & Hs & Hn' & E'); simpl in *; try done.
  exists c'. split_and!; try done. rewrite E', E. unfold nanos. simpl. lia.
Qed.

Lemma deadlines_do_not_drift_witness :
  exists c', shots 7 (mk None 300000000 (mkTimespec 12 900000000)) = Ret c' /\ deadline c' = mkTimespec 15 0.
Proof.
  destruct (deadlines_do_not_drift 7 (mk None 300000000 (mkTimespec 12 900000000))) as (c' & E & _);
    [by compute|by compute|].
  exists c'. split; [exact E|]. vm_compute in E. by injection E as <-.
Defined.

End CycleTimer.

Module CycleTimeValidator.
Local Open Scope Z_scope.

Definition getMonotonicClockAccuracy (f_clock_sys : OsClock) : Z :=
  if (clockGetRes f_clock_sys).1 =? 0 then tv_nsec (clockGetRes f_clock_sys).2 else -1.

Definition adjustCycleTimeOnClockAccuracy (f_requested_interval_ns : Z) (f_clock_sys : OsClock) : Z :=
  let accuracyNs := getMonotonicClockAccuracy f_clock_sys in
  if 0 <? accuracyNs then
    if accuracyNs <=? f_requested_interval_ns then f_requested_interval_ns else accuracyNs
  else -1.

(** A usable interval, not below the clock's accuracy, or a refusal that
    [CycleTimer.init] turns into a failed initialisation. *)
Lemma adjusted_interval_usable req os :
  let i := adjustCycleTimeOnClockAccuracy req os in
  (0 < i /\ req <= i /\ getMonotonicClockAccuracy os <= i) \/
  (i = -1 /\ forall c, CycleTimer.osInterface c = Some os -> (CycleTimer.init i c).1 <= 0).
Proof.
  unfold adjustCycleTimeOnClockAccuracy. destruct (Z.ltb_spec 0 (getMonotonicClockAccuracy os)); simpl.
  - left. destruct (Z.leb_spec (getMonotonicClockAccuracy os) req); lia.
  - right. split; [done|]. intros c E. unfold CycleTimer.init. by rewrite E.
Qed.

End CycleTimeValidator.
