(* ===== verification/Alive.v ===== *)
(** * Alive supervision

    [supervision::Alive] (alive_monitor/details/supervision/Alive.cpp): the state
    machine that counts the checkpoints of a process per reference cycle, debounces
    failed cycles and requests recovery.  The recovery client is a parameter: its
    [sendRecoveryRequest] answers whether the request was enqueued.  What the
    supervision reports to its observers is a log of statuses with their
    timestamps.  Durations are nanoseconds in [Z]; the overflow checks of the
    source are part of the definitions. *)

From stdpp Require Import prelude.
From S2P Require Import Prelude.
From S2P Require Import Timers TimeSorting.

(** [SupervisionEventType] *)
Inductive SupervisionEventType := EvActivation | EvDeactivation.

#[export] Instance SupervisionEventType_eq_dec : EqDecision SupervisionEventType.
Proof. solve_decision. Defined.

(** [ifappl::Checkpoint] *)
Record Checkpoint := mkCheckpoint { isDataLossEvent : bool; cp_timestamp : Z }.
Definition checkpoint_of (p_timestamp : Z) : Checkpoint := mkCheckpoint (p_timestamp =? 0)%Z p_timestamp.

(** [ComponentAliveSupervision] *)
Record ComponentAliveSupervision := {
  reporting_cycle_ms : Z;
  failed_cycles_tolerance : Z;
  min_indications : option Z;
  max_indications : option Z
}.

(** The interface to the recovery client, and what is known of the request. *)
Class RecoveryClient (Id R : Type) := sendRecoveryRequest : Id -> Z -> R -> bool * R.

Module Alive.
Local Open Scope Z_scope.

Inductive EStatus := kOk | kFailed | kExpired | kDeactivated.
Inductive EReason := kDataLoss | kFailedToleranceExceeded | kDataCorruption | kOverflow.
Inductive EDataLossReason := kNoDataLoss | kBufferFull | kSharedMemory.
Inductive EUpdateEventType := kNoChange | kActivation | kDeactivation | kCheckpoint | kEvaluation | kSync.

(** [std::variant<SupervisionEventSnapshot, CheckpointSnapshot, SyncSnapshot>] *)
Inductive TimeSortedUpdateEvent :=
| SupervisionEventSnapshot (timestamp : Z) (eventType : SupervisionEventType)
| CheckpointSnapshot (timestamp : Z)
| SyncSnapshot (timestamp : Z).

#[export] Instance EStatus_eq_dec : EqDecision EStatus.
Proof. solve_decision. Defined.
#[export] Instance EReason_eq_dec : EqDecision EReason.
Proof. solve_decision. Defined.
#[export] Instance EDataLossReason_eq_dec : EqDecision EDataLossReason.
Proof. solve_decision. Defined.
#[export] Instance EUpdateEventType_eq_dec : EqDecision EUpdateEventType.
Proof. solve_decision. Defined.

Section Supervision.
Context {Id R : Type} `{RecoveryClient Id R}.

Record t := mk {
  k_aliveReferenceCycle : Z;
  k_minAliveIndications : Z;
  k_maxAliveIndications : Z;
  k_failedSupervisionCyclesTolerance : Z;
  processIdentifier_ : Id;
  recoveryClient : R;
  recoveryEnqueueFailed_ : bool;
  dataLossReason : EDataLossReason;
  aliveStatus : EStatus;
  referenceCycleStart : Z;
  referenceCycleEnd : Z;
  indicationCount : Z;
  failedSupervisionCycles : Z;
  eventTimestamp : Z;
  lastSyncTimestamp : Z;
  timeSortingUpdateEventBuffer : TimeSortingBuffer.t TimeSortedUpdateEvent;
  reported : list (EStatus * Z)   (* what the observers have been given, latest last *)
}.

Definition k_isMinCheckDisabled (a : t) : bool := k_minAliveIndications a =? 0.
Definition k_isMaxCheckDisabled (a : t) : bool := k_maxAliveIndications a =? 0.

Definition make (id : Id) (cfg : ComponentAliveSupervision) (recovery_client : R) (bufferSize : nat) : outcome t :=
  let cycle := TimeConversion.convertMilliSecToNanoSec (reporting_cycle_ms cfg) in
  _ ← assert (negb (cycle =? 0));
  Ret {| k_aliveReferenceCycle := cycle;
         k_minAliveIndications := default 0 (min_indications cfg);
         k_maxAliveIndications := default 0 (max_indications cfg);
         k_failedSupervisionCyclesTolerance := failed_cycles_tolerance cfg;
         processIdentifier_ := id; recoveryClient := recovery_client; recoveryEnqueueFailed_ := false;
         dataLossReason := kNoDataLoss; aliveStatus := kDeactivated;
         referenceCycleStart := 0; referenceCycleEnd := INT64_MAX;
         indicationCount := 0; failedSupervisionCycles := 0; eventTimestamp := 0; lastSyncTimestamp := 0;
         timeSortingUpdateEventBuffer := TimeSortingBuffer.make bufferSize; reported := [] |}.

(** Field updates. *)
Definition set_recovery (r : R) (failed : bool) (a : t) : t :=
  mk (k_aliveReferenceCycle a) (k_minAliveIndications a) (k_maxAliveIndications a)
     (k_failedSupervisionCyclesTolerance a) (processIdentifier_ a) r failed (dataLossReason a) (aliveStatus a)
     (referenceCycleStart a) (referenceCycleEnd a) (indicationCount a) (failedSupervisionCycles a)
     (eventTimestamp a) (lastSyncTimestamp a) (timeSortingUpdateEventBuffer a) (reported a).
Definition set_dataLoss (d : EDataLossReason) (a : t) : t :=
  mk (k_aliveReferenceCycle a) (k_minAliveIndications a) (k_maxAliveIndications a)
     (k_failedSupervisionCyclesTolerance a) (processIdentifier_ a) (recoveryClient a) (recoveryEnqueueFailed_ a) d
     (aliveStatus a) (referenceCycleStart a) (referenceCycleEnd a) (indicationCount a) (failedSupervisionCycles a)
     (eventTimestamp a) (lastSyncTimestamp a) (timeSortingUpdateEventBuffer a) (reported a).
Definition set_status (s : EStatus) (a : t) : t :=
  mk (k_aliveReferenceCycle a) (k_minAliveIndications a) (k_maxAliveIndications a)
     (k_failedSupervisionCyclesTolerance a) (processIdentifier_ a) (recoveryClient a) (recoveryEnqueueFailed_ a)
     (dataLossReason a) s (referenceCycleStart a) (referenceCycleEnd a) (indicationCount a)
     (failedSupervisionCycles a) (eventTimestamp a) (lastSyncTimestamp a) (timeSortingUpdateEventBuffer a) (reported a).
Definition set_cycle (b e : Z) (a : t) : t :=
  mk (k_aliveReferenceCycle a) (k_minAliveIndications a) (k_maxAliveIndications a)
     (k_failedSupervisionCyclesTolerance a) (processIdentifier_ a) (recoveryClient a) (recoveryEnqueueFailed_ a)
     (dataLossReason a) (aliveStatus a) b e (indicationCount a) (failedSupervisionCycles a) (eventTimestamp a)
     (lastSyncTimestamp a) (timeSortingUpdateEventBuffer a) (reported a).
Definition set_count (n : Z) (a : t) : t :=
  mk (k_aliveReferenceCycle a) (k_minAliveIndications a) (k_maxAliveIndications a)
     (k_failedSupervisionCyclesTolerance a) (processIdentifier_ a) (recoveryClient a) (recoveryEnqueueFailed_ a)
     (dataLossReason a) (aliveStatus a) (referenceCycleStart a) (referenceCycleEnd a) n (failedSupervisionCycles a)
     (eventTimestamp a) (lastSyncTimestamp a) (timeSortingUpdateEventBuffer a) (reported a).
Definition set_failed (n : Z) (a : t) : t :=
  mk (k_aliveReferenceCycle a) (k_minAliveIndications a) (k_maxAliveIndications a)
     (k_failedSupervisionCyclesTolerance a) (processIdentifier_ a) (recoveryClient a) (recoveryEnqueueFailed_ a)
     (dataLossReason a) (aliveStatus a) (referenceCycleStart a) (referenceCycleEnd a) (indicationCount a) n
     (eventTimestamp a) (lastSyncTimestamp a) (timeSortingUpdateEventBuffer a) (reported a).
Definition set_eventTime (z : Z) (a : t) : t :=
  mk (k_aliveReferenceCycle a) (k_minAliveIndications a) (k_maxAliveIndications a)
     (k_failedSupervisionCyclesTolerance a) (processIdentifier_ a) (recoveryClient a) (recoveryEnqueueFailed_ a)
     (dataLossReason a) (aliveStatus a) (referenceCycleStart a) (referenceCycleEnd a) (indicationCount a)
     (failedSupervisionCycles a) z (lastSyncTimestamp a) (timeSortingUpdateEventBuffer a) (reported a).
Definition set_lastSync (z : Z) (a : t) : t :=
  mk (k_aliveReferenceCycle a) (k_minAliveIndications a) (k_maxAliveIndications a)
     (k_failedSupervisionCyclesTolerance a) (processIdentifier_ a) (recoveryClient a) (recoveryEnqueueFailed_ a)
     (dataLossReason a) (aliveStatus a) (referenceCycleStart a) (referenceCycleEnd a) (indicationCount a)
     (failedSupervisionCycles a) (eventTimestamp a) z (timeSortingUpdateEventBuffer a) (reported a).
Definition set_buffer (b : TimeSortingBuffer.t TimeSortedUpdateEvent) (a : t) : t :=
  mk (k_aliveReferenceCycle a) (k_minAliveIndications a) (k_maxAliveIndications a)
     (k_failedSupervisionCyclesTolerance a) (processIdentifier_ a) (recoveryClient a) (recoveryEnqueueFailed_ a)
     (dataLossReason a) (aliveStatus a) (referenceCycleStart a) (referenceCycleEnd a) (indicationCount a)
     (failedSupervisionCycles a) (eventTimestamp a) (lastSyncTimestamp a) b (reported a).

(** Every observer gets the status and the timestamp. *)
Definition pushResultToObservers (a : t) : t :=
  mk (k_aliveReferenceCycle a) (k_minAliveIndications a) (k_maxAliveIndications a)
     (k_failedSupervisionCyclesTolerance a) (processIdentifier_ a) (recoveryClient a) (recoveryEnqueueFailed_ a)
     (dataLossReason a) (aliveStatus a) (referenceCycleStart a) (referenceCycleEnd a) (indicationCount a)
     (failedSupervisionCycles a) (eventTimestamp a) (lastSyncTimestamp a) (timeSortingUpdateEventBuffer a)
     (reported a ++ [(aliveStatus a, eventTimestamp a)]).

Definition getStatus (a : t) : EStatus := aliveStatus a.
Definition getTimestamp (a : t) : Z := eventTimestamp a.
Definition hasRecoveryEnqueueFailed (a : t) : bool := recoveryEnqueueFailed_ a.
Definition getIdentifier (a : t) : Id := processIdentifier_ a.

(** ** Events from outside *)

(** A push into the history buffer; a full buffer is a data loss. *)
Definition push_event (e : TimeSortedUpdateEvent) (timestamp : Z) (a : t) : outcome t :=
  '(ok, b) ← TimeSortingBuffer.push e timestamp (timeSortingUpdateEventBuffer a);
  let a1 := set_buffer b a in
  Ret (if ok : bool then a1 else set_eventTime (lastSyncTimestamp a1) (set_dataLoss kBufferFull a1)).

Definition updateData_checkpoint (f_observable_r : Checkpoint) (a : t) : outcome t :=
  let timestamp := cp_timestamp f_observable_r in
  if isDataLossEvent f_observable_r then
    Ret (set_eventTime (if timestamp =? 0 then lastSyncTimestamp a else timestamp) (set_dataLoss kSharedMemory a))
  else push_event (CheckpointSnapshot timestamp) timestamp a.

Definition updateData_event (systemClockTimestamp : timespec) (eventType : SupervisionEventType) (a : t) : outcome t :=
  let timestamp := TimeConversion.convertToNanoSec systemClockTimestamp in
  push_event (SupervisionEventSnapshot timestamp eventType) timestamp a.

Definition storeSyncEvent (f_syncTimestamp : Z) (a : t) : outcome t :=
  push_event (SyncSnapshot f_syncTimestamp) f_syncTimestamp a.

(** ** State changes *)

Definition switchToDeactivated (a : t) : t :=
  pushResultToObservers (set_cycle 0 INT64_MAX (set_count 0 (set_failed 0 (set_status kDeactivated a)))).

Definition switchToOk (a : t) : t :=
  pushResultToObservers (set_failed 0 (set_status kOk a)).

(** The log messages of the reason are left out; the assertion among them is not. *)
Definition switchToExpired (reason : EReason) (a : t) : outcome t :=
  let a0 := set_status kExpired a in
  _ ← (match reason, dataLossReason a0 with
       | kDataLoss, kSharedMemory | kDataLoss, kBufferFull => Ret tt
       | kDataLoss, d => assert (bool_decide (d <> kNoDataLoss))
       | _, _ => Ret tt
       end);
  let a1 := set_dataLoss kNoDataLoss (set_cycle 0 INT64_MAX (set_count 0
              (set_failed (k_failedSupervisionCyclesTolerance a0) a0))) in
  let '(enqueued, r) := sendRecoveryRequest (processIdentifier_ a1) (eventTimestamp a1) (recoveryClient a1) in
  Ret (pushResultToObservers (set_recovery r (if enqueued then recoveryEnqueueFailed_ a1 else true) a1)).

(** true on overflow *)
Definition setReferenceCycleTimestamps (f_baseValue : Z) (a : t) : outcome (bool * t) :=
  if INT64_MAX - k_aliveReferenceCycle a <? f_baseValue then
    a' ← switchToExpired kOverflow (set_eventTime f_baseValue a); Ret (true, a')
  else Ret (false, set_cycle f_baseValue (f_baseValue + k_aliveReferenceCycle a) a).

Definition setNextCycle (a : t) : outcome t :=
  '(overflow, a') ← setReferenceCycleTimestamps (referenceCycleEnd a) a;
  Ret (if overflow : bool then a' else set_count 0 a').

Definition isMinError (a : t) : bool :=
  negb (k_isMinCheckDisabled a) && (indicationCount a <? k_minAliveIndications a).
Definition isMaxError (a : t) : bool :=
  negb (k_isMaxCheckDisabled a) && (k_maxAliveIndications a <? indicationCount a).

(** The 32-bit counter. *)
Definition switchToFailed (a : t) : outcome t :=
  let a0 := set_status kFailed a in
  let a1 := set_failed (wrap 32 (failedSupervisionCycles a0 + 1)) a0 in
  setNextCycle (pushResultToObservers a1).

Definition incIndicationCount (f_updateEventTimestamp : Z) (a : t) : outcome t :=
  if indicationCount a =? UINT32_MAX
  then switchToExpired kOverflow (set_eventTime f_updateEventTimestamp a)
  else Ret (set_count (indicationCount a + 1) a).

Definition evaluateRefCycleOutOfOk (a : t) : outcome t :=
  if isMinError a || isMaxError a then
    if failedSupervisionCycles a <? k_failedSupervisionCyclesTolerance a then switchToFailed a
    else switchToExpired kFailedToleranceExceeded a
  else setNextCycle a.

Definition evaluateRefCycleOutOfFailed (a : t) : outcome t :=
  if isMinError a || isMaxError a then
    if failedSupervisionCycles a =? UINT32_MAX then switchToExpired kOverflow a
    else
      let a1 := set_failed (failedSupervisionCycles a + 1) a in
      if failedSupervisionCycles a1 <=? k_failedSupervisionCyclesTolerance a1 then setNextCycle a1
      else switchToExpired kFailedToleranceExceeded a1
  else
    setNextCycle (if failedSupervisionCycles a <=? 1 then switchToOk a
                  else set_failed (failedSupervisionCycles a - 1) a).

Definition checkTransitionsOutOfDeactivated (ty : EUpdateEventType) (ts : Z) (a : t) : outcome t :=
  match ty with
  | kActivation =>
      '(overflow, a1) ← setReferenceCycleTimestamps ts a;
      Ret (if overflow : bool then a1 else switchToOk (set_eventTime ts a1))
  | _ => Ret a
  end.

Definition checkTransitionsToDeactivated (ty : EUpdateEventType) (ts : Z) (a : t) : t :=
  if bool_decide (ty = kDeactivation) && bool_decide (aliveStatus a <> kDeactivated)
  then switchToDeactivated (set_eventTime ts a) else a.

Definition checkTransitionsOutOfOk (ty : EUpdateEventType) (ts : Z) (a : t) : outcome t :=
  match ty with
  | kEvaluation => evaluateRefCycleOutOfOk a
  | kCheckpoint => incIndicationCount ts a
  | _ => Ret a
  end.

Definition checkTransitionsOutOfFailed (ty : EUpdateEventType) (ts : Z) (a : t) : outcome t :=
  match ty with
  | kEvaluation => evaluateRefCycleOutOfFailed a
  | kCheckpoint => incIndicationCount ts a
  | _ => Ret a
  end.

(** ** Evaluation *)

Definition getTimestampOfUpdateEvent (e : TimeSortedUpdateEvent) : Z :=
  match e with
  | SupervisionEventSnapshot ts _ => ts
  | CheckpointSnapshot ts => ts
  | SyncSnapshot ts => ts
  end.

Definition isSync (e : TimeSortedUpdateEvent) : bool := match e with SyncSnapshot _ => true | _ => false end.

Definition detectEvaluationEvent (ts : Z) (e : TimeSortedUpdateEvent) (a : t) : bool :=
  match aliveStatus a with
  | kDeactivated | kExpired => false
  | _ => (referenceCycleEnd a <? ts) || ((referenceCycleEnd a =? ts) && isSync e)
  end.

(** Both enumerators of the event type are handled; the source's fall-through
    to [kNoChange] is for other values. *)
Definition getAliveEventType (isEvaluationEvent : bool) (e : TimeSortedUpdateEvent) : EUpdateEventType :=
  if isEvaluationEvent then kEvaluation
  else
    match e with
    | SupervisionEventSnapshot _ EvActivation => kActivation
    | SupervisionEventSnapshot _ EvDeactivation => kDeactivation
    | CheckpointSnapshot _ => kCheckpoint
    | SyncSnapshot _ => kSync
    end.

(** The switch over the status; its [default] is for values outside the enumeration. *)
Definition dispatch (ty : EUpdateEventType) (ts : Z) (a : t) : outcome t :=
  match aliveStatus a with
  | kDeactivated => checkTransitionsOutOfDeactivated ty ts a
  | kOk => checkTransitionsOutOfOk ty ts a
  | kFailed => checkTransitionsOutOfFailed ty ts a
  | kExpired => Ret a
  end.

(** The [while] loop over the history buffer. *)
Fixpoint evaluate_loop (fuel : nat) (f_syncTimestamp : Z) (cur : option TimeSortedUpdateEvent) (a : t) : outcome t :=
  match cur, fuel with
  | None, _ => Ret a
  | Some _, O => Abort OutOfFuel
  | Some e, S fuel' =>
      let ts := getTimestampOfUpdateEvent e in
      _ ← assert (ts <=? f_syncTimestamp);
      let isEvaluationEvent := detectEvaluationEvent ts e a in
      let '(ts1, a1) := if isEvaluationEvent then (referenceCycleEnd a, set_eventTime (referenceCycleEnd a) a)
                        else (ts, a) in
      let ty := getAliveEventType isEvaluationEvent e in
      a2 ← dispatch ty ts1 a1;
      let a3 := checkTransitionsToDeactivated ty ts1 a2 in
      if isEvaluationEvent then evaluate_loop fuel' f_syncTimestamp cur a3
      else
        '(next, b) ← TimeSortingBuffer.getNextElement (timeSortingUpdateEventBuffer a3);
        evaluate_loop fuel' f_syncTimestamp next (set_buffer b a3)
  end.

(** Per buffered event, one iteration for the event and one per reference
    cycle between the earliest time in play and the synchronisation time. *)
Definition earliest (a : t) : Z :=
  foldr (fun e => Z.min (TimeSortingBuffer.timestamp e)) (referenceCycleEnd a)
    (TimeSortingBuffer.timeSortedBuffer (timeSortingUpdateEventBuffer a)).
Definition cycles_per_event (f_syncTimestamp : Z) (a : t) : nat :=
  S (Z.to_nat ((f_syncTimestamp - earliest a) / k_aliveReferenceCycle a)).
Definition evaluate_fuel (f_syncTimestamp : Z) (a : t) : nat :=
  (length (TimeSortingBuffer.timeSortedBuffer (timeSortingUpdateEventBuffer a)) *
     (cycles_per_event f_syncTimestamp a + 2))%nat.

Definition clear_buffer (a : t) : t := set_buffer (TimeSortingBuffer.clear (timeSortingUpdateEventBuffer a)) a.

Definition handleDataLossReaction (a : t) : outcome t :=
  a1 ← (if bool_decide (aliveStatus a <> kExpired) then switchToExpired kDataLoss a else Ret a);
  Ret (set_dataLoss kNoDataLoss (clear_buffer a1)).

Definition evaluate (f_syncTimestamp : Z) (a : t) : outcome t :=
  a0 ← storeSyncEvent f_syncTimestamp a;
  if bool_decide (dataLossReason a0 <> kNoDataLoss) then
    a1 ← handleDataLossReaction a0;
    Ret (set_lastSync f_syncTimestamp a1)
  else
    '(cur, b) ← TimeSortingBuffer.getNextElement (timeSortingUpdateEventBuffer a0);
    a1 ← evaluate_loop (evaluate_fuel f_syncTimestamp a0) f_syncTimestamp cur (set_buffer b a0);
    Ret (set_lastSync f_syncTimestamp (clear_buffer a1)).

End Supervision.
Arguments t : clear implicits.

End Alive.
