(* ===== verification/AliveProofs.v ===== *)
(** * Correctness of the alive supervision

    [evaluate] is shown to be a total function of the buffered events: sorted by
    time, each event is preceded by the verdicts on the reference cycles that
    ended before it ([process]).  The invariant, the debouncing, the recovery
    requests and the detection times are proved on that form. *)

From stdpp Require Import prelude sorting.
From S2P Require Import Prelude.
From S2P Require Import Timers TimeSorting Alive.

Module AliveProofs.
Import Alive.
Local Open Scope Z_scope.

Section Supervision.
Context {Id R : Type} `{RecoveryClient Id R}.
Notation t := (Alive.t Id R).

Definition active (a : t) : bool := match aliveStatus a with kOk | kFailed => true | _ => false end.

(** The invariant of the state machine. *)
Record wf (a : t) : Prop := {
  wf_cycle : 0 < k_aliveReferenceCycle a <= INT64_MAX;
  wf_tolerance : 0 <= k_failedSupervisionCyclesTolerance a <= UINT32_MAX;
  wf_end : referenceCycleEnd a <= INT64_MAX;
  wf_status :
    match aliveStatus a with
    | kDeactivated => referenceCycleStart a = 0 /\ referenceCycleEnd a = INT64_MAX /\
        indicationCount a = 0 /\ failedSupervisionCycles a = 0
    | kExpired => referenceCycleStart a = 0 /\ referenceCycleEnd a = INT64_MAX /\
        indicationCount a = 0 /\ failedSupervisionCycles a = k_failedSupervisionCyclesTolerance a
    | kOk => referenceCycleEnd a = referenceCycleStart a + k_aliveReferenceCycle a /\
        0 <= indicationCount a <= UINT32_MAX /\ failedSupervisionCycles a = 0
    | kFailed => referenceCycleEnd a = referenceCycleStart a + k_aliveReferenceCycle a /\
        0 <= indicationCount a <= UINT32_MAX /\
        1 <= failedSupervisionCycles a <= k_failedSupervisionCyclesTolerance a
    end
}.

(** ** The state changes as total functions *)

Definition send (a : t) : bool * R := sendRecoveryRequest (processIdentifier_ a) (eventTimestamp a) (recoveryClient a).

Definition expire (a : t) : t :=
  let a1 := set_dataLoss kNoDataLoss (set_cycle 0 INT64_MAX (set_count 0
              (set_failed (k_failedSupervisionCyclesTolerance a) (set_status kExpired a)))) in
  pushResultToObservers (set_recovery (send a).2 (if (send a).1 then recoveryEnqueueFailed_ a else true) a1).

Definition next_cycle (a : t) : t :=
  if INT64_MAX - k_aliveReferenceCycle a <? referenceCycleEnd a
  then expire (set_eventTime (referenceCycleEnd a) a)
  else set_count 0 (set_cycle (referenceCycleEnd a) (referenceCycleEnd a + k_aliveReferenceCycle a) a).

Definition bad_cycle (a : t) : bool := isMinError a || isMaxError a.

(** The verdict on the reference cycle that ends now. *)
Definition close_cycle (a : t) : t :=
  let a := set_eventTime (referenceCycleEnd a) a in
  if bad_cycle a then
    if failedSupervisionCycles a <? k_failedSupervisionCyclesTolerance a then
      match aliveStatus a with
      | kFailed => next_cycle (set_failed (failedSupervisionCycles a + 1) a)
      | _ => next_cycle (pushResultToObservers (set_failed (failedSupervisionCycles a + 1) (set_status kFailed a)))
      end
    else expire a
  else
    match aliveStatus a with
    | kFailed => if failedSupervisionCycles a <=? 1 then next_cycle (switchToOk a)
                 else next_cycle (set_failed (failedSupervisionCycles a - 1) a)
    | _ => next_cycle a
    end.

(** An event of the buffer. *)
Definition consume (e : TimeSortedUpdateEvent) (a : t) : t :=
  match e with
  | SupervisionEventSnapshot ts EvActivation =>
      match aliveStatus a with
      | kDeactivated =>
          if INT64_MAX - k_aliveReferenceCycle a <? ts then expire (set_eventTime ts a)
          else switchToOk (set_eventTime ts (set_cycle ts (ts + k_aliveReferenceCycle a) a))
      | _ => a
      end
  | SupervisionEventSnapshot ts EvDeactivation =>
      match aliveStatus a with kDeactivated => a | _ => switchToDeactivated (set_eventTime ts a) end
  | CheckpointSnapshot ts =>
      if active a then
        if indicationCount a =? UINT32_MAX then expire (set_eventTime ts a)
        else set_count (indicationCount a + 1) a
      else a
  | SyncSnapshot _ => a
  end.

(** The cycle has ended before the event. *)
Definition due (e : TimeSortedUpdateEvent) (a : t) : bool := detectEvaluationEvent (getTimestampOfUpdateEvent e) e a.

Fixpoint settle_n (n : nat) (e : TimeSortedUpdateEvent) (a : t) : t :=
  match n with O => a | S n' => if due e a then settle_n n' e (close_cycle a) else a end.

Definition cycles_until (z : Z) (a : t) : nat :=
  S (Z.to_nat ((z - referenceCycleEnd a) / k_aliveReferenceCycle a)).
Definition settle (e : TimeSortedUpdateEvent) (a : t) : t :=
  settle_n (cycles_until (getTimestampOfUpdateEvent e) a) e a.

Fixpoint process (l : list (Z * TimeSortedUpdateEvent)) (a : t) : t :=
  match l with [] => a | (_, e) :: l' => process l' (consume e (settle e a)) end.

(** ** The code computes them *)

Lemma switchToExpired_expire reason (a : t) : reason <> kDataLoss \/ dataLossReason a <> kNoDataLoss ->
  switchToExpired reason a = Ret (expire a).
Proof.
  intros Hr. unfold switchToExpired, expire, send. simpl.
  destruct reason, (dataLossReason a) eqn:E; simpl; try (by destruct (sendRecoveryRequest _ _ _)).
  by destruct Hr.
Qed.

Lemma setNextCycle_next_cycle (a : t) : setNextCycle a = Ret (next_cycle a).
Proof.
  unfold setNextCycle, setReferenceCycleTimestamps, next_cycle.
  destruct (_ <? _); [|done]. rewrite switchToExpired_expire by (left; done). done.
Qed.

Lemma dispatch_close_cycle (a : t) : wf a -> active a = true ->
  dispatch kEvaluation (referenceCycleEnd a) (set_eventTime (referenceCycleEnd a) a) = Ret (close_cycle a).
Proof.
  intros [Hc Ht He Hs] Hact. unfold dispatch, active in *. cbn [aliveStatus set_eventTime].
  unfold close_cycle, bad_cycle. cbn [aliveStatus set_eventTime].
  assert (HU : UINT32_MAX = 4294967295) by reflexivity.
  destruct (aliveStatus a) eqn:Est; try done; cbn [checkTransitionsOutOfOk checkTransitionsOutOfFailed];
    unfold evaluateRefCycleOutOfOk, evaluateRefCycleOutOfFailed;
    cbn [failedSupervisionCycles k_failedSupervisionCyclesTolerance set_eventTime set_failed].
  - destruct Hs as (_ & _ & Hf). destruct (_ || _); [|by rewrite setNextCycle_next_cycle].
    destruct (Z.ltb_spec (failedSupervisionCycles a) (k_failedSupervisionCyclesTolerance a)).
    + unfold switchToFailed. rewrite setNextCycle_next_cycle. cbn [failedSupervisionCycles set_status set_eventTime].
      rewrite wrap_small by (rewrite Hf; lia). done.
    + apply switchToExpired_expire. by left.
  - destruct Hs as (_ & _ & Hf). destruct (_ || _).
    + destruct (Z.eqb_spec (failedSupervisionCycles a) UINT32_MAX) as [E|E].
      { rewrite switchToExpired_expire by (by left). rewrite (proj2 (Z.ltb_ge _ _)) by lia. done. }
      destruct (Z.leb_spec (failedSupervisionCycles a + 1) (k_failedSupervisionCyclesTolerance a)).
      * rewrite (proj2 (Z.ltb_lt _ _)) by lia. apply setNextCycle_next_cycle.
      * rewrite (proj2 (Z.ltb_ge _ _)) by lia. rewrite switchToExpired_expire by (by left). done.
    + rewrite setNextCycle_next_cycle. by destruct (_ <=? 1).
Qed.

Lemma due_active e (a : t) : due e a = true -> active a = true /\ referenceCycleEnd a <= getTimestampOfUpdateEvent e.
Proof.
  unfold due, detectEvaluationEvent, active. destruct (aliveStatus a); try done; intros [Hd|Hd]%orb_true_iff;
    (split; [done|]); [|apply andb_true_iff in Hd as [Hd _]| |apply andb_true_iff in Hd as [Hd _]]; lia.
Qed.

Lemma dispatch_consume e (a : t) :
  (a' ← dispatch (getAliveEventType false e) (getTimestampOfUpdateEvent e) a;
   Ret (checkTransitionsToDeactivated (getAliveEventType false e) (getTimestampOfUpdateEvent e) a')) =
  Ret (consume e a).
Proof.
  unfold dispatch, consume, active, checkTransitionsToDeactivated.
  destruct e as [ts [|]|ts|ts]; destruct (aliveStatus a) eqn:Est; simpl; rewrite ?Est; try done;
    unfold setReferenceCycleTimestamps, incIndicationCount.
  - destruct (_ <? _); [by rewrite switchToExpired_expire by (by left)|done].
  - destruct (_ =? _); [by rewrite switchToExpired_expire by (by left)|done].
  - destruct (_ =? _); [by rewrite switchToExpired_expire by (by left)|done].
Qed.

(** One iteration of the loop. *)
Lemma loop_due f sync e (a : t) : wf a -> getTimestampOfUpdateEvent e <= sync -> due e a = true ->
  evaluate_loop (S f) sync (Some e) a = evaluate_loop f sync (Some e) (close_cycle a).
Proof.
  intros Hwf Hle Hd. cbn [evaluate_loop]. rewrite (proj2 (Z.leb_le _ _)) by done. cbn [mbind outcome_bind assert].
  pose proof (due_active _ _ Hd) as [Hact _]. unfold due in Hd. rewrite Hd.
  cbn [getAliveEventType]. rewrite dispatch_close_cycle by done. reflexivity.
Qed.

Lemma loop_event f sync e (a : t) : getTimestampOfUpdateEvent e <= sync -> due e a = false ->
  evaluate_loop (S f) sync (Some e) a =
  ('(next, b) ← TimeSortingBuffer.getNextElement (timeSortingUpdateEventBuffer (consume e a));
   evaluate_loop f sync next (set_buffer b (consume e a))).
Proof.
  intros Hle Hd. cbn [evaluate_loop]. rewrite (proj2 (Z.leb_le _ _)) by done. cbn [mbind outcome_bind assert].
  unfold due in Hd. rewrite Hd. pose proof (dispatch_consume e a) as E.
  destruct (dispatch _ _ _) as [a'|]; [|done]. cbn [mbind outcome_bind] in *.
  apply (f_equal (fun o => match o with Ret x => x | Abort _ => a end)) in E. cbn beta iota in E. by rewrite E.
Qed.

(** ** The invariant *)

Lemma wf_expire (a : t) : wf a -> wf (expire a).
Proof. intros [Hc Ht He Hs]. by split. Qed.

Lemma wf_eventTime z (a : t) : wf a -> wf (set_eventTime z a).
Proof. intros [Hc Ht He Hs]. by split. Qed.

Definition same_config (a a' : t) : Prop :=
  k_aliveReferenceCycle a' = k_aliveReferenceCycle a /\ k_minAliveIndications a' = k_minAliveIndications a /\
  k_maxAliveIndications a' = k_maxAliveIndications a /\
  k_failedSupervisionCyclesTolerance a' = k_failedSupervisionCyclesTolerance a /\
  processIdentifier_ a' = processIdentifier_ a.

#[local] Instance same_config_refl : Reflexive same_config.
Proof. by split. Qed.
#[local] Instance same_config_trans : Transitive same_config.
Proof. unfold same_config. intros ??? (?&?&?&?&?) (?&?&?&?&?). split_and!; congruence. Qed.

(** What a new cycle looks like. *)
Lemma next_cycle_spec (a : t) : wf a -> active a = true ->
  let a' := next_cycle a in
  wf a' /\ same_config a a' /\
  (aliveStatus a' = kExpired \/
   aliveStatus a' = aliveStatus a /\ referenceCycleEnd a' = referenceCycleEnd a + k_aliveReferenceCycle a /\
   failedSupervisionCycles a' = failedSupervisionCycles a /\ indicationCount a' = 0).
Proof.
  intros Hwf Hact. unfold next_cycle. destruct (Z.ltb_spec (INT64_MAX - k_aliveReferenceCycle a) (referenceCycleEnd a)) as [Hov|Hok].
  { split_and!; [by apply wf_expire, wf_eventTime|by split|by left]. }
  destruct Hwf as [Hc Ht He Hs]. assert (HU : UINT32_MAX = 4294967295) by reflexivity.
  unfold active in Hact. split_and!; [|by split|right; by split_and!].
  split; simpl; try lia. destruct (aliveStatus a); try done; intuition lia.
Qed.

Lemma wf_failed n (a : t) : wf a -> active a = true -> 1 <= n <= k_failedSupervisionCyclesTolerance a ->
  wf (set_failed n (set_status kFailed a)).
Proof.
  intros [Hc Ht He Hs] Hact Hn. unfold active in Hact.
  split; simpl; try done. destruct (aliveStatus a); try done; intuition lia.
Qed.

Lemma wf_set_ok (a : t) : wf a -> active a = true -> wf (set_failed 0 (set_status kOk a)).
Proof.
  intros [Hc Ht He Hs] Hact. unfold active in Hact.
  split; simpl; try done. destruct (aliveStatus a); try done; intuition lia.
Qed.

Lemma set_status_same (a : t) : set_status (aliveStatus a) a = a.
Proof. by destruct a. Qed.

Lemma wf_pushResult (a : t) : wf a -> wf (pushResultToObservers a).
Proof. intros [Hc Ht He Hs]. by split. Qed.

Lemma close_cycle_spec (a : t) : wf a -> active a = true ->
  let a' := close_cycle a in
  wf a' /\ same_config a a' /\
  (aliveStatus a' = kExpired \/
   active a' = true /\ referenceCycleEnd a' = referenceCycleEnd a + k_aliveReferenceCycle a /\ indicationCount a' = 0).
Proof.
  intros Hwf Hact. pose proof (wf_eventTime (referenceCycleEnd a) a Hwf) as Hwf1. unfold close_cycle.
  set (a1 := set_eventTime (referenceCycleEnd a) a) in *.
  assert (Hact1 : active a1 = true) by done. assert (Hsc : same_config a a1) by done.
  assert (He : referenceCycleEnd a1 = referenceCycleEnd a /\ k_aliveReferenceCycle a1 = k_aliveReferenceCycle a) by done.
  clearbody a1. clear Hwf Hact.
  assert (Hnext : forall a2, wf a2 -> active a2 = true -> same_config a1 a2 ->
    referenceCycleEnd a2 = referenceCycleEnd a1 ->
    let a' := next_cycle a2 in wf a' /\ same_config a a' /\ (aliveStatus a' = kExpired \/
      active a' = true /\ referenceCycleEnd a' = referenceCycleEnd a + k_aliveReferenceCycle a /\ indicationCount a' = 0)).
  { intros a2 Hw Ha Hc Hr. destruct (next_cycle_spec a2 Hw Ha) as (Hw' & Hc' & Hs'). split_and!; [done|by do 2 etrans|].
    destruct Hs' as [->|(Hst & Hre & _ & Hcnt)]; [by left|]. right. unfold active in *. rewrite Hst. split_and!; try done.
    rewrite Hre, Hr. destruct Hc as [-> _]. lia. }
  pose proof Hwf1 as [Hcy Hto Hen Hst]. destruct (bad_cycle a1).
  - destruct (Z.ltb_spec (failedSupervisionCycles a1) (k_failedSupervisionCyclesTolerance a1)) as [Hlt|Hge].
    + assert (Hn : 1 <= failedSupervisionCycles a1 + 1 <= k_failedSupervisionCyclesTolerance a1)
        by (unfold active in Hact1; destruct (aliveStatus a1); try done; lia).
      destruct (aliveStatus a1) eqn:Est; try (by unfold active in Hact1; rewrite Est in Hact1).
      * apply Hnext; try done. by apply wf_pushResult, wf_failed.
      * apply Hnext; try done.
        rewrite <- (set_status_same a1), Est. by apply wf_failed.
    + split_and!; [by apply wf_expire|by etrans|by left].
  - destruct (aliveStatus a1) eqn:Est; try (by unfold active in Hact1; rewrite Est in Hact1); [by apply Hnext|].
    destruct (Z.leb_spec (failedSupervisionCycles a1) 1); apply Hnext; try done.
    + by apply wf_pushResult, wf_set_ok.
    + rewrite <- (set_status_same a1), Est. apply wf_failed; try done. simpl. destruct Hst as (_ & _ & ?). lia.
Qed.

Local Ltac stay := split_and!; [done|done|by right; left].

Lemma consume_spec e (a : t) : wf a ->
  let a' := consume e a in
  wf a' /\ same_config a a' /\
  (active a' = false \/ aliveStatus a' = aliveStatus a /\ referenceCycleEnd a' = referenceCycleEnd a \/
   referenceCycleEnd a' = getTimestampOfUpdateEvent e + k_aliveReferenceCycle a).
Proof.
  intros Hwf. pose proof Hwf as [Hc Ht He Hs]. assert (HU : UINT32_MAX = 4294967295) by reflexivity.
  destruct e as [ts [|]|ts|ts]; simpl; [| | |by stay].
  - destruct (aliveStatus a) eqn:Est; try (by stay).
    destruct (Z.ltb_spec (INT64_MAX - k_aliveReferenceCycle a) ts).
    + split_and!; [by apply wf_expire, wf_eventTime|by split|by left].
    + split_and!; [|by split|by right; right]. destruct Hs as (? & ? & ? & ?). split; simpl; lia.
  - destruct (aliveStatus a) eqn:Est; try (by stay);
      (split_and!; [|by split|by left]); by split.
  - unfold active in *. destruct (aliveStatus a) eqn:Est; simpl; rewrite ?Est; try (by stay);
      destruct (Z.eqb_spec (indicationCount a) UINT32_MAX); simpl; rewrite ?Est;
      try (split_and!; [by apply wf_expire, wf_eventTime|by split|by left]);
      (split_and!; [|by split|by right; left]); split; simpl; rewrite ?Est; intuition lia.
Qed.

Lemma settle_n_spec : forall n e (a : t), wf a ->
  (Z.to_nat ((getTimestampOfUpdateEvent e - referenceCycleEnd a) / k_aliveReferenceCycle a) < n)%nat ->
  let a' := settle_n n e a in
  wf a' /\ same_config a a' /\ due e a' = false /\ referenceCycleEnd a <= referenceCycleEnd a' /\
  (active a = false -> a' = a).
Proof.
  induction n as [|n IH]; intros e a Hwf Hn; [lia|]. simpl.
  destruct (due e a) eqn:Hd; [|by split_and!].
  destruct (due_active _ _ Hd) as [Hact Hle]. destruct (close_cycle_spec a Hwf Hact) as (Hw & Hc & Hs).
  pose proof Hwf as [Hcy _ He _]. assert (Hcy' := Hc). destruct Hcy' as [Ecy _].
  assert (Hex : forall a', aliveStatus a' = kExpired -> settle_n n e a' = a').
  { intros a' E. destruct n; [done|]. simpl. unfold due, detectEvaluationEvent. by rewrite E. }
  destruct Hs as [Hs|(Ha & Hr & _)].
  { rewrite Hex by done. split_and!; try done.
    - unfold due, detectEvaluationEvent. by rewrite Hs.
    - pose proof (wf_status _ Hw) as Hx. rewrite Hs in Hx. destruct Hx as (_ & -> & _). done.
    - intros E. by rewrite E in Hact. }
  set (c := k_aliveReferenceCycle a) in *. set (z := getTimestampOfUpdateEvent e) in *.
  assert (Hq : 0 <= (z - referenceCycleEnd a) / c) by (apply Z.div_pos; lia).
  destruct (decide ((z - referenceCycleEnd a) / c = 0)) as [E0|E0].
  { apply Z.div_small_iff in E0; [|lia]. assert (Hnd : due e (close_cycle a) = false).
    { apply not_true_is_false. intros Hd'. destruct (due_active _ _ Hd') as [_ ?]. fold z in H0. lia. }
    assert (settle_n n e (close_cycle a) = close_cycle a) as -> by (destruct n; [done|]; simpl; by rewrite Hnd).
    split_and!; try done; [lia|]. intros E. by rewrite E in Hact. }
  destruct (IH e (close_cycle a) Hw) as (Hw' & Hc' & Hd' & Hr' & _).
  { rewrite Ecy, Hr. fold z. fold c.
    replace (z - (referenceCycleEnd a + c)) with (z - referenceCycleEnd a + (-1) * c) by lia.
    rewrite Z.div_add by lia. lia. }
  split_and!; [done|by etrans|done|lia|]. intros E. by rewrite E in Hact.
Qed.

Lemma settle_spec e (a : t) : wf a ->
  let a' := settle e a in
  wf a' /\ same_config a a' /\ due e a' = false /\ referenceCycleEnd a <= referenceCycleEnd a' /\
  (active a = false -> a' = a).
Proof. intros Hwf. apply settle_n_spec; [done|]. unfold cycles_until. lia. Qed.

(** The loop works off the cycles that ended before the event. *)
Lemma loop_settle sync e : forall n f (a : t), wf a -> getTimestampOfUpdateEvent e <= sync ->
  due e (settle_n n e a) = false ->
  exists f', (f <= f')%nat /\
    evaluate_loop (n + f) sync (Some e) a = evaluate_loop f' sync (Some e) (settle_n n e a).
Proof.
  induction n as [|n IH]; intros f a Hwf Hle Hd; [by exists f|]. simpl in Hd |- *.
  destruct (due e a) eqn:E; [|exists (S (n + f)); split; [lia|done]].
  destruct (due_active _ _ E) as [Hact _]. destruct (close_cycle_spec a Hwf Hact) as (Hw & _).
  destruct (IH f (close_cycle a) Hw Hle Hd) as (f' & Hf & Eq). exists f'. split; [done|].
  rewrite <- Eq. by apply loop_due.
Qed.

(** ** The loop over the buffer *)

Lemma expire_buffer b (a : t) : expire (set_buffer b a) = set_buffer b (expire a).
Proof. done. Qed.
Lemma next_cycle_buffer b (a : t) : next_cycle (set_buffer b a) = set_buffer b (next_cycle a).
Proof. unfold next_cycle. simpl. by destruct (_ <? _). Qed.
Lemma close_cycle_buffer b (a : t) : close_cycle (set_buffer b a) = set_buffer b (close_cycle a).
Proof.
  unfold close_cycle. set (a1 := set_eventTime (referenceCycleEnd a) a).
  change (set_eventTime _ (set_buffer b a)) with (set_buffer b a1). clearbody a1.
  change (bad_cycle (set_buffer b a1)) with (bad_cycle a1). cbn [aliveStatus failedSupervisionCycles
    k_failedSupervisionCyclesTolerance set_buffer].
  destruct (bad_cycle a1), (failedSupervisionCycles a1 <? k_failedSupervisionCyclesTolerance a1), (aliveStatus a1),
    (failedSupervisionCycles a1 <=? 1); by rewrite <- ?next_cycle_buffer.
Qed.
Lemma consume_buffer e b (a : t) : consume e (set_buffer b a) = set_buffer b (consume e a).
Proof.
  destruct e as [ts [|]|ts|ts]; unfold consume, active; simpl; repeat case_match; done.
Qed.
Lemma settle_n_buffer e b : forall n (a : t), settle_n n e (set_buffer b a) = set_buffer b (settle_n n e a).
Proof.
  induction n as [|n IH]; intros a; simpl; [done|]. change (due e (set_buffer b a)) with (due e a).
  destruct (due e a); [|done]. by rewrite close_cycle_buffer, IH.
Qed.
Lemma settle_buffer e b (a : t) : settle e (set_buffer b a) = set_buffer b (settle e a).
Proof. apply settle_n_buffer. Qed.
Lemma process_buffer b : forall l (a : t), process l (set_buffer b a) = set_buffer b (process l a).
Proof.
  induction l as [|[z e] l IH]; intros a; simpl; [done|]. by rewrite settle_buffer, consume_buffer, IH.
Qed.
Lemma set_buffer_twice b b' (a : t) : set_buffer b (set_buffer b' a) = set_buffer b a.
Proof. done. Qed.
Lemma set_buffer_self (a : t) : set_buffer (timeSortingUpdateEventBuffer a) a = a.
Proof. by destruct a. Qed.

Definition tagged (l : list (Z * TimeSortedUpdateEvent)) : Prop :=
  Forall (fun p => p.1 = getTimestampOfUpdateEvent p.2) l.

Lemma process_spec : forall l (a : t), wf a -> wf (process l a) /\ same_config a (process l a).
Proof.
  induction l as [|[z e] l IH]; intros a Hwf; simpl; [done|].
  destruct (settle_spec e a Hwf) as (Hw1 & Hc1 & _). destruct (consume_spec e _ Hw1) as (Hw2 & Hc2 & _).
  destruct (IH _ Hw2) as (Hw3 & Hc3). split; [done|]. by do 2 (etrans; [done|]).
Qed.

Lemma loop_process sync m K L : tagged L -> Forall (fun p => m <= p.1 <= sync) L ->
  forall n i f (a : t), wf a -> (i + n = length L)%nat ->
  TimeSortingBuffer.rep (timeSortingUpdateEventBuffer a) L i ->
  m <= referenceCycleEnd a -> K = S (Z.to_nat ((sync - m) / k_aliveReferenceCycle a)) ->
  (n * (K + 1) <= f)%nat ->
  exists b, TimeSortingBuffer.capacity b = TimeSortingBuffer.capacity (timeSortingUpdateEventBuffer a) /\
    ('(cur, b0) ← TimeSortingBuffer.getNextElement (timeSortingUpdateEventBuffer a);
     evaluate_loop f sync cur (set_buffer b0 a)) = Ret (set_buffer b (process (drop i L) a)).
Proof.
  intros Htag Hle. induction n as [|n IH]; intros i f a Hwf Hi Hrep Hm HK Hf;
    destruct (TimeSortingBuffer.getNextElement_spec _ _ _ Hrep) as (b0 & -> & Hcap & Hrep0); cbn [mbind outcome_bind].
  { rewrite lookup_ge_None_2 by lia. rewrite drop_ge by lia. exists b0. split; [done|]. by destruct f. }
  destruct (lookup_lt_is_Some_2 L i ltac:(lia)) as [[z e] Hze]. rewrite Hze. cbn [fmap option_fmap option_map snd].
  rewrite bool_decide_eq_true_2 in Hrep0 by lia. rewrite (drop_S _ _ _ Hze). cbn [process].
  unfold tagged in Htag. rewrite Forall_lookup in Htag, Hle. specialize (Htag _ _ Hze) as Ht. specialize (Hle _ _ Hze) as Hl.
  simpl in Ht, Hl. set (a0 := set_buffer b0 a). assert (Hwf0 : wf a0) by (destruct Hwf; by split).
  destruct (settle_spec e a0 Hwf0) as (Hw1 & Hc1 & Hd1 & Hr1 & _). unfold settle in Hd1.
  assert (HcK : (cycles_until (getTimestampOfUpdateEvent e) a0 <= K)%nat).
  { subst K. unfold cycles_until. assert (Hdiv : (getTimestampOfUpdateEvent e - referenceCycleEnd a0) / k_aliveReferenceCycle a0
      <= (sync - m) / k_aliveReferenceCycle a); [|lia].
    apply Z.div_le_mono; [apply Hwf|]. simpl. lia. }
  destruct (loop_settle sync e (cycles_until (getTimestampOfUpdateEvent e) a0)
    (f - cycles_until (getTimestampOfUpdateEvent e) a0) a0 Hwf0 ltac:(lia) Hd1) as (f' & Hf' & Eq).
  replace (cycles_until (getTimestampOfUpdateEvent e) a0 + (f - cycles_until (getTimestampOfUpdateEvent e) a0))%nat
    with f in Eq by lia.
  rewrite Eq. fold (settle e a0). fold (settle e a0) in Hd1. destruct f' as [|f']; [lia|].
  rewrite loop_event by (try done; lia). unfold a0. rewrite settle_buffer, consume_buffer.
  set (a1 := consume e (settle e a)). destruct (settle_spec e a Hwf) as (Hw2 & Hc2 & _ & Hr2 & _).
  destruct (consume_spec e _ Hw2) as (Hw3 & Hc3 & Hend). fold a1 in Hw3, Hc3, Hend.
  assert (Hca : same_config a a1) by (by etrans). assert (Hcy := Hca). destruct Hcy as [Hcy _].
  destruct (IH (S i) f' (set_buffer b0 a1)) as (b & Hb & E).
  - destruct Hw3. by split.
  - lia.
  - done.
  - simpl. pose proof (wf_cycle _ Hw3) as Hc. pose proof (wf_status _ Hw3) as Hs. pose proof (wf_end _ Hwf) as He.
    destruct Hend as [Hna|[[_ Hsame]|Hnew]]; [|lia|].
    + unfold active in Hna. destruct (aliveStatus a1); try done; destruct Hs as (_ & -> & _); lia.
    + destruct Hc2 as [Hc2 _]. lia.
  - simpl. by rewrite Hcy.
  - simpl. lia.
  - exists b. simpl in Hb. split; [by rewrite Hb|]. etrans; [exact E|]. by rewrite process_buffer, set_buffer_twice.
Qed.

(** ** [evaluate] *)

(** The buffer holds the events [l], each under its own timestamp. *)
Record ready (l : list (Z * TimeSortedUpdateEvent)) (a : t) : Prop := {
  rd_rep : TimeSortingBuffer.rep (timeSortingUpdateEventBuffer a) l 0;
  rd_sorted : TimeSortingBuffer.sorted l;
  rd_tagged : tagged l
}.

Definition buffer_size (a : t) : nat := TimeSortingBuffer.capacity (timeSortingUpdateEventBuffer a).
Definition emptied (sync : Z) (cap : nat) (a : t) : t :=
  set_lastSync sync (set_buffer (TimeSortingBuffer.make cap) a).

Lemma wf_emptied sync cap (a : t) : wf a -> wf (emptied sync cap a).
Proof. intros []. by split. Qed.
Lemma wf_set_buffer b (a : t) : wf a -> wf (set_buffer b a).
Proof. intros []. by split. Qed.
Lemma wf_dataLoss d (a : t) : wf a -> wf (set_dataLoss d a).
Proof. intros []. by split. Qed.
Lemma ready_emptied sync cap (a : t) : ready [] (emptied sync cap a).
Proof. split; [apply TimeSortingBuffer.make_buffer_rep|constructor..]. Qed.

Lemma earliest_le (a : t) :
  earliest a <= referenceCycleEnd a /\
  forall e, e ∈ TimeSortingBuffer.timeSortedBuffer (timeSortingUpdateEventBuffer a) ->
    earliest a <= TimeSortingBuffer.timestamp e.
Proof.
  unfold earliest. induction (TimeSortingBuffer.timeSortedBuffer _) as [|x l [IH1 IH2]]; simpl.
  - split; [lia|]. intros e He. by apply elem_of_nil in He.
  - split; [lia|]. intros e [->|He]%elem_of_cons; [lia|]. specialize (IH2 e He). lia.
Qed.

Lemma set_dataLoss_same d (a : t) : dataLossReason a = d -> set_dataLoss d a = a.
Proof. destruct a. simpl. by intros ->. Qed.

(** The data-loss reaction. *)
Definition lose (a : t) : t := if bool_decide (aliveStatus a = kExpired) then set_dataLoss kNoDataLoss a else expire a.

Lemma handleDataLossReaction_lose (a : t) : dataLossReason a <> kNoDataLoss ->
  handleDataLossReaction a = Ret (set_buffer (TimeSortingBuffer.make (buffer_size a)) (lose a)).
Proof.
  intros Hd. unfold handleDataLossReaction, lose. destruct (decide (aliveStatus a = kExpired)).
  - rewrite bool_decide_eq_false_2, bool_decide_eq_true_2 by auto. done.
  - rewrite bool_decide_eq_true_2, bool_decide_eq_false_2 by done.
    rewrite switchToExpired_expire by (by right). cbn [mbind outcome_bind].
    rewrite (set_dataLoss_same kNoDataLoss (clear_buffer (expire a))) by reflexivity. reflexivity.
Qed.

Lemma push_event_spec e z l (a : t) : ready l a -> z = getTimestampOfUpdateEvent e ->
  exists a', push_event e z a = Ret a' /\ buffer_size a' = buffer_size a /\
    if bool_decide (length l < buffer_size a)%nat
    then exists b, a' = set_buffer b a /\ ready (TimeSortingBuffer.insert (z, e) l) a'
    else a' = set_eventTime (lastSyncTimestamp a) (set_dataLoss kBufferFull a).
Proof.
  intros [Hr Hs Ht] Hz. unfold push_event.
  destruct (TimeSortingBuffer.buffer_push_spec _ _ _ e z Hr Hs) as (b & -> & Hcap & Hb). cbn [mbind outcome_bind].
  unfold buffer_size. eexists. split; [done|]. case_bool_decide.
  - split; [done|]. exists b. split; [done|]. split; [exact Hb|by apply TimeSortingBuffer.insert_sorted|].
    unfold tagged. rewrite TimeSortingBuffer.insert_perm. by constructor.
  - subst b. rewrite set_buffer_self. done.
Qed.

Lemma evaluate_process l sync (a : t) : wf a -> ready l a -> dataLossReason a = kNoDataLoss ->
  Forall (fun p => p.1 <= sync) l -> (length l < buffer_size a)%nat ->
  evaluate sync a = Ret (emptied sync (buffer_size a) (process (l ++ [(sync, SyncSnapshot sync)]) a)).
Proof.
  intros Hwf Hrd Hdl Hle Hlen. unfold evaluate, storeSyncEvent.
  destruct (push_event_spec (SyncSnapshot sync) sync l a Hrd eq_refl) as (a0 & -> & Hcap & Hpost).
  rewrite bool_decide_eq_true_2 in Hpost by done. destruct Hpost as (b & -> & [Hr Hs Ht]).
  cbn [mbind outcome_bind]. rewrite bool_decide_eq_false_2 by (cbn; by intros []).
  rewrite TimeSortingBuffer.insert_last in Hr, Hs, Ht by done.
  set (L := l ++ [(sync, SyncSnapshot sync)]) in *. set (a0 := set_buffer b a) in *.
  pose proof (earliest_le a0) as [He1 He2].
  assert (HL : Forall (fun p => earliest a0 <= p.1 <= sync) L).
  { apply Forall_forall. intros [z e] Hin. split.
    - destruct (TimeSortingBuffer.rep_stored _ _ _ _ _ Hr Hin) as (x & Hx & <-). by apply He2.
    - apply elem_of_snoc_iff in Hin as [Hin|Hin]; [|by simplify_eq/=]. rewrite Forall_forall in Hle. by apply (Hle (z, e)). }
  destruct (loop_process sync (earliest a0) (cycles_per_event sync a0) L Ht HL (length L) 0
    (evaluate_fuel sync a0) a0) as (b' & Hb' & E); try done.
  { by apply wf_set_buffer. }
  { unfold evaluate_fuel. rewrite (TimeSortingBuffer.rep_length _ _ _ Hr). apply Nat.mul_le_mono_l. lia. }
  rewrite drop_0 in E.
  destruct (TimeSortingBuffer.getNextElement (timeSortingUpdateEventBuffer a0)) as [[cur b1]|]; [|done].
  cbn [mbind outcome_bind] in E |- *. rewrite E. cbn [mbind outcome_bind]. f_equal.
  unfold a0. rewrite process_buffer. unfold clear_buffer, emptied. rewrite !set_buffer_twice. f_equal. f_equal.
  unfold TimeSortingBuffer.clear, TimeSortingBuffer.make. f_equal. rewrite <- Hcap. exact Hb'.
Qed.

Lemma evaluate_loss l sync (a : t) : ready l a -> dataLossReason a <> kNoDataLoss \/ length l = buffer_size a ->
  exists d z, d <> kNoDataLoss /\
    evaluate sync a = Ret (emptied sync (buffer_size a) (lose (set_eventTime z (set_dataLoss d a)))) /\
    z = (if bool_decide (length l < buffer_size a)%nat then eventTimestamp a else lastSyncTimestamp a).
Proof.
  intros Hrd Hd. unfold evaluate, storeSyncEvent.
  destruct (push_event_spec (SyncSnapshot sync) sync l a Hrd eq_refl) as (a0 & -> & Hcap & Hpost).
  cbn [mbind outcome_bind]. case_bool_decide as Hb.
  - destruct Hpost as (b & -> & _). destruct Hd as [Hd|]; [|lia].
    exists (dataLossReason a), (eventTimestamp a). rewrite bool_decide_eq_true_2 by done.
    rewrite handleDataLossReaction_lose by done. split_and!; try done. cbn [mbind outcome_bind]. rewrite Hcap. f_equal.
    unfold lose, emptied. simpl. destruct a. simpl. by case_bool_decide.
  - subst a0. exists kBufferFull, (lastSyncTimestamp a). rewrite bool_decide_eq_true_2 by done.
    rewrite handleDataLossReaction_lose by done. split_and!; try done.
Qed.

(** ** Reports and recovery requests *)

(** The transitions of the documented state machine. *)
Definition allowed (s s' : EStatus) : bool :=
  match s, s' with
  | kDeactivated, kOk | kDeactivated, kExpired => true
  | kOk, kFailed | kOk, kExpired | kOk, kDeactivated => true
  | kFailed, kOk | kFailed, kExpired | kFailed, kDeactivated => true
  | kExpired, kDeactivated => true
  | _, _ => false
  end.

Fixpoint follows (s : EStatus) (log : list (EStatus * Z)) (s' : EStatus) : Prop :=
  match log with [] => s = s' | (x, _) :: log' => allowed s x = true /\ follows x log' s' end.

(** One request per report of [kExpired], with its timestamp. *)
Fixpoint replay (id : Id) (log : list (EStatus * Z)) (r : bool * R) : bool * R :=
  match log with
  | [] => r
  | (kExpired, z) :: log' =>
      let '(ok, r') := sendRecoveryRequest id z r.2 in replay id log' (if ok then r.1 else true, r')
  | _ :: log' => replay id log' r
  end.

Definition recovery (a : t) : bool * R := (recoveryEnqueueFailed_ a, recoveryClient a).

Definition moves (a a' : t) : Prop :=
  processIdentifier_ a' = processIdentifier_ a /\
  exists log, reported a' = reported a ++ log /\ follows (aliveStatus a) log (aliveStatus a') /\
    recovery a' = replay (processIdentifier_ a) log (recovery a).

#[local] Instance moves_refl : Reflexive moves.
Proof. intros a. split; [done|]. exists []. by rewrite app_nil_r. Qed.

Lemma follows_app s1 s2 s3 l1 l2 : follows s1 l1 s2 -> follows s2 l2 s3 -> follows s1 (l1 ++ l2) s3.
Proof.
  revert s1. induction l1 as [|[x z] l1 IH]; intros s1; simpl; [by intros ->|]. intros [Ha Hf] H2. auto.
Qed.
Lemma replay_app id l1 : forall l2 r, replay id (l1 ++ l2) r = replay id l2 (replay id l1 r).
Proof.
  induction l1 as [|[x z] l1 IH]; intros l2 r; simpl; [done|]. destruct x; auto.
  destruct (sendRecoveryRequest id z r.2). auto.
Qed.

#[local] Instance moves_trans : Transitive moves.
Proof.
  intros a1 a2 a3 [Hi1 (l1 & Hr1 & Hf1 & Hs1)] [Hi2 (l2 & Hr2 & Hf2 & Hs2)]. split; [congruence|].
  exists (l1 ++ l2). rewrite Hr2, Hr1, app_assoc, replay_app, <- Hs1, Hs2, Hi1. split_and!; try done. by eapply follows_app.
Qed.

(** What is not seen from outside. *)
Lemma moves_quiet (a a' : t) : processIdentifier_ a' = processIdentifier_ a -> reported a' = reported a ->
  aliveStatus a' = aliveStatus a -> recovery a' = recovery a -> moves a a'.
Proof. intros Hi Hr Hs Hc. split; [done|]. exists []. by rewrite app_nil_r, Hr, Hs, Hc. Qed.

Lemma moves_report s z (a a' : t) : processIdentifier_ a' = processIdentifier_ a ->
  reported a' = reported a ++ [(s, z)] -> aliveStatus a' = s -> allowed (aliveStatus a) s = true ->
  recovery a' = replay (processIdentifier_ a) [(s, z)] (recovery a) -> moves a a'.
Proof. intros Hi Hr Hs Ha Hc. split; [done|]. exists [(s, z)]. by rewrite Hr, Hc, Hs. Qed.

Lemma moves_expire (a : t) : aliveStatus a <> kExpired -> moves a (expire a).
Proof.
  intros Hs. apply (moves_report kExpired (eventTimestamp a)); try done; [by destruct (aliveStatus a)|].
  unfold recovery, expire, send. simpl. by destruct (sendRecoveryRequest _ _ _).
Qed.

Lemma moves_deactivate z (a : t) : aliveStatus a <> kDeactivated -> moves a (switchToDeactivated (set_eventTime z a)).
Proof. intros Hs. apply (moves_report kDeactivated z); try done. by destruct (aliveStatus a). Qed.

Lemma moves_next_cycle (a : t) : active a = true -> moves a (next_cycle a).
Proof.
  intros Hact. unfold next_cycle. destruct (_ <? _); [|by apply moves_quiet].
  etrans; [by apply (moves_quiet a (set_eventTime (referenceCycleEnd a) a))|]. apply moves_expire.
  unfold active in Hact. simpl. by destruct (aliveStatus a).
Qed.

Lemma moves_close_cycle (a : t) : active a = true -> moves a (close_cycle a).
Proof.
  intros Hact. unfold close_cycle. etrans; [by apply (moves_quiet a (set_eventTime (referenceCycleEnd a) a))|].
  set (a1 := set_eventTime (referenceCycleEnd a) a). assert (Hact1 : active a1 = true) by done. clearbody a1. clear Hact.
  assert (Hne : aliveStatus a1 <> kExpired) by (unfold active in Hact1; by destruct (aliveStatus a1)).
  assert (Hnext : forall a2, active a2 = true -> moves a1 a2 -> moves a1 (next_cycle a2))
    by (intros a2 ? ?; etrans; [done|by apply moves_next_cycle]).
  destruct (bad_cycle a1).
  - destruct (_ <? _); [|by apply moves_expire].
    destruct (aliveStatus a1) eqn:Est; try (by unfold active in Hact1; rewrite Est in Hact1); apply Hnext; try done.
    + apply (moves_report kFailed (eventTimestamp a1)); try done. by rewrite Est.
    + by apply moves_quiet.
  - destruct (aliveStatus a1) eqn:Est; try (by unfold active in Hact1; rewrite Est in Hact1); [by apply Hnext|].
    destruct (_ <=? 1); apply Hnext; try done.
    + apply (moves_report kOk (eventTimestamp a1)); try done. by rewrite Est.
    + by apply moves_quiet.
Qed.

Lemma moves_settle e (a : t) : moves a (settle e a).
Proof.
  unfold settle. generalize (cycles_until (getTimestampOfUpdateEvent e) a). intros n. revert a.
  induction n as [|n IH]; intros a; simpl; [done|]. destruct (due e a) eqn:Hd; [|done].
  apply due_active in Hd as [Hact _]. etrans; [by apply moves_close_cycle|]. apply IH.
Qed.

Lemma moves_consume e (a : t) : moves a (consume e a).
Proof.
  assert (Hex : forall z, aliveStatus a <> kExpired -> moves a (expire (set_eventTime z a))).
  { intros z Hs. etrans; [by apply (moves_quiet a (set_eventTime z a))|]. by apply moves_expire. }
  destruct e as [z [|]|z|z]; simpl; [| | |done].
  - destruct (aliveStatus a) eqn:Est; try done. destruct (_ <? _); [by apply Hex|].
    apply (moves_report kOk z); try done. by rewrite Est.
  - destruct (aliveStatus a) eqn:Est; try done; apply moves_deactivate; by rewrite Est.
  - unfold active. destruct (aliveStatus a) eqn:Est; try done; (destruct (_ =? _); [by apply Hex|apply moves_quiet; by rewrite ?Est]).
Qed.

Lemma moves_process : forall l (a : t), moves a (process l a).
Proof.
  induction l as [|[z e] l IH]; intros a; simpl; [done|].
  etrans; [apply moves_settle|]. etrans; [apply moves_consume|]. apply IH.
Qed.

Lemma moves_lose d z (a : t) : moves a (lose (set_eventTime z (set_dataLoss d a))).
Proof.
  unfold lose. case_bool_decide; [by apply moves_quiet|].
  etrans; [by apply (moves_quiet a (set_eventTime z (set_dataLoss d a)))|]. by apply moves_expire.
Qed.

Lemma wf_lose (a : t) : wf a -> wf (lose a).
Proof. intros. unfold lose. case_bool_decide; [by apply wf_dataLoss|by apply wf_expire]. Qed.

Lemma process_app l1 : forall l2 (a : t), process (l1 ++ l2) a = process l2 (process l1 a).
Proof. induction l1 as [|[z e] l1 IH]; intros l2 a; simpl; [done|]. apply IH. Qed.

(** After the synchronisation event no cycle is overdue. *)
Lemma process_sync_due sync l (a : t) : wf a ->
  due (SyncSnapshot sync) (process (l ++ [(sync, SyncSnapshot sync)]) a) = false.
Proof.
  intros Hwf. rewrite process_app. simpl. destruct (process_spec l a Hwf) as [Hw _].
  by destruct (settle_spec (SyncSnapshot sync) _ Hw) as (_ & _ & ? & _).
Qed.

Lemma not_due_sync sync (a : t) : due (SyncSnapshot sync) a = false -> active a = true -> sync < referenceCycleEnd a.
Proof.
  unfold due, detectEvaluationEvent, active. simpl. destruct (aliveStatus a); try done;
    intros [?%Z.ltb_ge Hn]%orb_false_iff _; rewrite andb_true_r in Hn; apply Z.eqb_neq in Hn; lia.
Qed.

(** ** Claims *)

(** The state between two evaluations. *)
Record between (l : list (Z * TimeSortedUpdateEvent)) (a : t) : Prop := {
  bt_wf : wf a;
  bt_ready : ready l a
}.

(** Without a new loss none is pending. *)
Lemma close_cycle_loss (a : t) : dataLossReason a = kNoDataLoss -> dataLossReason (close_cycle a) = kNoDataLoss.
Proof.
  intros Hd. unfold close_cycle. set (a1 := set_eventTime (referenceCycleEnd a) a).
  assert (Hd1 : dataLossReason a1 = kNoDataLoss) by done. clearbody a1.
  assert (Hn : forall a2, dataLossReason a2 = kNoDataLoss -> dataLossReason (next_cycle a2) = kNoDataLoss)
    by (intros a2 ?; unfold next_cycle; by destruct (_ <? _)).
  destruct (bad_cycle a1); [destruct (_ <? _)|]; try done; destruct (aliveStatus a1);
    try destruct (_ <=? 1); by apply Hn.
Qed.

Lemma process_loss : forall l (a : t), dataLossReason a = kNoDataLoss -> dataLossReason (process l a) = kNoDataLoss.
Proof.
  induction l as [|[z e] l IH]; intros a Hd; simpl; [done|]. apply IH.
  assert (Hs : dataLossReason (settle e a) = kNoDataLoss).
  { unfold settle. generalize (cycles_until (getTimestampOfUpdateEvent e) a) as n. intros n. revert a Hd.
    induction n as [|n IHn]; intros a Hd; simpl; [done|]. destruct (due e a); [|done]. by apply IHn, close_cycle_loss. }
  destruct e as [y [|]|y|y]; unfold consume, active; simpl; repeat case_match; done.
Qed.

(** Every evaluation is one of two things. *)
Lemma evaluate_cases l sync (a : t) : between l a -> Forall (fun p => p.1 <= sync) l ->
  exists a', evaluate sync a = Ret (emptied sync (buffer_size a) a') /\ wf a' /\ moves a a' /\
    dataLossReason a' = kNoDataLoss /\
    (a' = process (l ++ [(sync, SyncSnapshot sync)]) a /\ dataLossReason a = kNoDataLoss \/ aliveStatus a' = kExpired).
Proof.
  intros [Hwf Hrd] Hle.
  destruct (decide (dataLossReason a = kNoDataLoss /\ (length l < buffer_size a)%nat)) as [[Hd Hl]|Hd].
  - rewrite (evaluate_process l) by done. eexists. split; [done|]. split_and!; [|apply moves_process|by apply process_loss|by left].
    by destruct (process_spec (l ++ [(sync, SyncSnapshot sync)]) a Hwf).
  - assert (Hb : (length l <= buffer_size a)%nat) by (apply Hrd).
    destruct (evaluate_loss l sync a Hrd) as (d & z & Hdn & -> & _).
    { destruct (decide (dataLossReason a = kNoDataLoss)) as [E|E]; [right|by left].
      destruct (decide (length l < buffer_size a)%nat); [by destruct Hd|lia]. }
    eexists. split; [done|]. split_and!; [by apply wf_lose, wf_eventTime, wf_dataLoss|apply moves_lose| |];
      unfold lose; case_bool_decide; auto.
Qed.

(** An evaluation always ends, whatever the number of reference cycles in
    it, and keeps the invariant: inactive supervisions have no running cycle and
    no counts, an active one has its cycle window and a failure count within
    its tolerance.  It leaves the buffer empty and no data loss pending, and no
    reference cycle of an active supervision is overdue.  The only demand is that
    no buffered event is newer than the synchronisation time. *)
Theorem evaluate_total (l : list (Z * TimeSortedUpdateEvent)) (sync : Z) (a : t) :
  between l a -> Forall (fun p => p.1 <= sync) l ->
  exists a', evaluate sync a = Ret a' /\ between [] a' /\ buffer_size a' = buffer_size a /\
    lastSyncTimestamp a' = sync /\ dataLossReason a' = kNoDataLoss /\ (active a' = true -> sync < referenceCycleEnd a').
Proof.
  intros Hb Hle. destruct (evaluate_cases l sync a Hb Hle) as (a' & -> & Hw & _ & Hd & Hc). eexists. split; [done|].
  split_and!; try done; [split; [by apply wf_emptied|apply ready_emptied]|]. intros Hact. destruct Hc as [[-> _]|Hx].
  - apply not_due_sync; [|done]. apply process_sync_due, Hb.
  - unfold active in Hact. simpl in Hact. by rewrite Hx in Hact.
Qed.

(** C13: the statuses that an evaluation reports follow the documented state
    machine from the old status to the new one, and the recovery client gets
    exactly one request per report of [kExpired], in the same order and with the same
    timestamp; [hasRecoveryEnqueueFailed] is set exactly when a request was refused. *)
Theorem evaluate_follows_state_machine (l : list (Z * TimeSortedUpdateEvent)) (sync : Z) (a : t) :
  between l a -> Forall (fun p => p.1 <= sync) l ->
  exists a' log, evaluate sync a = Ret a' /\ reported a' = reported a ++ log /\
    follows (aliveStatus a) log (aliveStatus a') /\
    (recoveryEnqueueFailed_ a', recoveryClient a') =
      replay (processIdentifier_ a) log (recoveryEnqueueFailed_ a, recoveryClient a).
Proof.
  intros Hb Hle. destruct (evaluate_cases l sync a Hb Hle) as (a' & -> & _ & [_ (log & Hr & Hf & Hs)] & _).
  by exists (emptied sync (buffer_size a) a'), log.
Qed.

(** Without a deactivation an active supervision cannot become inactive. *)
Definition no_deactivation (l : list (Z * TimeSortedUpdateEvent)) : Prop :=
  Forall (fun p => match p.2 with SupervisionEventSnapshot _ EvDeactivation => False | _ => True end) l.

Lemma settle_n_running e n : forall a : t, aliveStatus a <> kDeactivated -> wf a -> aliveStatus (settle_n n e a) <> kDeactivated.
Proof.
  induction n as [|n IH]; intros a Ha Hwf; simpl; [done|]. destruct (due e a) eqn:Hd; [|done].
  apply due_active in Hd as [Hact _]. destruct (close_cycle_spec a Hwf Hact) as (Hw & _ & Hs). apply IH; [|done].
  destruct Hs as [->|[Hs _]]; [done|]. unfold active in Hs. by destruct (aliveStatus (close_cycle a)).
Qed.

Lemma process_running : forall l (a : t), no_deactivation l -> wf a -> aliveStatus a <> kDeactivated ->
  aliveStatus (process l a) <> kDeactivated.
Proof.
  induction l as [|[z e] l IH]; intros a Hn Hwf Ha; simpl; [done|]. apply Forall_cons in Hn as [He Hn].
  destruct (settle_spec e a Hwf) as (Hw1 & _). destruct (consume_spec e _ Hw1) as (Hw2 & _). apply IH; try done.
  pose proof (settle_n_running e (cycles_until (getTimestampOfUpdateEvent e) a) a Ha Hwf) as Hs. fold (settle e a) in Hs.
  set (a1 := settle e a) in *. clearbody a1.
  destruct e as [y [|]|y|y]; simpl in He |- *; try done; repeat case_match; simpl; congruence.
Qed.

(** When the clock cannot be read, the cyclic executor evaluates with the
    largest timestamp.  Every supervision that is active then and is not being
    deactivated ends expired, and its recovery is requested, however regularly
    its process has reported. *)
Theorem clock_failure_expires_supervision (l : list (Z * TimeSortedUpdateEvent)) (a : t) :
  between l a -> Forall (fun p => p.1 <= INT64_MAX) l -> active a = true -> no_deactivation l ->
  exists a' z log, evaluate INT64_MAX a = Ret a' /\ aliveStatus a' = kExpired /\
    reported a' = reported a ++ log /\ (kExpired, z) ∈ log.
Proof.
  intros Hb Hle Hact Hn. destruct (evaluate_cases l INT64_MAX a Hb Hle) as (a' & -> & Hw & [_ (log & Hr & Hf & _)] & _ & Hc).
  assert (Hx : aliveStatus a' = kExpired).
  { destruct Hc as [[-> _]|Hx]; [|done]. pose proof (process_sync_due INT64_MAX l a (bt_wf _ _ Hb)) as Hd.
    assert (Hne : aliveStatus (process (l ++ [(INT64_MAX, SyncSnapshot INT64_MAX)]) a) <> kDeactivated).
    { apply process_running; [|apply Hb|by unfold active in Hact; destruct (aliveStatus a)].
      apply Forall_app. split; [done|]. by constructor. }
    pose proof (not_due_sync _ _ Hd) as Hlt. pose proof (wf_end _ Hw) as He. unfold active in Hlt.
    destruct (aliveStatus (process _ a)); try done; specialize (Hlt eq_refl); lia. }
  assert (Hin : exists z, (kExpired, z) ∈ log).
  { rewrite Hx in Hf. assert (Hs : aliveStatus a <> kExpired) by (unfold active in Hact; by destruct (aliveStatus a)).
    clear -Hf Hs. revert Hf Hs. generalize (aliveStatus a). induction log as [|[x z] log IH]; intros s; simpl; [done|].
    intros [_ Hf] _. destruct (decide (x = kExpired)) as [->|Hx]; [exists z; by left|].
    destruct (IH x Hf Hx) as [y Hy]. exists y. by right. }
  destruct Hin as [z Hz]. by exists (emptied INT64_MAX (buffer_size a) a'), z, log.
Qed.

(** ** Detection of a silent process, and no false alarms *)

Lemma settle_n_stable e : forall n k (a : t), due e (settle_n n e a) = false -> settle_n (n + k) e a = settle_n n e a.
Proof.
  induction n as [|n IH]; intros k a Hd; simpl in *; [by destruct k; simpl; rewrite ?Hd|].
  destruct (due e a); [by apply IH|done].
Qed.

Lemma settle_n_agree e n m (a : t) : due e (settle_n n e a) = false -> due e (settle_n m e a) = false ->
  settle_n n e a = settle_n m e a.
Proof.
  intros Hn Hm. destruct (Nat.le_ge_cases n m).
  - replace m with (n + (m - n))%nat by lia. by rewrite settle_n_stable.
  - replace n with (m + (n - m))%nat by lia. by rewrite settle_n_stable.
Qed.

Lemma process_due z e l (a : t) : wf a -> due e a = true ->
  process ((z, e) :: l) a = process ((z, e) :: l) (close_cycle a).
Proof.
  intros Hwf Hd. simpl. do 2 f_equal. destruct (due_active _ _ Hd) as [Hact _].
  destruct (close_cycle_spec a Hwf Hact) as (Hw & _). destruct (settle_spec e a Hwf) as (_ & _ & Hs & _).
  destruct (settle_spec e (close_cycle a) Hw) as (_ & _ & Hs' & _).
  change (settle e (close_cycle a)) with (settle_n (cycles_until (getTimestampOfUpdateEvent e) (close_cycle a)) e (close_cycle a)) in *.
  unfold settle in *. unfold cycles_until in Hs |- * at 1. cbn [settle_n] in Hs |- *. rewrite Hd in Hs |- *. by apply settle_n_agree.
Qed.

Lemma process_not_due z e l (a : t) : due e a = false -> process ((z, e) :: l) a = process l (consume e a).
Proof. intros Hd. simpl. unfold settle, cycles_until. simpl. by rewrite Hd. Qed.

Lemma due_sync sync (a : t) : active a = true -> due (SyncSnapshot sync) a = (referenceCycleEnd a <=? sync).
Proof.
  unfold due, detectEvaluationEvent, active. simpl. rewrite andb_true_r.
  destruct (aliveStatus a); try done; intros _; destruct (Z.ltb_spec (referenceCycleEnd a) sync),
    (Z.eqb_spec (referenceCycleEnd a) sync), (Z.leb_spec (referenceCycleEnd a) sync); try done; lia.
Qed.

(** No indications where some are demanded. *)
Definition starving (a : t) : Prop := indicationCount a < k_minAliveIndications a /\ 0 < k_minAliveIndications a.

Lemma starving_bad (a : t) : starving a -> bad_cycle (set_eventTime (referenceCycleEnd a) a) = true.
Proof.
  intros [Hlt Hpos]. unfold bad_cycle, isMinError, k_isMinCheckDisabled. simpl.
  rewrite (proj2 (Z.eqb_neq _ _)), (proj2 (Z.ltb_lt _ _)) by lia. done.
Qed.

Definition failed_report (a : t) : list (EStatus * Z) :=
  match aliveStatus a with kFailed => [] | _ => [(kFailed, referenceCycleEnd a)] end.

(** A bad cycle within the tolerance. *)
Lemma close_cycle_tolerated (a : t) : wf a -> active a = true -> starving a ->
  failedSupervisionCycles a < k_failedSupervisionCyclesTolerance a ->
  referenceCycleEnd a + k_aliveReferenceCycle a <= INT64_MAX ->
  let a' := close_cycle a in
  wf a' /\ same_config a a' /\ aliveStatus a' = kFailed /\ starving a' /\
  referenceCycleEnd a' = referenceCycleEnd a + k_aliveReferenceCycle a /\
  failedSupervisionCycles a' = failedSupervisionCycles a + 1 /\ recovery a' = recovery a /\
  reported a' = reported a ++ failed_report a.
Proof.
  intros Hwf Hact Hst Hlt Hov. destruct (close_cycle_spec a Hwf Hact) as (Hw & Hc & _). simpl.
  split; [done|]. split; [done|]. destruct Hst as [Hst Hpos]. clear Hw Hc.
  unfold close_cycle, failed_report. rewrite starving_bad by done. simpl. rewrite (proj2 (Z.ltb_lt _ _)) by done.
  unfold next_cycle, active, starving in *. destruct (aliveStatus a) eqn:Est; try done; simpl;
    rewrite (proj2 (Z.ltb_ge _ _)) by lia; simpl; rewrite ?Est, ?app_nil_r; split_and!; try done; lia.
Qed.

(** The one beyond it. *)
Lemma close_cycle_exceeded (a : t) : wf a -> active a = true -> starving a ->
  failedSupervisionCycles a = k_failedSupervisionCyclesTolerance a ->
  close_cycle a = expire (set_eventTime (referenceCycleEnd a) a).
Proof.
  intros Hwf Hact Hst Hf. unfold close_cycle. rewrite starving_bad by done. simpl.
  by rewrite Hf, (proj2 (Z.ltb_ge _ _)) by lia.
Qed.

Lemma silence sync : sync <= INT64_MAX -> forall (d : nat) (a : t), wf a -> active a = true -> starving a ->
  failedSupervisionCycles a + Z.of_nat d = k_failedSupervisionCyclesTolerance a ->
  referenceCycleEnd a + Z.of_nat d * k_aliveReferenceCycle a <= sync ->
  let z := referenceCycleEnd a + Z.of_nat d * k_aliveReferenceCycle a in
  let a' := process [(sync, SyncSnapshot sync)] a in
  aliveStatus a' = kExpired /\ eventTimestamp a' = z /\
  reported a' = reported a ++ (match d with O => [] | _ => failed_report a end) ++ [(kExpired, z)] /\
  recovery a' = replay (processIdentifier_ a) [(kExpired, z)] (recovery a).
Proof.
  intros Hsync. induction d as [|d IH]; intros a Hwf Hact Hst Hf Hz.
  - assert (Hd : due (SyncSnapshot sync) a = true) by (rewrite due_sync, Z.leb_le by done; lia).
    rewrite (process_due sync _ _ a Hwf Hd), close_cycle_exceeded by (done || lia).
    rewrite process_not_due by done. cbn [consume process].
    replace (referenceCycleEnd a + Z.of_nat 0 * k_aliveReferenceCycle a) with (referenceCycleEnd a) by lia.
    split_and!; try done. unfold recovery, expire, send. simpl. by destruct (sendRecoveryRequest _ _ _).
  - pose proof (wf_cycle _ Hwf) as Hc.
    assert (Hd : due (SyncSnapshot sync) a = true) by (rewrite due_sync, Z.leb_le by done; nia).
    rewrite (process_due sync _ _ a Hwf Hd).
    destruct (close_cycle_tolerated a Hwf Hact Hst) as (Hw & Hcf & Hs & Hst' & He & Hf' & Hrec & Hrep); [lia|nia|].
    destruct Hcf as (Ecy & _ & _ & Etol & Eid).
    destruct (IH (close_cycle a)) as (H1 & H2 & H3 & H4); try done; [by unfold active; rewrite Hs|lia|rewrite He, Ecy; lia|].
    replace (referenceCycleEnd (close_cycle a) + Z.of_nat d * k_aliveReferenceCycle (close_cycle a))
      with (referenceCycleEnd a + Z.of_nat (S d) * k_aliveReferenceCycle a) in * by (rewrite He, Ecy; lia).
    split_and!; try done; [|by rewrite H4, Hrec, Eid].
    rewrite H3, Hrep. destruct d; [by rewrite <- app_assoc|].
    assert (failed_report (close_cycle a) = []) as -> by (unfold failed_report; by rewrite Hs). by rewrite <- app_assoc.
Qed.

Lemma patience sync : forall (d : nat) (a : t), wf a -> active a = true -> starving a ->
  sync + k_aliveReferenceCycle a <= INT64_MAX ->
  failedSupervisionCycles a + Z.of_nat d = k_failedSupervisionCyclesTolerance a ->
  sync < referenceCycleEnd a + Z.of_nat d * k_aliveReferenceCycle a ->
  let a' := process [(sync, SyncSnapshot sync)] a in active a' = true /\ recovery a' = recovery a.
Proof.
  induction d as [|d IH]; intros a Hwf Hact Hst Hov Hf Hz;
    (destruct (due (SyncSnapshot sync) a) eqn:Hd; [|by rewrite process_not_due]).
  - rewrite due_sync, Z.leb_le in Hd by done. lia.
  - rewrite (process_due sync _ _ a Hwf Hd). rewrite due_sync, Z.leb_le in Hd by done.
    destruct (close_cycle_tolerated a Hwf Hact Hst) as (Hw & Hcf & Hs & Hst' & He & Hf' & Hrec & _); [lia|lia|].
    destruct Hcf as (Ecy & _ & _ & Etol & _). rewrite <- Hrec.
    apply IH; try done; [by unfold active; rewrite Hs|by rewrite Ecy|lia|rewrite He, Ecy; lia].
Qed.

(** C14: a process that stops reporting is detected on time.  With no
    indications in the current cycle and none buffered, recovery is requested
    exactly when the evaluation has passed the end of the [tolerance]-th cycle after
    the current one; the request carries that time, and no request is made before. *)
Theorem silence_detected_on_time (sync : Z) (a : t) :
  between [] a -> dataLossReason a = kNoDataLoss -> (0 < buffer_size a)%nat ->
  aliveStatus a = kOk -> starving a -> sync + k_aliveReferenceCycle a <= INT64_MAX ->
  let z := referenceCycleEnd a + k_failedSupervisionCyclesTolerance a * k_aliveReferenceCycle a in
  exists a', evaluate sync a = Ret a' /\
    if bool_decide (z <= sync)
    then aliveStatus a' = kExpired /\ eventTimestamp a' = z /\
      (recoveryEnqueueFailed_ a', recoveryClient a') =
        replay (processIdentifier_ a) [(kExpired, z)] (recoveryEnqueueFailed_ a, recoveryClient a)
    else active a' = true /\ (recoveryEnqueueFailed_ a', recoveryClient a') = (recoveryEnqueueFailed_ a, recoveryClient a).
Proof.
  intros [Hwf Hrd] Hd Hb Hok Hst Hov z. rewrite (evaluate_process []) by done. eexists. split; [done|].
  pose proof Hwf as [Hc Ht He Hs]. rewrite Hok in Hs. destruct Hs as (_ & _ & Hf).
  assert (Hact : active a = true) by (unfold active; by rewrite Hok).
  set (d := Z.to_nat (k_failedSupervisionCyclesTolerance a)).
  assert (Hdz : Z.of_nat d = k_failedSupervisionCyclesTolerance a) by lia. cbn [app]. case_bool_decide as Hz.
  - destruct (silence sync ltac:(lia) d a Hwf Hact Hst) as (H1 & H2 & _ & H4); [lia|lia|].
    rewrite Hdz in H2, H4. done.
  - destruct (patience sync d a Hwf Hact Hst) as [H1 H2]; [done|lia|lia|]. done.
Qed.

Definition checkpoints (cps : list Z) : list (Z * TimeSortedUpdateEvent) := (fun z => (z, CheckpointSnapshot z)) <$> cps.

(** The indications of the [k]-th cycle from now: it includes its end. *)
Definition in_cycle (a : t) (k : nat) (z : Z) : Prop :=
  (k = O \/ referenceCycleEnd a + (Z.of_nat k - 1) * k_aliveReferenceCycle a < z) /\
  z <= referenceCycleEnd a + Z.of_nat k * k_aliveReferenceCycle a.
#[export] Instance in_cycle_dec a k z : Decision (in_cycle a k z).
Proof. unfold in_cycle. apply _. Defined.
Definition indications (a : t) (cps : list Z) (k : nat) : Z :=
  (if decide (k = O) then indicationCount a else 0) + Z.of_nat (length (filter (in_cycle a k) cps)).

(** Within the configured limits, of which 0 means none. *)
Definition within (a : t) (n : Z) : Prop :=
  (k_minAliveIndications a = 0 \/ k_minAliveIndications a <= n) /\
  (k_maxAliveIndications a = 0 \/ n <= k_maxAliveIndications a).

Lemma process_counts l cps : forall a : t, active a = true -> Forall (fun z => z <= referenceCycleEnd a) cps ->
  indicationCount a + Z.of_nat (length cps) <= UINT32_MAX ->
  process (checkpoints cps ++ l) a = process l (set_count (indicationCount a + Z.of_nat (length cps)) a).
Proof.
  induction cps as [|z cps IH]; intros a Hact Hle Hcnt.
  { cbn [checkpoints fmap list_fmap app length]. f_equal. rewrite Z.add_0_r. by destruct a. }
  apply Forall_cons in Hle as [Hz Hle]. cbn [length] in Hcnt.
  change (checkpoints (z :: cps) ++ l) with ((z, CheckpointSnapshot z) :: (checkpoints cps ++ l)).
  rewrite process_not_due.
  2:{ unfold due, detectEvaluationEvent. simpl. rewrite andb_false_r, orb_false_r, (proj2 (Z.ltb_ge _ _)) by done.
      by destruct (aliveStatus a). }
  cbn [consume]. rewrite Hact, (proj2 (Z.eqb_neq _ _)) by lia.
  rewrite IH; [|done|done|cbn; lia]. f_equal. unfold set_count. simpl. f_equal. lia.
Qed.

Lemma sorted_split (E : Z) cps : StronglySorted Z.le cps ->
  cps = filter (fun z => z <= E) cps ++ filter (fun z => E < z) cps.
Proof.
  induction 1 as [|z cps Hs IH Hall]; [done|]. rewrite !filter_cons. destruct (decide (z <= E)) as [Hz|Hz].
  - rewrite decide_False by lia. simpl. by rewrite <- IH.
  - rewrite decide_True by lia.
    assert (Hnil : filter (fun z => z <= E) cps = []).
    { clear -Hall Hz. induction Hall; [done|]. rewrite filter_cons_False by lia. done. }
    rewrite Hnil in IH |- *. simpl in *. by rewrite <- IH.
Qed.

Lemma filter_filter_iff (P Q S : Z -> Prop) `{!forall z, Decision (P z), !forall z, Decision (Q z), !forall z, Decision (S z)} (l : list Z) :
  (forall z, Q z /\ P z <-> S z) -> filter Q (filter P l) = filter S l.
Proof.
  intros Hi. induction l as [|z l IH]; [done|]. rewrite (filter_cons P), (filter_cons S).
  destruct (decide (P z)) as [HP|HP].
  - rewrite filter_cons, IH. destruct (decide (Q z)), (decide (S z)); naive_solver.
  - rewrite IH, decide_False; [done|naive_solver].
Qed.

(** A good cycle in [kOk]. *)
Lemma close_cycle_good (a : t) : aliveStatus a = kOk -> within a (indicationCount a) ->
  referenceCycleEnd a + k_aliveReferenceCycle a <= INT64_MAX ->
  close_cycle a = set_count 0 (set_cycle (referenceCycleEnd a) (referenceCycleEnd a + k_aliveReferenceCycle a)
    (set_eventTime (referenceCycleEnd a) a)).
Proof.
  intros Hok [Hmin Hmax] Hov. unfold close_cycle.
  assert (Hb : bad_cycle (set_eventTime (referenceCycleEnd a) a) = false).
  { unfold bad_cycle, isMinError, isMaxError, k_isMinCheckDisabled, k_isMaxCheckDisabled. simpl.
    apply orb_false_iff. split; apply andb_false_iff; [destruct Hmin|destruct Hmax]; lia. }
  rewrite Hb. simpl. rewrite Hok. unfold next_cycle. simpl. by rewrite (proj2 (Z.ltb_ge _ _)) by lia.
Qed.

(** What a supervision of a regular process keeps. *)
Definition undisturbed (a a' : t) : Prop :=
  aliveStatus a' = kOk /\ reported a' = reported a /\ recovery a' = recovery a.

Lemma indications_next (a : t) cps k c0 :
  indicationCount c0 = 0 -> referenceCycleEnd c0 = referenceCycleEnd a + k_aliveReferenceCycle a ->
  k_aliveReferenceCycle c0 = k_aliveReferenceCycle a -> 0 < k_aliveReferenceCycle a ->
  indications c0 (filter (fun z => referenceCycleEnd a < z) cps) k = indications a cps (S k).
Proof.
  intros H0 HE Hc Hpos. unfold indications. rewrite H0, (decide_False (P := S k = O)) by done.
  replace (if decide (k = O) then 0 else 0) with 0 by (by case_decide). do 3 f_equal. apply filter_filter_iff.
  intros z. unfold in_cycle. rewrite HE, Hc, Nat2Z.inj_succ. destruct k as [|k].
  - simpl. rewrite ?Z.add_0_r. intuition lia.
  - rewrite Nat2Z.inj_succ. set (c := k_aliveReferenceCycle a) in *. split.
    + intros ([[|] ?] & ?); [lia|]. split; [right|]; nia.
    + intros ([|] & ?); [lia|]. split_and!; [right|..]; nia.
Qed.

Lemma sorted_filter (P : Z -> Prop) `{!forall z, Decision (P z)} (l : list Z) :
  StronglySorted Z.le l -> StronglySorted Z.le (filter P l).
Proof.
  induction 1 as [|z l Hs IH Hall]; [constructor|]. rewrite filter_cons. case_decide; [|done].
  constructor; [done|]. apply Forall_forall. intros y [_ Hy]%list_elem_of_filter.
  rewrite Forall_forall in Hall. by apply Hall.
Qed.

(** The next cycle, opened after a good one. *)
Definition reopened (n : Z) (a : t) : t :=
  set_count 0 (set_cycle (referenceCycleEnd a) (referenceCycleEnd a + k_aliveReferenceCycle a)
    (set_eventTime (referenceCycleEnd a) (set_count n a))).

(** Up to the end of the current cycle, if it is a good one. *)
Lemma process_good_cycle sync cps (a : t) : wf a -> aliveStatus a = kOk -> StronglySorted Z.le cps ->
  sync + k_aliveReferenceCycle a <= INT64_MAX -> indicationCount a + Z.of_nat (length cps) <= UINT32_MAX ->
  referenceCycleEnd a <= sync -> within a (indications a cps 0) ->
  exists n, process (checkpoints cps ++ [(sync, SyncSnapshot sync)]) a =
    process (checkpoints (filter (fun z => referenceCycleEnd a < z) cps) ++ [(sync, SyncSnapshot sync)]) (reopened n a) /\
    wf (reopened n a).
Proof.
  intros Hwf Hok Hsrt Hov Hcnt HE Hgood. assert (Hact : active a = true) by (unfold active; by rewrite Hok).
  pose proof (wf_cycle _ Hwf) as Hc. set (E := referenceCycleEnd a) in *.
  set (lo := filter (fun z => z <= E) cps). set (hi := filter (fun z => E < z) cps).
  assert (Hsplit : cps = lo ++ hi) by (by apply sorted_split).
  assert (Hlen : (length cps = length lo + length hi)%nat) by (rewrite Hsplit at 1; apply length_app).
  set (a1 := set_count (indicationCount a + Z.of_nat (length lo)) a).
  assert (Hcps : process (checkpoints cps ++ [(sync, SyncSnapshot sync)]) a =
    process (checkpoints hi ++ [(sync, SyncSnapshot sync)]) a1).
  { unfold checkpoints at 1. rewrite Hsplit, fmap_app, <- app_assoc. fold (checkpoints lo). fold (checkpoints hi).
    rewrite process_counts; [done|done|by apply Forall_forall; intros z [? _]%list_elem_of_filter|lia]. }
  assert (HU : UINT32_MAX = 4294967295) by reflexivity.
  assert (Hw1 : wf a1).
  { destruct Hwf as [? ? ? Hs]. split; try done. rewrite Hok in Hs. simpl. rewrite Hok. intuition lia. }
  assert (Hwin : within a1 (indicationCount a1)).
  { unfold indications in Hgood. rewrite decide_True in Hgood by done.
    simpl in Hgood |- *. replace (filter (in_cycle a 0) cps) with lo in Hgood; [done|].
    unfold lo. apply list_filter_iff. intros z. unfold in_cycle. fold E. simpl. rewrite Z.add_0_r. naive_solver. }
  assert (Hclose : close_cycle a1 = reopened (indicationCount a + Z.of_nat (length lo)) a)
    by (apply close_cycle_good; [done|done|simpl; fold E; lia]).
  exists (indicationCount a + Z.of_nat (length lo)). split; [|rewrite <- Hclose; by apply close_cycle_spec].
  rewrite Hcps, <- Hclose.
  assert (Hhi : Forall (fun z => E < z) hi) by (by apply Forall_forall; intros z [? _]%list_elem_of_filter).
  destruct hi as [|z hi']; cbn [checkpoints fmap list_fmap app]; apply process_due; try done.
  - rewrite due_sync by done. by apply Z.leb_le.
  - apply Forall_cons in Hhi as [Hz _]. unfold due, detectEvaluationEvent. simpl. rewrite Hok.
    by rewrite (proj2 (Z.ltb_lt _ _)).
Qed.

Lemma regular sync : forall (n : nat) (cps : list Z) (a : t), wf a -> aliveStatus a = kOk ->
  StronglySorted Z.le cps -> Forall (fun z => z <= sync) cps -> sync + k_aliveReferenceCycle a <= INT64_MAX ->
  indicationCount a + Z.of_nat (length cps) <= UINT32_MAX ->
  referenceCycleEnd a + (Z.of_nat n - 1) * k_aliveReferenceCycle a <= sync < referenceCycleEnd a + Z.of_nat n * k_aliveReferenceCycle a
    \/ n = O /\ sync < referenceCycleEnd a ->
  (forall k, (k < n)%nat -> within a (indications a cps k)) ->
  let a' := process (checkpoints cps ++ [(sync, SyncSnapshot sync)]) a in
  undisturbed a a' /\ referenceCycleEnd a' = referenceCycleEnd a + Z.of_nat n * k_aliveReferenceCycle a.
Proof.
  induction n as [|n IH]; intros cps a Hwf Hok Hsrt Hle Hov Hcnt Hn Hgood;
    assert (Hact : active a = true) by (unfold active; by rewrite Hok).
  { rewrite process_counts; [|done| |done].
    2:{ eapply Forall_impl; [done|]. simpl. intros. lia. }
    rewrite process_not_due; [simpl; split; [done|lia]|].
    rewrite due_sync by done. simpl. apply Z.leb_gt. lia. }
  pose proof (wf_cycle _ Hwf) as Hc. assert (HE : referenceCycleEnd a <= sync) by nia.
  destruct (process_good_cycle sync cps a Hwf Hok Hsrt Hov Hcnt HE (Hgood O ltac:(lia))) as (x & -> & Hw2).
  set (hi := filter _ cps). destruct (IH hi (reopened x a)) as ((Hs' & Hr' & Hrec') & HE'); try done.
  - by apply sorted_filter.
  - apply Forall_forall. intros z [_ Hz]%list_elem_of_filter. rewrite Forall_forall in Hle. by apply Hle.
  - simpl. destruct Hwf as [_ _ _ Hs]. rewrite Hok in Hs. pose proof (length_filter (fun z => referenceCycleEnd a < z) cps).
    fold hi in H0. lia.
  - simpl. destruct Hn as [Hn|[? _]]; [|done]. left. split; lia.
  - intros k Hk. unfold hi. rewrite indications_next by (done || lia). apply (Hgood (S k)). lia.
  - split; [done|]. etrans; [exact HE'|]. simpl. lia.
Qed.

Lemma sorted_checkpoints cps : TimeSortingBuffer.sorted (checkpoints cps) -> StronglySorted Z.le cps.
Proof.
  induction cps as [|z cps IH]; [constructor|].
  change (checkpoints (z :: cps)) with ((z, CheckpointSnapshot z) :: checkpoints cps).
  unfold TimeSortingBuffer.sorted. intros [Hs Hall]%StronglySorted_inv. constructor; [by apply IH|].
  unfold checkpoints in Hall. rewrite Forall_fmap in Hall. exact Hall.
Qed.

(** C15: no false alarms.  A supervision in [kOk] whose process keeps the
    configured limits in every reference cycle that ends by the synchronisation time,
    an indication at the very end of a cycle belonging to it, reports nothing,
    requests nothing and stays [kOk], whatever the number of cycles per evaluation. *)
Theorem regular_process_not_disturbed (n : nat) (cps : list Z) (sync : Z) (a : t) :
  between (checkpoints cps) a -> dataLossReason a = kNoDataLoss -> (length cps < buffer_size a)%nat ->
  aliveStatus a = kOk -> Forall (fun z => z <= sync) cps ->
  sync + k_aliveReferenceCycle a <= INT64_MAX -> indicationCount a + Z.of_nat (length cps) <= UINT32_MAX ->
  referenceCycleEnd a + (Z.of_nat n - 1) * k_aliveReferenceCycle a <= sync < referenceCycleEnd a + Z.of_nat n * k_aliveReferenceCycle a
    \/ n = O /\ sync < referenceCycleEnd a ->
  (forall k, (k < n)%nat -> within a (indications a cps k)) ->
  exists a', evaluate sync a = Ret a' /\ aliveStatus a' = kOk /\ reported a' = reported a /\
    (recoveryEnqueueFailed_ a', recoveryClient a') = (recoveryEnqueueFailed_ a, recoveryClient a) /\
    referenceCycleEnd a' = referenceCycleEnd a + Z.of_nat n * k_aliveReferenceCycle a.
Proof.
  intros [Hwf Hrd] Hd Hb Hok Hle Hov Hcnt Hn Hgood.
  assert (Hsrt : StronglySorted Z.le cps).
  { apply sorted_checkpoints, Hrd. }
  rewrite (evaluate_process (checkpoints cps)); try done.
  - eexists. split; [done|]. destruct (regular sync n cps a) as ((H1 & H2 & H3) & H4); done.
  - unfold checkpoints. by apply Forall_fmap.
  - unfold checkpoints. by rewrite length_fmap.
Qed.

(** ** Events from outside *)

(** What the arrival of an event leaves alone. *)
Definition same_machine (a a' : t) : Prop :=
  same_config a a' /\ aliveStatus a' = aliveStatus a /\ referenceCycleStart a' = referenceCycleStart a /\
  referenceCycleEnd a' = referenceCycleEnd a /\ indicationCount a' = indicationCount a /\
  failedSupervisionCycles a' = failedSupervisionCycles a /\ reported a' = reported a /\ recovery a' = recovery a /\
  lastSyncTimestamp a' = lastSyncTimestamp a /\ buffer_size a' = buffer_size a.

Lemma wf_same_machine (a a' : t) : same_machine a a' -> wf a -> wf a'.
Proof.
  intros ((E1 & _ & _ & E2 & _) & E3 & E4 & E5 & E6 & E7 & _) [Hc Ht He Hs].
  split; [by rewrite E1|by rewrite E2|by rewrite E5|]. by rewrite E1, E2, E3, E4, E5, E6, E7.
Qed.

Lemma push_event_between e z l (a : t) : between l a -> z = getTimestampOfUpdateEvent e ->
  exists a', push_event e z a = Ret a' /\ same_machine a a' /\
    if bool_decide (length l < buffer_size a)%nat
    then between (TimeSortingBuffer.insert (z, e) l) a' /\ dataLossReason a' = dataLossReason a
    else between l a' /\ dataLossReason a' = kBufferFull.
Proof.
  intros [Hwf Hrd] Hz. destruct (push_event_spec e z l a Hrd Hz) as (a' & -> & Hcap & Hpost).
  exists a'. split; [done|]. case_bool_decide.
  - destruct Hpost as (b & -> & Hr). split; [by split_and!|]. split; [|done]. by split; [apply wf_set_buffer|].
  - subst a'. split; [by split_and!|]. split; [|done]. split; [by apply wf_eventTime, wf_dataLoss|]. by destruct Hrd.
Qed.

Lemma updateData_push z (a : t) : z <> 0 ->
  updateData_checkpoint (checkpoint_of z) a = push_event (CheckpointSnapshot z) z a.
Proof.
  intros Hz. unfold updateData_checkpoint, checkpoint_of. cbn [isDataLossEvent cp_timestamp].
  by rewrite (proj2 (Z.eqb_neq _ _)).
Qed.

(** Checkpoints that fit into the buffer are all kept, in the order of their times. *)
Lemma feed_between : forall cps l (a : t), between l a -> Forall (fun z => z <> 0) cps ->
  (length l + length cps <= buffer_size a)%nat ->
  exists a', foldM (fun a z => updateData_checkpoint (checkpoint_of z) a) a cps = Ret a' /\ same_machine a a' /\
    between (TimeSortingBuffer.insert_all (checkpoints cps) l) a' /\ dataLossReason a' = dataLossReason a.
Proof.
  induction cps as [|z cps IH]; intros l a Hb Hnz Hlen; [by exists a|]. apply Forall_cons in Hnz as [Hz Hnz].
  cbn [length] in Hlen. cbn [foldM]. rewrite updateData_push by done.
  destruct (push_event_between (CheckpointSnapshot z) z l a Hb eq_refl) as (a1 & -> & Hsm & Hp).
  rewrite bool_decide_eq_true_2 in Hp by lia. destruct Hp as [Hb1 Hd1]. cbn [mbind outcome_bind].
  assert (Hsz : buffer_size a1 = buffer_size a) by apply Hsm.
  destruct (IH _ a1 Hb1 Hnz) as (a2 & -> & Hsm2 & Hb2 & Hd2).
  { rewrite TimeSortingBuffer.insert_perm. simpl. lia. }
  exists a2. split_and!; [done| |done|congruence].
  destruct Hsm as (C1 & ?), Hsm2 as (C2 & ?). split; [by etrans|]. intuition congruence.
Qed.

Lemma make_between (id : Id) cfg r n a : make id cfg r n = Ret a ->
  0 < reporting_cycle_ms cfg <= UINT32_MAX -> 0 <= failed_cycles_tolerance cfg <= UINT32_MAX ->
  between [] a /\ dataLossReason a = kNoDataLoss /\ buffer_size a = n /\ aliveStatus a = kDeactivated.
Proof.
  intros Hm Hc Ht. unfold make in Hm. destruct (negb _); [|done]. simpl in Hm. injection Hm as <-. split_and!; try done.
  split.
  - split; simpl; try done. rewrite TimeConversion.convertMilliSecToNanoSec_uint32 by lia.
    assert (UINT32_MAX = 4294967295) by reflexivity. assert (INT64_MAX = 9223372036854775807) by reflexivity.
    unfold NANOS_PER_MILLI. lia.
  - split; [apply TimeSortingBuffer.make_buffer_rep|constructor..].
Qed.

End Supervision.

(** ** Instances *)
Module Example.

(** A recovery client that records the requests. *)
#[local] Instance log_client : RecoveryClient nat (list (nat * Z)) := fun id z r => (true, r ++ [(id, z)]).

Definition cfg : ComponentAliveSupervision :=
  {| reporting_cycle_ms := 100; failed_cycles_tolerance := 2; min_indications := Some 1; max_indications := Some 3 |}.

Definition run (o : outcome (Alive.t nat (list (nat * Z)))) (d : Alive.t nat (list (nat * Z))) : Alive.t nat (list (nat * Z)) :=
  match o with Ret a => a | Abort _ => d end.

Definition fresh : Alive.t nat (list (nat * Z)) :=
  {| k_aliveReferenceCycle := 100000000; k_minAliveIndications := 1; k_maxAliveIndications := 3;
     k_failedSupervisionCyclesTolerance := 2; processIdentifier_ := 7%nat; recoveryClient := [];
     recoveryEnqueueFailed_ := false; dataLossReason := kNoDataLoss; aliveStatus := kDeactivated;
     referenceCycleStart := 0; referenceCycleEnd := INT64_MAX; indicationCount := 0; failedSupervisionCycles := 0;
     eventTimestamp := 0; lastSyncTimestamp := 0;
     timeSortingUpdateEventBuffer := TimeSortingBuffer.make 16; reported := [] |}.

Example fresh_made : make 7%nat cfg [] 16 = Ret fresh.
Proof. vm_compute. reflexivity. Qed.

(** Activated at 1 s, evaluated at 1.05 s. *)
Definition started : Alive.t nat (list (nat * Z)) :=
  run (a ← updateData_event (mkTimespec 1 0) EvActivation fresh; evaluate 1050000000 a) fresh.

(** With checkpoints in the next two cycles. *)
Definition beats : list Z := [1080000000; 1100000000; 1160000000].
Definition beating : Alive.t nat (list (nat * Z)) :=
  run (foldM (fun a z => updateData_checkpoint (checkpoint_of z) a) started beats) started.

Lemma between_started : between [] started.
Proof.
  split.
  - split; vm_compute; repeat split; discriminate.
  - split; [|constructor..]. replace (timeSortingUpdateEventBuffer started) with
      (TimeSortingBuffer.make (A := TimeSortedUpdateEvent) 16) by (vm_compute; reflexivity).
    apply TimeSortingBuffer.make_buffer_rep.
Qed.

Lemma between_beating : between (checkpoints beats) beating.
Proof.
  destruct (feed_between beats [] started between_started) as (a' & E & _ & Hb & _);
    [by repeat constructor|vm_compute; lia|].
  unfold beating, run. rewrite E. exact Hb.
Qed.

Lemma evaluate_total_witness :
  between (checkpoints beats) beating /\ Forall (fun p => p.1 <= 1250000000) (checkpoints beats) /\
  exists a', evaluate 1250000000 beating = Ret a' /\ between [] a' /\ buffer_size a' = buffer_size beating /\
    lastSyncTimestamp a' = 1250000000 /\ dataLossReason a' = kNoDataLoss /\
    (active a' = true -> 1250000000 < referenceCycleEnd a').
Proof.
  assert (Hle : Forall (fun p => p.1 <= 1250000000) (checkpoints beats)) by (repeat constructor; simpl; lia).
  split; [exact between_beating|]. split; [exact Hle|].
  exact (evaluate_total _ _ _ between_beating Hle).
Defined.

Lemma evaluate_follows_state_machine_witness :
  exists a' log, evaluate 1250000000 started = Ret a' /\ reported a' = reported started ++ log /\
    follows (aliveStatus started) log (aliveStatus a') /\ log = [(kFailed, 1100000000)] /\
    (recoveryEnqueueFailed_ a', recoveryClient a') =
      replay (processIdentifier_ started) log (recoveryEnqueueFailed_ started, recoveryClient started).
Proof.
  destruct (evaluate_follows_state_machine [] 1250000000 started between_started (Forall_nil_2 _)) as (a' & log & E & Hr & Hf & Hs).
  exists a', log. split; [exact E|]. split; [exact Hr|]. split; [exact Hf|]. split; [|exact Hs].
  clear Hf Hs. vm_compute in E. injection E as <-. vm_compute in Hr. by injection Hr as <-.
Defined.

Lemma clock_failure_expires_supervision_witness :
  active beating = true /\ no_deactivation (checkpoints beats) /\
  exists a' z log, evaluate INT64_MAX beating = Ret a' /\ aliveStatus a' = kExpired /\
    reported a' = reported beating ++ log /\ (kExpired, z) ∈ log.
Proof.
  assert (Hn : no_deactivation (checkpoints beats)) by (by repeat constructor).
  split; [vm_compute; reflexivity|]. split; [exact Hn|].
  apply (clock_failure_expires_supervision (checkpoints beats) beating between_beating); [|vm_compute; reflexivity|exact Hn].
  repeat constructor; vm_compute; discriminate.
Defined.

Lemma silence_detected_on_time_witness :
  exists a', evaluate 1310000000 started = Ret a' /\ aliveStatus a' = kExpired /\ eventTimestamp a' = 1300000000 /\
    (recoveryEnqueueFailed_ a', recoveryClient a') = (false, [(7%nat, 1300000000)]).
Proof.
  destruct (silence_detected_on_time 1310000000 started between_started) as (a' & E & Hp);
    [vm_compute; reflexivity|vm_compute; lia|vm_compute; reflexivity|by vm_compute|by vm_compute|].
  exists a'. split; [exact E|]. vm_compute in E. injection E as <-. by vm_compute.
Defined.

Lemma regular_process_not_disturbed_witness :
  (forall k, (k < 2)%nat -> within beating (indications beating beats k)) /\
  exists a', evaluate 1250000000 beating = Ret a' /\ aliveStatus a' = kOk /\ reported a' = reported beating /\
    (recoveryEnqueueFailed_ a', recoveryClient a') = (recoveryEnqueueFailed_ beating, recoveryClient beating) /\
    referenceCycleEnd a' = referenceCycleEnd beating + Z.of_nat 2 * k_aliveReferenceCycle beating.
Proof.
  assert (Hk : forall k, (k < 2)%nat -> within beating (indications beating beats k)).
  { intros [|[|k]] Hk; [| |lia]; split; right; vm_compute; discriminate. }
  split; [exact Hk|].
  apply (regular_process_not_disturbed 2 beats 1250000000 beating between_beating);
    [vm_compute; reflexivity|vm_compute; lia|vm_compute; reflexivity|repeat constructor; lia
    |vm_compute; discriminate|vm_compute; discriminate|left; split; vm_compute; [discriminate|reflexivity]|exact Hk].
Defined.

End Example.

End AliveProofs.
