(* ===== verification/Ipc.v ===== *)
(** * The shared-memory channel of the alive monitor

    [RingBuffer] (alive_monitor/details/ipc/ringbuffer.hpp), the part of [Socket]
    that uses it and [IpcBase].  Each operation runs under the buffer's mutex
    and is one step.  Here a channel either has a mapped buffer or not; how it
    is made, with its name and access rights, is in [AliveChannel]. *)

From stdpp Require Import prelude.
From S2P Require Import Prelude Queues.

Module RingBuffer.

Section Buffer.
(** The payload type, its size, and what zeroed storage reads as. *)
Context {T : Type} (zero : T) (sizeof_T : nat).

Record Node := mkNode { storage : T; size_of : nat }.

Record t := mk {
  Capacity : nat;
  nodes_ : list Node;
  write_head_ : nat;
  read_head_ : nat;
  size_ : nat;
  overflow_flag_ : bool;
  initialized_ : bool
}.

(** Zeroed memory. *)
Definition make (capacity : nat) : t := mk capacity (replicate capacity (mkNode zero 0)) 0 0 0 false false.

Definition initialize (b : t) : t :=
  if initialized_ b then b else mk (Capacity b) (nodes_ b) 0 0 0 false true.

Definition isInitialized (b : t) : bool := initialized_ b.
Definition emptyImpl (b : t) : bool := size_ b =? 0.
Definition fullImpl (b : t) : bool := size_ b =? Capacity b.
Definition empty (b : t) : bool := emptyImpl b.
Definition full (b : t) : bool := fullImpl b.

Definition set_overflow (f : bool) (b : t) : t :=
  mk (Capacity b) (nodes_ b) (write_head_ b) (read_head_ b) (size_ b) f (initialized_ b).

Definition advanceWriteHead (b : t) : t :=
  mk (Capacity b) (nodes_ b) ((write_head_ b + 1) `mod` Capacity b) (read_head_ b) (size_ b + 1)
     (overflow_flag_ b) (initialized_ b).
Definition advanceReadHead (b : t) : t :=
  mk (Capacity b) (nodes_ b) (write_head_ b) ((read_head_ b + 1) `mod` Capacity b) (size_ b - 1)
     (overflow_flag_ b) (initialized_ b).

(** [tryEnqueue], and [tryEmplace], which constructs the value in place.
    [memcpy] returns its destination, which is not the argument. *)
Definition tryEnqueue (value : T) (b : t) : bool * t :=
  if fullImpl b then (false, set_overflow true b)
  else
    let b1 := mk (Capacity b) (<[write_head_ b := mkNode value sizeof_T]> (nodes_ b)) (write_head_ b) (read_head_ b)
                 (size_ b) (overflow_flag_ b) (initialized_ b) in
    (true, advanceWriteHead b1).
Definition tryEmplace : T -> t -> bool * t := tryEnqueue.

(** The node at the read head, when it holds a value of this type. *)
Definition tryPeek (b : t) : option T :=
  if emptyImpl b then None
  else
    match nodes_ b !! read_head_ b with
    | Some n => if size_of n =? sizeof_T then Some (storage n) else None
    | None => None
    end.

Definition tryDequeue (b : t) : option T * t :=
  match tryPeek b with Some x => (Some x, advanceReadHead b) | None => (None, b) end.

Definition tryPop (b : t) : bool * t :=
  if emptyImpl b then (false, b) else (true, advanceReadHead b).

Definition getOverflowFlag (reset : bool) (b : t) : bool * t :=
  (overflow_flag_ b, if reset then set_overflow false b else b).

(** ** Representation *)

Record rep (b : t) (l : list T) : Prop := {
  rep_nodes : length (nodes_ b) = Capacity b;
  rep_capacity : 0 < Capacity b;
  rep_size : size_ b = length l;
  rep_bound : length l <= Capacity b;
  rep_read : read_head_ b < Capacity b;
  rep_write : write_head_ b = (read_head_ b + length l) `mod` Capacity b;
  rep_lookup : forall i x, l !! i = Some x ->
    nodes_ b !! ((read_head_ b + i) `mod` Capacity b) = Some (mkNode x sizeof_T)
}.

Lemma rep_make n : 0 < n -> rep (initialize (make n)) [].
Proof.
  intros Hn. split; simpl; try done; try lia; [apply length_replicate|by rewrite Nat.Div0.mod_0_l].
Qed.

Lemma rep_overflow f b l : rep b l -> rep (set_overflow f b) l.
Proof. intros []. by split. Qed.

Lemma tryEnqueue_ok b l x : rep b l -> length l < Capacity b ->
  exists b', tryEnqueue x b = (true, b') /\ rep b' (l ++ [x]) /\ Capacity b' = Capacity b /\
    overflow_flag_ b' = overflow_flag_ b.
Proof.
  intros [Hn Hc Hs Hb Hr Hw Hl] Hlt. unfold tryEnqueue, fullImpl. rewrite Hs, (proj2 (Nat.eqb_neq _ _)) by lia.
  eexists. split; [done|]. split_and!; try done. split; simpl; try done.
  - by rewrite length_insert.
  - rewrite length_app. simpl. lia.
  - rewrite length_app. simpl. lia.
  - rewrite Hw, length_app. simpl. rewrite Nat.Div0.add_mod_idemp_l. f_equal. lia.
  - intros i y Hi. apply lookup_app_Some in Hi as [Hi|[Hge Hi]].
    + pose proof (lookup_lt_Some _ _ _ Hi) as Hil. rewrite list_lookup_insert_ne; [by apply Hl|].
      rewrite Hw. intros E. apply ring_index_inj in E; lia.
    + destruct (i - length l) as [|k] eqn:E; [|done]. injection Hi as ->. replace i with (length l) by lia.
      rewrite <- Hw. apply list_lookup_insert_eq. rewrite Hw, Hn. by apply ring_index_lt.
Qed.

Lemma tryEnqueue_full b l x : rep b l -> length l = Capacity b ->
  tryEnqueue x b = (false, set_overflow true b).
Proof. intros [] E. unfold tryEnqueue, fullImpl. by rewrite (proj2 (Nat.eqb_eq _ _)) by lia. Qed.

Lemma tryPeek_cons b x l : rep b (x :: l) -> tryPeek b = Some x.
Proof.
  intros [Hn Hc Hs Hb Hr Hw Hl]. unfold tryPeek, emptyImpl. rewrite Hs. simpl. specialize (Hl 0 x eq_refl).
  rewrite Nat.add_0_r, Nat.mod_small in Hl by done. rewrite Hl. simpl. by rewrite Nat.eqb_refl.
Qed.

Lemma tryPeek_nil b : rep b [] -> tryPeek b = None.
Proof. intros []. unfold tryPeek, emptyImpl. by rewrite (proj2 (Nat.eqb_eq _ _)). Qed.

Lemma advanceReadHead_rep b x l : rep b (x :: l) -> rep (advanceReadHead b) l.
Proof.
  intros [Hn Hc Hs Hb Hr Hw Hl]. simpl in Hs, Hb. split; simpl; try done; try lia.
  - by apply Nat.mod_upper_bound; lia.
  - rewrite Hw. simpl. rewrite Nat.Div0.add_mod_idemp_l. f_equal. lia.
  - intros i y Hi. rewrite Nat.Div0.add_mod_idemp_l. rewrite <- (Hl (S i) y Hi). do 2 f_equal. lia.
Qed.

Lemma tryDequeue_cons b x l : rep b (x :: l) -> tryDequeue b = (Some x, advanceReadHead b).
Proof. intros Hr. unfold tryDequeue. by rewrite (tryPeek_cons _ _ _ Hr). Qed.

Lemma ring_tryPop_cons b x l : rep b (x :: l) -> tryPop b = (true, advanceReadHead b).
Proof. intros []. unfold tryPop, emptyImpl. by rewrite (proj2 (Nat.eqb_neq _ _)) by (simpl in *; lia). Qed.

Lemma ring_empty_rep b l : rep b l -> empty b = bool_decide (l = []).
Proof.
  intros []. unfold empty, emptyImpl. rewrite rep_size0. by destruct l.
Qed.

(** The ring buffer is a bounded FIFO. *)
#[export, program] Instance ring_fifo : BoundedFifo t T := {|
  fifo_push := tryEnqueue;
  fifo_pop := tryDequeue;
  fifo_capacity := Capacity;
  fifo_rep := rep
|}.
Next Obligation. intros q l Hr. apply Hr. Qed.
Next Obligation.
  intros q l a Hr Hl. destruct (tryEnqueue_ok q l a Hr Hl) as (q' & ? & ? & ? & _). eauto.
Qed.
Next Obligation.
  intros q l a Hr Hl. rewrite (tryEnqueue_full _ _ _ Hr Hl). eexists. split_and!; [done|by apply rep_overflow|done].
Qed.
Next Obligation.
  intros q a l Hr. rewrite (tryDequeue_cons _ _ _ Hr). eexists. split_and!; [done|by eapply advanceReadHead_rep|done].
Qed.
Next Obligation.
  intros q Hr. unfold tryDequeue. rewrite (tryPeek_nil _ Hr). by exists q.
Qed.

(** C16: whatever is sent and read through the ring buffer, in any order of
    operations: what was read followed by what is still inside is what was there
    followed by the accepted elements: nothing is lost, duplicated or reordered. *)
Theorem ring_buffer_is_fifo (ops : list (fifo_op T)) (b : t) (l : list T) :
  rep b l ->
  exists l', let '(sent, received, b') := fifo_run ops b in
    rep b' l' /\ l ++ sent = received ++ l' /\ Capacity b' = Capacity b.
Proof. exact (@fifo_run_spec _ _ ring_fifo ops b l). Qed.

End Buffer.
Arguments t : clear implicits.
Arguments Node : clear implicits.

Lemma ring_buffer_is_fifo_witness :
  exists l', let '(sent, received, b') := @fifo_run _ _ (ring_fifo 8) [OpPush 1; OpPush 2; OpPop; OpPush 3; OpPush 4] (initialize (make 0 2)) in
    rep 8 b' l' /\ [] ++ sent = received ++ l' /\ Capacity b' = 2.
Proof.
  apply (ring_buffer_is_fifo 8 [OpPush 1; OpPush 2; OpPop; OpPush 3; OpPush 4] (initialize (make 0 2)) []).
  apply rep_make. lia.
Defined.

End RingBuffer.

(** ** [Socket] and [IpcBase] *)

Inductive ReturnCode := kRetOk | kRetError | kRetQueueEmpty | kRetPermissionDenied | kRetQueueStateCorrupt.
Inductive EIpcPeekResult := kPeekOk | kPeekNoDataToRead | kPeekIpcError.

#[export] Instance ReturnCode_eq_dec : EqDecision ReturnCode.
Proof. solve_decision. Defined.
#[export] Instance EIpcPeekResult_eq_dec : EqDecision EIpcPeekResult.
Proof. solve_decision. Defined.

Module Ipc.
Section Channel.
Context {T : Type} (sizeof_T : nat).

(** [buffer_] is the mapped ring buffer, if there is one. *)
Record t := mk { buffer_ : option (RingBuffer.t T); isInitialized : bool }.

Definition with_buffer (b : RingBuffer.t T) (c : t) : t := mk (Some b) (isInitialized c).

Definition getOverflowFlag (c : t) : bool :=
  match buffer_ c with None => false | Some b => (RingBuffer.getOverflowFlag false b).1 end.

Definition hasOverflow (c : t) : bool := if isInitialized c then getOverflowFlag c else false.

(** [Socket::tryPeek]: code and element. *)
Definition tryPeek (c : t) : ReturnCode * option T :=
  match buffer_ c with
  | None => (kRetError, None)
  | Some b =>
      if RingBuffer.empty b then (kRetQueueEmpty, None)
      else match RingBuffer.tryPeek sizeof_T b with Some x => (kRetOk, Some x) | None => (kRetError, None) end
  end.

Definition tryPop (c : t) : ReturnCode * t :=
  match buffer_ c with
  | None => (kRetError, c)
  | Some b => let '(ok, b') := RingBuffer.tryPop b in (if ok : bool then kRetOk else kRetError, with_buffer b' c)
  end.

Definition trySendEmplace (x : T) (c : t) : ReturnCode * t :=
  match buffer_ c with
  | None => (kRetError, c)
  | Some b => let '(ok, b') := RingBuffer.tryEmplace sizeof_T x b in (if ok : bool then kRetOk else kRetError, with_buffer b' c)
  end.

Definition sendEmplace (x : T) (c : t) : bool * t :=
  if isInitialized c then let '(r, c') := trySendEmplace x c in (bool_decide (r = kRetOk), c') else (false, c).

Definition peek (c : t) : EIpcPeekResult * option T :=
  if isInitialized c then
    let '(r, x) := tryPeek c in
    if bool_decide (r = kRetOk) then (kPeekOk, x)
    else if bool_decide (r = kRetQueueEmpty) then (kPeekNoDataToRead, x) else (kPeekIpcError, x)
  else (kPeekNoDataToRead, None).

Definition pop (c : t) : bool * t :=
  if isInitialized c then let '(r, c') := tryPop c in (bool_decide (r = kRetOk), c') else (false, c).

(** The channel is open and holds [l]. *)
Definition rep (c : t) (l : list T) : Prop :=
  isInitialized c = true /\ exists b, buffer_ c = Some b /\ RingBuffer.rep sizeof_T b l.

Lemma peek_cons c x l : rep c (x :: l) -> peek c = (kPeekOk, Some x).
Proof.
  intros (Hi & b & Hb & Hr). unfold peek, tryPeek. rewrite Hi, Hb, (RingBuffer.ring_empty_rep _ _ _ Hr). simpl.
  by rewrite (RingBuffer.tryPeek_cons _ _ _ _ Hr).
Qed.

Lemma peek_nil c : rep c [] -> peek c = (kPeekNoDataToRead, None).
Proof. intros (Hi & b & Hb & Hr). unfold peek, tryPeek. by rewrite Hi, Hb, (RingBuffer.ring_empty_rep _ _ _ Hr). Qed.

Lemma pop_cons c x l : rep c (x :: l) -> exists c', pop c = (true, c') /\ rep c' l /\ hasOverflow c' = hasOverflow c.
Proof.
  intros (Hi & b & Hb & Hr). unfold pop, tryPop. rewrite Hi, Hb, (RingBuffer.ring_tryPop_cons _ _ _ _ Hr). simpl.
  eexists. split; [done|]. split.
  - split; [done|]. eexists. split; [done|]. by eapply RingBuffer.advanceReadHead_rep.
  - unfold hasOverflow, getOverflowFlag. simpl. by rewrite Hi, Hb.
Qed.

(** A send into a full channel is refused and raises the overflow flag, which nothing lowers. *)
Lemma send_spec c l x : rep c l ->
  exists c' ok, sendEmplace x c = (ok, c') /\
    (ok = true /\ rep c' (l ++ [x]) /\ hasOverflow c' = hasOverflow c \/
     ok = false /\ rep c' l /\ hasOverflow c' = true).
Proof.
  intros (Hi & b & Hb & Hr). unfold sendEmplace, trySendEmplace, RingBuffer.tryEmplace. rewrite Hi, Hb.
  destruct (decide (length l < RingBuffer.Capacity b)) as [Hlt|Hge].
  - destruct (RingBuffer.tryEnqueue_ok _ b l x Hr Hlt) as (b' & -> & Hr' & _ & Ho). eexists _, _. split; [done|].
    left. split_and!; try done; [split; [done|by exists b']|]. unfold hasOverflow, getOverflowFlag. simpl. by rewrite Hi, Hb, Ho.
  - pose proof (RingBuffer.rep_bound _ _ _ Hr). rewrite (RingBuffer.tryEnqueue_full _ b l x Hr) by lia.
    eexists _, _. split; [done|]. right. split_and!; try done.
    + split; [done|]. eexists. split; [done|]. by apply RingBuffer.rep_overflow.
    + unfold hasOverflow, getOverflowFlag. simpl. by rewrite Hi.
Qed.

End Channel.
Arguments t : clear implicits.
End Ipc.
