(* ===== verification/AliveChannel.v ===== *)
(** * The way from a process to the alive monitor

    Module [AlivePath] (common/alive_interface_path.hpp): the name of the channel of a
    component.  Module [Socket] (alive_monitor/details/ipc/socket.hpp): creating,
    connecting and closing the shared memory of a channel.  Module [IpcServer]
    (ipc/IpcServer.hpp): the daemon's side with its access control list.  Module
    [IpcClient] (ipc/IpcClient.hpp) and [AliveImpl] (alive/src/details/AliveImpl.cpp):
    the side of the process.  The shared memory of the system is a table of names
    and the objects behind them; an object outlives its name while it is mapped. *)

From Stdlib Require Import Ascii.
From stdpp Require Import prelude fin_maps gmap strings.
From S2P Require Import Prelude Queues Timers Ipc.

(** ** Names of channels *)

Module AlivePath.
Local Open Scope Z_scope.

Definition digit (d : Z) : Ascii.ascii := Ascii.ascii_of_nat (48 + Z.to_nat d).

(** [std::to_chars] of an unsigned number: the decimal digits without leading zeros. *)
Fixpoint to_chars (fuel : nat) (n : Z) (rest : string) : string :=
  match fuel with
  | O => rest
  | S fuel' => let s := String (digit (n mod 10)) rest in if n <? 10 then s else to_chars fuel' (n / 10) s
  end.

(** [std::numeric_limits<std::uint64_t>::digits10] *)
Definition digits10 : nat := 19.
Definition kMaxNumberLength : nat := digits10 + 1.

Definition decimal (n : Z) : string := to_chars 20 n "".

(** [*result.ptr = '\0'] writes behind the digits, in an array of [kMaxNumberLength]. *)
Definition aliveInterfacePath `{BuildMode} (component_name : Z) : outcome string :=
  let digits := decimal component_name in
  _ ← assert_dbg (String.length digits <=? kMaxNumberLength)%nat;
  if (String.length digits <? kMaxNumberLength)%nat then Ret ("/lifecycle_health_" +:+ digits) else Abort OutOfRange.


(** ** The names are faithful, where they are formed at all *)

Fixpoint parse (acc : Z) (s : string) : Z :=
  match s with EmptyString => acc | String a s' => parse (10 * acc + (Z.of_nat (Ascii.nat_of_ascii a) - 48)) s' end.

Lemma digit_value d : 0 <= d < 10 -> Z.of_nat (Ascii.nat_of_ascii (digit d)) - 48 = d.
Proof. intros. unfold digit. rewrite Ascii.nat_ascii_embedding by lia. lia. Qed.

Lemma parse_to_chars fuel : forall n rest, 0 <= n < 10 ^ Z.of_nat fuel -> (0 < fuel)%nat ->
  parse 0 (to_chars fuel n rest) = parse n rest.
Proof.
  induction fuel as [|fuel IH]; intros n rest Hn Hf; [lia|]. simpl.
  assert (10 ^ Z.of_nat (S fuel) = 10 * 10 ^ Z.of_nat fuel) as E by (rewrite Nat2Z.inj_succ, Z.pow_succ_r; lia).
  destruct (Z.ltb_spec n 10).
  - simpl. rewrite digit_value by (apply Z.mod_pos_bound; lia). by rewrite Z.mod_small by lia.
  - rewrite IH.
    + simpl. rewrite digit_value by (apply Z.mod_pos_bound; lia). f_equal. pose proof (Z.div_mod n 10). lia.
    + split; [by apply Z.div_pos; lia|]. apply Z.div_lt_upper_bound; lia.
    + destruct fuel; [simpl in *; lia|lia].
Qed.

Lemma decimal_inj n m : 0 <= n < 2 ^ 64 -> 0 <= m < 2 ^ 64 -> decimal n = decimal m -> n = m.
Proof.
  intros Hn Hm E. apply (f_equal (parse 0)) in E. unfold decimal in E.
  assert (2 ^ 64 < 10 ^ Z.of_nat 20) by reflexivity. rewrite !parse_to_chars in E by lia. exact E.
Qed.

Lemma to_chars_length_le fuel : forall n k rest, 0 <= n < 10 ^ Z.of_nat (S k) -> (k < fuel)%nat ->
  (String.length (to_chars fuel n rest) <= S k + String.length rest)%nat.
Proof.
  induction fuel as [|fuel IH]; intros n k rest Hn Hk; [lia|]. simpl.
  destruct (Z.ltb_spec n 10); [simpl; lia|]. destruct k as [|k]; [simpl in *; lia|].
  assert (10 ^ Z.of_nat (S (S k)) = 10 * 10 ^ Z.of_nat (S k)) by (rewrite (Nat2Z.inj_succ (S k)), Z.pow_succ_r; lia).
  specialize (IH (n / 10) k (String (digit (n mod 10)) rest)). simpl in IH |- *. etrans; [apply IH; [split|]|]; try lia.
  - by apply Z.div_pos; lia.
  - apply Z.div_lt_upper_bound; lia.
Qed.

Lemma to_chars_length_gt fuel : forall n k rest, 10 ^ Z.of_nat k <= n -> (k < fuel)%nat ->
  (k + String.length rest < String.length (to_chars fuel n rest))%nat.
Proof.
  induction fuel as [|fuel IH]; intros n k rest Hn Hk; [lia|]. simpl. destruct (Z.ltb_spec n 10).
  - destruct k as [|k]; [simpl; lia|].
    assert (10 <= 10 ^ Z.of_nat (S k)); [|lia]. change 10 with (10 ^ 1) at 1. apply Z.pow_le_mono_r; lia.
  - destruct k as [|k].
    + assert (1 <= n / 10) by (apply Z.div_le_lower_bound; lia).
      destruct fuel as [|fuel]; [simpl; lia|]. eapply Nat.lt_trans; [|apply (IH (n / 10) 0%nat)]; simpl; lia.
    + assert (10 ^ Z.of_nat (S k) = 10 * 10 ^ Z.of_nat k) by (rewrite Nat2Z.inj_succ, Z.pow_succ_r; lia).
      eapply Nat.le_lt_trans; [|apply (IH (n / 10) k)]; [simpl; lia| |lia]. apply Z.div_le_lower_bound; lia.
Qed.

(** A name is formed for the hashes of at most nineteen digits; the array has no room for the
    terminating zero behind a twentieth. *)
Lemma aliveInterfacePath_spec `{BuildMode} h : 0 <= h < 2 ^ 64 ->
  aliveInterfacePath h = if h <? 10 ^ 19 then Ret ("/lifecycle_health_" +:+ decimal h) else Abort OutOfRange.
Proof.
  intros Hh. assert (2 ^ 64 < 10 ^ Z.of_nat 20) by reflexivity. unfold aliveInterfacePath, kMaxNumberLength, digits10.
  pose proof (to_chars_length_le 20 h 19 "" ltac:(lia) ltac:(lia)) as Hl. fold (decimal h) in Hl.
  rewrite (proj2 (Nat.leb_le _ _)) by (simpl in *; lia). rewrite assert_dbg_true. simpl.
  destruct (Z.ltb_spec h (10 ^ 19)) as [Hlt|Hge].
  - pose proof (to_chars_length_le 20 h 18 "" ltac:(change (Z.of_nat 19) with 19; lia) ltac:(lia)) as Hs.
    fold (decimal h) in Hs. by rewrite (proj2 (Nat.ltb_lt _ _)) by (simpl in *; lia).
  - pose proof (to_chars_length_gt 20 h 19 "" ltac:(change (Z.of_nat 19) with 19; lia) ltac:(lia)) as Hs.
    fold (decimal h) in Hs. by rewrite (proj2 (Nat.ltb_ge _ _)) by (simpl in *; lia).
Qed.

Lemma aliveInterfacePath_inj `{BuildMode} h1 h2 p : 0 <= h1 < 2 ^ 64 -> 0 <= h2 < 2 ^ 64 ->
  aliveInterfacePath h1 = Ret p -> aliveInterfacePath h2 = Ret p -> h1 = h2.
Proof.
  intros H1 H2. rewrite !aliveInterfacePath_spec by done. destruct (h1 <? 10 ^ 19), (h2 <? 10 ^ 19); try done.
  intros [= <-] [= E]. by apply decimal_inj.
Qed.

End AlivePath.

(** ** Shared memory of the operating system

    A name refers to an object; an object outlives its name while it is mapped.  [fds] are the
    open descriptors of the process that runs, [mapped] the mappings of all processes.  Every
    call can be refused by the system with an error number: [env] gives the answer for
    each call of an operation, [None] when the system does not refuse. *)

Module Shm.
Local Open Scope Z_scope.

Definition EPERM : Z := 1.
Definition ENOENT : Z := 2.
Definition EACCES : Z := 13.
Definition EEXIST : Z := 17.

Inductive acl_tag_t := ACL_USER_OBJ | ACL_USER | ACL_GROUP_OBJ | ACL_MASK | ACL_OTHER.

#[global] Instance acl_tag_eq_dec : EqDecision acl_tag_t.
Proof. solve_decision. Defined.

Record acl_entry_t := mkEntry { tag : acl_tag_t; qualifier : option Z; acl_read : bool; acl_write : bool }.

(** [content] is what a mapping shows; an object of size zero shows nothing. *)
Record object := mkObject { owner : Z; acl : list acl_entry_t; content : option (RingBuffer.t Z) }.

Record t := mk { names : gmap string nat; objects : gmap nat object; fds : gmap nat nat; mapped : list nat }.

Definition set_content (o : nat) (c : option (RingBuffer.t Z)) (w : t) : t :=
  mk (names w) (alter (fun ob => mkObject (owner ob) (acl ob) c) o (objects w)) (fds w) (mapped w).
Definition set_acl (o : nat) (a : list acl_entry_t) (w : t) : t :=
  mk (names w) (alter (fun ob => mkObject (owner ob) a (content ob)) o (objects w)) (fds w) (mapped w).

(** The access control list that permission bits stand for. *)
Definition acl_of_mode (mode : Z) : list acl_entry_t :=
  [mkEntry ACL_USER_OBJ None (Z.testbit mode 8) (Z.testbit mode 7);
   mkEntry ACL_GROUP_OBJ None (Z.testbit mode 5) (Z.testbit mode 4);
   mkEntry ACL_OTHER None (Z.testbit mode 2) (Z.testbit mode 1)].

(** How the system decides about access: documented in acl(5). *)
Class AccessControl := {
  Cred : Type;
  euid : Cred -> Z;
  umask : Cred -> Z;
  privileged : Cred -> bool;
  (** owner, list, process, whether it wants to read and to write *)
  permitted : Z -> list acl_entry_t -> Cred -> bool -> bool -> bool;
  permitted_privileged : forall u a c r w, privileged c = true -> permitted u a c r w = true;
  permitted_owner : forall u a c r w e, privileged c = false -> euid c = u ->
    filter (fun x => tag x = ACL_USER_OBJ) a = [e] ->
    permitted u a c r w = implb r (acl_read e) && implb w (acl_write e);
  permitted_user : forall u a c r w e m, privileged c = false -> euid c <> u ->
    filter (fun x => tag x = ACL_USER /\ qualifier x = Some (euid c)) a = [e] ->
    filter (fun x => tag x = ACL_MASK) a = [m] ->
    permitted u a c r w = implb r (acl_read e && acl_read m) && implb w (acl_write e && acl_write m);
  permitted_rest : forall u a c r w, privileged c = false -> euid c <> u ->
    filter (fun x => tag x = ACL_USER /\ qualifier x = Some (euid c)) a = [] ->
    Forall (fun x => tag x = ACL_GROUP_OBJ \/ tag x = ACL_OTHER -> acl_read x = false /\ acl_write x = false) a ->
    r || w = true -> permitted u a c r w = false
}.

Fixpoint remove_first (o : nat) (l : list nat) : list nat :=
  match l with [] => [] | x :: l' => if bool_decide (x = o) then l' else x :: remove_first o l' end.

Section Calls.
Context `{AccessControl}.

(** The result of a call: a value or an error number. *)
Definition result (A : Type) : Type := A + Z.

Definition open_fd (o : nat) (w : t) : nat * t :=
  let fd := fresh (dom (fds w)) in (fd, mk (names w) (objects w) (<[fd := o]> (fds w)) (mapped w)).

(** [shm_open] without [O_CREAT] *)
Definition shm_open_existing (env : option Z) (c : Cred) (name : string) (write : bool) (w : t) : result nat * t :=
  match env with
  | Some e => (inr e, w)
  | None =>
      match names w !! name with
      | None => (inr ENOENT, w)
      | Some o =>
          match objects w !! o with
          | None => (inr ENOENT, w)
          | Some ob =>
              if permitted (owner ob) (acl ob) c true write then let '(fd, w') := open_fd o w in (inl fd, w')
              else (inr EACCES, w)
          end
      end
  end.

(** [shm_open] with [O_CREAT | O_EXCL] *)
Definition shm_open_create (env : option Z) (c : Cred) (name : string) (mode : Z) (w : t) : result nat * t :=
  match env with
  | Some e => (inr e, w)
  | None =>
      match names w !! name with
      | Some _ => (inr EEXIST, w)
      | None =>
          let o := fresh (dom (objects w)) in
          let ob := mkObject (euid c) (acl_of_mode (Z.ldiff mode (umask c))) None in
          let '(fd, w') := open_fd o (mk (<[name := o]> (names w)) (<[o := ob]> (objects w)) (fds w) (mapped w)) in
          (inl fd, w')
      end
  end.

Definition shm_unlink (env : option Z) (name : string) (w : t) : result unit * t :=
  match env with
  | Some e => (inr e, w)
  | None =>
      match names w !! name with
      | None => (inr ENOENT, w)
      | Some _ => (inl tt, mk (delete name (names w)) (objects w) (fds w) (mapped w))
      end
  end.

Definition close (fd : nat) (w : t) : t := mk (names w) (objects w) (delete fd (fds w)) (mapped w).

(** Makes room for a buffer of [capacity] elements, filled with zeros. *)
Definition ftruncate (env : option Z) (fd : nat) (capacity : nat) (w : t) : result unit * t :=
  match env, fds w !! fd with
  | Some e, _ => (inr e, w)
  | None, Some o => (inl tt, set_content o (Some (RingBuffer.make 0 capacity)) w)
  | None, None => (inr 9, w)
  end.

Definition mmap (env : option Z) (fd : nat) (w : t) : result nat * t :=
  match env, fds w !! fd with
  | Some e, _ => (inr e, w)
  | None, Some o => (inl o, mk (names w) (objects w) (fds w) (o :: mapped w))
  | None, None => (inr 9, w)
  end.

Definition munmap (o : nat) (w : t) : t := mk (names w) (objects w) (fds w) (remove_first o (mapped w)).

End Calls.
End Shm.

(** ** [Socket] *)

Module Socket.
Section Socket.
Context `{Shm.AccessControl}.
Local Open Scope Z_scope.

(** [buffer_] is the mapped object. *)
Record t := mk { owns_shared_memory_ : bool; name_ : string; buffer_ : option nat }.

Definition make : t := mk false "" None.
Definition set_name (n : string) (s : t) : t := mk (owns_shared_memory_ s) n (buffer_ s).
Definition set_owns (b : bool) (s : t) : t := mk b (name_ s) (buffer_ s).
Definition set_buffer (o : option nat) (s : t) : t := mk (owns_shared_memory_ s) (name_ s) o.

(** The calls of an operation that the system can refuse. *)
Inductive call := call_exists | call_unlink | call_open | call_ftruncate | call_mmap | call_cleanup.
Definition Env : Type := call -> option Z.

Definition full_name (name : string) : string :=
  match name with
  | EmptyString => name
  | String a _ => if bool_decide (a = "/"%char) then name else "/" +:+ name
  end.

Definition cleanup (env : Env) (s : t) (w : Shm.t) : t * Shm.t :=
  if owns_shared_memory_ s && negb (bool_decide (name_ s = "")) then
    (set_owns false s, (Shm.shm_unlink (env call_cleanup) (name_ s) w).2)
  else (s, w).

Definition exists_ (env : Env) (c : Shm.Cred) (f_name : string) (w : Shm.t) : bool * Shm.t :=
  match Shm.shm_open_existing (env call_exists) c f_name false w with
  | (inl fd, w') => (true, Shm.close fd w')
  | (inr _, w') => (false, w')
  end.

Definition denied_by (errno : Z) : ReturnCode :=
  if (errno =? Shm.EACCES) || (errno =? Shm.EPERM) then kRetPermissionDenied else kRetError.
Definition denied_by_open (errno : Z) : ReturnCode :=
  if errno =? Shm.EACCES then kRetPermissionDenied else kRetError.

(** [buffer_->initialize()] on the mapped object. *)
Definition initialize_mapped (o : nat) (w : Shm.t) : outcome Shm.t :=
  ob ← value_of (Shm.objects w !! o);
  b ← value_of (Shm.content ob);
  Ret (Shm.set_content o (Some (RingBuffer.initialize b)) w).

(** The part of [create] after the name was made free. *)
Definition create_free (env : Env) (capacity : nat) (c : Shm.Cred) (mode : Z) (s : t) (w : Shm.t) : outcome (ReturnCode * t * Shm.t) :=
  match Shm.shm_open_create (env call_open) c (name_ s) mode w with
  | (inr errno, w1) => Ret (denied_by_open errno, s, w1)
  | (inl fd, w1) =>
      let s1 := set_owns true s in
      match Shm.ftruncate (env call_ftruncate) fd capacity w1 with
      | (inr errno, w2) => let '(s2, w3) := cleanup env s1 (Shm.close fd w2) in Ret (denied_by errno, s2, w3)
      | (inl _, w2) =>
          let '(r, w3) := Shm.mmap (env call_mmap) fd w2 in
          let w4 := Shm.close fd w3 in
          match r with
          | inr errno => let '(s2, w5) := cleanup env s1 w4 in Ret (denied_by errno, s2, w5)
          | inl o => w5 ← initialize_mapped o w4; Ret (kRetOk, set_buffer (Some o) s1, w5)
          end
      end
  end.

Definition create (env : Env) (capacity : nat) (c : Shm.Cred) (name : string) (mode : Z) (s : t) (w : Shm.t) : outcome (ReturnCode * t * Shm.t) :=
  let s1 := set_name (full_name name) s in
  let '(ex, w1) := exists_ env c (name_ s1) w in
  if ex : bool then
    match Shm.shm_unlink (env call_unlink) (name_ s1) w1 with
    | (inr errno, w2) => Ret (denied_by_open errno, s1, w2)
    | (inl _, w2) => create_free env capacity c mode s1 w2
    end
  else create_free env capacity c mode s1 w1.

(** A mapped object of size zero cannot be read. *)
Definition connect (env : Env) (c : Shm.Cred) (name : string) (s : t) (w : Shm.t) : outcome (ReturnCode * t * Shm.t) :=
  let s1 := set_name (full_name name) s in
  match Shm.shm_open_existing (env call_open) c (name_ s1) true w with
  | (inr errno, w1) => Ret (denied_by_open errno, s1, w1)
  | (inl fd, w1) =>
      let '(r, w2) := Shm.mmap (env call_mmap) fd w1 in
      let w3 := Shm.close fd w2 in
      match r with
      | inr errno => Ret (denied_by errno, s1, w3)
      | inl o =>
          ob ← value_of (Shm.objects w3 !! o);
          b ← value_of (Shm.content ob);
          Ret (if RingBuffer.isInitialized b then kRetOk else kRetError, set_buffer (Some o) s1, w3)
      end
  end.

Definition close (env : Env) (s : t) (w : Shm.t) : t * Shm.t :=
  match buffer_ s with
  | Some o => cleanup env (set_buffer None s) (Shm.munmap o w)
  | None => cleanup env s w
  end.

Definition getName (s : t) : string := name_ s.

End Socket.
End Socket.

(** ** [IpcBase], [IpcServer] and [IpcClient] *)

Definition k_maxCheckpointBufferElements : nat := 512.

Inductive EIpcInitResult := kInitOk | kInitFailed | kInitPermissionDenied.

#[global] Instance EIpcInitResult_eq_dec : EqDecision EIpcInitResult.
Proof. solve_decision. Defined.

Module IpcBase.
Section IpcBase.
Context `{Shm.AccessControl}.

(** [socket] is never null: the objects are not moved. *)
Record t := mk { socket : Socket.t; isInitialized : bool }.

Definition make : t := mk Socket.make false.
Definition getPath (s : t) : string := Socket.getName (socket s).

(** The channel as this side sees it: the content of the mapped object. *)
Definition view (w : Shm.t) (s : t) : Ipc.t Z :=
  Ipc.mk (o ← Socket.buffer_ (socket s); ob ← Shm.objects w !! o; Shm.content ob) (isInitialized s).

(** What an operation on the channel leaves in the shared memory. *)
Definition store (s : t) (ch : Ipc.t Z) (w : Shm.t) : Shm.t :=
  match Socket.buffer_ (socket s), Ipc.buffer_ ch with
  | Some o, Some b => Shm.set_content o (Some b) w
  | _, _ => w
  end.

Definition sendEmplace (sizeof_T : nat) (x : Z) (s : t) (w : Shm.t) : bool * Shm.t :=
  let '(ok, ch) := Ipc.sendEmplace sizeof_T x (view w s) in (ok, store s ch w).

(** The destructors of [IpcBase] and of its [Socket]. *)
Definition destroy (env : Socket.Env) (s : t) (w : Shm.t) : Shm.t :=
  let '(so, w1) := if isInitialized s then Socket.close env (socket s) w else (socket s, w) in
  (Socket.close env so w1).2.

End IpcBase.
End IpcBase.

Module IpcServer.
Section IpcServer.
Context `{Shm.AccessControl}.
Local Open Scope Z_scope.

(** 0600 *)
Definition kOwnerReadWrite : Z := 384.

Definition set_initialized (b : bool) (s : IpcBase.t) : IpcBase.t := IpcBase.mk (IpcBase.socket s) b.

Definition init (env : Socket.Env) (capacity : nat) (c : Shm.Cred) (f_ipcName_r : string) (f_mode : Z) (s : IpcBase.t) (w : Shm.t) :
    outcome (EIpcInitResult * IpcBase.t * Shm.t) :=
  '(result, so, w') ← Socket.create env capacity c f_ipcName_r f_mode (IpcBase.socket s) w;
  let s' := IpcBase.mk so (IpcBase.isInitialized s) in
  Ret (match result with
       | kRetOk => (kInitOk, set_initialized true s', w')
       | kRetPermissionDenied => (kInitPermissionDenied, set_initialized false s', w')
       | _ => (kInitFailed, s', w')
       end).

(** The calls of [setAccessRights] that can fail; the calls for an entry are named by their number
    and the entry's tag. *)
Inductive acl_call :=
| acl_open | acl_init | acl_valid | acl_set_fd
| acl_create_entry (e : Shm.acl_tag_t) | acl_set_tag_type (e : Shm.acl_tag_t) | acl_set_qualifier (e : Shm.acl_tag_t)
| acl_get_permset (e : Shm.acl_tag_t) | acl_add_read (e : Shm.acl_tag_t) | acl_add_write (e : Shm.acl_tag_t).
Definition AclEnv : Type := acl_call -> bool.

(** The lambda [addPermissionEntry]; [env] tells which calls succeed. *)
Definition addPermissionEntry (env : AclEnv) (tag : Shm.acl_tag_t) (read write : bool) (uid : option Z) (acl : list Shm.acl_entry_t) :
    option (list Shm.acl_entry_t) :=
  if negb (env (acl_create_entry tag)) then None
  else if negb (env (acl_set_tag_type tag)) then None
  else if (match uid with Some _ => negb (env (acl_set_qualifier tag)) | None => false end) then None
  else if negb (env (acl_get_permset tag)) then None
  else if read && negb (env (acl_add_read tag)) then None
  else if write && negb (env (acl_add_write tag)) then None
  else Some (acl ++ [Shm.mkEntry tag uid read write]).

Definition build_acl (env : AclEnv) (f_uid : Z) : option (list Shm.acl_entry_t) :=
  a1 ← addPermissionEntry env Shm.ACL_MASK true true None [];
  a2 ← addPermissionEntry env Shm.ACL_USER_OBJ true true None a1;
  a3 ← addPermissionEntry env Shm.ACL_GROUP_OBJ false false None a2;
  a4 ← addPermissionEntry env Shm.ACL_OTHER false false None a3;
  addPermissionEntry env Shm.ACL_USER true true (Some f_uid) a4.

Definition setAccessRights (refused : option Z) (env : AclEnv) (c : Shm.Cred) (f_uid : Z) (s : IpcBase.t) (w : Shm.t) : bool * Shm.t :=
  match Shm.shm_open_existing refused c (IpcBase.getPath s) true w with
  | (inr _, w1) => (false, w1)
  | (inl fd, w1) =>
      if negb (env acl_init) then (false, Shm.close fd w1)
      else
        match build_acl env f_uid with
        | None => (false, Shm.close fd w1)
        | Some acl =>
            if negb (env acl_valid) then (false, Shm.close fd w1)
            else
              match (if env acl_set_fd then Shm.fds w1 !! fd else None) with
              | None => (false, Shm.close fd w1)
              | Some o => (true, Shm.close fd (Shm.set_acl o acl w1))
              end
        end
  end.

(** [AliveWorkerFactory::initIpcServerWithUidBasedAccess]: a [uid_t] is the 32-bit unsigned value of its argument. *)
Definition initIpcServerWithUidBasedAccess (env : Socket.Env) (refused : option Z) (aenv : AclEnv) (capacity : nat) (c : Shm.Cred)
    (f_ipcPath_r : string) (f_uid : Z) (s : IpcBase.t) (w : Shm.t) : outcome (bool * IpcBase.t * Shm.t) :=
  '(r, s1, w1) ← init env capacity c f_ipcPath_r kOwnerReadWrite s w;
  if bool_decide (r = kInitOk) then
    let '(ok, w2) := setAccessRights refused aenv c (wrap 32 f_uid) s1 w1 in Ret (ok, s1, w2)
  else Ret (false, s1, w1).

(** [AliveWorkerFactory::createAliveIfIpc]: a new server at the end of the vector, whether it
    can be used or not. *)
Definition createAliveIfIpc `{BuildMode} (env : Socket.Env) (refused : option Z) (aenv : AclEnv) (c : Shm.Cred)
    (component_id uid : Z) (servers : list IpcBase.t) (w : Shm.t) : outcome (bool * list IpcBase.t * Shm.t) :=
  pathInterface ← AlivePath.aliveInterfacePath component_id;
  '(ok, server, w') ← initIpcServerWithUidBasedAccess env refused aenv k_maxCheckpointBufferElements c pathInterface uid IpcBase.make w;
  Ret (ok, servers ++ [server], w').

End IpcServer.
End IpcServer.

Module IpcClient.
Section IpcClient.
Context `{Shm.AccessControl}.

Definition init (env : Socket.Env) (c : Shm.Cred) (f_ipcName_r : string) (s : IpcBase.t) (w : Shm.t) :
    outcome (EIpcInitResult * IpcBase.t * Shm.t) :=
  '(result, so, w') ← Socket.connect env c f_ipcName_r (IpcBase.socket s) w;
  let s' := IpcBase.mk so (IpcBase.isInitialized s) in
  Ret (match result with
       | kRetOk => (kInitOk, IpcBase.mk so true, w')
       | kRetPermissionDenied => (kInitPermissionDenied, s', w')
       | _ => (kInitFailed, s', w')
       end).

End IpcClient.
End IpcClient.

(** ** The process: [AliveImpl], [Alive] and its C interface *)

(** [OsClock::getMonotonicSystemClock]: return code and time of [clock_gettime]. *)
Definition getMonotonicSystemClock (reading : Z * timespec) : Z :=
  if (reading.1 =? 0)%Z then TimeConversion.convertToNanoSec reading.2 else 0%Z.

Module AliveImpl.
Section AliveImpl.
Context `{Shm.AccessControl}.

Record t := mk { k_instanceSpecifierPath : string; ipcClient : IpcBase.t }.

(** The environment of the process, as [getenv] reads it. *)
Definition readInterfacePath (getenv : string -> option string) : option string :=
  match getenv "LCM_ALIVE_INTERFACE_PATH" with
  | None => None
  | Some if_path => if bool_decide (if_path = "") then None else Some if_path
  end.

(** [None] is the exception; every other failure is only logged. *)
Definition connectToAliveMonitor (env : Socket.Env) (getenv : string -> option string) (c : Shm.Cred) (a : t) (w : Shm.t) :
    outcome (option t * Shm.t) :=
  match readInterfacePath getenv with
  | None => Ret (None, w)
  | Some path => '(_, s, w') ← IpcClient.init env c path (ipcClient a) w; Ret (Some (mk (k_instanceSpecifierPath a) s), w')
  end.

Definition construct (env : Socket.Env) (getenv : string -> option string) (c : Shm.Cred) (f_instanceSpecifier_r : string) (w : Shm.t) :
    outcome (option t * Shm.t) :=
  connectToAliveMonitor env getenv c (mk f_instanceSpecifier_r IpcBase.make) w.

Definition ReportCheckpoint (sizeof_T : nat) (reading : Z * timespec) (a : t) (w : Shm.t) : Shm.t :=
  (IpcBase.sendEmplace sizeof_T (getMonotonicSystemClock reading) (ipcClient a) w).2.

Definition destroy (env : Socket.Env) (a : t) (w : Shm.t) : Shm.t := IpcBase.destroy env (ipcClient a) w.

End AliveImpl.
End AliveImpl.

Module Alive_.
Section Alive.
Context `{Shm.AccessControl}.

(** [aliveImplPtr] is null after a move. *)
Record t := mk { aliveImplPtr : option AliveImpl.t }.

Definition construct (env : Socket.Env) (getenv : string -> option string) (c : Shm.Cred) (instance : string) (w : Shm.t) :
    outcome (option t * Shm.t) :=
  '(r, w') ← AliveImpl.construct env getenv c instance w; Ret (option_map (fun a => mk (Some a)) r, w').

(** The moved object and what is left. *)
Definition move (a : t) : t * t := (a, mk None).

Definition ReportAlive (sizeof_T : nat) (reading : Z * timespec) (a : t) (w : Shm.t) : Shm.t :=
  match aliveImplPtr a with Some i => AliveImpl.ReportCheckpoint sizeof_T reading i w | None => w end.

Definition ReportFailure (a : t) : outcome unit := assert false.

Definition destroy (env : Socket.Env) (a : t) (w : Shm.t) : Shm.t :=
  match aliveImplPtr a with Some i => AliveImpl.destroy env i w | None => w end.

(** The C interface: a null pointer is [None]. *)
Definition score_lcm_alive_initialize (env : Socket.Env) (getenv : string -> option string) (c : Shm.Cred)
    (instanceSpecifier : option string) (w : Shm.t) : outcome (option t * Shm.t) :=
  match instanceSpecifier with None => Ret (None, w) | Some i => construct env getenv c i w end.

Definition score_lcm_alive_deinitialize (env : Socket.Env) (instance : option t) (w : Shm.t) : outcome Shm.t :=
  match instance with None => Abort AssertionFailed | Some a => Ret (destroy env a w) end.

Definition score_lcm_alive_report_alive (sizeof_T : nat) (reading : Z * timespec) (instance : option t) (w : Shm.t) : outcome Shm.t :=
  match instance with None => Abort AssertionFailed | Some a => Ret (ReportAlive sizeof_T reading a w) end.

Definition score_lcm_alive_report_failure (instance : option t) : outcome unit :=
  match instance with None => Abort AssertionFailed | Some a => ReportFailure a end.

End Alive.
End Alive_.
