(* ===== verification/AliveChannelProofs.v ===== *)
(** * The way from a process to the alive monitor: proofs

    Creating a channel, giving one user access to it and connecting to it, for every answer of the
    operating system; then all channels of a configuration together. *)

From stdpp Require Import prelude fin_maps gmap strings.
From S2P Require Import Prelude Queues Timers Ipc AliveChannel.

Module AliveChannelProofs.
Section Proofs.
Context `{Shm.AccessControl}.

#[local] Arguments Socket.cleanup : simpl never.

(** ** Single calls *)

Lemma open_close o w fd w' : Shm.open_fd o w = (fd, w') -> Shm.close fd w' = w /\ Shm.fds w' !! fd = Some o.
Proof.
  unfold Shm.open_fd. intros [= <- <-]. destruct w as [n ob f m]. unfold Shm.close. simpl. split.
  - f_equal. apply delete_insert_id. apply not_elem_of_dom, is_fresh.
  - by rewrite lookup_insert_eq.
Qed.

Lemma exists_spec env c n w :
  exists b, Socket.exists_ env c n w = (b, w) /\ (b = true -> is_Some (Shm.names w !! n)).
Proof.
  unfold Socket.exists_, Shm.shm_open_existing. destruct (env _); [by exists false|].
  destruct (Shm.names w !! n) as [o|]; [|by exists false]. destruct (Shm.objects w !! o) as [ob|]; [|by exists false].
  destruct (Shm.permitted _ _ _ _ _); [|by exists false]. destruct (Shm.open_fd o w) as [fd w'] eqn:E.
  apply open_close in E as [-> _]. exists true. split; [done|eauto].
Qed.

(** What a failed creation may have changed: nothing but the binding of the name, which is either as it was or gone; a
    new binding stays only when the system also refuses to remove it. *)
Record create_failed (env : Socket.Env) (n : string) (w w' : Shm.t) : Prop := {
  cf_fds : Shm.fds w' = Shm.fds w;
  cf_mapped : Shm.mapped w' = Shm.mapped w;
  cf_objects : Shm.objects w ⊆ Shm.objects w';
  cf_names : forall m, m <> n -> Shm.names w' !! m = Shm.names w !! m;
  cf_name : env Socket.call_cleanup = None -> Shm.names w' !! n = Shm.names w !! n \/ Shm.names w' !! n = None
}.

Lemma create_failed_refl env n w : create_failed env n w w.
Proof. by split; auto. Qed.

(** The object that a successful creation makes. *)
Definition fresh_channel (capacity : nat) (c : Shm.Cred) (mode : Z) : Shm.object :=
  Shm.mkObject (Shm.euid c) (Shm.acl_of_mode (Z.ldiff mode (Shm.umask c))) (Some (RingBuffer.initialize (RingBuffer.make 0%Z capacity))).

(** What a successful creation did. *)
Definition created (capacity : nat) (c : Shm.Cred) (mode : Z) (n : string) (o : nat) (w : Shm.t) : Shm.t :=
  Shm.mk (<[n := o]> (Shm.names w)) (<[o := fresh_channel capacity c mode]> (Shm.objects w)) (Shm.fds w) (o :: Shm.mapped w).

Lemma denied_not_ok e : Socket.denied_by e <> kRetOk /\ Socket.denied_by_open e <> kRetOk.
Proof. unfold Socket.denied_by, Socket.denied_by_open. split; by case_match. Qed.

Lemma cleanup_fresh env n o ob (names : gmap string nat) objs fds mapped :
  n <> ""%string -> names !! n = None -> objs !! o = None ->
  exists w', Socket.cleanup env (Socket.mk true n None) (Shm.mk (<[n := o]> names) (<[o := ob]> objs) fds mapped) =
      (Socket.mk false n None, w') /\ create_failed env n (Shm.mk names objs fds mapped) w'.
Proof.
  intros Hn Hnm Ho. unfold Socket.cleanup. simpl. rewrite bool_decide_eq_false_2 by done. simpl. eexists. split; [done|].
  unfold Shm.shm_unlink. destruct (env Socket.call_cleanup) eqn:E; simpl.
  - split; simpl; try done; [by apply insert_subseteq|intros; by rewrite lookup_insert_ne|congruence].
  - rewrite lookup_insert_eq. simpl. rewrite delete_insert_id by done. split; simpl; try done; [by apply insert_subseteq|auto].
Qed.

Lemma create_free_spec env capacity c mode n w : n <> ""%string ->
  exists r s' w', Socket.create_free env capacity c mode (Socket.mk false n None) w = Ret (r, s', w') /\
    ((r = kRetOk /\ exists o, Shm.objects w !! o = None /\ s' = Socket.mk true n (Some o) /\ w' = created capacity c mode n o w) \/
     (r <> kRetOk /\ s' = Socket.mk false n None /\ create_failed env n w w')).
Proof.
  intros Hn. destruct w as [names objs fds mapped]. unfold Socket.create_free, Shm.shm_open_create, Shm.open_fd. simpl.
  destruct (env Socket.call_open) as [e|].
  { eexists _, _, _. split; [done|]. right. split_and!; [apply denied_not_ok|done|apply create_failed_refl]. }
  destruct (names !! n) as [o'|] eqn:Hnm.
  { eexists _, _, _. split; [done|]. right. split_and!; [apply denied_not_ok|done|apply create_failed_refl]. }
  pose proof (is_fresh (dom objs)) as Ho%not_elem_of_dom. pose proof (is_fresh (dom fds)) as Hfd%not_elem_of_dom.
  set (o := fresh (dom objs)) in *. set (fd := fresh (dom fds)) in *. unfold Shm.ftruncate, Shm.close, Socket.set_owns. simpl.
  rewrite lookup_insert_eq. destruct (env Socket.call_ftruncate) as [e|]; simpl.
  { rewrite delete_insert_id by done.
    match goal with |- context [Socket.cleanup env _ (Shm.mk _ (<[o := ?ob]> _) _ _)] =>
      destruct (cleanup_fresh env n o ob names objs fds mapped Hn Hnm Ho) as (w' & -> & Hw) end.
    eexists _, _, _. split; [done|]. right. split_and!; [apply denied_not_ok|done|done]. }
  unfold Shm.mmap, Shm.set_content. simpl. rewrite lookup_insert_eq, !alter_insert_eq. destruct (env Socket.call_mmap) as [e|]; simpl.
  { rewrite delete_insert_id by done.
    match goal with |- context [Socket.cleanup env _ (Shm.mk _ (<[o := ?ob]> _) _ _)] =>
      destruct (cleanup_fresh env n o ob names objs fds mapped Hn Hnm Ho) as (w' & -> & Hw) end.
    eexists _, _, _. split; [done|]. right. split_and!; [apply denied_not_ok|done|done]. }
  unfold Socket.initialize_mapped. simpl. rewrite lookup_insert_eq. simpl. eexists _, _, _. split; [done|]. left.
  split; [done|]. exists o. split_and!; [done|done|]. unfold created, Shm.set_content. simpl. rewrite delete_insert_id by done.
  by rewrite alter_insert_eq.
Qed.

(** Creating a channel: it returns, and on success there is a new object under the name. *)
Lemma create_spec env capacity c mode name w : Socket.full_name name <> ""%string ->
  let n := Socket.full_name name in
  exists r s' w', Socket.create env capacity c name mode Socket.make w = Ret (r, s', w') /\
    ((r = kRetOk /\ exists o, Shm.objects w !! o = None /\ s' = Socket.mk true n (Some o) /\ w' = created capacity c mode n o w) \/
     (r <> kRetOk /\ s' = Socket.mk false n None /\ create_failed env n w w')).
Proof.
  intros Hn n. unfold Socket.create, Socket.set_name. simpl. fold n.
  destruct (exists_spec env c n w) as (b & -> & Hb). destruct b; [|by apply create_free_spec].
  unfold Shm.shm_unlink. destruct (env Socket.call_unlink).
  { eexists _, _, _. split; [done|]. right. split_and!; [apply denied_not_ok|done|apply create_failed_refl]. }
  destruct (Hb eq_refl) as [o' ->]. destruct (create_free_spec env capacity c mode n
    (Shm.mk (delete n (Shm.names w)) (Shm.objects w) (Shm.fds w) (Shm.mapped w)) Hn) as (r & s' & w' & -> & Hr).
  exists r, s', w'. split; [done|]. destruct Hr as [(-> & o & Ho & -> & ->)|(Hr & -> & [H1 H2 H3 H4 H5])].
  - left. split; [done|]. exists o. split_and!; [done|done|]. unfold created. simpl. f_equal. by rewrite insert_delete_eq.
  - right. split_and!; [done|done|]. simpl in *. split; try done.
    + intros m Hm. rewrite (H4 m Hm). by rewrite lookup_delete_ne.
    + intros Hc. right. rewrite lookup_delete_eq in H5. by destruct (H5 Hc).
Qed.

(** ** Access *)

Definition channel_acl (uid : Z) : list Shm.acl_entry_t :=
  [Shm.mkEntry Shm.ACL_MASK None true true; Shm.mkEntry Shm.ACL_USER_OBJ None true true;
   Shm.mkEntry Shm.ACL_GROUP_OBJ None false false; Shm.mkEntry Shm.ACL_OTHER None false false;
   Shm.mkEntry Shm.ACL_USER (Some uid) true true].

Lemma build_acl_spec env uid :
  IpcServer.build_acl env uid = None \/ IpcServer.build_acl env uid = Some (channel_acl uid).
Proof.
  unfold IpcServer.build_acl, IpcServer.addPermissionEntry.
  repeat match goal with |- context [negb (env ?x)] => destruct (env x); simpl; [|by left] end. by right.
Qed.

(** Who may use a channel. *)
Definition may_report (daemon : Shm.Cred) (uid : Z) (c : Shm.Cred) : bool :=
  Shm.privileged c || bool_decide (Shm.euid c = Shm.euid daemon) || bool_decide (Shm.euid c = uid).

Lemma channel_acl_permits d uid c :
  Shm.permitted (Shm.euid d) (channel_acl uid) c true true = may_report d uid c.
Proof.
  unfold may_report. destruct (Shm.privileged c) eqn:Hp; [by apply Shm.permitted_privileged|]. simpl.
  destruct (decide (Shm.euid c = Shm.euid d)) as [E|Hne].
  { rewrite bool_decide_eq_true_2 by done. simpl.
    by rewrite (Shm.permitted_owner _ _ _ _ _ (Shm.mkEntry Shm.ACL_USER_OBJ None true true)). }
  rewrite bool_decide_eq_false_2 by done. simpl. destruct (decide (Shm.euid c = uid)) as [E|Hu].
  - rewrite bool_decide_eq_true_2 by done. 
    rewrite (Shm.permitted_user _ _ _ _ _ (Shm.mkEntry Shm.ACL_USER (Some uid) true true) (Shm.mkEntry Shm.ACL_MASK None true true)); [done|done|done| |done].
    unfold channel_acl. rewrite !filter_cons, filter_nil. repeat (case_decide; simpl in *; try naive_solver).
  - rewrite bool_decide_eq_false_2 by done. apply Shm.permitted_rest; [done|done| | |done].
    + unfold channel_acl. rewrite !filter_cons, filter_nil. repeat (case_decide; simpl in *; try naive_solver).
    + unfold channel_acl. repeat constructor; simpl; naive_solver.
Qed.

Lemma setAccessRights_spec refused env c uid s w o : Shm.names w !! IpcBase.getPath s = Some o ->
  exists ok, IpcServer.setAccessRights refused env c uid s w = (ok, if ok : bool then Shm.set_acl o (channel_acl uid) w else w).
Proof.
  intros Hn. unfold IpcServer.setAccessRights, Shm.shm_open_existing. destruct refused; [by exists false|]. rewrite Hn.
  destruct (Shm.objects w !! o) as [ob|]; [|by exists false].
  destruct (Shm.permitted _ _ _ _ _); [|by exists false]. destruct (Shm.open_fd o w) as [fd w1] eqn:E.
  pose proof (open_close _ _ _ _ E) as [Hc Hf]. rewrite Hf, Hc. destruct (env IpcServer.acl_init); simpl; [|by exists false].
  destruct (build_acl_spec env uid) as [->| ->]; [by exists false|]. destruct (env IpcServer.acl_valid); simpl; [|by exists false].
  destruct (env IpcServer.acl_set_fd); [|by exists false]. exists true. rewrite <- Hc. by destruct w1.
Qed.

(** ** Connecting and reporting *)

(** The object of an open channel. *)
Definition channel (d : Shm.Cred) (uid : Z) (b : RingBuffer.t Z) : Shm.object :=
  Shm.mkObject (Shm.euid d) (channel_acl uid) (Some b).

Definition undisturbed : Socket.Env := fun _ => None.

Lemma connect_spec d uid b c path w o :
  Shm.names w !! Socket.full_name path = Some o -> Shm.objects w !! o = Some (channel d uid b) ->
  RingBuffer.initialized_ b = true ->
  Socket.connect undisturbed c path Socket.make w =
    Ret (if may_report d uid c
         then (kRetOk, Socket.mk false (Socket.full_name path) (Some o), Shm.mk (Shm.names w) (Shm.objects w) (Shm.fds w) (o :: Shm.mapped w))
         else (kRetPermissionDenied, Socket.mk false (Socket.full_name path) None, w)).
Proof.
  intros Hn Ho Hb. unfold Socket.connect, Shm.shm_open_existing, undisturbed. simpl. rewrite Hn, Ho. simpl.
  rewrite channel_acl_permits. destruct (may_report d uid c); [|done].
  unfold Shm.mmap. simpl. rewrite lookup_insert_eq. simpl. rewrite Ho. simpl. unfold RingBuffer.isInitialized. rewrite Hb.
  unfold Shm.close. simpl. rewrite delete_insert_id; [done|]. apply not_elem_of_dom, is_fresh.
Qed.

Definition sizeof_timestamp : nat := 8.

(** All reports of a process, one after the other. *)
Definition report_all (readings : list (Z * timespec)) (a : Alive_.t) (w : Shm.t) : Shm.t :=
  fold_left (fun w r => Alive_.ReportAlive sizeof_timestamp r a w) readings w.

Definition enqueue_all (l : list Z) (b : RingBuffer.t Z) : RingBuffer.t Z :=
  fold_left (fun b x => (RingBuffer.tryEnqueue sizeof_timestamp x b).2) l b.

Lemma enqueue_all_spec l : forall b l0, RingBuffer.rep sizeof_timestamp b l0 ->
  RingBuffer.rep sizeof_timestamp (enqueue_all l b) (take (RingBuffer.Capacity b) (l0 ++ l)) /\
  RingBuffer.overflow_flag_ (enqueue_all l b) =
    RingBuffer.overflow_flag_ b || bool_decide (RingBuffer.Capacity b < length (l0 ++ l)).
Proof.
  induction l as [|x l IH]; intros b l0 Hr; pose proof (RingBuffer.rep_bound _ _ _ Hr) as Hb.
  - rewrite app_nil_r, take_ge by done. simpl. rewrite bool_decide_eq_false_2 by lia. by rewrite orb_false_r.
  - simpl. destruct (decide (length l0 < RingBuffer.Capacity b)) as [Hlt|Hge].
    + destruct (RingBuffer.tryEnqueue_ok _ b l0 x Hr Hlt) as (b' & E & Hr' & Hc & Ho). rewrite E. simpl.
      destruct (IH b' _ Hr') as [H1 H2]. rewrite <- (assoc (++)), Hc in H1, H2. rewrite Ho in H2. simpl in *. done.
    + assert (length l0 = RingBuffer.Capacity b) as Hl by lia. rewrite (RingBuffer.tryEnqueue_full _ b l0 x Hr Hl).
      destruct (IH (RingBuffer.set_overflow true b) l0) as [H1 H2]; [by apply RingBuffer.rep_overflow|]. simpl in *.
      rewrite take_app_le in H1 |- * by lia. split; [done|]. rewrite H2. simpl. rewrite bool_decide_eq_true_2; [by rewrite orb_true_r|].
      rewrite length_app. simpl. lia.
Qed.

(** A connected process writes into the one object, a refused one nowhere. *)
Definition connected_to (o : nat) (a : Alive_.t) : Prop :=
  exists i p s, Alive_.aliveImplPtr a = Some (AliveImpl.mk i (IpcBase.mk (Socket.mk p s (Some o)) true)).

Lemma ReportAlive_connected r a o d uid b w : connected_to o a -> Shm.objects w !! o = Some (channel d uid b) ->
  Alive_.ReportAlive sizeof_timestamp r a w =
    Shm.set_content o (Some (RingBuffer.tryEnqueue sizeof_timestamp (getMonotonicSystemClock r) b).2) w.
Proof.
  intros (i & p & s & Ha) Ho. unfold Alive_.ReportAlive. rewrite Ha. unfold AliveImpl.ReportCheckpoint, IpcBase.sendEmplace.
  simpl. unfold Ipc.sendEmplace, Ipc.trySendEmplace, IpcBase.view. simpl. rewrite Ho. simpl. unfold RingBuffer.tryEmplace.
  by destruct (RingBuffer.tryEnqueue sizeof_timestamp (getMonotonicSystemClock r) b) as [ok b'].
Qed.

Lemma report_all_connected readings : forall a o d uid b w,
  connected_to o a -> Shm.objects w !! o = Some (channel d uid b) ->
  Shm.objects (report_all readings a w) =
    <[o := channel d uid (enqueue_all (getMonotonicSystemClock <$> readings) b)]> (Shm.objects w).
Proof.
  induction readings as [|r rs IH]; intros a o d uid b w Ha Ho; [by simpl; rewrite insert_id|].
  change (report_all (r :: rs) a w) with (report_all rs a (Alive_.ReportAlive sizeof_timestamp r a w)).
  rewrite (ReportAlive_connected r a o d uid b w Ha Ho).
  set (b' := (RingBuffer.tryEnqueue sizeof_timestamp (getMonotonicSystemClock r) b).2).
  rewrite (IH a o d uid b'); [|done|unfold Shm.set_content; simpl; by rewrite lookup_alter_eq, Ho].
  unfold Shm.set_content. simpl. apply map_eq. intros o'. destruct (decide (o' = o)) as [->|Hne].
  - by rewrite !lookup_insert_eq.
  - by rewrite !lookup_insert_ne, lookup_alter_ne by done.
Qed.

Lemma report_all_refused readings a w :
  (forall i, Alive_.aliveImplPtr a = Some i -> IpcBase.isInitialized (AliveImpl.ipcClient i) = false) ->
  report_all readings a w = w.
Proof.
  intros Ha. induction readings as [|r rs IH]; simpl; [done|].
  assert (Alive_.ReportAlive sizeof_timestamp r a w = w) as ->; [|done]. unfold Alive_.ReportAlive.
  destruct (Alive_.aliveImplPtr a) as [i|]; [|done]. unfold AliveImpl.ReportCheckpoint, IpcBase.sendEmplace, Ipc.sendEmplace. simpl.
  rewrite (Ha i eq_refl). simpl. unfold IpcBase.store, IpcBase.view. simpl.
  destruct (Socket.buffer_ _) as [o|]; [|done]. simpl. destruct (Shm.objects w !! o) as [ob|] eqn:Ho; [|done]. simpl.
  destruct (Shm.content ob) as [b|] eqn:Hb; [|done]. destruct w. unfold Shm.set_content. simpl in *. f_equal.
  apply map_eq. intros o'. destruct (decide (o' = o)) as [->|Hne]; [rewrite lookup_alter_eq, Ho|by rewrite lookup_alter_ne].
  simpl. f_equal. rewrite <- Hb. by destruct ob.
Qed.

(** ** One component's channel *)

Lemma path_slash `{BuildMode} h p : AlivePath.aliveInterfacePath h = Ret p -> Socket.full_name p = p /\ p <> ""%string.
Proof.
  unfold AlivePath.aliveInterfacePath. destruct (assert_dbg _); simpl; [|done]. case_match; [|done]. by intros [= <-].
Qed.

(** The channel is open for its component, and empty. *)
Definition new_buffer : RingBuffer.t Z := RingBuffer.initialize (RingBuffer.make 0%Z k_maxCheckpointBufferElements).

Definition serves `{BuildMode} (d : Shm.Cred) (h uid : Z) (s : IpcBase.t) (w : Shm.t) : Prop :=
  exists p o, AlivePath.aliveInterfacePath h = Ret p /\ Shm.names w !! p = Some o /\
    s = IpcBase.mk (Socket.mk true p (Some o)) true /\ Shm.objects w !! o = Some (channel d (wrap 32 uid) new_buffer).

(** What creating a channel for another component leaves alone. *)
Definition unrelated (p : string) (w w' : Shm.t) : Prop :=
  Shm.fds w' = Shm.fds w /\ (forall m, m <> p -> Shm.names w' !! m = Shm.names w !! m) /\ Shm.objects w ⊆ Shm.objects w'.

Lemma createAliveIfIpc_spec `{BuildMode} env refused aenv d h uid servers w ok servers' w' :
  IpcServer.createAliveIfIpc env refused aenv d h uid servers w = Ret (ok, servers', w') ->
  exists s p, servers' = servers ++ [s] /\ AlivePath.aliveInterfacePath h = Ret p /\ unrelated p w w' /\
    (ok = true -> serves d h uid s w') /\
    (forall o, Socket.buffer_ (IpcBase.socket s) = Some o -> Shm.objects w !! o = None /\ is_Some (Shm.objects w' !! o)).
Proof.
  unfold IpcServer.createAliveIfIpc. destruct (AlivePath.aliveInterfacePath h) as [p|] eqn:Hp; simpl; [|done].
  destruct (path_slash _ _ Hp) as [Hs Hne]. unfold IpcServer.initIpcServerWithUidBasedAccess, IpcServer.init. simpl.
  destruct (create_spec env k_maxCheckpointBufferElements d IpcServer.kOwnerReadWrite p w) as (r & s' & w1 & -> & Hr); [by rewrite Hs|].
  rewrite Hs in Hr. simpl. destruct Hr as [(-> & o & Ho & -> & ->)|(Hr & -> & Hf)]; simpl.
  - match goal with |- context [IpcServer.setAccessRights refused aenv d ?u ?s ?w] =>
      destruct (setAccessRights_spec refused aenv d u s w o) as [ok' ->] end.
    { simpl; by rewrite lookup_insert_eq. }
    intros [= <- <- <-]. eexists _, p. split; [done|]. split; [done|]. split_and!.
    + unfold unrelated. destruct ok'; simpl; (split_and!; [done|intros; by rewrite lookup_insert_ne|]);
        [rewrite alter_insert_eq|]; by apply insert_subseteq.
    + intros ->. exists p, o. split_and!; [done|simpl; by rewrite lookup_insert_eq|done|]. simpl. by rewrite lookup_alter_eq, lookup_insert_eq.
    + intros o' [= <-]. split; [done|]. destruct ok'; simpl; [rewrite lookup_alter_eq|]; rewrite lookup_insert_eq; simpl; eauto.
  - intros E. assert (exists i, ok = false /\ servers' = servers ++ [IpcBase.mk (Socket.mk false p None) i] /\ w' = w1) as (i & -> & -> & ->).
    { destruct r; simpl in E; try done; injection E as <- <- <-; eauto. }
    eexists _, p. split; [done|]. split; [done|]. destruct Hf. by split_and!.
Qed.

Lemma createAliveIfIpc_returns `{BuildMode} env refused aenv d h uid servers w p :
  AlivePath.aliveInterfacePath h = Ret p ->
  exists ok s w', IpcServer.createAliveIfIpc env refused aenv d h uid servers w = Ret (ok, servers ++ [s], w').
Proof.
  intros Hp. destruct (path_slash _ _ Hp) as [Hs Hne].
  unfold IpcServer.createAliveIfIpc, IpcServer.initIpcServerWithUidBasedAccess, IpcServer.init. rewrite Hp. simpl.
  destruct (create_spec env k_maxCheckpointBufferElements d IpcServer.kOwnerReadWrite p w) as (r & s' & w1 & -> & _); [by rewrite Hs|].
  simpl. destruct r; simpl; try (by eexists _, _, _). destruct (IpcServer.setAccessRights _ _ _ _ _ _). by eexists _, _, _.
Qed.

(** ** All channels of a configuration *)

(** A component to be supervised, with the answers of the system while its channel is made. *)
Record request := mkRequest {
  rq_component : Z; rq_uid : Z; rq_env : Socket.Env; rq_refused : option Z; rq_aenv : IpcServer.AclEnv }.

Fixpoint create_channels `{BuildMode} (d : Shm.Cred) (rqs : list request) (servers : list IpcBase.t) (w : Shm.t) :
    outcome (list bool * list IpcBase.t * Shm.t) :=
  match rqs with
  | [] => Ret ([], servers, w)
  | rq :: rest =>
      '(ok, servers1, w1) ← IpcServer.createAliveIfIpc (rq_env rq) (rq_refused rq) (rq_aenv rq) d (rq_component rq) (rq_uid rq) servers w;
      '(oks, servers2, w2) ← create_channels d rest servers1 w1;
      Ret (ok :: oks, servers2, w2)
  end.

Definition server_buffer (s : IpcBase.t) : option nat := Socket.buffer_ (IpcBase.socket s).

Record channels_inv `{BuildMode} (d : Shm.Cred) (pre : list request) (oks : list bool) (ss : list IpcBase.t) (w : Shm.t) : Prop := {
  ci_oks : length oks = length pre;
  ci_servers : length ss = length pre;
  ci_serves : forall i rq s, pre !! i = Some rq -> oks !! i = Some true -> ss !! i = Some s ->
    serves d (rq_component rq) (rq_uid rq) s w;
  ci_distinct : forall i j s s' o, ss !! i = Some s -> ss !! j = Some s' -> server_buffer s = Some o -> server_buffer s' = Some o -> i = j;
  ci_objects : forall i s o, ss !! i = Some s -> server_buffer s = Some o -> is_Some (Shm.objects w !! o)
}.

Lemma serves_unrelated `{BuildMode} d h uid s w h' p' w' : (0 <= h < 2 ^ 64)%Z -> (0 <= h' < 2 ^ 64)%Z -> h <> h' ->
  AlivePath.aliveInterfacePath h' = Ret p' -> unrelated p' w w' -> serves d h uid s w -> serves d h uid s w'.
Proof.
  intros Hh Hh' Hne Hp' (_ & Hn & Ho) (p & o & Hp & Hw & -> & Hob). exists p, o. split_and!; [done| |done|].
  - rewrite Hn; [done|]. intros ->. apply Hne. by eapply AlivePath.aliveInterfacePath_inj.
  - by eapply lookup_weaken.
Qed.

Lemma channels_inv_snoc `{BuildMode} d pre oks ss w rq ok s p w' :
  Forall (fun r => 0 <= rq_component r < 2 ^ 64)%Z (pre ++ [rq]) -> NoDup (rq_component <$> pre ++ [rq]) ->
  channels_inv d pre oks ss w ->
  AlivePath.aliveInterfacePath (rq_component rq) = Ret p -> unrelated p w w' ->
  (ok = true -> serves d (rq_component rq) (rq_uid rq) s w') ->
  (forall o, server_buffer s = Some o -> Shm.objects w !! o = None /\ is_Some (Shm.objects w' !! o)) ->
  channels_inv d (pre ++ [rq]) (oks ++ [ok]) (ss ++ [s]) w'.
Proof.
  intros [Hpre Hrq]%Forall_app Hnd Hi Hp Hu Hok Hb. rewrite fmap_app in Hnd. apply NoDup_app in Hnd as (_ & Hnd & _).
  destruct Hi as [H1 H2 H3 H4 H5]. split; rewrite ?length_app; simpl; try lia.
  - intros i r s0 Hr Ho Hs. destruct (decide (i < length pre)) as [Hlt|Hge].
    + rewrite (lookup_app_l pre) in Hr by lia. rewrite (lookup_app_l oks) in Ho by lia. rewrite (lookup_app_l ss) in Hs by lia. apply (serves_unrelated _ _ _ _ w (rq_component rq) p); try done; [| | |by eapply H3].
      * exact (Forall_lookup_1 _ _ _ _ Hpre Hr).
      * by inversion Hrq.
      * intros E. apply (Hnd (rq_component r)); [|rewrite E; by apply list_elem_of_singleton].
        apply list_elem_of_fmap. exists r. split; [done|]. by eapply list_elem_of_lookup_2.
    + pose proof (lookup_lt_Some _ _ _ Hr) as Hl. rewrite length_app in Hl. simpl in Hl.
      rewrite (lookup_app_r pre) in Hr by lia. rewrite (lookup_app_r oks) in Ho by lia. rewrite (lookup_app_r ss) in Hs by lia. replace (i - length pre) with 0 in Hr by lia.
      replace (i - length oks) with 0 in Ho by lia. replace (i - length ss) with 0 in Hs by lia.
      simpl in *. injection Hr as <-. injection Ho as ->. injection Hs as <-. by apply Hok.
  - assert (forall i s0 o, ss !! i = Some s0 -> server_buffer s0 = Some o -> server_buffer s = Some o -> False) as Hx.
    { intros i s0 o Hs0 Hb0 Hb'. destruct (Hb o Hb') as [Hn _]. destruct (H5 _ _ _ Hs0 Hb0) as [? ?]. congruence. }
    intros i j s0 s' o Hi Hj Hbi Hbj.
    pose proof (lookup_lt_Some _ _ _ Hi) as Hli. pose proof (lookup_lt_Some _ _ _ Hj) as Hlj. rewrite length_app in Hli, Hlj. simpl in *.
    apply lookup_app_Some in Hi as [Hi|[Hgi Hi]]; apply lookup_app_Some in Hj as [Hj|[Hgj Hj]]; [by eapply H4| | |lia].
    + replace (j - length ss) with 0 in Hj by lia. injection Hj as <-. exfalso. eauto.
    + replace (i - length ss) with 0 in Hi by lia. injection Hi as <-. exfalso. eauto.
  - intros i s0 o Hs Hbs. apply lookup_app_Some in Hs as [Hs|[Hg Hs]].
    + destruct (H5 _ _ _ Hs Hbs) as [ob Hob]. exists ob. destruct Hu as (_ & _ & Ho). by eapply lookup_weaken.
    + destruct (i - length ss) as [|k]; [|done]. injection Hs as <-. by apply Hb.
Qed.

Lemma create_channels_inv `{BuildMode} d rqs : forall pre oks ss w oks' ss' w',
  Forall (fun r => 0 <= rq_component r < 2 ^ 64)%Z (pre ++ rqs) -> NoDup (rq_component <$> pre ++ rqs) ->
  channels_inv d pre oks ss w -> create_channels d rqs ss w = Ret (oks', ss', w') ->
  channels_inv d (pre ++ rqs) (oks ++ oks') ss' w'.
Proof.
  induction rqs as [|rq rqs IH]; intros pre oks ss w oks' ss' w' Hr Hnd Hi; simpl.
  { intros [= <- <- <-]. by rewrite !app_nil_r. }
  destruct (IpcServer.createAliveIfIpc _ _ _ _ _ _ _ _) as [[[ok ss1] w1]|] eqn:E; simpl; [|done].
  apply createAliveIfIpc_spec in E as (s & p & -> & Hp & Hu & Hok & Hb).
  destruct (create_channels d rqs _ w1) as [[[oks2 ss2] w2]|] eqn:E2; simpl; [|done]. intros [= <- <- <-].
  rewrite cons_middle, (assoc (++)) in Hr, Hnd. rewrite (cons_middle rq), (cons_middle ok), !(assoc (++)).
  eapply IH; [done|done| |exact E2]. eapply channels_inv_snoc; eauto.
  - by apply Forall_app in Hr as [? _].
  - rewrite fmap_app in Hnd. by apply NoDup_app in Hnd as (? & _ & _).
Qed.

(** ** The claim *)

Lemma construct_spec d uid b c path w o getenv instance :
  path <> ""%string -> Socket.full_name path = path -> getenv "LCM_ALIVE_INTERFACE_PATH"%string = Some path ->
  Shm.names w !! path = Some o -> Shm.objects w !! o = Some (channel d uid b) -> RingBuffer.initialized_ b = true ->
  exists a w1, Alive_.construct undisturbed getenv c instance w = Ret (Some a, w1) /\ Shm.objects w1 = Shm.objects w /\
    if may_report d uid c then connected_to o a
    else forall i, Alive_.aliveImplPtr a = Some i -> IpcBase.isInitialized (AliveImpl.ipcClient i) = false.
Proof.
  intros Hne Hf Hg Hn Ho Hb. unfold Alive_.construct, AliveImpl.construct, AliveImpl.connectToAliveMonitor, AliveImpl.readInterfacePath.
  rewrite Hg, bool_decide_eq_false_2 by done. unfold IpcClient.init. simpl. rewrite (connect_spec d uid b c path w o); [|by rewrite Hf|done|done].
  simpl. destruct (may_report d uid c); simpl; eexists _, _; (split; [done|]); (split; [done|]).
  - unfold connected_to. eauto.
  - by intros i [= <-].
Qed.

Lemma view_channel w p o own d uid b :
  Shm.objects w !! o = Some (channel d uid b) -> IpcBase.view w (IpcBase.mk (Socket.mk own p (Some o)) true) = Ipc.mk (Some b) true.
Proof. intros Ho. unfold IpcBase.view. simpl. by rewrite Ho. Qed.

Lemma new_buffer_filled l :
  Ipc.rep sizeof_timestamp (Ipc.mk (Some (enqueue_all l new_buffer)) true) (take k_maxCheckpointBufferElements l) /\
  Ipc.hasOverflow (Ipc.mk (Some (enqueue_all l new_buffer)) true) = bool_decide (k_maxCheckpointBufferElements < length l).
Proof.
  destruct (enqueue_all_spec l new_buffer [] (RingBuffer.rep_make 0%Z sizeof_timestamp 512 ltac:(lia))) as [Hr Ho].
  change (RingBuffer.Capacity new_buffer) with k_maxCheckpointBufferElements in *. simpl app in *. split.
  - split; [done|]. eexists. split; [done|]. exact Hr.
  - unfold Ipc.hasOverflow, Ipc.getOverflowFlag. simpl. rewrite Ho. by rewrite orb_false_l.
Qed.

(** C17: the channels of the supervised components, made one after the other with any answers of
    the operating system.  For each that was made with success: a process that finds its name in the environment connects
    to exactly this channel when it runs under the configured user, under the daemon's user or with privileges; the daemon then
    finds the times of its reports there in order, the first 512 of them, and the overflow flag exactly when
    there were more.  A process under any other user changes nothing.  In both cases the channels of all other components
    stay as they are. *)
Theorem channels_reach_their_processes `{BuildMode} (d : Shm.Cred) (rqs : list request) (w0 w : Shm.t) (oks : list bool) (ss : list IpcBase.t) :
  Forall (fun r => 0 <= rq_component r < 2 ^ 64)%Z rqs -> NoDup (rq_component <$> rqs) ->
  create_channels d rqs [] w0 = Ret (oks, ss, w) ->
  forall i rq s, rqs !! i = Some rq -> oks !! i = Some true -> ss !! i = Some s ->
  forall c instance getenv p,
    AlivePath.aliveInterfacePath (rq_component rq) = Ret p -> getenv "LCM_ALIVE_INTERFACE_PATH"%string = Some p ->
    exists a w1, Alive_.construct undisturbed getenv c instance w = Ret (Some a, w1) /\
      forall readings,
        let w' := report_all readings a w1 in
        let received := if may_report d (wrap 32 (rq_uid rq)) c then getMonotonicSystemClock <$> readings else [] in
        Ipc.rep sizeof_timestamp (IpcBase.view w' s) (take k_maxCheckpointBufferElements received) /\
        Ipc.hasOverflow (IpcBase.view w' s) = bool_decide (k_maxCheckpointBufferElements < length received) /\
        (forall j s', j <> i -> ss !! j = Some s' -> IpcBase.view w' s' = IpcBase.view w s').
Proof.
  intros Hr Hnd Hc i rq s Hrq Hok Hs c instance getenv p Hp Hg.
  assert (channels_inv d rqs oks ss w) as [_ _ Hserve Hdist _].
  { eapply (create_channels_inv d rqs [] [] [] w0); eauto. by split. }
  destruct (Hserve _ _ _ Hrq Hok Hs) as (p' & o & Hp' & Hn & -> & Ho). rewrite Hp in Hp'. injection Hp' as <-.
  destruct (path_slash _ _ Hp) as [Hf Hne].
  destruct (construct_spec d _ _ c p w o getenv instance Hne Hf Hg Hn Ho eq_refl) as (a & w1 & Ea & Ho1 & Hcase).
  exists a, w1. split; [done|]. intros readings. cbv zeta. destruct (may_report d _ c).
  - pose proof (report_all_connected readings a o d _ _ w1 Hcase ltac:(by rewrite Ho1)) as Hob.
    rewrite (view_channel _ p o true d (wrap 32 (rq_uid rq)) (enqueue_all (getMonotonicSystemClock <$> readings) new_buffer))
      by (rewrite Hob; apply lookup_insert_eq).
    destruct (new_buffer_filled (getMonotonicSystemClock <$> readings)) as [Hrep Hov]. split_and!; [done|done|].
    intros j s' Hj Hs'. unfold IpcBase.view. f_equal. destruct (Socket.buffer_ (IpcBase.socket s')) as [o'|] eqn:Hb; [|done]. simpl.
    rewrite Hob, lookup_insert_ne, Ho1; [done|]. intros <-. apply Hj. by eapply Hdist.
  - simpl. rewrite report_all_refused by done. rewrite (view_channel _ p o true d (wrap 32 (rq_uid rq)) new_buffer) by by rewrite Ho1.
    destruct (new_buffer_filled []) as [Hrep Hov]. split_and!; [done|done|].
    intros j s' _ _. unfold IpcBase.view. by rewrite Ho1.
Qed.

End Proofs.
End AliveChannelProofs.

(** ** A concrete system *)

Module AliveChannelExample.

(** A process is its user and whether it is privileged; nobody is in the owner's group. *)
Definition granted (r w : bool) (e : Shm.acl_entry_t) : bool := implb r (Shm.acl_read e) && implb w (Shm.acl_write e).

Definition simple_permitted (u : Z) (a : list Shm.acl_entry_t) (c : Z * bool) (r w : bool) : bool :=
  if c.2 then true
  else if bool_decide (c.1 = u) then
    match filter (fun x => Shm.tag x = Shm.ACL_USER_OBJ) a with [e] => granted r w e | _ => false end
  else
    match filter (fun x => Shm.tag x = Shm.ACL_USER /\ Shm.qualifier x = Some c.1) a with
    | [] => existsb (granted r w) (filter (fun x => Shm.tag x = Shm.ACL_OTHER) a)
    | [e] => match filter (fun x => Shm.tag x = Shm.ACL_MASK) a with [m] => granted r w e && granted r w m | _ => false end
    | _ => false
    end.

#[local, program] Instance simple_access : Shm.AccessControl := {|
  Shm.Cred := Z * bool; Shm.euid := fst; Shm.umask _ := 0%Z; Shm.privileged := snd; Shm.permitted := simple_permitted |}.
Next Obligation. intros u a [x b] r w E. unfold simple_permitted. simpl in *. by rewrite E. Qed.
Next Obligation.
  intros u a [x b] r w e Hp Hu Hf. unfold simple_permitted, granted. simpl in *. by rewrite Hp, bool_decide_eq_true_2, Hf.
Qed.
Next Obligation.
  intros u a [x b] r w e m Hp Hu Hf Hm. unfold simple_permitted, granted. simpl in *. rewrite Hp, bool_decide_eq_false_2, Hf, Hm by done.
  by destruct r, w, (Shm.acl_read e), (Shm.acl_read m), (Shm.acl_write e), (Shm.acl_write m).
Qed.
Next Obligation.
  intros u a [x b] r w Hp Hu Hf Ha Hrw. unfold simple_permitted. simpl in *. rewrite Hp, bool_decide_eq_false_2, Hf by done.
  apply not_true_is_false. intros (e & He & Hg)%existsb_exists. apply list_elem_of_In, list_elem_of_filter in He as [Ht He].
  eapply Forall_forall in Ha as Hx; [|exact He]. destruct (Hx (or_intror Ht)) as [E1 E2]. unfold granted in Hg. rewrite E1, E2 in Hg.
  by destruct r, w.
Qed.

(** A system that refuses nothing, and one that has no memory for the second channel. *)
Definition willing : IpcServer.AclEnv := fun _ => true.
Definition no_memory : Socket.Env := fun c => match c with Socket.call_ftruncate => Some 12%Z | _ => None end.

Definition two_requests : list AliveChannelProofs.request :=
  [AliveChannelProofs.mkRequest 17 1000 AliveChannelProofs.undisturbed None willing;
   AliveChannelProofs.mkRequest 18 1001 no_memory None willing].

Definition empty_system : Shm.t := Shm.mk ∅ ∅ ∅ [].
Definition root : Shm.Cred := (0%Z, true).

Lemma two_channels_made (B : BuildMode) :
  match AliveChannelProofs.create_channels root two_requests [] empty_system with
  | Ret (oks, ss, w) => oks = [true; false] /\ Shm.names w = {["/lifecycle_health_17" := 0]} /\ Shm.fds w = ∅ /\
      length ss = 2
  | Abort _ => False
  end.
Proof. destruct B; vm_compute; done. Qed.

Lemma two_requests_distinct : NoDup (AliveChannelProofs.rq_component <$> two_requests).
Proof. change (NoDup [17%Z; 18%Z]). by apply (bool_decide_unpack _). Qed.

Definition made : list bool * list IpcBase.t * Shm.t :=
  match @AliveChannelProofs.create_channels _ release_build root two_requests [] empty_system with
  | Ret x => x
  | Abort _ => ([], [], empty_system)
  end.
Definition first_server : IpcBase.t := IpcBase.mk (Socket.mk true "/lifecycle_health_17" (Some 0)) true.
Definition first_env (name : string) : option string :=
  if bool_decide (name = "LCM_ALIVE_INTERFACE_PATH") then Some "/lifecycle_health_17"%string else None.

(** The process of the configured user 1000 reaches the daemon, one of user 1002 does not. *)
Lemma channels_reach_their_processes_witness :
  (exists a w1, Alive_.construct AliveChannelProofs.undisturbed first_env (1000%Z, false) "app" made.2 = Ret (Some a, w1) /\
     Ipc.rep AliveChannelProofs.sizeof_timestamp
       (IpcBase.view (AliveChannelProofs.report_all [(0%Z, mkTimespec 1 5); ((-1)%Z, mkTimespec 0 0)] a w1) first_server)
       [1000000005%Z; 0%Z]) /\
  (exists a w1, Alive_.construct AliveChannelProofs.undisturbed first_env (1002%Z, false) "app" made.2 = Ret (Some a, w1) /\
     Ipc.rep AliveChannelProofs.sizeof_timestamp
       (IpcBase.view (AliveChannelProofs.report_all [(0%Z, mkTimespec 1 5)] a w1) first_server) []).
Proof.
  split.
  - destruct (@AliveChannelProofs.channels_reach_their_processes simple_access release_build root two_requests empty_system
      made.2 made.1.1 made.1.2 ltac:(repeat constructor; simpl; lia) two_requests_distinct
      ltac:(by vm_compute) 0 (AliveChannelProofs.mkRequest 17 1000 AliveChannelProofs.undisturbed None willing) first_server
      eq_refl ltac:(by vm_compute) ltac:(by vm_compute) (1000%Z, false) "app"%string first_env "/lifecycle_health_17"%string
      ltac:(by vm_compute) ltac:(by vm_compute)) as (a & w1 & E & Hr).
    exists a, w1. split; [exact E|]. exact (proj1 (Hr [(0%Z, mkTimespec 1 5); ((-1)%Z, mkTimespec 0 0)])).
  - destruct (@AliveChannelProofs.channels_reach_their_processes simple_access release_build root two_requests empty_system
      made.2 made.1.1 made.1.2 ltac:(repeat constructor; simpl; lia) two_requests_distinct
      ltac:(by vm_compute) 0 (AliveChannelProofs.mkRequest 17 1000 AliveChannelProofs.undisturbed None willing) first_server
      eq_refl ltac:(by vm_compute) ltac:(by vm_compute) (1002%Z, false) "app"%string first_env "/lifecycle_health_17"%string
      ltac:(by vm_compute) ltac:(by vm_compute)) as (a & w1 & E & Hr).
    exists a, w1. split; [exact E|]. exact (proj1 (Hr [(0%Z, mkTimespec 1 5)])).
Defined.

End AliveChannelExample.
