(* ===== verification/AliveMonitor.v ===== *)
(** * The alive monitor's cycle

    [MonitorIfDaemon] (ifappl), the reader of a process's checkpoint channel;
    [ObservableEventReader] (ifexm), which distributes activations and
    deactivations; [SupervisionManager] and [CyclicExecutor] (daemon), which run
    both and the supervisions once per cycle.  A worker is what the factory
    wires together for one component: the observable event, whose observers are
    the interface and the supervision in that order, and the interface, whose
    observer is the supervision.  The recovery client is one object shared by all
    supervisions. *)

From stdpp Require Import prelude sorting.
From S2P Require Import Prelude Queues.
From S2P Require Import Timers TimeSorting Alive AliveProofs Ipc.

(** A loop over a vector. *)
Fixpoint traverse_M {A B} (f : A -> outcome B) (l : list A) : outcome (list B) :=
  match l with [] => Ret [] | x :: l' => y ← f x; ys ← traverse_M f l'; Ret (y :: ys) end.

Lemma traverse_M_spec {A B} (f : A -> outcome B) (P : A -> Prop) (Q : B -> Prop) l :
  (forall x, P x -> returns (f x) Q) -> Forall P l ->
  returns (traverse_M f l) (fun l' => Forall Q l' /\ length l' = length l).
Proof.
  intros Hf. induction 1 as [|x l Hx Hl IH]; simpl; [done|].
  eapply returns_bind; [by apply Hf|]. intros y Hy. eapply returns_bind; [exact IH|].
  intros ys [Hys Hlen]. simpl. split; [by constructor|by rewrite Hlen].
Qed.

Definition sizeof_checkpoint : nat := 8.
Definition sizeof_event : nat := 32.

Module MonitorIfDaemon.

Inductive EInternalState := kActive | kInactive | kInactiveOverflow.

#[export] Instance EInternalState_eq_dec : EqDecision EInternalState.
Proof. solve_decision. Defined.

(** [ipcserver_r] refers to the channel of the process: timestamps. *)
Record t := mk {
  status : EInternalState;
  isActivateRequest : bool;
  isDeactivateRequest : bool;
  isProcessRestarted : bool;
  ipcserver : Ipc.t Z
}.

Definition make (c : Ipc.t Z) : t := mk kInactive false false false c.

Definition updateData (eventType : SupervisionEventType) (m : t) : t :=
  match eventType with
  | EvActivation =>
      mk (status m) true false (if isDeactivateRequest m then true else isProcessRestarted m) (ipcserver m)
  | EvDeactivation => mk (status m) (isActivateRequest m) true (isProcessRestarted m) (ipcserver m)
  end.

Definition set_status (s : EInternalState) (m : t) : t :=
  mk s (isActivateRequest m) (isDeactivateRequest m) (isProcessRestarted m) (ipcserver m).
Definition set_channel (c : Ipc.t Z) (m : t) : t :=
  mk (status m) (isActivateRequest m) (isDeactivateRequest m) (isProcessRestarted m) c.

Section Interface.
(** The observers of the interface. *)
Context {X : Type} (pushResultToObservers : Checkpoint -> X -> outcome X).

Definition pushOverflowInfoToObservers (x : X) : outcome X := pushResultToObservers (checkpoint_of 0) x.

Definition handleOverflow (m : t) (x : X) : outcome (t * X) :=
  x' ← pushOverflowInfoToObservers x; Ret (set_status kInactiveOverflow m, x').

(** The [do]-[while] loop: whether it was successful. *)
Fixpoint read_loop (fuel : nat) (f_syncTimestamp : Z) (c : Ipc.t Z) (x : X) : outcome (bool * Ipc.t Z * X) :=
  match fuel with
  | 0 => Abort OutOfFuel
  | S fuel' =>
      match Ipc.peek sizeof_checkpoint c with
      | (kPeekOk, Some ts) =>
          if (ts <=? f_syncTimestamp)%Z then
            x' ← pushResultToObservers (checkpoint_of ts) x;
            let '(popped, c') := Ipc.pop c in
            if popped : bool then read_loop fuel' f_syncTimestamp c' x' else Ret (false, c', x')
          else Ret (true, c, x)
      | (kPeekNoDataToRead, _) => Ret (true, c, x)
      | _ => Ret (false, c, x)
      end
  end.

Definition pending_elements (c : Ipc.t Z) : nat :=
  match Ipc.buffer_ c with Some b => RingBuffer.size_ b | None => 0 end.

Definition readIpcUntil (f_syncTimestamp : Z) (c : Ipc.t Z) (x : X) : outcome (bool * Ipc.t Z * X) :=
  read_loop (S (pending_elements c)) f_syncTimestamp c x.

Definition checkForNewData (f_syncTimestamp : Z) (m0 : t) (x : X) : outcome (t * X) :=
  let m := if isActivateRequest m0 && bool_decide (status m0 = kInactive) then set_status kActive m0 else m0 in
  match status m with
  | kActive =>
      if Ipc.hasOverflow (ipcserver m) then handleOverflow m x
      else
        '(success, c, x1) ← readIpcUntil f_syncTimestamp (ipcserver m) x;
        let m1 := set_channel c m in
        if success : bool then
          Ret (if isDeactivateRequest m1 then mk kInactive false false (isProcessRestarted m1) (ipcserver m1) else m1, x1)
        else handleOverflow m1 x1
  | kInactiveOverflow =>
      if isProcessRestarted m then
        x' ← pushOverflowInfoToObservers x;
        Ret (mk (status m) (isActivateRequest m) (isDeactivateRequest m) false (ipcserver m), x')
      else Ret (m, x)
  | kInactive => Ret (m, x)
  end.

(** ** Properties *)

(** What belongs to the cycle: up to the first newer checkpoint. *)
Fixpoint due_prefix (sync : Z) (l : list Z) : list Z :=
  match l with [] => [] | z :: l' => if (z <=? sync)%Z then z :: due_prefix sync l' else [] end.
Definition due_rest (sync : Z) (l : list Z) : list Z := drop (length (due_prefix sync l)) l.

Lemma due_prefix_le sync l : Forall (fun z => z <= sync)%Z (due_prefix sync l).
Proof. induction l as [|z l IH]; simpl; [constructor|]. destruct (Z.leb_spec z sync); by constructor. Qed.

Lemma read_loop_spec sync : forall l fuel c x, Ipc.rep sizeof_checkpoint c l -> length l < fuel ->
  (o ← foldM (fun x z => pushResultToObservers (checkpoint_of z) x) x (due_prefix sync l); Ret o) =
  (o ← read_loop fuel sync c x; Ret o.2) /\
  forall r, read_loop fuel sync c x = Ret r ->
    r.1.1 = true /\ Ipc.rep sizeof_checkpoint r.1.2 (due_rest sync l) /\
    Ipc.hasOverflow r.1.2 = Ipc.hasOverflow c.
Proof.
  induction l as [|z l IH]; intros fuel c x Hc Hf; (destruct fuel as [|fuel]; [simpl in Hf; lia|]); cbn [read_loop].
  { rewrite (Ipc.peek_nil _ _ Hc). simpl. split; [done|]. intros r [= <-]. done. }
  rewrite (Ipc.peek_cons _ _ _ _ Hc). cbn [due_prefix]. unfold due_rest. cbn [due_prefix].
  destruct (z <=? sync)%Z eqn:Hz; [|by split; [|intros r [= <-]]].
  cbn [foldM]. destruct (pushResultToObservers (checkpoint_of z) x) as [x'|]; [|by split; [|intros]].
  cbn [mbind outcome_bind]. destruct (Ipc.pop_cons _ _ _ _ Hc) as (c' & -> & Hc' & Ho).
  destruct (IH fuel c' x' Hc' ltac:(simpl in Hf; lia)) as [E Hr]. split; [exact E|].
  intros r Er. destruct (Hr r Er) as (H1 & H2 & H3). by rewrite H3.
Qed.

(** The observers never stop the daemon. *)
Definition observers_return : Prop := forall cp x, exists x', pushResultToObservers cp x = Ret x'.

Lemma foldM_returns {B} (f : X -> B -> outcome X) l : (forall x b, exists x', f x b = Ret x') ->
  forall x, exists x', foldM f x l = Ret x'.
Proof. intros Hf. induction l as [|b l IH]; intros x; simpl; [eauto|]. destruct (Hf x b) as [x' ->]. simpl. eauto. Qed.

(** The state that reads: active, or activated since the last cycle. *)
Definition reading (m : t) : Prop := status m = kActive \/ status m = kInactive /\ isActivateRequest m = true.

Lemma readIpcUntil_spec sync c l x : Ipc.rep sizeof_checkpoint c l ->
  match foldM (fun x z => pushResultToObservers (checkpoint_of z) x) x (due_prefix sync l) with
  | Ret x' => exists c', readIpcUntil sync c x = Ret (true, c', x') /\ Ipc.rep sizeof_checkpoint c' (due_rest sync l) /\
      Ipc.hasOverflow c' = Ipc.hasOverflow c
  | Abort f => readIpcUntil sync c x = Abort f
  end.
Proof.
  intros Hc. unfold readIpcUntil. assert (Hp : pending_elements c = length l).
  { destruct Hc as (_ & b & Hb & Hr). unfold pending_elements. rewrite Hb. apply Hr. }
  destruct (read_loop_spec sync l (S (pending_elements c)) c x Hc ltac:(lia)) as [E Hr].
  destruct (foldM _ _ _) as [x'|f]; destruct (read_loop _ _ _ _) as [[[ok c'] x'']|]; simpl in E; try done; [|by injection E as ->].
  injection E as ->. destruct (Hr _ eq_refl) as (H1 & H2 & H3). simpl in *. subst ok. eauto.
Qed.

(** C18: while the interface of a process is active and its channel has not
    overflowed, a cycle hands the observers exactly the checkpoints up to the first
    one that is newer than the synchronisation time, each once and in the order in which
    they were sent, and leaves the others in the channel; the interface becomes
    inactive when the process was deactivated. *)
Theorem checkpoints_delivered_once (sync : Z) (m : t) (l : list Z) (x x' : X) :
  reading m -> Ipc.rep sizeof_checkpoint (ipcserver m) l -> Ipc.hasOverflow (ipcserver m) = false ->
  foldM (fun x z => pushResultToObservers (checkpoint_of z) x) x (due_prefix sync l) = Ret x' ->
  exists m', checkForNewData sync m x = Ret (m', x') /\
    Ipc.rep sizeof_checkpoint (ipcserver m') (due_rest sync l) /\
    Ipc.hasOverflow (ipcserver m') = false /\
    status m' = (if isDeactivateRequest m then kInactive else kActive).
Proof.
  intros Hm Hc Ho Hx. unfold checkForNewData.
  set (m1 := if isActivateRequest m && _ then set_status kActive m else m).
  assert (Hm1 : status m1 = kActive /\ ipcserver m1 = ipcserver m /\ isDeactivateRequest m1 = isDeactivateRequest m).
  { unfold m1. destruct Hm as [Hs|[Hs Ha]]; rewrite Hs; [by destruct (isActivateRequest m)|]. by rewrite Ha. }
  clearbody m1. destruct Hm1 as (Hs & Hi & Hd). rewrite Hs, Hi, Ho.
  pose proof (readIpcUntil_spec sync (ipcserver m) l x Hc) as Hr. rewrite Hx in Hr. destruct Hr as (c' & -> & Hc' & Ho').
  cbn [mbind outcome_bind]. cbn [isDeactivateRequest set_channel]. rewrite Hd. eexists. split; [done|].
  destruct (isDeactivateRequest m); simpl; by rewrite Ho', Ho.
Qed.

(** A data loss in the channel of an active process is told to its
    observers, once, and the channel is not read again: the interface stays in
    [kInactiveOverflow], where each cycle does nothing, except that it repeats the data
    loss once after a restart of the process. *)
Theorem overflow_reported_and_final (sync : Z) (m : t) (x x' : X) :
  pushResultToObservers (checkpoint_of 0) x = Ret x' ->
  (reading m -> Ipc.hasOverflow (ipcserver m) = true ->
     exists m', checkForNewData sync m x = Ret (m', x') /\ status m' = kInactiveOverflow /\ ipcserver m' = ipcserver m) /\
  (status m = kInactiveOverflow ->
     exists m', checkForNewData sync m x = Ret (m', if isProcessRestarted m then x' else x) /\
       status m' = kInactiveOverflow /\ ipcserver m' = ipcserver m /\ isProcessRestarted m' = false).
Proof.
  intros Hx. unfold checkForNewData, handleOverflow, pushOverflowInfoToObservers. split.
  - intros Hm Ho. set (m1 := if isActivateRequest m && _ then set_status kActive m else m).
    assert (Hm1 : status m1 = kActive /\ ipcserver m1 = ipcserver m).
    { unfold m1. destruct Hm as [Hs|[Hs Ha]]; rewrite Hs; [by destruct (isActivateRequest m)|]. by rewrite Ha. }
    clearbody m1. destruct Hm1 as (Hs & Hi). rewrite Hs, Hi, Ho, Hx. simpl. eexists. by split_and!.
  - intros Hs. rewrite (bool_decide_eq_false_2 (status m = kInactive)) by (by rewrite Hs).
    rewrite andb_false_r, Hs. destruct (isProcessRestarted m) eqn:Hr; [rewrite Hx; simpl|]; eexists; by split_and!.
Qed.

End Interface.
End MonitorIfDaemon.

(** ** Supervision events and the cycle *)

Module CyclicExecutor.
Import Alive AliveProofs.

Section Executor.
Context {Id R : Type} `{EqDecision Id} `{RecoveryClient Id R}.

(** [SupervisionEvent] *)
Record SupervisionEvent := mkEvent {
  ev_id : Id;
  ev_type : SupervisionEventType;
  ev_timestamp : timespec
}.

(** One component's objects in the vectors of [SupervisionManager]. *)
Record Worker := mkWorker {
  w_event : SupervisionEvent;          (* ObservableEvent::event *)
  w_if : MonitorIfDaemon.t;
  w_alive : Alive.t Id R
}.

Record t := mk {
  buffer_ : RingBuffer.t SupervisionEvent;
  isPushPending : bool;
  lastChangedProcess_p : option nat;   (* index of the worker *)
  workers : list Worker;
  recoveryClient_ : R
}.

Definition set_workers (ws : list Worker) (s : t) : t :=
  mk (buffer_ s) (isPushPending s) (lastChangedProcess_p s) ws (recoveryClient_ s).
Definition set_pending (p : bool) (s : t) : t :=
  mk (buffer_ s) p (lastChangedProcess_p s) (workers s) (recoveryClient_ s).
Definition set_last_changed (i : nat) (s : t) : t :=
  mk (buffer_ s) (isPushPending s) (Some i) (workers s) (recoveryClient_ s).
Definition set_events (b : RingBuffer.t SupervisionEvent) (s : t) : t :=
  mk b (isPushPending s) (lastChangedProcess_p s) (workers s) (recoveryClient_ s).

(** [ObservableEvent::pushData]: the interface, then the supervision. *)
Definition notify_worker (w : Worker) : outcome Worker :=
  a ← updateData_event (ev_timestamp (w_event w)) (ev_type (w_event w)) (w_alive w);
  Ret (mkWorker (w_event w) (MonitorIfDaemon.updateData (ev_type (w_event w)) (w_if w)) a).

Definition pushData (p : option nat) (s : t) : outcome t :=
  match p with
  | None => Abort NullPointer
  | Some i =>
      match workers s !! i with
      | None => Abort OutOfRange
      | Some w => w' ← notify_worker w; Ret (set_workers (<[i := w']> (workers s)) s)
      end
  end.

(** [processStateMap.find]: the worker of a component. *)
Fixpoint find_worker (id : Id) (ws : list Worker) : option nat :=
  match ws with
  | [] => None
  | w :: ws' => if bool_decide (ev_id (w_event w) = id) then Some 0 else S <$> find_worker id ws'
  end.

Definition set_event (i : nat) (e : SupervisionEvent) (s : t) : t :=
  match workers s !! i with
  | None => s
  | Some w => set_workers (<[i := mkWorker (mkEvent (ev_id (w_event w)) (ev_type e) (ev_timestamp e)) (w_if w) (w_alive w)]>
                (workers s)) s
  end.

(** true: the event is newer than the synchronisation time. *)
Definition pushUpdateTill (f_event : SupervisionEvent) (f_syncTimestamp : Z) (s : t) : outcome (bool * t) :=
  match find_worker (ev_id f_event) (workers s) with
  | None => Ret (false, s)
  | Some i =>
      let s1 := set_event i f_event s in
      if (TimeConversion.convertToNanoSec (ev_timestamp f_event) <=? f_syncTimestamp)%Z
      then s2 ← pushData (Some i) s1; Ret (false, s2)
      else Ret (true, set_last_changed i s1)
  end.

(** An error, no event, or an event. *)
Definition getNextSupervisionEvent (s : t) : option (option SupervisionEvent) * t :=
  if (RingBuffer.getOverflowFlag false (buffer_ s)).1 then (None, s)
  else if RingBuffer.empty (buffer_ s) then (Some None, s)
  else
    match RingBuffer.tryDequeue sizeof_event (buffer_ s) with
    | (Some e, b) => (Some (Some e), set_events b s)
    | (None, b) => (None, set_events b s)
    end.

Fixpoint distribute_loop (fuel : nat) (f_syncTimestamp : Z) (s : t) : outcome (bool * t) :=
  match fuel with
  | 0 => Abort OutOfFuel
  | S fuel' =>
      match getNextSupervisionEvent s with
      | (Some (Some event), s1) =>
          '(reached, s2) ← pushUpdateTill event f_syncTimestamp s1;
          let s3 := set_pending reached s2 in
          if reached : bool then Ret (true, s3) else distribute_loop fuel' f_syncTimestamp s3
      | (Some None, s1) => Ret (true, s1)
      | (None, s1) => Ret (false, s1)
      end
  end.

Definition distributeChanges (f_syncTimestamp : Z) (s : t) : outcome (bool * t) :=
  s1 ← (if isPushPending s then s1 ← pushData (lastChangedProcess_p s) s; Ret (set_pending false s1) else Ret s);
  distribute_loop (S (RingBuffer.size_ (buffer_ s1))) f_syncTimestamp s1.

(** [SupervisionManager] *)
Definition check_worker (f_syncTimestamp : Z) (w : Worker) : outcome Worker :=
  '(m, a) ← MonitorIfDaemon.checkForNewData updateData_checkpoint f_syncTimestamp (w_if w) (w_alive w);
  Ret (mkWorker (w_event w) m a).

Definition checkInterfaceForNewData (f_syncTimestamp : Z) (ws : list Worker) : outcome (list Worker) :=
  traverse_M (check_worker f_syncTimestamp) ws.

(** The supervisions share the recovery client. *)
Fixpoint evaluateSupervisions (f_syncTimestamp : Z) (ws : list Worker) (r : R) : outcome (list Worker * R) :=
  match ws with
  | [] => Ret ([], r)
  | w :: ws' =>
      a ← evaluate f_syncTimestamp (set_recovery r (recoveryEnqueueFailed_ (w_alive w)) (w_alive w));
      '(ws1, r1) ← evaluateSupervisions f_syncTimestamp ws' (recoveryClient a);
      Ret (mkWorker (w_event w) (w_if w) a :: ws1, r1)
  end.

Definition hasAnyRecoveryEnqueueFailed (ws : list Worker) : bool :=
  existsb (fun w => hasRecoveryEnqueueFailed (w_alive w)) ws.

Definition manager_performCyclicTriggers (f_syncTimestamp : Z) (s : t) : outcome t :=
  ws ← checkInterfaceForNewData f_syncTimestamp (workers s);
  '(ws1, r) ← evaluateSupervisions f_syncTimestamp ws (recoveryClient_ s);
  Ret (mk (buffer_ s) (isPushPending s) (lastChangedProcess_p s) ws1 r).

(** The clock reading is 0 when it failed. *)
Definition sync_of (now : Z) : Z := if (now =? 0)%Z then INT64_MAX else now.

Definition performCyclicTriggers (now : Z) (s : t) : outcome t :=
  '(ok, s1) ← distributeChanges (sync_of now) s;
  if ok : bool then manager_performCyclicTriggers (sync_of now) s1 else Ret s1.

(** ** The invariant *)

(** Between two steps all buffered events are at most [T] old. *)
Definition worker_ok (T : Z) (w : Worker) : Prop :=
  (exists l, between l (w_alive w) /\ Forall (fun p => p.1 <= T)%Z l) /\
  exists cps, Ipc.rep sizeof_checkpoint (MonitorIfDaemon.ipcserver (w_if w)) cps.

Record inv (T : Z) (s : t) : Prop := {
  inv_workers : Forall (worker_ok T) (workers s);
  inv_events : exists es, RingBuffer.rep sizeof_event (buffer_ s) es;
  inv_pending : isPushPending s = true ->
    exists i w, lastChangedProcess_p s = Some i /\ workers s !! i = Some w
}.

(** The pending event, if there is one, is not newer than [T]. *)
Definition pending_before (T : Z) (s : t) : Prop :=
  isPushPending s = true -> forall i w, lastChangedProcess_p s = Some i -> workers s !! i = Some w ->
    (TimeConversion.convertToNanoSec (ev_timestamp (w_event w)) <= T)%Z.

Lemma worker_ok_mono T T' w : (T <= T')%Z -> worker_ok T w -> worker_ok T' w.
Proof.
  intros HT [(l & Hb & Hl) Hc]. split; [|done]. exists l. split; [done|].
  eapply Forall_impl; [done|]. simpl. intros. lia.
Qed.

(** A new event keeps the supervision between two evaluations. *)
Lemma push_event_ok T e z (a : Alive.t Id R) l : between l a -> Forall (fun p => p.1 <= T)%Z l ->
  z = getTimestampOfUpdateEvent e -> (z <= T)%Z ->
  exists a' l', push_event e z a = Ret a' /\ between l' a' /\ Forall (fun p => p.1 <= T)%Z l'.
Proof.
  intros Hb Hl Hz HT. destruct (push_event_between e z l a Hb Hz) as (a' & -> & _ & Hp). exists a'.
  case_bool_decide; destruct Hp as [Hb' _]; eexists; (split; [done|]); (split; [exact Hb'|]); [|done].
  rewrite TimeSortingBuffer.insert_perm. by constructor.
Qed.

Lemma updateData_checkpoint_ok T z (a : Alive.t Id R) l : between l a -> Forall (fun p => p.1 <= T)%Z l -> (z <= T)%Z \/ z = 0%Z ->
  exists a' l', updateData_checkpoint (checkpoint_of z) a = Ret a' /\ between l' a' /\ Forall (fun p => p.1 <= T)%Z l'.
Proof.
  intros Hb Hl Hz. destruct (decide (z = 0%Z)) as [->|Hnz].
  - eexists _, l. split; [reflexivity|]. split; [|done]. destruct Hb as [Hw Hr].
    split; [by apply wf_eventTime, wf_dataLoss|]. by destruct Hr.
  - rewrite updateData_push by done. apply (push_event_ok T _ _ a l); try done. by destruct Hz.
Qed.

Lemma notify_worker_ok T w : worker_ok T w -> (TimeConversion.convertToNanoSec (ev_timestamp (w_event w)) <= T)%Z ->
  returns (notify_worker w) (worker_ok T).
Proof.
  intros [(l & Hb & Hl) (cps & Hc)] HT. unfold notify_worker, updateData_event.
  set (z := TimeConversion.convertToNanoSec _) in *.
  destruct (push_event_ok T (SupervisionEventSnapshot z (ev_type (w_event w))) z _ l Hb Hl eq_refl HT) as (a' & l' & -> & Hb' & Hl').
  cbn [mbind outcome_bind returns]. split; [by exists l'|]. exists cps. simpl. by destruct (ev_type (w_event w)).
Qed.

(** What a step of the reader keeps. *)
Definition steady (s s' : t) : Prop := length (workers s') = length (workers s) /\ recoveryClient_ s' = recoveryClient_ s.

#[local] Instance steady_refl : Reflexive steady.
Proof. by split. Qed.
#[local] Instance steady_trans : Transitive steady.
Proof. intros ??? [] []. split; congruence. Qed.

Lemma pushData_ok T s i w : Forall (worker_ok T) (workers s) -> workers s !! i = Some w ->
  (TimeConversion.convertToNanoSec (ev_timestamp (w_event w)) <= T)%Z ->
  returns (pushData (Some i) s) (fun s' => Forall (worker_ok T) (workers s') /\ steady s s' /\ buffer_ s' = buffer_ s).
Proof.
  intros Hws Hw HT. unfold pushData. rewrite Hw. eapply returns_bind.
  - apply (notify_worker_ok T); [|done]. by eapply Forall_lookup_1.
  - intros w' Hw'. simpl. split_and!; [by apply Forall_insert| |done]. by split; [apply length_insert|].
Qed.

Lemma find_worker_Some id : forall ws i, find_worker id ws = Some i -> exists w, ws !! i = Some w.
Proof.
  induction ws as [|w ws IH]; intros i; simpl; [done|]. case_bool_decide; [intros [= <-]; by exists w|].
  destruct (find_worker id ws) as [j|] eqn:E; [|done]. intros [= <-]. simpl. by apply IH.
Qed.

Lemma pushUpdateTill_ok sync e s : Forall (worker_ok sync) (workers s) ->
  returns (pushUpdateTill e sync s) (fun r => Forall (worker_ok sync) (workers r.2) /\ steady s r.2 /\
    buffer_ r.2 = buffer_ s /\
    (r.1 = true -> exists i w, lastChangedProcess_p r.2 = Some i /\ workers r.2 !! i = Some w)).
Proof.
  intros Hws. unfold pushUpdateTill. destruct (find_worker _ _) as [i|] eqn:Ef; [|by simpl].
  destruct (find_worker_Some _ _ _ Ef) as [w Hw]. unfold set_event. rewrite Hw. set (w' := mkWorker _ _ _).
  set (s1 := set_workers _ s).
  assert (Hok : Forall (worker_ok sync) (workers s1)).
  { apply Forall_insert; [done|]. pose proof (Forall_lookup_1 _ _ _ _ Hws Hw) as [? ?]. by split. }
  assert (Hw' : workers s1 !! i = Some w') by (apply list_lookup_insert_eq; by eapply lookup_lt_Some).
  assert (Hst : steady s s1) by (by split; [apply length_insert|]).
  destruct (Z.leb_spec (TimeConversion.convertToNanoSec (ev_timestamp e)) sync) as [Hle|Hgt].
  - eapply returns_bind; [by apply (pushData_ok sync s1 i w')|]. intros s2 (H1 & H2 & H3). simpl.
    split_and!; [done|by etrans|done|done].
  - simpl. split_and!; [done|done|done|]. intros _. by exists i, w'.
Qed.

Lemma distribute_loop_ok sync : forall fuel es s, Forall (worker_ok sync) (workers s) -> isPushPending s = false ->
  RingBuffer.rep sizeof_event (buffer_ s) es -> length es < fuel ->
  returns (distribute_loop fuel sync s) (fun r => inv sync r.2 /\ steady s r.2).
Proof.
  induction fuel as [|fuel IH]; intros es s Hws Hp Hes Hf; [lia|]. cbn [distribute_loop]. unfold getNextSupervisionEvent.
  assert (Hinv : inv sync s) by (split; [done|by exists es|by rewrite Hp]).
  destruct (RingBuffer.getOverflowFlag _ _).1; [done|]. rewrite (RingBuffer.ring_empty_rep _ _ _ Hes).
  destruct es as [|e es]; [done|]. rewrite (RingBuffer.tryDequeue_cons _ _ _ _ Hes). cbn [bool_decide].
  rewrite bool_decide_eq_false_2 by done. eapply returns_bind; [by apply pushUpdateTill_ok|].
  intros [reached s2] (H1 & H2 & H3 & H4). simpl in *. assert (Hs2 : steady s s2) by (by etrans; [|exact H2]).
  pose proof (RingBuffer.advanceReadHead_rep _ _ _ _ Hes) as Hes'. destruct reached; simpl.
  - split; [|done]. split; [done|exists es; simpl; by rewrite H3|]. intros _. by apply H4.
  - eapply returns_mono; [apply (IH es); try done; [simpl; by rewrite H3|lia]|]. simpl. intros r [? ?]. split; [done|by etrans].
Qed.

Lemma distributeChanges_ok sync s : inv sync s -> pending_before sync s ->
  returns (distributeChanges sync s) (fun r => inv sync r.2 /\ steady s r.2).
Proof.
  intros [Hws (es & Hes) Hp] Hpb. unfold distributeChanges.
  eapply (returns_bind _ _ (fun s1 => Forall (worker_ok sync) (workers s1) /\ isPushPending s1 = false /\
    buffer_ s1 = buffer_ s /\ steady s s1)).
  - destruct (isPushPending s) eqn:E; [|by simpl]. destruct (Hp eq_refl) as (i & w & Hl & Hw). rewrite Hl.
    eapply returns_bind; [apply (pushData_ok sync s i w Hws Hw); by apply (Hpb E i)|]. intros s1 (H1 & H2 & H3). by simpl.
  - intros s1 (H1 & H2 & H3 & H4). eapply returns_mono.
    + apply (distribute_loop_ok sync _ es); [done|done|by rewrite H3|]. rewrite H3. destruct Hes. lia.
    + simpl. intros r [? ?]. split; [done|by etrans].
Qed.

Lemma feed_ok T : forall zs (a : Alive.t Id R) l, between l a -> Forall (fun p => p.1 <= T)%Z l -> Forall (fun z => z <= T)%Z zs ->
  exists a' l', foldM (fun x z => updateData_checkpoint (checkpoint_of z) x) a zs = Ret a' /\ between l' a' /\
    Forall (fun p => p.1 <= T)%Z l'.
Proof.
  induction zs as [|z zs IH]; intros a l Hb Hl Hz; [by exists a, l|]. apply Forall_cons in Hz as [Hz Hzs]. cbn [foldM].
  destruct (updateData_checkpoint_ok T z a l Hb Hl (or_introl Hz)) as (a1 & l1 & -> & Hb1 & Hl1). cbn [mbind outcome_bind]. eauto.
Qed.

Lemma check_worker_ok sync w : worker_ok sync w -> returns (check_worker sync w) (worker_ok sync).
Proof.
  intros [(l & Hb & Hl) (cps & Hc)]. unfold check_worker.
  destruct (updateData_checkpoint_ok sync 0 _ l Hb Hl (or_intror eq_refl)) as (a0 & l0 & E0 & Hb0 & Hl0).
  assert (Hfin : forall m a l, between l a -> Forall (fun p => p.1 <= sync)%Z l -> (exists c, Ipc.rep sizeof_checkpoint (MonitorIfDaemon.ipcserver m) c) ->
    returns (Ret (mkWorker (w_event w) m a)) (worker_ok sync)) by (intros; split; eauto).
  unfold MonitorIfDaemon.checkForNewData. set (m1 := if _ && _ then MonitorIfDaemon.set_status _ _ else _).
  assert (Hm1 : MonitorIfDaemon.ipcserver m1 = MonitorIfDaemon.ipcserver (w_if w)) by (unfold m1; by destruct (_ && _)).
  clearbody m1. rewrite <- Hm1 in Hc. unfold MonitorIfDaemon.handleOverflow, MonitorIfDaemon.pushOverflowInfoToObservers.
  destruct (MonitorIfDaemon.status m1).
  - destruct (Ipc.hasOverflow _); [rewrite E0; cbn [mbind outcome_bind]; by apply (Hfin _ _ l0); [..|exists cps]|].
    pose proof (MonitorIfDaemon.readIpcUntil_spec updateData_checkpoint sync _ _ (w_alive w) Hc) as Hr.
    destruct (feed_ok sync (MonitorIfDaemon.due_prefix sync cps) (w_alive w) l Hb Hl (MonitorIfDaemon.due_prefix_le _ _))
      as (a1 & l1 & E1 & Hb1 & Hl1). rewrite E1 in Hr. destruct Hr as (c' & -> & Hc' & _). cbn [mbind outcome_bind].
    apply (Hfin _ _ l1); [done|done|]. exists (MonitorIfDaemon.due_rest sync cps). by destruct (MonitorIfDaemon.isDeactivateRequest _).
  - by apply (Hfin _ _ l); [..|exists cps].
  - destruct (MonitorIfDaemon.isProcessRestarted m1); [rewrite E0|]; cbn [mbind outcome_bind];
      [by apply (Hfin _ _ l0); [..|exists cps]|by apply (Hfin _ _ l); [..|exists cps]].
Qed.

(** A supervision that has been evaluated. *)
Definition evaluated (sync : Z) (w : Worker) : Prop :=
  between [] (w_alive w) /\ lastSyncTimestamp (w_alive w) = sync /\
  (active (w_alive w) = true -> (sync < referenceCycleEnd (w_alive w))%Z) /\
  exists cps, Ipc.rep sizeof_checkpoint (MonitorIfDaemon.ipcserver (w_if w)) cps.

Lemma evaluate_ok sync (a : Alive.t Id R) l : between l a -> Forall (fun p => p.1 <= sync)%Z l ->
  exists a', evaluate sync a = Ret a' /\ between [] a' /\ lastSyncTimestamp a' = sync /\
    (active a' = true -> (sync < referenceCycleEnd a')%Z).
Proof.
  intros Hb Hle. destruct (evaluate_cases l sync a Hb Hle) as (a' & -> & Hw & _ & Hd & Hc). eexists. split; [done|].
  split_and!; try done; [split; [by apply wf_emptied|apply ready_emptied]|]. intros Hact. destruct Hc as [[-> _]|Hx].
  - apply not_due_sync; [|done]. apply process_sync_due, Hb.
  - unfold active in Hact. simpl in Hact. by rewrite Hx in Hact.
Qed.

Lemma between_set_recovery r f (a : Alive.t Id R) l : between l a -> between l (set_recovery r f a).
Proof. intros [[] []]. by split; split. Qed.

Lemma evaluateSupervisions_ok sync : forall ws r, Forall (worker_ok sync) ws ->
  returns (evaluateSupervisions sync ws r) (fun x => Forall (evaluated sync) x.1 /\ length x.1 = length ws).
Proof.
  induction ws as [|w ws IH]; intros r Hws; [done|]. apply Forall_cons in Hws as [[(l & Hb & Hl) Hc] Hws].
  cbn [evaluateSupervisions].
  destruct (evaluate_ok sync _ l (between_set_recovery r (recoveryEnqueueFailed_ (w_alive w)) _ _ Hb) Hl) as (a' & -> & H1 & H2 & H3).
  cbn [mbind outcome_bind]. eapply returns_bind; [by apply IH|]. intros [ws1 r1] [Hf Hlen]. simpl in *.
  split; [|by rewrite Hlen]. by constructor.
Qed.

Lemma evaluated_ok sync w : evaluated sync w -> worker_ok sync w.
Proof. intros (Hb & _ & _ & Hc). split; [|done]. by exists []. Qed.

(** A cycle of the alive monitor never stops the daemon: with a clock that
    does not run backwards (buffered events and an event held back from the previous cycle
    are not newer than the new synchronisation time), distribution, reading of
    the channels and evaluation of all supervisions end without a failed assertion
    and re-establish the invariant; unless the event buffer has overflowed, every
    supervision has been evaluated and none has a reference cycle overdue. *)
Theorem cycle_never_aborts (T now : Z) (s : t) :
  inv T s -> (T <= sync_of now)%Z -> pending_before (sync_of now) s ->
  exists s', performCyclicTriggers now s = Ret s' /\ inv (sync_of now) s' /\
    length (workers s') = length (workers s) /\
    (Forall (evaluated (sync_of now)) (workers s') \/
     exists s1, distributeChanges (sync_of now) s = Ret (false, s1) /\ s' = s1).
Proof.
  intros [Hws Hes Hp] HT Hpb. apply returns_Ret.
  assert (Hinv : inv (sync_of now) s).
  { split; [|done|done]. eapply Forall_impl; [exact Hws|]. intros w. by apply worker_ok_mono. }
  pose proof (distributeChanges_ok _ _ Hinv Hpb) as Hd. unfold performCyclicTriggers.
  destruct (distributeChanges (sync_of now) s) as [[ok s1]|]; [|done]. destruct Hd as [Hi1 [Hl1 _]].
  cbn [mbind outcome_bind]. simpl in Hi1, Hl1. destruct ok; simpl; [|split_and!; [done|done|by right; exists s1]].
  unfold manager_performCyclicTriggers. destruct Hi1 as [Hws1 Hes1 Hp1].
  eapply returns_bind; [exact (traverse_M_spec _ _ _ _ (check_worker_ok (sync_of now)) Hws1)|]. intros ws [Hws2 Hl2].
  eapply returns_bind; [by apply evaluateSupervisions_ok|]. intros [ws1 r] [Hev Hl3]. simpl in Hev, Hl3 |- *.
  split_and!; [|congruence|by left]. split; simpl; [|done|].
  - eapply Forall_impl; [exact Hev|]. apply evaluated_ok.
  - intros E. destruct (Hp1 E) as (i & w & Hl & Hw). exists i. apply lookup_lt_Some in Hw.
    destruct (lookup_lt_is_Some_2 ws1 i) as [w' Hw']; [lia|]. by exists w'.
Qed.

(** From the channel to the recovery request: when the channel of an
    active process has overflowed, the next check of its interface and evaluation
    of its supervision leave the supervision expired. *)
Theorem overflow_expires_supervision (sync : Z) (w : Worker) :
  worker_ok sync w -> MonitorIfDaemon.reading (w_if w) ->
  Ipc.hasOverflow (MonitorIfDaemon.ipcserver (w_if w)) = true ->
  exists w' a', check_worker sync w = Ret w' /\ evaluate sync (w_alive w') = Ret a' /\ aliveStatus a' = kExpired /\
    MonitorIfDaemon.status (w_if w') = MonitorIfDaemon.kInactiveOverflow.
Proof.
  intros [(l & Hb & Hl) _] Hr Ho. unfold check_worker, MonitorIfDaemon.checkForNewData.
  set (m1 := if _ && _ then MonitorIfDaemon.set_status _ _ else _).
  assert (Hm1 : MonitorIfDaemon.status m1 = MonitorIfDaemon.kActive /\ MonitorIfDaemon.ipcserver m1 = MonitorIfDaemon.ipcserver (w_if w)).
  { unfold m1. destruct Hr as [Hs|[Hs Ha]]; rewrite Hs; [by destruct (MonitorIfDaemon.isActivateRequest (w_if w))|]. by rewrite Ha. }
  clearbody m1. destruct Hm1 as [Hs Hi]. rewrite Hs, Hi, Ho.
  unfold MonitorIfDaemon.handleOverflow, MonitorIfDaemon.pushOverflowInfoToObservers, updateData_checkpoint. simpl.
  set (a := set_eventTime _ _). exists (mkWorker (w_event w) (MonitorIfDaemon.set_status MonitorIfDaemon.kInactiveOverflow m1) a).
  assert (Hrd : ready l a) by (destruct Hb as [_ []]; by split).
  destruct (evaluate_loss l sync a Hrd) as (d & z & Hd & E & _); [by left|]. eexists. split_and!; [done|exact E| |done].
  unfold lose. simpl. by case_bool_decide.
Qed.

End Executor.
End CyclicExecutor.

(** ** Instances *)
Module Example.
Import Alive AliveProofs CyclicExecutor.
Local Open Scope Z_scope.
#[local] Instance client : RecoveryClient nat (list (nat * Z)) := AliveProofs.Example.log_client.

(** Three checkpoints in a channel of four, one of them late. *)
Definition ring : RingBuffer.t Z :=
  let node z := RingBuffer.mkNode z sizeof_checkpoint in
  RingBuffer.mk 4 [node 1080000000; node 1100000000; node 1400000000; RingBuffer.mkNode 0 0] 3 0 3 false true.
Definition sent : list Z := [1080000000; 1100000000; 1400000000].
Definition channel : Ipc.t Z := Ipc.mk (Some ring) true.
Definition full_channel : Ipc.t Z := Ipc.mk (Some (RingBuffer.set_overflow true ring)) true.

Lemma ring_rep : RingBuffer.rep sizeof_checkpoint ring sent.
Proof. split; simpl; try lia. intros [|[|[|i]]] x; simpl; try done; by intros [= <-]. Qed.
Lemma channel_rep : Ipc.rep sizeof_checkpoint channel sent.
Proof. split; [done|]. exists ring. split; [done|apply ring_rep]. Qed.
Lemma full_channel_rep : Ipc.rep sizeof_checkpoint full_channel sent.
Proof. split; [done|]. eexists. split; [done|]. apply RingBuffer.rep_overflow, ring_rep. Qed.

Definition listener (cp : Checkpoint) (x : list Z) : outcome (list Z) := Ret (x ++ [cp_timestamp cp]).
Definition iface (c : Ipc.t Z) : MonitorIfDaemon.t := MonitorIfDaemon.mk MonitorIfDaemon.kActive true false false c.

Lemma checkpoints_delivered_once_witness :
  exists m', MonitorIfDaemon.checkForNewData listener 1250000000 (iface channel) [] = Ret (m', [1080000000; 1100000000]) /\
    Ipc.rep sizeof_checkpoint (MonitorIfDaemon.ipcserver m') [1400000000] /\
    Ipc.hasOverflow (MonitorIfDaemon.ipcserver m') = false /\ MonitorIfDaemon.status m' = MonitorIfDaemon.kActive.
Proof.
  apply (MonitorIfDaemon.checkpoints_delivered_once listener 1250000000 (iface channel) sent []);
    [by left|exact channel_rep|reflexivity|reflexivity].
Defined.

Lemma overflow_reported_and_final_witness :
  exists m', MonitorIfDaemon.checkForNewData listener 1250000000 (iface full_channel) [] = Ret (m', [0]) /\
    MonitorIfDaemon.status m' = MonitorIfDaemon.kInactiveOverflow /\ MonitorIfDaemon.ipcserver m' = full_channel.
Proof.
  apply (MonitorIfDaemon.overflow_reported_and_final listener 1250000000 (iface full_channel) [] [0]);
    [reflexivity|by left|reflexivity].
Defined.

(** One component, with a deactivation on its way. *)
Definition ev (ty : SupervisionEventType) (ns : Z) : @SupervisionEvent nat := mkEvent 7%nat ty (mkTimespec 1 ns).
Definition worker (c : Ipc.t Z) : @Worker nat (list (nat * Z)) :=
  mkWorker (ev EvActivation 0) (iface c) AliveProofs.Example.started.
Definition events : RingBuffer.t (@SupervisionEvent nat) :=
  RingBuffer.mk 2 [RingBuffer.mkNode (ev EvDeactivation 240000000) sizeof_event; RingBuffer.mkNode (ev EvActivation 0) 0]
    1 0 1 false true.
Definition state : @CyclicExecutor.t nat (list (nat * Z)) := CyclicExecutor.mk events false None [worker channel] [].

Lemma example_events_rep : RingBuffer.rep sizeof_event events [ev EvDeactivation 240000000].
Proof. split; simpl; try lia. intros [|i] x; simpl; try done; by intros [= <-]. Qed.

Lemma worker_ok_example c : Ipc.rep sizeof_checkpoint c sent -> worker_ok 1250000000 (worker c).
Proof. intros Hc. split; [exists []; split; [apply AliveProofs.Example.between_started|constructor]|]. by exists sent. Qed.

Lemma cycle_never_aborts_witness :
  exists s', performCyclicTriggers 1250000000 state = Ret s' /\ inv 1250000000 s' /\
    (aliveStatus ∘ w_alive) <$> workers s' = [kDeactivated].
Proof.
  destruct (cycle_never_aborts 1250000000 1250000000 state) as (s' & E & Hi & _).
  - split; [|eexists; exact example_events_rep|done]. constructor; [apply worker_ok_example, channel_rep|constructor].
  - vm_compute. discriminate.
  - done.
  - exists s'. split; [exact E|]. split; [exact Hi|]. clear Hi. vm_compute in E. by injection E as <-.
Defined.

Lemma overflow_expires_supervision_witness :
  exists w' a', check_worker 1250000000 (worker full_channel) = Ret w' /\ evaluate 1250000000 (w_alive w') = Ret a' /\
    aliveStatus a' = kExpired /\ MonitorIfDaemon.status (w_if w') = MonitorIfDaemon.kInactiveOverflow.
Proof.
  apply (overflow_expires_supervision 1250000000 (worker full_channel));
    [apply worker_ok_example, full_channel_rep|by left|reflexivity].
Defined.

End Example.
