(* ===== verification/AliveWorkers.v ===== *)
(** * The construction of the alive monitor

    The objects of a supervised component live in four vectors of [SupervisionManager]; they
    refer to each other by pointers into these vectors, which a reallocation would
    invalidate.  Module [Vec]: vectors with the pointers into them.  Module [Workers]:
    [Observable] (common/Observer.hpp), [AliveWorkerFactory], the registration of
    [ObservableEventReader], [SupervisionManager::constructWorker], [SupervisionHandle] and
    [CyclicExecutor::constructSupervision].  Module [AliveMonitorImpl]: [CyclicExecutor::init]
    and [startCyclicExec] and the thread around them. *)

From stdpp Require Import prelude fin_maps gmap strings.
From S2P Require Import Prelude Queues.
From S2P Require Import Timers TimeSorting Alive AliveProofs Ipc AliveChannel AliveChannelProofs AliveMonitor.

(** ** Vectors *)

(** The storage of a [std::vector] is replaced when it grows beyond its capacity: [gen] counts the
    replacements.  A pointer knows the storage it points into. *)
Record ptr := mkPtr { p_gen : nat; p_index : nat }.

#[global] Instance ptr_eq_dec : EqDecision ptr.
Proof. solve_decision. Defined.

Module Vec.
Section Vec.
Context {A : Type}.

Record t := mk { gen : nat; capacity : nat; elems : list A }.

Definition make : t := mk 0 0 [].
Definition size (v : t) : nat := length (elems v).

Definition reserve (n : nat) (v : t) : t :=
  if capacity v <? n then mk (S (gen v)) n (elems v) else v.

Definition emplace_back (x : A) (v : t) : t :=
  if size v <? capacity v then mk (gen v) (capacity v) (elems v ++ [x])
  else mk (S (gen v)) (S (size v)) (elems v ++ [x]).

(** The address of the last element, or of the next to be constructed. *)
Definition back (v : t) : ptr := mkPtr (gen v) (size v - 1).

(** Using a pointer into a storage that is gone is an abort. *)
Definition deref (p : ptr) (v : t) : outcome A :=
  if p_gen p =? gen v then value_of (elems v !! p_index p) else Abort NullPointer.

Definition valid (p : ptr) (v : t) : Prop := p_gen p = gen v /\ p_index p < size v.

Definition modify (f : A -> A) (p : ptr) (v : t) : t := mk (gen v) (capacity v) (alter f (p_index p) (elems v)).

End Vec.
Arguments t : clear implicits.
End Vec.

Module Workers.
Section Workers.
Context {R : Type} `{RecoveryClient Z R} `{Shm.AccessControl} `{BuildMode}.
Import CyclicExecutor.

(** [Observer<T>*]: the observers are interfaces and supervisions. *)
Inductive observer := ObsInterface (p : ptr) | ObsAlive (p : ptr).

#[global] Instance observer_eq_dec : EqDecision observer.
Proof. solve_decision. Defined.

Definition attachObserver (f_observer_r : observer) (observers : list observer) : list observer := observers ++ [f_observer_r].

(** [std::remove] and [erase] *)
Definition detachObserver (f_observer_r : observer) (observers : list observer) : list observer :=
  filter (fun o => o <> f_observer_r) observers.

Record ObservableEvent := mkObservableEvent { event : @SupervisionEvent Z; event_observers : list observer }.
Record MonitorInterface := mkInterface { k_interfaceName : string; ipcserver_r : ptr; if_observers : list observer }.

(** [event] is value-initialised, then gets its id. *)
Definition make_event (process_id : Z) : ObservableEvent :=
  mkObservableEvent (mkEvent process_id EvActivation (mkTimespec 0 0)) [].

Definition event_attach (o : observer) (e : ObservableEvent) : ObservableEvent :=
  mkObservableEvent (event e) (attachObserver o (event_observers e)).
Definition if_attach (o : observer) (i : MonitorInterface) : MonitorInterface :=
  mkInterface (k_interfaceName i) (ipcserver_r i) (attachObserver o (if_observers i)).

(** [SupervisionManager], the map of the reader, the event buffer and the system's shared memory. *)
Record t := mk {
  processStates : Vec.t ObservableEvent;
  aliveIfIpcs : Vec.t IpcBase.t;
  aliveInterfaces : Vec.t MonitorInterface;
  aliveSupervisions : Vec.t (Alive.t Z R);
  capacity : nat;
  processStateMap : gmap Z ptr;
  buffer_ : RingBuffer.t (@SupervisionEvent Z);
  recoveryClient_ : R;
  shm : Shm.t
}.

Definition set_events (v : Vec.t ObservableEvent) (s : t) : t :=
  mk v (aliveIfIpcs s) (aliveInterfaces s) (aliveSupervisions s) (capacity s) (processStateMap s) (buffer_ s) (recoveryClient_ s) (shm s).
Definition set_servers (v : Vec.t IpcBase.t) (w : Shm.t) (s : t) : t :=
  mk (processStates s) v (aliveInterfaces s) (aliveSupervisions s) (capacity s) (processStateMap s) (buffer_ s) (recoveryClient_ s) w.
Definition set_interfaces (v : Vec.t MonitorInterface) (s : t) : t :=
  mk (processStates s) (aliveIfIpcs s) v (aliveSupervisions s) (capacity s) (processStateMap s) (buffer_ s) (recoveryClient_ s) (shm s).
Definition set_supervisions (v : Vec.t (Alive.t Z R)) (s : t) : t :=
  mk (processStates s) (aliveIfIpcs s) (aliveInterfaces s) v (capacity s) (processStateMap s) (buffer_ s) (recoveryClient_ s) (shm s).
Definition set_map (m : gmap Z ptr) (s : t) : t :=
  mk (processStates s) (aliveIfIpcs s) (aliveInterfaces s) (aliveSupervisions s) (capacity s) m (buffer_ s) (recoveryClient_ s) (shm s).

Definition full (s : t) : bool := capacity s <=? Vec.size (aliveSupervisions s).

Definition reserve (size : nat) (s : t) : t :=
  mk (Vec.reserve size (processStates s)) (Vec.reserve size (aliveIfIpcs s)) (Vec.reserve size (aliveInterfaces s))
     (Vec.reserve size (aliveSupervisions s)) size (processStateMap s) (buffer_ s) (recoveryClient_ s) (shm s).

(** ** [ObservableEventReader] *)

Definition registerObservableEvent (f_processState_r : ptr) (f_processId : Z) (s : t) : bool * t :=
  match processStateMap s !! f_processId with
  | Some _ => (false, s)
  | None => (true, set_map (<[f_processId := f_processState_r]> (processStateMap s)) s)
  end.

Definition deregisterObservableEvent (f_processId : Z) (s : t) : t :=
  set_map (delete f_processId (processStateMap s)) s.

(** ** [AliveWorkerFactory] *)

(** What the system answers while one worker is made: which operations throw for lack of memory, and the calls for
    the channel. *)
Inductive alloc := alloc_event | alloc_register | alloc_server | alloc_interface | alloc_if_attach | alloc_alive | alloc_alive_attach.
Record Env := mkEnv {
  throws : alloc -> bool;
  daemon_cred : Shm.Cred;
  env_socket : Socket.Env;
  env_refused : option Z;
  env_acl : IpcServer.AclEnv
}.

Definition createObservableEvent (env : Env) (component_id : Z) (s : t) : bool * t :=
  if throws env alloc_event then (false, s)
  else
    let v := Vec.emplace_back (make_event component_id) (processStates s) in
    let s1 := set_events v s in
    if throws env alloc_register then (false, s1) else registerObservableEvent (Vec.back v) component_id s1.

Definition createAliveIfIpc (env : Env) (component_id uid : Z) (s : t) : outcome (bool * t) :=
  if throws env alloc_server then _ ← AlivePath.aliveInterfacePath component_id; Ret (false, s)
  else
    '(ok, new, w) ← IpcServer.createAliveIfIpc (env_socket env) (env_refused env) (env_acl env) (daemon_cred env) component_id uid [] (shm s);
    Ret (ok, set_servers (fold_left (fun v x => Vec.emplace_back x v) new (aliveIfIpcs s)) w s).

(** [EmplaceAndAttach] of an interface to an event. *)
Definition createAliveIf (env : Env) (ipc_server event_p : ptr) (s : t) : outcome (bool * t) :=
  server ← Vec.deref ipc_server (aliveIfIpcs s);
  if throws env alloc_interface then Ret (false, s)
  else
    let v := Vec.emplace_back (mkInterface (IpcBase.getPath server) ipc_server []) (aliveInterfaces s) in
    let s1 := set_interfaces v s in
    if throws env alloc_if_attach then Ret (false, s1)
    else
      _ ← Vec.deref event_p (processStates s1);
      Ret (true, set_events (Vec.modify (event_attach (ObsInterface (Vec.back v))) event_p (processStates s1)) s1).

(** [EmplaceAndAttach] of a supervision, whose constructor attaches it to the interface first. *)
Definition createAliveSupervision (env : Env) (interface event_p : ptr) (component_id : Z) (component_config : ComponentAliveSupervision) (s : t) :
    outcome (bool * t) :=
  _ ← Vec.deref interface (aliveInterfaces s);
  if throws env alloc_alive then Ret (false, s)
  else
    a ← Alive.make component_id component_config (recoveryClient_ s) 100;
    let v := Vec.emplace_back a (aliveSupervisions s) in
    let o := ObsAlive (Vec.back v) in
    let s1 := set_supervisions v (set_interfaces (Vec.modify (if_attach o) interface (aliveInterfaces s)) s) in
    if throws env alloc_alive_attach then Ret (false, s1)
    else
      _ ← Vec.deref event_p (processStates s1);
      Ret (true, set_events (Vec.modify (event_attach o) event_p (processStates s1)) s1).

Definition constructWorker (env : Env) (id : Z) (component_config : ComponentAliveSupervision) (uid : Z) (s : t) : outcome (bool * t) :=
  let '(ok1, s1) := createObservableEvent env id s in
  if negb ok1 then Ret (false, s1)
  else
    '(ok2, s2) ← createAliveIfIpc env id uid s1;
    if negb ok2 then Ret (false, s2)
    else
      '(ok3, s3) ← createAliveIf env (Vec.back (aliveIfIpcs s2)) (Vec.back (processStates s2)) s2;
      if negb ok3 then Ret (false, s3)
      else createAliveSupervision env (Vec.back (aliveInterfaces s3)) (Vec.back (processStates s3)) id component_config s3.

(** ** [SupervisionHandle] *)

Record SupervisionHandle := mkHandle { process_id_ : Z; ipc_path_ : string }.

Definition make_handle (process_id : Z) : outcome SupervisionHandle :=
  p ← AlivePath.aliveInterfacePath process_id; Ret (mkHandle process_id p).

Definition queueSupervisionEvent (f_event : @SupervisionEvent Z) (b : RingBuffer.t (@SupervisionEvent Z)) : bool * RingBuffer.t (@SupervisionEvent Z) :=
  RingBuffer.tryEnqueue sizeof_event f_event b.
Definition activateSupervision (time : timespec) (h : SupervisionHandle) : RingBuffer.t (@SupervisionEvent Z) -> bool * RingBuffer.t (@SupervisionEvent Z) :=
  queueSupervisionEvent (mkEvent (process_id_ h) EvActivation time).
Definition deactivateSupervision (time : timespec) (h : SupervisionHandle) : RingBuffer.t (@SupervisionEvent Z) -> bool * RingBuffer.t (@SupervisionEvent Z) :=
  queueSupervisionEvent (mkEvent (process_id_ h) EvDeactivation time).
Definition getConnectionId (h : SupervisionHandle) : string := ipc_path_ h.

(** ** [CyclicExecutor] *)

Definition BUFFER_QUEUE_SIZE : nat := 4096.

(** The constructor: the event buffer is zeroed, then initialised. *)
Definition make (supervised_components : nat) (r : R) (w : Shm.t) : t :=
  reserve supervised_components
    (mk Vec.make Vec.make Vec.make Vec.make 0 ∅
        (RingBuffer.initialize (RingBuffer.make (mkEvent 0%Z EvActivation (mkTimespec 0 0)) BUFFER_QUEUE_SIZE)) r w).

Definition constructSupervision (env : Env) (id uid : Z) (config : ComponentAliveSupervision) (s : t) : outcome (option SupervisionHandle * t) :=
  _ ← assert_dbg (negb (full s));
  '(ok, s1) ← constructWorker env id config uid s;
  if ok : bool then h ← make_handle id; Ret (Some h, s1) else Ret (None, s1).

End Workers.
Arguments t : clear implicits.
End Workers.

(** ** The monitoring thread *)

Module MonitorLoop.
Section Loop.
Context {R : Type} `{RecoveryClient Z R}.
Import CyclicExecutor.
Local Open Scope Z_scope.

Inductive EInitCode := kNoError | kNotInitialized | kCycleTimeInitFailed | kConstructAliveWorkerFactoryFailed | kGeneralError.

#[global] Instance EInitCode_eq_dec : EqDecision EInitCode.
Proof. solve_decision. Defined.

(** [CyclicExecutor::init]: the recovery client is stored by the constructor of the state. *)
Definition init (evaluation_cycle_ms : Z) (osClock : OsClock) : EInitCode * CycleTimer.t :=
  let cycleTimeModified := TimeConversion.convertMilliSecToNanoSec evaluation_cycle_ms in
  let adjusted := CycleTimeValidator.adjustCycleTimeOnClockAccuracy cycleTimeModified osClock in
  let '(timerInit, timer) := CycleTimer.init adjusted (CycleTimer.make (Some osClock)) in
  (if 0 <? timerInit then kNoError else kCycleTimeInitFailed, timer).

(** One round of the loop as the thread sees it: the termination flag, what other threads and processes did before the
    triggers run (events queued through handles, checkpoints sent to the channel of a worker), the clock, and the answers while it sleeps. *)
Record Round := mkRound {
  rd_terminate : bool;
  rd_pushed : list (@SupervisionEvent Z);
  rd_sent : list (nat * Z);
  rd_clock : Z * timespec;
  rd_sleep_now : Z * timespec;
  rd_calls : list (bool * Z)
}.

Definition push_event (b : RingBuffer.t (@SupervisionEvent Z)) (e : @SupervisionEvent Z) : RingBuffer.t (@SupervisionEvent Z) :=
  (Workers.queueSupervisionEvent e b).2.

Definition send_checkpoint (ws : list (@Worker Z R)) (x : nat * Z) : list (@Worker Z R) :=
  alter (fun w => mkWorker (w_event w)
    (MonitorIfDaemon.set_channel (Ipc.sendEmplace sizeof_checkpoint x.2 (MonitorIfDaemon.ipcserver (w_if w))).2 (w_if w)) (w_alive w)) x.1 ws.

Definition environment (rd : Round) (s : CyclicExecutor.t (Id := Z) (R := R)) : CyclicExecutor.t (Id := Z) (R := R) :=
  CyclicExecutor.mk (fold_left push_event (rd_pushed rd) (buffer_ s)) (isPushPending s) (lastChangedProcess_p s)
    (fold_left send_checkpoint (rd_sent rd) (workers s)) (recoveryClient_ s).

(** [ended]: what the function returned, or [None] while it is still running; [cycles]: the states
    after the cycles so far, with their times. *)
Record Result := mkResult {
  ended : option bool;
  cycles : list (Z * CyclicExecutor.t (Id := Z) (R := R));
  timer : CycleTimer.t
}.

Definition add_cycle (now : Z) (s : CyclicExecutor.t (Id := Z) (R := R)) (r : Result) : Result :=
  mkResult (ended r) ((now, s) :: cycles r) (timer r).

Fixpoint cyclic_loop (rounds : list Round) (s : CyclicExecutor.t (Id := Z) (R := R)) (t : CycleTimer.t) : outcome Result :=
  match rounds with
  | [] => Ret (mkResult None [] t)
  | rd :: rest =>
      if rd_terminate rd then Ret (mkResult (Some true) [] t)
      else
        let now := getMonotonicSystemClock (rd_clock rd) in
        s1 ← performCyclicTriggers now (environment rd s);
        t1 ← CycleTimer.calcNextShot t;
        match CycleTimer.sleep (rd_sleep_now rd) (rd_calls rd) t1 with
        | None => Ret (mkResult None [(now, s1)] t1)
        | Some (sleepResult, _) =>
            if sleepResult =? CycleTimer.EINTR then Ret (mkResult (Some true) [(now, s1)] t1)
            else r ← cyclic_loop rest s1 t1; Ret (add_cycle now s1 r)
        end
  end.

Definition startCyclicExec (reading : Z * timespec) (rounds : list Round) (s : CyclicExecutor.t (Id := Z) (R := R)) (t : CycleTimer.t) : outcome Result :=
  let '(startTimestamp, t1) := CycleTimer.start reading t in
  if startTimestamp =? 0 then Ret (mkResult (Some false) [] t1) else cyclic_loop rounds s t1.

End Loop.
End MonitorLoop.

Module AliveMonitorImpl.
Section Impl.
Context {R : Type} `{RecoveryClient Z R}.
Import CyclicExecutor.

(** [m_daemon] with its timer; [alive_monitor_thread_] is joinable once started. *)
Record t := mk {
  m_daemon : option (CyclicExecutor.t (Id := Z) (R := R) * CycleTimer.t);
  alive_monitor_thread_ : bool;
  stop_thread_ : bool
}.

Definition make : t := mk None false false.

(** The executor exists afterwards even when its initialisation failed. *)
Definition init (evaluation_cycle_ms : Z) (osClock : OsClock) (daemon : CyclicExecutor.t (Id := Z) (R := R)) (m : t) : bool * t :=
  let '(code, timer) := MonitorLoop.init evaluation_cycle_ms osClock in
  (bool_decide (code = MonitorLoop.kNoError), mk (Some (daemon, timer)) (alive_monitor_thread_ m) (stop_thread_ m)).

(** Assigning to a running thread would terminate the process. *)
Definition startMonitoring (m : t) : outcome t :=
  if alive_monitor_thread_ m then Abort AssertionFailed else Ret (mk (m_daemon m) true (stop_thread_ m)).

Definition threadFn (reading : Z * timespec) (rounds : list MonitorLoop.Round) (m : t) : outcome MonitorLoop.Result :=
  match m_daemon m with
  | None => Abort AssertionFailed
  | Some (s, timer) => MonitorLoop.startCyclicExec reading rounds s timer
  end.

(** [None]: the join does not return, since the thread has not ended in these rounds. *)
Definition stopMonitoring (reading : Z * timespec) (rounds : list MonitorLoop.Round) (m : t) : outcome (option t) :=
  if alive_monitor_thread_ m then
    r ← threadFn reading rounds m;
    Ret (match MonitorLoop.ended r with Some _ => Some (mk (m_daemon m) false true) | None => None end)
  else Ret (Some (mk (m_daemon m) false true)).

End Impl.
Arguments t : clear implicits.
End AliveMonitorImpl.
