(* ===== verification/AliveWorkersProofs.v ===== *)
(** * The construction of the alive monitor: proofs

    Whatever fails while the workers are made, no vector is reallocated, every component that got a
    handle is wired completely, and the result is a state from which the cycle runs; then the loop
    of the monitoring thread. *)

From stdpp Require Import prelude fin_maps gmap strings.
From S2P Require Import Prelude Queues.
From S2P Require Import Timers TimeSorting Alive AliveProofs Ipc AliveChannel AliveChannelProofs AliveMonitor AliveWorkers.

Module WorkersProofs.
Import CyclicExecutor AliveChannelProofs Workers.

Section Proofs.
Context {R : Type} `{RecoveryClient Z R} `{Shm.AccessControl} `{BuildMode}.

(** ** Vectors with room *)

Lemma emplace_room {A} (x : A) g c l : length l < c -> Vec.emplace_back x (Vec.mk g c l) = Vec.mk g c (l ++ [x]).
Proof. intros Hl. unfold Vec.emplace_back, Vec.size. simpl. by rewrite (proj2 (Nat.ltb_lt _ _)). Qed.

Lemma back_snoc {A} (x : A) g c l : Vec.back (Vec.mk g c (l ++ [x])) = mkPtr g (length l).
Proof. unfold Vec.back, Vec.size. simpl. rewrite length_app. simpl. f_equal. lia. Qed.

Lemma deref_snoc {A} (x : A) g c l : Vec.deref (mkPtr g (length l)) (Vec.mk g c (l ++ [x])) = Ret x.
Proof. unfold Vec.deref. simpl. by rewrite Nat.eqb_refl, list_lookup_middle. Qed.

Lemma modify_snoc {A} (f : A -> A) (x : A) g c l :
  Vec.modify f (mkPtr g (length l)) (Vec.mk g c (l ++ [x])) = Vec.mk g c (l ++ [f x]).
Proof. unfold Vec.modify. simpl. f_equal. rewrite alter_app_r_alt by lia. by rewrite Nat.sub_diag. Qed.

(** ** One worker *)

(** The objects of one component, and how they point to each other. *)
Record wired (d : Shm.Cred) (id uid : Z) (h : SupervisionHandle) (s : Workers.t R) (e f a v : nat) : Prop := {
  wr_map : processStateMap s !! id = Some (mkPtr (Vec.gen (processStates s)) e);
  wr_event : exists ev, Vec.elems (processStates s) !! e = Some (mkObservableEvent ev
      [ObsInterface (mkPtr (Vec.gen (aliveInterfaces s)) f); ObsAlive (mkPtr (Vec.gen (aliveSupervisions s)) a)]) /\ ev_id ev = id;
  wr_interface : Vec.elems (aliveInterfaces s) !! f =
    Some (mkInterface (ipc_path_ h) (mkPtr (Vec.gen (aliveIfIpcs s)) v) [ObsAlive (mkPtr (Vec.gen (aliveSupervisions s)) a)]);
  wr_alive : exists al, Vec.elems (aliveSupervisions s) !! a = Some al /\ Alive.processIdentifier_ al = id /\
    AliveProofs.between [] al /\ Alive.aliveStatus al = Alive.kDeactivated;
  wr_server : exists sv, Vec.elems (aliveIfIpcs s) !! v = Some sv /\ serves d id uid sv (shm s);
  wr_handle : process_id_ h = id /\ AlivePath.aliveInterfacePath id = Ret (ipc_path_ h)
}.

(** An event whose observers are not both attached. *)
Definition incomplete (e : ObservableEvent) : Prop := forall f a, event_observers e <> [ObsInterface f; ObsAlive a].

(** [s'] has at most one new object in each vector, at its end, and everything else is in its place. *)
Record grown (p : string) (s s' : Workers.t R) (E : list ObservableEvent) (S : list IpcBase.t) (I : list MonitorInterface) (A : list (Alive.t Z R)) : Prop := {
  gr_events : processStates s' = Vec.mk (Vec.gen (processStates s)) (Vec.capacity (processStates s)) (Vec.elems (processStates s) ++ E);
  gr_servers : aliveIfIpcs s' = Vec.mk (Vec.gen (aliveIfIpcs s)) (Vec.capacity (aliveIfIpcs s)) (Vec.elems (aliveIfIpcs s) ++ S);
  gr_interfaces : aliveInterfaces s' = Vec.mk (Vec.gen (aliveInterfaces s)) (Vec.capacity (aliveInterfaces s)) (Vec.elems (aliveInterfaces s) ++ I);
  gr_supervisions : aliveSupervisions s' = Vec.mk (Vec.gen (aliveSupervisions s)) (Vec.capacity (aliveSupervisions s)) (Vec.elems (aliveSupervisions s) ++ A);
  gr_lengths : length E <= 1 /\ length S <= 1 /\ length I <= 1 /\ length A <= 1;
  gr_rest : capacity s' = capacity s /\ buffer_ s' = buffer_ s /\ recoveryClient_ s' = recoveryClient_ s;
  gr_map : processStateMap s ⊆ processStateMap s';
  gr_shm : unrelated p (shm s) (shm s')
}.

(** There is room for one more object in each vector. *)
Definition has_room (s : Workers.t R) : Prop :=
  Vec.size (processStates s) < Vec.capacity (processStates s) /\ Vec.size (aliveIfIpcs s) < Vec.capacity (aliveIfIpcs s) /\
  Vec.size (aliveInterfaces s) < Vec.capacity (aliveInterfaces s) /\
  Vec.size (aliveSupervisions s) < Vec.capacity (aliveSupervisions s).

Lemma unrelated_refl p w : unrelated p w w.
Proof. by split_and!. Qed.

(** The ranges that the configuration guarantees. *)
Definition config_ok (cfg : ComponentAliveSupervision) : Prop :=
  (0 < reporting_cycle_ms cfg <= UINT32_MAX)%Z /\ (0 <= failed_cycles_tolerance cfg <= UINT32_MAX)%Z.

Lemma make_alive_ok (id : Z) (cfg : ComponentAliveSupervision) (r : R) : config_ok cfg ->
  exists al : Alive.t Z R, Alive.make id cfg r 100 = Ret al /\ Alive.processIdentifier_ al = id /\
    AliveProofs.between [] al /\ Alive.aliveStatus al = Alive.kDeactivated.
Proof.
  intros [Hc Ht]. destruct (Alive.make id cfg r 100) as [al|] eqn:E.
  - exists al. split; [done|]. destruct (AliveProofs.make_between id cfg r 100 al E Hc Ht) as (Hb & _ & _ & Hs). split_and!; try done.
    unfold Alive.make in E. destruct (assert _); simpl in E; [|done]. by injection E as <-.
  - unfold Alive.make in E. rewrite TimeConversion.convertMilliSecToNanoSec_uint32 in E by lia.
    rewrite (proj2 (Z.eqb_neq _ _)) in E; [done|]. unfold NANOS_PER_MILLI. lia.
Qed.

Lemma createObservableEvent_spec env id s p : has_room s ->
  exists ok s' E, createObservableEvent env id s = (ok, s') /\ grown p s s' E [] [] [] /\
    (ok = true -> E = [make_event id] /\ processStateMap s' !! id = Some (mkPtr (Vec.gen (processStates s)) (Vec.size (processStates s)))) /\
    Forall incomplete E.
Proof.
  destruct s as [[ge ce Es] [gs cs Ss] [gi ci Is] [ga ca As] cap m b r w]. intros (HE & _ & _ & _). unfold Vec.size in HE. simpl in HE.
  unfold createObservableEvent. destruct (throws env alloc_event).
  { eexists _, _, []. split; [done|]. split; [split; simpl; rewrite ?app_nil_r; by auto using unrelated_refl|by split]. }
  simpl. rewrite emplace_room, back_snoc by done. unfold registerObservableEvent. simpl.
  assert (incomplete (make_event id)) by (by intros ? ?).
  destruct (throws env alloc_register); [|destruct (m !! id) eqn:Em];
    (eexists _, _, [make_event id]; split; [done|]; split; [split; simpl; rewrite ?app_nil_r; auto using unrelated_refl|]).
  - by split; [|by constructor].
  - by split; [|by constructor].
  - by apply insert_subseteq.
  - split; [|by constructor]. intros _. split; [done|]. simpl. by rewrite lookup_insert_eq.
Qed.

Lemma createAliveIfIpc_step env id uid p s s1 E : has_room s -> AlivePath.aliveInterfacePath id = Ret p ->
  grown p s s1 E [] [] [] ->
  exists ok s2 S, createAliveIfIpc env id uid s1 = Ret (ok, s2) /\ grown p s s2 E S [] [] /\ processStateMap s2 = processStateMap s1 /\
    (ok = true -> exists sv, S = [sv] /\ serves (daemon_cred env) id uid sv (shm s2)).
Proof.
  intros (_ & Hroom & _ & _) Hp Hg. unfold createAliveIfIpc. destruct (throws env alloc_server).
  { rewrite Hp. simpl. by eexists _, s1, []. }
  destruct (createAliveIfIpc_returns (env_socket env) (env_refused env) (env_acl env) (daemon_cred env) id uid [] (shm s1) p Hp)
    as (ok & sv & w' & E1). rewrite E1. simpl. eexists _, _, [sv]. split; [done|].
  apply createAliveIfIpc_spec in E1 as (sv' & p' & [= <-] & Hp' & Hu & Hok & _). rewrite Hp in Hp'. injection Hp' as <-.
  destruct Hg as [G1 G2 G3 G4 G5 G6 G7 (Hf & Hn & Ho)]. split_and!; [|done|intros Ht; exists sv; split; [done|by apply Hok]].
  split; simpl; try done.
  - rewrite G2, app_nil_r. unfold Vec.size in Hroom. by rewrite emplace_room.
  - simpl in *. lia.
  - destruct Hu as (Hf' & Hn' & Ho'). split_and!; [congruence| |by etrans]. intros m Hm. by rewrite Hn', Hn.
Qed.

Lemma createAliveIf_step env p s s2 ev sv : has_room s -> IpcBase.getPath sv = p -> event_observers ev = [] ->
  grown p s s2 [ev] [sv] [] [] ->
  exists ok s3 ev' I, createAliveIf env (Vec.back (aliveIfIpcs s2)) (Vec.back (processStates s2)) s2 = Ret (ok, s3) /\
    grown p s s3 [ev'] [sv] I [] /\ incomplete ev' /\ processStateMap s3 = processStateMap s2 /\ shm s3 = shm s2 /\
    (ok = true -> ev' = event_attach (ObsInterface (mkPtr (Vec.gen (aliveInterfaces s)) (Vec.size (aliveInterfaces s)))) ev /\
      I = [mkInterface p (mkPtr (Vec.gen (aliveIfIpcs s)) (Vec.size (aliveIfIpcs s))) []]).
Proof.
  intros (HE & HS & HI & HA) Hpath Hev [G1 G2 G3 G4 G5 G6 G7 G8]. unfold createAliveIf. rewrite G1, G2, !back_snoc, deref_snoc. simpl.
  assert (incomplete ev) by (intros ? ?; by rewrite Hev). unfold Vec.size in *.
  destruct (throws env alloc_interface).
  { eexists _, s2, ev, []. split; [done|]. split; [by split|by split_and!]. }
  rewrite Hpath. destruct (throws env alloc_if_attach).
  - eexists _, _, ev, [_]. split; [done|]. split; [|by split_and!]. split; simpl; try done; [|lia].
    rewrite G3, app_nil_r. by rewrite emplace_room.
  - simpl. rewrite G1, deref_snoc, modify_snoc, G3, app_nil_r, emplace_room, back_snoc by done. simpl.
    eexists _, _, (event_attach _ ev), [_]. split; [done|]. split; [|split_and!; try done].
    + split; simpl; try done. lia.
    + intros f a. unfold event_attach, attachObserver. simpl. by rewrite Hev.
Qed.

Lemma createAliveSupervision_step env id cfg p s s3 ev sv i : has_room s -> config_ok cfg -> incomplete ev ->
  grown p s s3 [ev] [sv] [i] [] ->
  let o := ObsAlive (mkPtr (Vec.gen (aliveSupervisions s)) (Vec.size (aliveSupervisions s))) in
  exists ok s4 ev' i' A, createAliveSupervision env (Vec.back (aliveInterfaces s3)) (Vec.back (processStates s3)) id cfg s3 = Ret (ok, s4) /\
    grown p s s4 [ev'] [sv] [i'] A /\ processStateMap s4 = processStateMap s3 /\ shm s4 = shm s3 /\
    (if ok then ev' = event_attach o ev /\ i' = if_attach o i /\
       exists al, A = [al] /\ Alive.processIdentifier_ al = id /\ AliveProofs.between [] al /\ Alive.aliveStatus al = Alive.kDeactivated
     else incomplete ev').
Proof.
  intros (HE & HS & HI & HA) Hcfg Hev [G1 G2 G3 G4 G5 G6 G7 G8] o. unfold createAliveSupervision. rewrite G1, G3, !back_snoc, deref_snoc. simpl.
  unfold Vec.size in *. destruct (throws env alloc_alive).
  { eexists _, s3, ev, i, []. split; [done|]. split; [by split|by split_and!]. }
  destruct (make_alive_ok id cfg (recoveryClient_ s3) Hcfg) as (al & -> & Hid & Hb & Hst). simpl.
  rewrite G4, app_nil_r, emplace_room, back_snoc, modify_snoc by done.
  destruct (throws env alloc_alive_attach).
  - eexists _, _, ev, _, [al]. split; [done|]. split; [|by split_and!]. by split; simpl; try lia.
  - simpl. rewrite G1, deref_snoc, modify_snoc. simpl. eexists _, _, (event_attach _ ev), (if_attach _ i), [al].
    split; [done|]. split; [|split_and!; try done; by exists al]. by split; simpl; try lia.
Qed.

(** What making one worker does, with every possible failure. *)
Lemma constructWorker_spec env id uid cfg s p : has_room s -> config_ok cfg -> AlivePath.aliveInterfacePath id = Ret p ->
  exists ok s' E S I A, constructWorker env id cfg uid s = Ret (ok, s') /\ grown p s s' E S I A /\
    (if ok then
       wired (daemon_cred env) id uid (mkHandle id p) s' (Vec.size (processStates s)) (Vec.size (aliveInterfaces s))
         (Vec.size (aliveSupervisions s)) (Vec.size (aliveIfIpcs s)) /\ length E = 1
     else Forall incomplete E).
Proof.
  intros Hroom Hcfg Hp. unfold constructWorker.
  destruct (createObservableEvent_spec env id s p Hroom) as (ok1 & s1 & E & -> & Hg1 & Hok1 & Hinc).
  destruct ok1; simpl; [|by exists false, s1, E, [], [], []]. destruct (Hok1 eq_refl) as [-> Hm]. clear Hok1 Hinc.
  destruct (createAliveIfIpc_step env id uid p s s1 _ Hroom Hp Hg1) as (ok2 & s2 & S & -> & Hg2 & Hm2 & Hok2). simpl.
  destruct ok2; simpl; [|exists false, s2, [make_event id], S, [], []; split_and!; [done|done|by repeat constructor]].
  destruct (Hok2 eq_refl) as (sv & -> & Hserve).
  assert (IpcBase.getPath sv = p) as Hpath.
  { destruct Hserve as (p' & o & Hp' & _ & -> & _). rewrite Hp in Hp'. by injection Hp' as <-. }
  destruct (createAliveIf_step env p s s2 (make_event id) sv Hroom Hpath eq_refl Hg2) as (ok3 & s3 & ev & I & -> & Hg3 & Hinc & Hm3 & Hw3 & Hok3). simpl.
  destruct ok3; simpl; [|exists false, s3, [ev], [sv], I, []; split_and!; [done|done|by repeat constructor]].
  destruct (Hok3 eq_refl) as [-> ->].
  destruct (createAliveSupervision_step env id cfg p s s3 _ sv _ Hroom Hcfg Hinc Hg3) as (ok4 & s4 & ev' & i' & A & -> & Hg4 & Hm4 & Hw4 & Hcase).
  exists ok4, s4, [ev'], [sv], [i'], A. split_and!; [done|done|]. destruct ok4; [|by repeat constructor].
  destruct Hcase as (-> & -> & al & -> & Hal). split; [|done]. destruct Hg4 as [G1 G2 G3 G4 _ _ _ _]. unfold Vec.size.
  split; rewrite ?G1, ?G2, ?G3, ?G4; simpl.
  - by rewrite Hm4, Hm3, Hm2, Hm.
  - rewrite list_lookup_middle by done. by eexists.
  - by rewrite list_lookup_middle.
  - exists al. by rewrite list_lookup_middle.
  - exists sv. rewrite list_lookup_middle by done. split; [done|]. congruence.
  - done.
Qed.

(** ** The state of the cycle that the objects are *)

Definition get {A} (p : ptr) (v : Vec.t A) : option A := if p_gen p =? Vec.gen v then Vec.elems v !! p_index p else None.

(** A worker of the cycle is an event whose observers are its interface and its supervision. *)
Definition worker_of (s : Workers.t R) (e : ObservableEvent) : option (@Worker Z R) :=
  match event_observers e with
  | [ObsInterface f; ObsAlive a] =>
      i ← get f (aliveInterfaces s); sv ← get (ipcserver_r i) (aliveIfIpcs s); al ← get a (aliveSupervisions s);
      Some (mkWorker (event e) (MonitorIfDaemon.make (IpcBase.view (shm s) sv)) al)
  | _ => None
  end.

Definition executor_of (s : Workers.t R) : CyclicExecutor.t :=
  CyclicExecutor.mk (buffer_ s) false None (omap (worker_of s) (Vec.elems (processStates s))) (recoveryClient_ s).

Definition settled (s : Workers.t R) (e : ObservableEvent) : Prop :=
  incomplete e \/ exists w, worker_of s e = Some w /\ worker_ok 0 w.

Lemma incomplete_worker s e : incomplete e -> worker_of s e = None.
Proof. intros He. unfold worker_of. destruct (event_observers e) as [|[f|] [|[|a] [|]]] eqn:E; try done. by destruct (He f a). Qed.

Lemma get_grown {A} p g c (l k : list A) x : get p (Vec.mk g c l) = Some x -> get p (Vec.mk g c (l ++ k)) = Some x.
Proof. unfold get. simpl. destruct (p_gen p =? g); [|done]. apply lookup_app_l_Some. Qed.

Lemma view_grown p w w' sv l : unrelated p w w' -> Ipc.rep sizeof_checkpoint (IpcBase.view w sv) l -> IpcBase.view w' sv = IpcBase.view w sv.
Proof.
  intros (_ & _ & Ho) (_ & b & Hb & _). unfold IpcBase.view in *. simpl in *. f_equal.
  destruct (Socket.buffer_ (IpcBase.socket sv)) as [o|]; [|done]. simpl in *.
  destruct (Shm.objects w !! o) as [ob|] eqn:E; [|done]. by rewrite (lookup_weaken _ _ _ _ E Ho).
Qed.

Lemma worker_of_grown p s s' E S I A e w : grown p s s' E S I A -> worker_of s e = Some w -> worker_ok 0 w -> worker_of s' e = Some w.
Proof.
  intros [G1 G2 G3 G4 _ _ _ G8] Hw [_ (cps & Hc)]. revert Hw. unfold worker_of. rewrite G2, G3, G4.
  destruct (event_observers e) as [|[f|] [|[|a] [|]]]; try done.
  destruct s as [[ge ce Es] [gs cs Ss] [gi ci Is] [ga ca As] cap m b r sm]. simpl in *.
  destruct (get f (Vec.mk gi ci Is)) as [i|] eqn:E1; simpl; [|done].
  destruct (get (ipcserver_r i) (Vec.mk gs cs Ss)) as [sv|] eqn:E2; simpl; [|done].
  destruct (get a (Vec.mk ga ca As)) as [al|] eqn:E3; simpl; [|done]. intros [= <-]. simpl in Hc.
  rewrite (get_grown _ _ _ _ I _ E1). simpl. rewrite (get_grown _ _ _ _ S _ E2). simpl. rewrite (get_grown _ _ _ _ A _ E3). simpl.
  by rewrite (view_grown p _ _ _ _ G8 Hc).
Qed.

Lemma omap_settled p s s' E S I A l : grown p s s' E S I A -> Forall (settled s) l ->
  omap (worker_of s') l = omap (worker_of s) l /\ Forall (settled s') l.
Proof.
  intros Hg. induction 1 as [|e l He Hl [IH1 IH2]]; [done|]. csimpl. destruct He as [Hi|(w & Hw & Hok)].
  - rewrite !incomplete_worker by done. split; [done|]. constructor; [by left|done].
  - rewrite (worker_of_grown _ _ _ _ _ _ _ _ _ Hg Hw Hok), Hw, IH1. split; [done|]. constructor; [|done].
    right. exists w. split; [|done]. by eapply worker_of_grown.
Qed.

(** A wired component is a worker with an empty channel and a deactivated supervision. *)
Lemma wired_worker d id uid h s e f a v : wired d id uid h s e f a v ->
  exists ev w, Vec.elems (processStates s) !! e = Some ev /\ worker_of s ev = Some w /\ worker_ok 0 w /\ ev_id (w_event w) = id.
Proof.
  intros [_ (ev & Hev & Hid) Hif (al & Hal & _ & Hb & _) (sv & Hsv & (p & o & _ & _ & -> & Ho)) _].
  eexists _, _. split; [exact Hev|]. unfold worker_of, get. simpl. rewrite !Nat.eqb_refl, Hif. simpl. rewrite Nat.eqb_refl, Hsv. simpl.
  rewrite Hal. simpl. split; [done|]. split; [|done]. split; [by exists []|]. exists []. simpl.
  rewrite (view_channel _ p o true d (wrap 32 uid) new_buffer Ho). exact (proj1 (new_buffer_filled [])).
Qed.

(** ** All components *)

Record wrequest := mkWRequest { wq_id : Z; wq_uid : Z; wq_config : ComponentAliveSupervision; wq_env : Env }.

Fixpoint construct_all (rqs : list wrequest) (s : Workers.t R) : outcome (list (option SupervisionHandle) * Workers.t R) :=
  match rqs with
  | [] => Ret ([], s)
  | rq :: rest =>
      '(h, s1) ← constructSupervision (wq_env rq) (wq_id rq) (wq_uid rq) (wq_config rq) s;
      '(hs, s2) ← construct_all rest s1;
      Ret (h :: hs, s2)
  end.

Definition request_ok (rq : wrequest) : Prop := (0 <= wq_id rq < 10 ^ 19)%Z /\ config_ok (wq_config rq).

Lemma request_path rq : request_ok rq -> exists p, AlivePath.aliveInterfacePath (wq_id rq) = Ret p.
Proof.
  intros [Hid _]. assert (10 ^ 19 < 2 ^ 64)%Z by reflexivity. rewrite AlivePath.aliveInterfacePath_spec by lia.
  rewrite (proj2 (Z.ltb_lt _ _)) by lia. by eexists.
Qed.

Lemma wired_grown d rq rq' uid h p s s' E S I A e f a v : request_ok rq -> request_ok rq' -> wq_id rq <> wq_id rq' ->
  AlivePath.aliveInterfacePath (wq_id rq') = Ret p -> grown p s s' E S I A ->
  wired d (wq_id rq) uid h s e f a v -> wired d (wq_id rq) uid h s' e f a v.
Proof.
  intros [Hr _] [Hr' _] Hne Hp [G1 G2 G3 G4 _ _ G7 G8] [W1 (ev & W2 & W2') W3 (al & W4 & W4') (sv & W5 & W5') W6].
  assert (10 ^ 19 < 2 ^ 64)%Z by reflexivity. split; rewrite ?G1, ?G2, ?G3, ?G4; simpl.
  - by eapply lookup_weaken.
  - exists ev. split; [|done]. by apply lookup_app_l_Some.
  - by apply lookup_app_l_Some.
  - exists al. split; [|done]. by apply lookup_app_l_Some.
  - exists sv. split; [by apply lookup_app_l_Some|]. eapply (serves_unrelated d _ uid sv _ (wq_id rq') p); eauto; lia.
  - done.
Qed.

(** After [pre] was handled. *)
Record construction (n g : nat) (pre : list wrequest) (hs : list (option SupervisionHandle)) (s : Workers.t R) : Prop := {
  co_length : length hs = length pre;
  co_sizes : Vec.size (processStates s) <= length pre /\ Vec.size (aliveIfIpcs s) <= length pre /\
    Vec.size (aliveInterfaces s) <= length pre /\ Vec.size (aliveSupervisions s) <= length pre;
  co_storage : Vec.gen (processStates s) = g /\ Vec.gen (aliveIfIpcs s) = g /\ Vec.gen (aliveInterfaces s) = g /\ Vec.gen (aliveSupervisions s) = g;
  co_capacity : Vec.capacity (processStates s) = n /\ Vec.capacity (aliveIfIpcs s) = n /\ Vec.capacity (aliveInterfaces s) = n /\
    Vec.capacity (aliveSupervisions s) = n /\ capacity s = n;
  co_wired : forall i rq h, pre !! i = Some rq -> hs !! i = Some (Some h) ->
    exists e f a v, wired (daemon_cred (wq_env rq)) (wq_id rq) (wq_uid rq) h s e f a v;
  co_settled : Forall (settled s) (Vec.elems (processStates s));
  co_ids : (fun w => ev_id (w_event w)) <$> workers (executor_of s) = process_id_ <$> omap id hs;
  co_buffer : RingBuffer.rep sizeof_event (buffer_ s) []
}.

Lemma construction_room n g pre hs s : construction n g pre hs s -> length pre < n -> has_room s /\ full s = false.
Proof.
  intros [_ (? & ? & ? & ?) _ (? & ? & ? & ? & ?) _ _ _ _] Hn. unfold has_room, full. split; [lia|]. apply Nat.leb_gt. lia.
Qed.

Lemma construction_snoc n g pre hs s rq : construction n g pre hs s -> length pre < n ->
  Forall request_ok (pre ++ [rq]) -> NoDup (wq_id <$> pre ++ [rq]) ->
  exists h s', constructSupervision (wq_env rq) (wq_id rq) (wq_uid rq) (wq_config rq) s = Ret (h, s') /\
    construction n g (pre ++ [rq]) (hs ++ [h]) s'.
Proof.
  intros Hco Hn [Hpre Hrq]%Forall_app Hnd. inversion Hrq as [|? ? Hok _]; subst. destruct (construction_room _ _ _ _ _ Hco Hn) as [Hroom Hfull].
  destruct (request_path rq Hok) as [p Hp]. pose proof Hok as [_ Hcfg].
  unfold constructSupervision. rewrite Hfull. simpl. rewrite assert_dbg_true. simpl.
  destruct (constructWorker_spec (wq_env rq) (wq_id rq) (wq_uid rq) (wq_config rq) s p Hroom Hcfg Hp)
    as (ok & s' & E & S & I & A & -> & Hg & Hcase). simpl.
  assert (exists h, (if ok then h0 ← make_handle (wq_id rq); Ret (Some h0, s') else Ret (None, s')) = Ret (h, s') /\
    h = if ok then Some (mkHandle (wq_id rq) p) else None) as (h & -> & ->).
  { destruct ok; [|by eexists]. unfold make_handle. rewrite Hp. by eexists. }
  eexists _, s'. split; [done|]. rewrite fmap_app in Hnd. apply NoDup_app in Hnd as (_ & Hnd & _).
  destruct Hco as [K1 K2 K3 K4 K5 K6 K7 K8]. pose proof (omap_settled p s s' E S I A _ Hg K6) as [Hom Hset].
  pose proof Hg as [G1 G2 G3 G4 (L1 & L2 & L3 & L4) (R1 & R2 & _) _ _]. unfold Vec.size in *.
  split; rewrite ?length_app; rewrite ?G1, ?G2, ?G3, ?G4; simpl; rewrite ?length_app; try (by destruct K3 as (? & ? & ? & ?)); try lia.
  - unfold Vec.size. simpl. rewrite !length_app. lia.
  - intros i r h Hr Hh. apply lookup_app_Some in Hr as [Hr|[Hge Hr]].
    + pose proof (lookup_lt_Some _ _ _ Hr). rewrite lookup_app_l in Hh by lia. destruct (K5 i r h Hr Hh) as (e & f & a & v & Hw).
      exists e, f, a, v. eapply (wired_grown _ r rq _ h p s s'); eauto; [exact (Forall_lookup_1 _ _ _ _ Hpre Hr)|].
      intros Ex. apply (Hnd (wq_id r)); [|rewrite Ex; by apply list_elem_of_singleton].
      apply list_elem_of_fmap. exists r. split; [done|]. by eapply list_elem_of_lookup_2.
    + destruct (i - length pre) as [|k] eqn:Ei; [|done]. injection Hr as <-. rewrite lookup_app_r in Hh by lia.
      replace (i - length hs) with 0 in Hh by lia. simpl in Hh. injection Hh as Hh. destruct ok; [|done]. injection Hh as <-.
      eexists _, _, _, _. exact (proj1 Hcase).
  - apply Forall_app. split; [done|]. destruct ok.
    + destruct Hcase as [Hw HE]. destruct E as [|e [|]]; [done| |done]. constructor; [|constructor]. right.
      destruct (wired_worker _ _ _ _ _ _ _ _ _ Hw) as (ev & w & Hev & Hwo & Hwk & _). rewrite G1 in Hev. unfold Vec.size in Hev.
      simpl in Hev. rewrite list_lookup_middle in Hev by done. injection Hev as <-. by exists w.
    + eapply Forall_impl; [exact Hcase|]. intros e He. by left.
  - unfold executor_of in *. simpl in *. rewrite G1. simpl. rewrite omap_app, Hom, fmap_app, K7, (omap_app _ hs), fmap_app. f_equal. destruct ok.
    + destruct Hcase as [Hw HE]. destruct E as [|e [|]]; [done| |done].
      destruct (wired_worker _ _ _ _ _ _ _ _ _ Hw) as (ev & w & Hev & Hwo & _ & Hid). rewrite G1 in Hev. unfold Vec.size in Hev.
      simpl in Hev. rewrite list_lookup_middle in Hev by done. injection Hev as <-. csimpl. rewrite Hwo. csimpl. by rewrite Hid.
    + clear -Hcase. induction Hcase as [|e E He HE IH]; [done|]. csimpl. by rewrite incomplete_worker.
  - by rewrite R2.
Qed.

Lemma construct_all_spec n g rqs : forall pre hs s, construction n g pre hs s -> length (pre ++ rqs) <= n ->
  Forall request_ok (pre ++ rqs) -> NoDup (wq_id <$> pre ++ rqs) ->
  exists hs' s', construct_all rqs s = Ret (hs', s') /\ construction n g (pre ++ rqs) (hs ++ hs') s'.
Proof.
  induction rqs as [|rq rqs IH]; intros pre hs s Hco Hn Hok Hnd.
  { exists [], s. rewrite !app_nil_r. done. }
  rewrite cons_middle, (assoc (++)) in Hn, Hok, Hnd.
  destruct (construction_snoc n g pre hs s rq Hco) as (h & s1 & E1 & Hco1).
  { rewrite !length_app in Hn. simpl in Hn. lia. }
  { by apply Forall_app in Hok as [? _]. }
  { rewrite fmap_app in Hnd. by apply NoDup_app in Hnd as (? & _ & _). }
  destruct (IH _ _ _ Hco1 Hn Hok Hnd) as (hs' & s' & E2 & Hco2). exists (h :: hs'), s'.
  simpl. rewrite E1. simpl. rewrite E2. split; [done|]. by rewrite <- !(assoc (++)) in Hco2.
Qed.

(** The storage of the vectors of an executor that was made for [n] components. *)
Definition storage_of (n : nat) : nat := if 0 <? n then 1 else 0.

Lemma construction_make n r w : construction n (storage_of n) [] [] (make n r w).
Proof.
  destruct n as [|n]; (split; simpl; [done|unfold Vec.size; simpl; split_and!; lia|done|done|done|constructor|done|]);
    apply RingBuffer.rep_make; unfold BUFFER_QUEUE_SIZE; lia.
Qed.

Lemma construction_inv n g pre hs s : construction n g pre hs s -> inv 0 (executor_of s).
Proof.
  intros [_ _ _ _ _ K6 _ K8]. split; simpl; [|by exists []|done]. clear -K6. induction K6 as [|e l He Hl IH]; [constructor|]. csimpl.
  destruct He as [Hi|(x & Hx & Hw)]; [by rewrite incomplete_worker|]. rewrite Hx. by constructor.
Qed.

(** C19: the executor is made for [n] components and at most [n] supervisions are constructed, for different components,
    with any failures of the system on the way.  Then no construction stops the daemon, no vector is ever reallocated, and every
    component that got a handle is complete: its event is registered under its name and notifies the interface and then the
    supervision, the interface reads the component's own channel and notifies that supervision, the channel is
    open for the configured user under the path that the handle hands to the process, and the supervision is deactivated.  The
    components with a handle are exactly the workers of the cycle, in order, and the cycle can start. *)
Theorem workers_are_wired (n : nat) (r : R) (w : Shm.t) (rqs : list wrequest) :
  length rqs <= n -> Forall request_ok rqs -> NoDup (wq_id <$> rqs) ->
  exists hs s, construct_all rqs (make n r w) = Ret (hs, s) /\ length hs = length rqs /\
    (Vec.gen (processStates s) = storage_of n /\ Vec.gen (aliveIfIpcs s) = storage_of n /\
     Vec.gen (aliveInterfaces s) = storage_of n /\ Vec.gen (aliveSupervisions s) = storage_of n) /\
    (forall i rq h, rqs !! i = Some rq -> hs !! i = Some (Some h) ->
       exists e f a v, wired (daemon_cred (wq_env rq)) (wq_id rq) (wq_uid rq) h s e f a v) /\
    (fun x => ev_id (w_event x)) <$> workers (executor_of s) = process_id_ <$> omap id hs /\
    inv 0 (executor_of s).
Proof.
  intros Hn Hok Hnd. destruct (construct_all_spec n (storage_of n) rqs [] [] (make n r w) (construction_make n r w) Hn Hok Hnd)
    as (hs & s & E & Hco). exists hs, s. pose proof Hco as [K1 K2 K3 K4 K5 K6 K7 K8]. simpl in *. split_and!; try done; try apply K3.
  by eapply construction_inv.
Qed.

End Proofs.
End WorkersProofs.

Module MonitorLoopProofs.
Import CyclicExecutor MonitorLoop.
Local Open Scope Z_scope.

Section Proofs.
Context {R : Type} `{RecoveryClient Z R}.
Notation exec := (CyclicExecutor.t (Id := Z) (R := R)).

Definition stamp (e : @SupervisionEvent Z) : Z := TimeConversion.convertToNanoSec (ev_timestamp e).

(** No queued event, and no event held back, is newer than [B]. *)
Record events_before (B : Z) (s : exec) : Prop := {
  eb_queue : exists es, RingBuffer.rep sizeof_event (buffer_ s) es /\ Forall (fun e => stamp e <= B) es;
  eb_pending : pending_before B s
}.

Lemma events_before_mono B B' s : B <= B' -> events_before B s -> events_before B' s.
Proof.
  intros HB [(es & Hr & Hes) Hp]. split.
  - exists es. split; [done|]. eapply Forall_impl; [exact Hes|]. simpl. intros. lia.
  - intros Hpd i w Hi Hw. specialize (Hp Hpd i w Hi Hw). lia.
Qed.

(** ** What a cycle leaves in the queue *)

Lemma pushUpdateTill_pending B e sync (s : exec) r : stamp e <= B -> pushUpdateTill e sync s = Ret r ->
  buffer_ r.2 = buffer_ s /\
  (r.1 = true -> forall i w, lastChangedProcess_p r.2 = Some i -> workers r.2 !! i = Some w -> stamp (w_event w) <= B).
Proof.
  intros He. unfold pushUpdateTill. destruct (find_worker _ _) as [i|] eqn:Ef; [|by intros [= <-]].
  destruct (find_worker_Some _ _ _ Ef) as [w Hw]. unfold set_event. rewrite Hw. simpl.
  destruct (_ <=? _).
  - unfold pushData. simpl. rewrite list_lookup_insert_eq by (by eapply lookup_lt_Some). destruct (notify_worker _); simpl; [|done].
    by intros [= <-].
  - intros [= <-]. simpl. split; [done|]. intros _ i' w' [= <-]. rewrite list_lookup_insert_eq by (by eapply lookup_lt_Some).
    by intros [= <-].
Qed.

Lemma distribute_loop_before B sync fuel : forall es (s : exec) r,
  RingBuffer.rep sizeof_event (buffer_ s) es -> Forall (fun e => stamp e <= B) es -> isPushPending s = false ->
  distribute_loop fuel sync s = Ret r ->
  events_before B r.2 /\ (r.1 = false -> RingBuffer.overflow_flag_ (buffer_ r.2) = true).
Proof.
  induction fuel as [|fuel IH]; intros es s r Hr Hes Hp; [done|]. cbn [distribute_loop]. unfold getNextSupervisionEvent.
  assert (events_before B s) as Heb by (split; [by exists es|intros E; by rewrite Hp in E]).
  destruct ((RingBuffer.getOverflowFlag false (buffer_ s)).1) eqn:Ho; [by intros [= <-]|].
  rewrite (RingBuffer.ring_empty_rep _ _ _ Hr). destruct es as [|e es]; [by intros [= <-]|].
  rewrite (RingBuffer.tryDequeue_cons _ _ _ _ Hr), bool_decide_eq_false_2 by done.
  apply Forall_cons in Hes as [He Hes]. pose proof (RingBuffer.advanceReadHead_rep _ _ _ _ Hr) as Hr'.
  destruct (pushUpdateTill e sync _) as [[reached s2]|] eqn:E; cbn [mbind outcome_bind]; [|done].
  destruct (pushUpdateTill_pending B e sync _ _ He E) as [Hb Hpd]. simpl in Hb, Hpd. destruct reached.
  - intros [= <-]. simpl. split; [|done]. split; simpl; [exists es; split; [by rewrite Hb|done]|]. intros _ i w. simpl. by apply Hpd.
  - apply (IH es); simpl; [by rewrite Hb|done|done].
Qed.

Lemma distributeChanges_before B sync (s : exec) r : events_before B s -> distributeChanges sync s = Ret r ->
  events_before B r.2 /\ (r.1 = false -> RingBuffer.overflow_flag_ (buffer_ r.2) = true).
Proof.
  intros [(es & Hr & Hes) _]. unfold distributeChanges. destruct (isPushPending s) eqn:Hp.
  - unfold pushData. destruct (lastChangedProcess_p s) as [i|]; [|done]. destruct (workers s !! i) as [w|]; [|done].
    destruct (notify_worker w); cbn [mbind outcome_bind]; [|done]. by apply (distribute_loop_before B sync _ es).
  - cbn [mbind outcome_bind]. by apply (distribute_loop_before B sync _ es).
Qed.

(** Reading the channels and evaluating leaves the events alone. *)
Lemma check_worker_event sync (w w' : @Worker Z R) : check_worker sync w = Ret w' -> w_event w' = w_event w.
Proof. unfold check_worker. destruct (MonitorIfDaemon.checkForNewData _ _ _ _) as [[m a]|]; simpl; [|done]. by intros [= <-]. Qed.

Lemma checkInterface_events sync : forall (ws ws' : list (@Worker Z R)), checkInterfaceForNewData sync ws = Ret ws' -> w_event <$> ws' = w_event <$> ws.
Proof.
  induction ws as [|w ws IH]; intros ws'; unfold checkInterfaceForNewData; cbn [traverse_M]; [by intros [= <-]|].
  destruct (check_worker sync w) as [w1|] eqn:E1; cbn [mbind outcome_bind]; [|done].
  destruct (traverse_M (check_worker sync) ws) as [ws1|] eqn:E2; cbn [mbind outcome_bind]; [|done]. intros [= <-]. csimpl.
  by rewrite (check_worker_event _ _ _ E1), (IH ws1).
Qed.

Lemma evaluateSupervisions_events sync : forall (ws : list (@Worker Z R)) r x, evaluateSupervisions sync ws r = Ret x -> w_event <$> x.1 = w_event <$> ws.
Proof.
  induction ws as [|w ws IH]; intros r x; cbn [evaluateSupervisions]; [by intros [= <-]|].
  destruct (Alive.evaluate _ _) as [a|]; cbn [mbind outcome_bind]; [|done].
  destruct (evaluateSupervisions sync ws _) as [[ws1 r1]|] eqn:E; cbn [mbind outcome_bind]; [|done]. intros [= <-]. csimpl.
  by rewrite <- (IH _ _ E).
Qed.

Lemma cycle_before B now (s s' : exec) : events_before B s -> performCyclicTriggers now s = Ret s' -> events_before B s'.
Proof.
  intros Heb. unfold performCyclicTriggers. destruct (distributeChanges _ s) as [[ok s1]|] eqn:E; cbn [mbind outcome_bind]; [|done].
  destruct (distributeChanges_before B _ _ _ Heb E) as [[Hq Hp] _]. simpl in *. destruct ok; [|by intros [= <-]].
  unfold manager_performCyclicTriggers. destruct (checkInterfaceForNewData _ _) as [ws|] eqn:E1; cbn [mbind outcome_bind]; [|done].
  destruct (evaluateSupervisions _ ws _) as [[ws1 r]|] eqn:E2; cbn [mbind outcome_bind]; [|done]. intros [= <-]. split; simpl; [done|].
  intros Hpd i w Hi Hw. simpl in *. assert (w_event <$> ws1 = w_event <$> workers s1) as Hev.
  { rewrite <- (checkInterface_events _ _ _ E1). exact (evaluateSupervisions_events _ _ _ _ E2). }
  assert ((w_event <$> workers s1) !! i = Some (w_event w)) as Hl by (rewrite <- Hev, list_lookup_fmap, Hw; done).
  rewrite list_lookup_fmap in Hl. destruct (workers s1 !! i) as [w1|] eqn:Hw1; [|done]. injection Hl as Hl.
  rewrite <- Hl. by apply (Hp Hpd i).
Qed.

(** ** What the others do between two cycles *)

Lemma push_event_rep B (b : RingBuffer.t (@SupervisionEvent Z)) es e : RingBuffer.rep sizeof_event b es -> Forall (fun e => stamp e <= B) es -> stamp e <= B ->
  exists es', RingBuffer.rep sizeof_event (push_event b e) es' /\ Forall (fun e => stamp e <= B) es'.
Proof.
  intros Hr Hes He. unfold push_event, Workers.queueSupervisionEvent.
  destruct (decide (length es < RingBuffer.Capacity b)%nat) as [Hlt|Hge].
  - destruct (RingBuffer.tryEnqueue_ok _ b es e Hr Hlt) as (b' & -> & Hr' & _). exists (es ++ [e]). split; [done|].
    apply Forall_app. by split; [|constructor].
  - pose proof (RingBuffer.rep_bound _ _ _ Hr). rewrite (RingBuffer.tryEnqueue_full _ b es e Hr) by lia. exists es. split; [|done].
    by apply RingBuffer.rep_overflow.
Qed.

Lemma push_events_rep B : forall pushed b es, RingBuffer.rep sizeof_event b es -> Forall (fun e => stamp e <= B) es -> Forall (fun e => stamp e <= B) pushed ->
  exists es', RingBuffer.rep sizeof_event (fold_left push_event pushed b) es' /\ Forall (fun e => stamp e <= B) es'.
Proof.
  induction pushed as [|e l IH]; intros b es Hr Hes Hp; [by exists es|]. apply Forall_cons in Hp as [He Hl]. simpl.
  destruct (push_event_rep B b es e Hr Hes He) as (es' & Hr' & Hes'). by eapply IH.
Qed.

Lemma send_checkpoint_ok T ws x : Forall (worker_ok T) ws ->
  Forall (worker_ok T) (send_checkpoint (R := R) ws x) /\ w_event <$> send_checkpoint ws x = w_event <$> ws.
Proof.
  intros Hws. unfold send_checkpoint. split.
  - apply Forall_alter; [done|]. intros w _ [Hb (cps & Hc)]. split; [done|]. simpl.
    destruct (Ipc.send_spec sizeof_checkpoint _ cps x.2 Hc) as (c' & ok & -> & [(_ & Hr & _)|(_ & Hr & _)]); eauto.
  - apply list_eq. intros i. rewrite !list_lookup_fmap. destruct (decide (i = x.1)) as [->|Hne].
    + rewrite list_lookup_alter_eq. by destruct (ws !! x.1).
    + by rewrite list_lookup_alter_ne.
Qed.

Lemma send_checkpoints_ok T : forall sent ws, Forall (worker_ok T) ws ->
  Forall (worker_ok T) (fold_left (send_checkpoint (R := R)) sent ws) /\ w_event <$> fold_left send_checkpoint sent ws = w_event <$> ws.
Proof.
  induction sent as [|x l IH]; intros ws Hws; [done|]. simpl. destruct (send_checkpoint_ok T ws x Hws) as [H1 H2].
  destruct (IH _ H1) as [H3 H4]. split; [done|congruence].
Qed.

Lemma environment_ok T B rd (s : exec) : inv T s -> events_before B s -> Forall (fun e => stamp e <= B) (rd_pushed rd) ->
  inv T (environment rd s) /\ events_before B (environment rd s) /\ length (workers (environment rd s)) = length (workers s).
Proof.
  intros [Hws _ Hp] [(es & Hr & Hes) Hpb] Hpush. destruct (send_checkpoints_ok T (rd_sent rd) (workers s) Hws) as [Hws' Hev].
  destruct (push_events_rep B (rd_pushed rd) (buffer_ s) es Hr Hes Hpush) as (es' & Hr' & Hes').
  assert (forall i, w_event <$> fold_left send_checkpoint (rd_sent rd) (workers s) !! i = w_event <$> workers s !! i) as Hi.
  { intros i. rewrite <- !list_lookup_fmap. by rewrite Hev. }
  split_and!.
  - split; simpl; [done|by exists es'|]. intros E. destruct (Hp E) as (i & w & Hl & Hw). specialize (Hi i). rewrite Hw in Hi.
    destruct (fold_left _ _ _ !! i) as [w'|] eqn:Ew; [|done]. by exists i, w'.
  - split; simpl; [by exists es'|]. intros E i w Hl Hw. simpl in *. specialize (Hi i). rewrite Hw in Hi.
    destruct (workers s !! i) as [w'|] eqn:Ew; [|done]. simpl in Hi. injection Hi as ->. by apply (Hpb E i).
  - simpl. apply (f_equal length) in Hev. by rewrite !length_fmap in Hev.
Qed.

(** ** The loop *)

Definition now_of (rd : Round) : Z := getMonotonicSystemClock (rd_clock rd).
Definition next_now (rounds : list Round) : Z := match rounds with rd :: _ => now_of rd | [] => INT64_MAX end.

(** The clock does not fail or run backwards, and an event was stamped before the next reading. *)
Fixpoint clocks_ok (T : Z) (rounds : list Round) : Prop :=
  match rounds with
  | [] => T <= INT64_MAX
  | rd :: rest => 0 < now_of rd /\ T <= now_of rd /\ Forall (fun e => stamp e <= next_now rest) (rd_pushed rd) /\ clocks_ok (now_of rd) rest
  end.

(** The thread was told to stop in this round, and its sleep ends. *)
Definition told_to_stop (rd : Round) : Prop := rd_terminate rd = true \/ Exists (fun c => c.1 = true) (rd_calls rd).
Definition wakes_up (rd : Round) : Prop := is_Some (CycleTimer.sleep_loop (rd_calls rd) CycleTimer.EINTR).

(** What holds after a cycle at [now]: every supervision was evaluated, unless the event queue had overflowed. *)
Definition cycle_done (n : nat) (x : Z * exec) : Prop :=
  inv x.1 x.2 /\ length (workers x.2) = n /\
  (Forall (evaluated x.1) (workers x.2) \/ RingBuffer.overflow_flag_ (buffer_ x.2) = true).

Lemma clocks_next T rounds : clocks_ok T rounds -> T <= next_now rounds.
Proof. destruct rounds; simpl; [done|]. lia. Qed.

Lemma cycle_round T rd rest (s : exec) : inv T s -> events_before (now_of rd) s -> clocks_ok T (rd :: rest) ->
  exists s1, performCyclicTriggers (now_of rd) (environment rd s) = Ret s1 /\ inv (now_of rd) s1 /\ events_before (next_now rest) s1 /\
    cycle_done (length (workers s)) (now_of rd, s1).
Proof.
  intros Hi Heb (Hpos & HT & Hpush & Hck). assert (sync_of (now_of rd) = now_of rd) as Hsync by (unfold sync_of; by rewrite (proj2 (Z.eqb_neq _ _)) by lia).
  assert (events_before (next_now rest) s) as Heb' by (eapply events_before_mono; [|exact Heb]; by apply clocks_next in Hck).
  destruct (environment_ok T (next_now rest) rd s Hi Heb' Hpush) as (Hi1 & Heb1 & Hlen).
  destruct (cycle_never_aborts T (now_of rd) (environment rd s)) as (s1 & E & Hi2 & Hl2 & Hev); [done|by rewrite Hsync| |].
  { rewrite Hsync. intros Hpd i w Hl Hw. simpl in Hl, Hpd. destruct Heb as [_ Hp].
    destruct (send_checkpoints_ok T (rd_sent rd) (workers s) (inv_workers _ _ Hi)) as [_ Hevs]. simpl in Hw.
    assert ((w_event <$> workers s) !! i = Some (w_event w)) as Hx by (rewrite <- Hevs, list_lookup_fmap, Hw; done).
    rewrite list_lookup_fmap in Hx. destruct (workers s !! i) as [w'|] eqn:Ew; [|done]. injection Hx as Hx. rewrite <- Hx. by apply (Hp Hpd i). }
  rewrite Hsync in *. exists s1. split_and!; [done|done|by eapply cycle_before|]. split_and!; simpl; [done|congruence|].
  destruct Hev as [Hev|(s1' & Ed & ->)]; [by left|]. right. by apply (distributeChanges_before _ _ _ _ Heb1 Ed).
Qed.

Lemma sleep_told rd t1 r : CycleTimer.sleep (rd_sleep_now rd) (rd_calls rd) t1 = Some r -> (r.1 =? CycleTimer.EINTR) = true -> told_to_stop rd.
Proof.
  unfold CycleTimer.sleep. destruct (_ && _); [by intros [= <-]|].
  assert (forall calls x y, CycleTimer.sleep_loop calls x = Some y -> y =? CycleTimer.EINTR = true -> Exists (fun c => c.1 = true) calls) as Hs.
  { induction calls as [|[ex q] calls IH]; intros x y; simpl; destruct (x =? CycleTimer.EINTR) eqn:Ex; try done; try (intros [= <-]; congruence).
    destruct ex; [intros _ _; by left|]. intros Hq Hy. right. by eapply IH. }
  destruct (CycleTimer.sleep_loop _ _) as [y|] eqn:E; simpl; [|done]. intros [= <-] Hy. right. by eapply Hs.
Qed.

Lemma cyclic_loop_spec rounds : forall T (s : exec) t, inv T s -> events_before (next_now rounds) s -> clocks_ok T rounds ->
  CycleTimer.normal (CycleTimer.deadline t) -> 0 <= CycleTimer.sleepIntervalNs t ->
  exists r, cyclic_loop rounds s t = Ret r /\ Forall (cycle_done (length (workers s))) (cycles r) /\
    CycleTimer.nanos (CycleTimer.deadline (timer r)) =
      CycleTimer.nanos (CycleTimer.deadline t) + Z.of_nat (length (cycles r)) * CycleTimer.sleepIntervalNs t /\
    (ended r = Some true /\ Exists told_to_stop rounds \/ ended r = None) /\
    (Forall wakes_up rounds -> Exists (fun rd => rd_terminate rd = true) rounds -> ended r = Some true).
Proof.
  induction rounds as [|rd rest IH]; intros T s t Hi Heb Hck Hn Hiv; cbn [cyclic_loop].
  { eexists. split; [done|]. simpl. split_and!; [constructor|lia|by right|]. intros _ Hx. by inversion Hx. }
  destruct (rd_terminate rd) eqn:Hterm.
  { eexists. split; [done|]. simpl. split_and!; [constructor|lia|left; split; [done|by left; left]|done]. }
  destruct (cycle_round T rd rest s Hi Heb Hck) as (s1 & E & Hi1 & Heb1 & Hdone). cbv zeta. unfold now_of in *. rewrite E. cbn [mbind outcome_bind].
  destruct (CycleTimer.handleNanoSecOverflow_spec (mkTimespec (tv_sec (CycleTimer.deadline t)) (tv_nsec (CycleTimer.deadline t) + CycleTimer.sleepIntervalNs t)))
    as (d & Ed & En & Hd); simpl; [destruct Hn; lia|]. unfold CycleTimer.calcNextShot. rewrite Ed. cbn [mbind outcome_bind].
  set (t1 := CycleTimer.mk _ _ d). assert (CycleTimer.nanos d = CycleTimer.nanos (CycleTimer.deadline t) + CycleTimer.sleepIntervalNs t) as En'
    by (rewrite En; unfold CycleTimer.nanos; simpl; lia).
  destruct (CycleTimer.sleep (rd_sleep_now rd) (rd_calls rd) t1) as [[sr over]|] eqn:Es.
  - destruct (sr =? CycleTimer.EINTR) eqn:Ei.
    + eexists. split; [done|]. simpl. split_and!; [by apply Forall_singleton|rewrite En'; lia| |done].
      left. split; [done|]. left. by apply (sleep_told rd t1 (sr, over)).
    + destruct Hck as (_ & _ & _ & Hck).
      destruct (IH (getMonotonicSystemClock (rd_clock rd)) s1 t1 Hi1 Heb1 Hck Hd Hiv) as (r & -> & Hf & Hdl & Hend & Hstop).
      cbn [mbind outcome_bind]. eexists. split; [done|]. simpl. destruct Hdone as (? & Hlen & ?). simpl in *. rewrite <- Hlen. split_and!.
      * constructor; [|done]. by split_and!.
      * rewrite Hdl, En'. lia.
      * destruct Hend as [[? ?]|?]; [left; split; [done|by right]|by right].
      * intros Hw Hx. apply Forall_cons in Hw as [_ Hw]. apply Hstop; [done|]. apply Exists_cons in Hx as [Hx|Hx]; [congruence|done].
  - eexists. split; [done|]. simpl. split_and!; [by apply Forall_singleton|rewrite En'; lia|by right|].
    intros Hw _. apply Forall_cons in Hw as [[y Hy] _]. exfalso. revert Es. unfold CycleTimer.sleep. destruct (_ && _); [done|]. by rewrite Hy.
Qed.

(** C20: the monitoring thread, from any state between two cycles, with a clock that works and does not run backwards
    (events were stamped before the next reading) and with anything that handles and processes do in the meantime.
    No cycle stops the daemon; after each, all supervisions have been evaluated for its
    time and none has a cycle overdue, unless the event queue has overflowed; the deadline after [k] cycles is exactly [k]
    intervals after the start.  The thread ends only after it was told to, and when its sleeps end it
    does end once the flag is set. *)
Theorem monitoring_runs_until_stopped (T : Z) (reading : Z * timespec) (rounds : list Round) (s : exec) (t : CycleTimer.t) :
  inv T s -> events_before (next_now rounds) s -> clocks_ok T rounds ->
  reading.1 = 0 -> 0 < TimeConversion.convertToNanoSec reading.2 -> CycleTimer.normal reading.2 -> 0 <= CycleTimer.sleepIntervalNs t ->
  exists r, startCyclicExec reading rounds s t = Ret r /\
    Forall (cycle_done (length (workers s))) (cycles r) /\
    CycleTimer.nanos (CycleTimer.deadline (timer r)) = CycleTimer.nanos reading.2 + Z.of_nat (length (cycles r)) * CycleTimer.sleepIntervalNs t /\
    (ended r = Some true /\ Exists told_to_stop rounds \/ ended r = None) /\
    (Forall wakes_up rounds -> Exists (fun rd => rd_terminate rd = true) rounds -> ended r = Some true).
Proof.
  intros Hi Heb Hck Hok Hpos Hn Hiv. unfold startCyclicExec, CycleTimer.start. rewrite Hok. simpl.
  rewrite (proj2 (Z.eqb_neq _ _)) by lia.
  exact (cyclic_loop_spec rounds T s (CycleTimer.mk (CycleTimer.osInterface t) (CycleTimer.sleepIntervalNs t) reading.2) Hi Heb Hck Hn Hiv).
Qed.

End Proofs.
End MonitorLoopProofs.

(** ** A concrete start *)

Module WorkersExample.
Import WorkersProofs MonitorLoopProofs.

#[local] Instance recovery_log : RecoveryClient Z (list (Z * Z)) := fun id t r => (true, r ++ [(id, t)]).
#[local] Existing Instance AliveChannelExample.simple_access.
#[local] Existing Instance debug_build.

Definition no_log : list (Z * Z) := [].

Definition supervision_config : ComponentAliveSupervision :=
  {| reporting_cycle_ms := 100; failed_cycles_tolerance := 1; min_indications := Some 1%Z; max_indications := None |}.
Definition good_env : Workers.Env :=
  Workers.mkEnv (fun _ => false) AliveChannelExample.root AliveChannelProofs.undisturbed None AliveChannelExample.willing.
Definition poor_env : Workers.Env :=
  Workers.mkEnv (fun a => match a with Workers.alloc_interface => true | _ => false end) AliveChannelExample.root
    AliveChannelProofs.undisturbed None AliveChannelExample.willing.

(** The second of three components cannot be supervised for lack of memory. *)
Definition three : list wrequest :=
  [mkWRequest 17 1000 supervision_config good_env; mkWRequest 18 1001 supervision_config poor_env;
   mkWRequest 19 1002 supervision_config good_env].

Lemma three_ok : Forall request_ok three.
Proof. unfold three, request_ok, config_ok. repeat constructor; simpl; try lia; done. Qed.
Lemma three_distinct : NoDup (wq_id <$> three).
Proof. change (NoDup [17%Z; 18%Z; 19%Z]). by apply (bool_decide_unpack _). Qed.

Lemma workers_are_wired_witness :
  exists hs s, construct_all three (Workers.make 3 no_log AliveChannelExample.empty_system) = Ret (hs, s) /\
    hs = [Some (Workers.mkHandle 17 "/lifecycle_health_17"); None; Some (Workers.mkHandle 19 "/lifecycle_health_19")] /\
    (fun x => CyclicExecutor.ev_id (CyclicExecutor.w_event x)) <$> CyclicExecutor.workers (executor_of s) = [17%Z; 19%Z].
Proof.
  destruct (workers_are_wired 3 no_log AliveChannelExample.empty_system three ltac:(simpl; lia) three_ok three_distinct)
    as (hs & s & E & _ & _ & _ & Hids & _).
  exists hs, s. split; [exact E|].
  assert (hs = [Some (Workers.mkHandle 17 "/lifecycle_health_17"); None; Some (Workers.mkHandle 19 "/lifecycle_health_19")]) as Hh.
  { vm_compute in E. by injection E as <- <-. }
  split; [exact Hh|]. rewrite Hids, Hh. reflexivity.
Defined.

Definition clock : OsClock := {| clockGetTime := (0%Z, mkTimespec 5 0); clockGetRes := (0%Z, mkTimespec 0 1) |}.
Definition cycle_timer : CycleTimer.t := (MonitorLoop.init 50 clock).2.

(** The first component is activated and reports, then the thread is stopped. *)
Definition three_rounds : list MonitorLoop.Round :=
  [MonitorLoop.mkRound false [CyclicExecutor.mkEvent 17%Z EvActivation (mkTimespec 5 10)] [(0, 5000000020%Z)] (0%Z, mkTimespec 5 100) (0%Z, mkTimespec 5 200) [(false, 0%Z)];
   MonitorLoop.mkRound false [] [(0, 5010000000%Z)] (0%Z, mkTimespec 5 50000000) (0%Z, mkTimespec 5 50000200) [(false, 4%Z); (false, 0%Z)];
   MonitorLoop.mkRound true [] [] (0%Z, mkTimespec 5 100000000) (0%Z, mkTimespec 5 100000200) [(false, 0%Z)]].

Lemma monitoring_runs_until_stopped_witness :
  exists hs s, construct_all three (Workers.make 3 no_log AliveChannelExample.empty_system) = Ret (hs, s) /\
    exists r, MonitorLoop.startCyclicExec (0%Z, mkTimespec 5 0) three_rounds (executor_of s) cycle_timer = Ret r /\
      MonitorLoop.ended r = Some true /\
      CycleTimer.nanos (CycleTimer.deadline (MonitorLoop.timer r)) = (5000000000 + Z.of_nat (length (MonitorLoop.cycles r)) * 50000000)%Z.
Proof.
  destruct (construct_all_spec 3 (storage_of 3) three [] [] _ (construction_make 3 no_log AliveChannelExample.empty_system) ltac:(simpl; lia)
    three_ok three_distinct) as (hs & s & E & Hco). exists hs, s. split; [exact E|].
  destruct (monitoring_runs_until_stopped 0 (0%Z, mkTimespec 5 0) three_rounds (executor_of s) cycle_timer) as (r & Er & _ & Hd & _ & Hstop).
  - exact (construction_inv _ _ _ _ _ Hco).
  - destruct Hco as [_ _ _ _ _ _ _ Hbuf]. split; [exists []; by split|done].
  - unfold three_rounds. cbn [clocks_ok MonitorLoop.rd_pushed]. split_and!; [..|by vm_compute];
      try match goal with |- Forall _ [_] => apply Forall_singleton | |- Forall _ [] => apply Forall_nil_2 end; by vm_compute.
  - reflexivity.
  - clear; by vm_compute.
  - clear; by vm_compute.
  - clear; by vm_compute.
  - exists r. split; [exact Er|]. split; [|exact Hd]. apply Hstop; [repeat constructor; by eexists|]. right. right. by left.
Defined.

End WorkersExample.
