(* ===== verification/Recovery.v ===== *)
(** * From an expired supervision to the process group manager

    [RecoveryClient] (recovery_client/recovery_client.cpp) with the callback that
    [ProcessGroupManager::createProcessComponentsObjects] registers (process_group_manager.cpp): a
    recovery request is a [SupervisionFailure] event in the manager's queue.
    This is the recovery client of the supervisions in the daemon, so their
    theorems apply to it. *)

From stdpp Require Import prelude fin_maps gmap strings.
From S2P Require Import Prelude Queues Depgraph Components Graphs Manager.
From S2P Require Import TimeSorting Timers Alive AliveProofs.

Module RecoveryClient.

(** [callback_] is empty or the manager's, whose state is the event queue. *)
Record t := mk {
  callback_ : bool;
  event_queue_ : ComponentEventQueue.t
}.

Definition make (q : ComponentEventQueue.t) : t := mk false q.
Definition setRecoveryRequestCallback (c : t) : t := mk true (event_queue_ c).

(** The lambda in [createProcessComponentsObjects]; it drops the timestamp and the result of the push. *)
Definition recovery_callback (process_identifier : IdentifierHash) (failure_timestamp : Z)
    (q : ComponentEventQueue.t) : ComponentEventQueue.t :=
  (ComponentEventQueue.push (SupervisionFailure process_identifier) q).2.

Definition sendRecoveryRequest (process_identifier : IdentifierHash) (failure_timestamp : Z) (c : t) : bool * t :=
  if callback_ c then (true, mk true (recovery_callback process_identifier failure_timestamp (event_queue_ c)))
  else (false, c).

#[export] Instance daemon_client : RecoveryClient IdentifierHash t := sendRecoveryRequest.

End RecoveryClient.

Module RecoveryProofs.
Import Alive AliveProofs RecoveryClient.
Notation client := RecoveryClient.t.

(** The queue holds [l]. *)
Definition holds (c : client) (l : list ComponentEvent) : Prop :=
  exists self, MpscBoundedQueue.rep self (ComponentEventQueue.queue_ (event_queue_ c)) l.

(** The failure of [id] is in the queue, or its loss is recorded. *)
Definition told (id : IdentifierHash) (c : client) : Prop :=
  (exists l, holds c l /\ SupervisionFailure id ∈ l) \/ ComponentEventQueue.overflow_ (event_queue_ c) = true.

Definition running (c : client) : Prop :=
  callback_ c = true /\ MpscBoundedQueue.stopped_ (ComponentEventQueue.queue_ (event_queue_ c)) = false /\
  exists l, holds c l.

Lemma request_spec id z c : running c ->
  exists c', daemon_client id z c = (true, c') /\ running c' /\ told id c' /\ forall id', told id' c -> told id' c'.
Proof.
  intros (Hc & Hs & l & self & Hr). unfold daemon_client, sendRecoveryRequest, recovery_callback, ComponentEventQueue.push. rewrite Hc.
  eexists. split; [done|]. unfold running, told, holds. simpl.
  pose proof (MpscBoundedQueue.push_spec self _ l (SupervisionFailure id) Hr) as Hp.
  destruct (MpscBoundedQueue.push (SupervisionFailure id) (ComponentEventQueue.queue_ (event_queue_ c))) as [r q'].
  destruct Hp as (_ & Hs' & Hp). rewrite Hs in Hp, Hs'.
  assert (Huniq : forall l2 self2, MpscBoundedQueue.rep self2 (ComponentEventQueue.queue_ (event_queue_ c)) l2 -> l2 = l).
  { intros l2 self2 [H2 _]. destruct Hr as [H1 _]. by eapply FixedSizeQueue.rep_unique. }
  case_bool_decide; destruct Hp as [-> Hr']; simpl.
  - split_and!; eauto.
  - split_and!; eauto.
    + left. exists (l ++ [SupervisionFailure id]). split; [by exists self|]. apply elem_of_snoc_iff. by right.
    + intros id' [(l2 & [self2 H2] & Hin)|Ho]; [|by right]. apply Huniq in H2 as ->.
      left. exists (l ++ [SupervisionFailure id]). split; [by exists self|]. apply elem_of_snoc_iff. by left.
Qed.

Lemma replay_spec id : forall log f c, running c ->
  exists c', replay id log (f, c) = (f, c') /\ running c' /\ (forall id', told id' c -> told id' c') /\
    ((exists z, (kExpired, z) ∈ log) -> told id c').
Proof.
  induction log as [|[x z] log IH]; intros f c Hrun; simpl.
  { exists c. split_and!; try done. intros [z Hz]. by apply elem_of_nil in Hz. }
  assert (Hskip : x <> kExpired -> exists c', replay id log (f, c) = (f, c') /\ running c' /\
    (forall id', told id' c -> told id' c') /\ ((exists y, (kExpired, y) ∈ (x, z) :: log) -> told id c')).
  { intros Hx. destruct (IH f c Hrun) as (c' & E & Hr & Hm & Ht). exists c'. split_and!; try done.
    intros [y Hy]. apply elem_of_cons in Hy as [[= ? ?]|Hy]; [by destruct Hx|]. apply Ht. by exists y. }
  destruct x; try (by apply Hskip). clear Hskip.
  destruct (request_spec id z c Hrun) as (c1 & E1 & Hr1 & Ht1 & Hm1). 
  match goal with |- context [match ?f with pair _ _ => _ end] => change f with (daemon_client id z c) end. rewrite E1.
  destruct (IH f c1 Hr1) as (c' & E & Hr & Hm & Ht). exists c'. split_and!; [exact E|done|auto|auto].
Qed.

(** When an evaluation expires a supervision, the manager learns of it:
    afterwards the event queue holds the [SupervisionFailure] of the process, or its
    overflow flag, which makes the manager fire the watchdog, is set.  The
    supervision itself takes every request for enqueued, also one that met a full
    queue. *)
Theorem expiry_reaches_manager (l : list (Z * TimeSortedUpdateEvent)) (sync : Z) (a : Alive.t IdentifierHash client) :
  between l a -> Forall (fun p => p.1 <= sync)%Z l -> running (recoveryClient a) ->
  exists a', evaluate sync a = Ret a' /\ running (recoveryClient a') /\
    recoveryEnqueueFailed_ a' = recoveryEnqueueFailed_ a /\
    (aliveStatus a <> kExpired -> aliveStatus a' = kExpired -> told (processIdentifier_ a) (recoveryClient a')).
Proof.
  intros Hb Hle Hrun. destruct (evaluate_cases l sync a Hb Hle) as (a' & -> & _ & [_ (log & _ & Hf & Hs)] & _).
  eexists. split; [done|]. unfold recovery in Hs.
  destruct (replay_spec (processIdentifier_ a) log (recoveryEnqueueFailed_ a) (recoveryClient a) Hrun) as (c' & E & Hr & _ & Ht).
  rewrite E in Hs. injection Hs as Hs1 Hs2. simpl. rewrite Hs1, Hs2. split_and!; try done.
  intros Hn Hx. apply Ht. rewrite Hx in Hf. clear -Hf Hn. revert Hf Hn. generalize (aliveStatus a).
  induction log as [|[x z] log IH]; intros s; simpl; [done|]. intros [_ Hf] _.
  destruct (decide (x = kExpired)) as [->|Hx]; [exists z; by left|].
  destruct (IH x Hf Hx) as [y Hy]. exists y. by right.
Qed.

(** ** Instances *)

Definition example : Alive.t IdentifierHash client :=
  Alive.set_status kOk (Alive.set_cycle 0 100 {| k_aliveReferenceCycle := 100; k_minAliveIndications := 1; k_maxAliveIndications := 0;
     k_failedSupervisionCyclesTolerance := 0; processIdentifier_ := 7%Z;
     Alive.recoveryClient := setRecoveryRequestCallback (make (ComponentEventQueue.make 1));
     recoveryEnqueueFailed_ := false; dataLossReason := kNoDataLoss; aliveStatus := kOk;
     referenceCycleStart := 0; referenceCycleEnd := 100; indicationCount := 0; failedSupervisionCycles := 0;
     eventTimestamp := 0; lastSyncTimestamp := 0;
     timeSortingUpdateEventBuffer := TimeSortingBuffer.make 4; reported := [] |}).

Lemma expiry_reaches_manager_witness :
  exists a', evaluate 150 example = Ret a' /\ aliveStatus a' = kExpired /\ told 7%Z (recoveryClient a').
Proof.
  destruct (expiry_reaches_manager [] 150 example) as (a' & E & _ & _ & Ht).
  - split; [split; vm_compute; repeat split; discriminate|]. split; [apply TimeSortingBuffer.make_buffer_rep|constructor..].
  - constructor.
  - split; [done|]. split; [done|]. exists [], 0. apply (MpscBoundedQueue.mpsc_make_rep 0 3).
  - exists a'. split; [exact E|]. assert (Hx : aliveStatus a' = kExpired) by (clear Ht; vm_compute in E; by injection E as <-).
    split; [exact Hx|]. by apply Ht.
Defined.

End RecoveryProofs.
