(* ===== verification/ProcessMap.v ===== *)
(** * The map from process ids to components

    [SafeProcessMap] (process_group_manager/details/safe_process_map.cpp): a
    digital search tree over the low bits of the process ids, in an array whose
    unused items form a free list.  The workers insert the processes they started,
    the thread that waits for children inserts their terminations; whoever comes
    second finds the entry of the other and the component is told.  The spin lock
    on the root makes one pass of [search] atomic: it is one step here.  An item index
    is an [option nat], with [None] for [NULL_INDEX]. *)

From stdpp Require Import prelude fin_maps gmap.
From S2P Require Import Prelude.

Module SafeProcessMap.

Section Map.
(** The components, as the pointers to them. *)
Context {C : Type}.

Record ProcessInfoData := mkData { status_ : Z; component_ : option C }.

Record ProcessTreeNode := mkNode {
  pid_left_ : option nat;
  pid_right_ : option nat;
  pid_ : Z;
  data_ : ProcessInfoData
}.

Record t := mk {
  items_ : list ProcessTreeNode;
  tree_root_ : option nat;
  free_list_head_ : option nat;
  current_ : option nat
}.

Definition set_items (l : list ProcessTreeNode) (s : t) : t := mk l (tree_root_ s) (free_list_head_ s) (current_ s).
Definition set_root (r : option nat) (s : t) : t := mk (items_ s) r (free_list_head_ s) (current_ s).
Definition set_free (r : option nat) (s : t) : t := mk (items_ s) (tree_root_ s) r (current_ s).
Definition set_current (r : option nat) (s : t) : t := mk (items_ s) (tree_root_ s) (free_list_head_ s) r.

Definition no_data : ProcessInfoData := mkData (-1) None.

(** The free list runs through the whole array. *)
Definition make (capacity : nat) : t :=
  mk ((fun i => mkNode None (if S i =? capacity then None else Some (S i)) 0 no_data) <$> seq 0 capacity)
     None (if capacity =? 0 then None else Some 0) None.

(** [items_[i]] *)
Definition item (i : option nat) (s : t) : outcome (nat * ProcessTreeNode) :=
  match i with
  | Some j => match items_ s !! j with Some n => Ret (j, n) | None => Abort OutOfRange end
  | None => Abort OutOfRange
  end.

(** [items_[i].member = ...] *)
Definition update (i : option nat) (f : ProcessTreeNode -> ProcessTreeNode) (s : t) : outcome t :=
  '(j, n) ← item i s; Ret (set_items (<[j := f n]> (items_ s)) s).

Definition set_left (l : option nat) (n : ProcessTreeNode) : ProcessTreeNode := mkNode l (pid_right_ n) (pid_ n) (data_ n).
Definition set_right (r : option nat) (n : ProcessTreeNode) : ProcessTreeNode := mkNode (pid_left_ n) r (pid_ n) (data_ n).

(** A bit of the key: [static_cast<uint32_t>(key) & mask] *)
Definition masked (key mask : Z) : bool := negb (Z.land (wrap 32 key) mask =? 0)%Z.

(** The loop of [findNode]: mask and parent at its end. *)
Fixpoint find_loop (fuel : nat) (mask : Z) (parent : option nat) (key : Z) (s : t) : outcome (Z * option nat * t) :=
  match current_ s with
  | None => Ret (mask, parent, s)
  | Some _ =>
      '(_, n) ← item (current_ s) s;
      if (key =? pid_ n)%Z then Ret (mask, parent, s)
      else
        match fuel with
        | 0 => Abort OutOfFuel
        | S fuel' =>
            find_loop fuel' (wrap 32 (Z.shiftl mask 1)) (current_ s) key
              (set_current (if masked key mask then pid_left_ n else pid_right_ n) s)
        end
  end.

(** The tree has at most 32 levels. *)
Definition levels : nat := 32.

Definition findNode (mask : Z) (parent : option nat) (key : Z) (s : t) : outcome (Z * option nat * t) :=
  find_loop levels mask parent key s.

Definition insertNode (mask : Z) (parent : option nat) (key : Z) (data : ProcessInfoData) (s0 : t) : outcome (Z * t) :=
  let s := set_current (free_list_head_ s0) s0 in
  match current_ s with
  | None => Ret ((-1)%Z, s)
  | Some _ =>
      let mask1 := Z.shiftr mask 1 in
      '(_, n) ← item (current_ s) s;
      let s1 := set_free (pid_right_ n) s in
      s2 ← update (current_ s1) (fun _ => mkNode None None key data) s1;
      s3 ← update parent (if masked key mask1 then set_left (current_ s2) else set_right (current_ s2)) s2;
      Ret (match component_ data with None => 1%Z | Some _ => 0%Z end, s3)
  end.

(** The loop of [findLeaf]. *)
Fixpoint leaf_loop (fuel : nat) (leaf leaf_parent : option nat) (s : t) : outcome (option nat * option nat) :=
  '(_, n) ← item leaf s;
  match pid_left_ n, pid_right_ n with
  | None, None => Ret (leaf, leaf_parent)
  | l, r =>
      match fuel with
      | 0 => Abort OutOfFuel
      | S fuel' => leaf_loop fuel' (match l with Some _ => l | None => r end) leaf s
      end
  end.
Definition findLeaf (leaf leaf_parent : option nat) (s : t) : outcome (option nat * option nat) :=
  leaf_loop levels leaf leaf_parent s.

(** Removes the link to [child] from its parent. *)
Definition unlink (parent child : option nat) (s : t) : outcome t :=
  '(_, n) ← item parent s;
  update parent (if bool_decide (pid_left_ n = child) then set_left None else set_right None) s.

Definition deleteNode (parent leaf root leaf_parent : option nat) (s : t) : outcome (option nat * t) :=
  '(root1, s1) ← (if bool_decide (leaf = root) then Ret (None, s)
                  else if bool_decide (leaf = current_ s) then s1 ← unlink parent (current_ s) s; Ret (root, s1)
                  else
                    '(_, nl) ← item leaf s;
                    s1 ← update (current_ s) (fun n => mkNode (pid_left_ n) (pid_right_ n) (pid_ nl) (data_ nl)) s;
                    s2 ← unlink leaf_parent leaf s1;
                    Ret (root, s2));
  s2 ← update leaf (fun _ => mkNode None (free_list_head_ s1) 0 no_data) s1;
  Ret (root1, set_free leaf s2).

(** Result, the data for the termination handler, and the new root. *)
Definition removeNode (target data : ProcessInfoData) (parent root : option nat) (s : t) :
    outcome (Z * ProcessInfoData * option nat * t) :=
  '(_, n) ← item (current_ s) s;
  if xorb (bool_decide (is_Some (component_ data))) (bool_decide (is_Some (component_ (data_ n)))) then
    let target1 := match component_ (data_ n) with
                   | Some _ => mkData (status_ data) (component_ (data_ n))
                   | None => mkData (status_ (data_ n)) (component_ data)
                   end in
    '(leaf, leaf_parent) ← findLeaf (current_ s) (current_ s) s;
    '(root1, s1) ← deleteNode parent leaf root leaf_parent s;
    Ret (match component_ data with Some _ => 1%Z | None => 0%Z end, target1, root1, s1)
  else Ret ((-2)%Z, target, root, s).

(** One pass of [search] under the lock: the result and, if a component is to
    be told of a termination, the component and the status. *)
Definition pass (key : Z) (data : ProcessInfoData) (s0 : t) : outcome (Z * option (C * Z) * t) :=
  let target := mkData (status_ data) None in
  let root := tree_root_ s0 in
  let s := set_current root s0 in
  match root with
  | None =>
      let s1 := set_current (free_list_head_ s) s in
      '(_, n) ← item (current_ s1) s1;
      let s2 := set_free (pid_right_ n) s1 in
      s3 ← update (current_ s2) (fun _ => mkNode None None key data) s2;
      Ret (match component_ data with None => 1%Z | Some _ => 0%Z end, None, set_root (current_ s3) s3)
  | Some _ =>
      '(mask, parent, s1) ← findNode 1 None key s;
      match current_ s1 with
      | None => '(r, s2) ← insertNode mask parent key data s1; Ret (r, None, set_root root s2)
      | Some _ =>
          '(r, target1, root1, s2) ← removeNode target data parent root s1;
          Ret (r, match component_ target1 with Some c => Some (c, status_ target1) | None => None end, set_root root1 s2)
      end
  end.

(** [search]: a pass that answers -2 met an entry of the same kind (a process id
    that is used again) and is repeated after other threads have run; the caller
    is not told.  A negative key is refused at once. *)
Definition search (key : Z) (data : ProcessInfoData) (s : t) : outcome (option (Z * option (C * Z)) * t) :=
  if (0 <=? key)%Z then
    '(r, told, s') ← pass key data s;
    Ret (if (r =? -2)%Z then None else Some (r, told), s')
  else Ret (Some ((-2)%Z, None), s).

Definition findTerminated (key status : Z) (s : t) := search key (mkData status None) s.
Definition insertIfNotTerminated (key : Z) (object : C) (s : t) := search key (mkData 0 (Some object)) s.

End Map.
Arguments t : clear implicits.
Arguments ProcessInfoData : clear implicits.
Arguments ProcessTreeNode : clear implicits.

End SafeProcessMap.
