(* ===== verification/ProcessMapProofs.v ===== *)
(** * Correctness of the process map

    The tree is described by the positions of its items, a position being the
    bits on the path from the root: an item at a position has a key that begins
    with these bits, so any item below can take its place.  [pass] is shown to
    implement a finite map of limited size. *)

From stdpp Require Import prelude fin_maps gmap.
From S2P Require Import Prelude ProcessMap.

Module SafeProcessMapProofs.
Import SafeProcessMap.

Section Proofs.
Context {C : Type}.
Notation t := (SafeProcessMap.t C).
Notation node := (ProcessTreeNode C).
Notation data := (ProcessInfoData C).

(** ** Keys and positions *)

Definition key_ok (k : Z) : Prop := (0 <= k < 2 ^ 31)%Z.

(** The key begins with the bits of the position, lowest bit first. *)
Definition agrees (k : Z) (p : list bool) : Prop := forall j b, p !! j = Some b -> Z.testbit k (Z.of_nat j) = b.

Lemma agrees_nil k : agrees k [].
Proof. intros j b. by rewrite lookup_nil. Qed.

Lemma agrees_snoc k p b : agrees k (p ++ [b]) <-> agrees k p /\ Z.testbit k (Z.of_nat (length p)) = b.
Proof.
  split.
  - intros Ha. split; [intros j c Hj; apply Ha; by apply lookup_app_l_Some|]. apply Ha. by rewrite list_lookup_middle.
  - intros [Ha Hb] j c Hj. apply lookup_app_Some in Hj as [Hj|[Hge Hj]]; [by apply Ha|].
    destruct (j - length p) as [|x] eqn:E; [|done]. injection Hj as <-. by replace j with (length p) by lia.
Qed.

Lemma agrees_app k p q : agrees k (p ++ q) -> agrees k p.
Proof. intros Ha j b Hj. apply Ha. by apply lookup_app_l_Some. Qed.

Lemma high_bits k n : key_ok k -> (31 <= n)%Z -> Z.testbit k n = false.
Proof.
  intros [H0 H1] Hn. destruct (decide (k = 0%Z)) as [->|]; [apply Z.testbit_0_l|].
  apply Z.bits_above_log2; [done|]. apply Z.log2_lt_pow2; [lia|].
  eapply Z.lt_le_trans; [exact H1|]. apply Z.pow_le_mono_r; lia.
Qed.

(** Two keys cannot share 31 bits. *)
Lemma agrees_eq k1 k2 p : key_ok k1 -> key_ok k2 -> agrees k1 p -> agrees k2 p -> 31 <= length p -> k1 = k2.
Proof.
  intros H1 H2 Ha1 Ha2 Hl. apply Z.bits_inj'. intros n Hn. destruct (decide (n < 31)%Z) as [Hlt|Hge].
  - destruct (lookup_lt_is_Some_2 p (Z.to_nat n) ltac:(lia)) as [b Hb].
    pose proof (Ha1 _ _ Hb) as E1. pose proof (Ha2 _ _ Hb) as E2. rewrite Z2Nat.id in E1, E2 by lia. congruence.
  - by rewrite !high_bits by (done || lia).
Qed.

(** The positions on the path of a key are ordered. *)
Lemma agrees_comparable k p q : agrees k p -> agrees k q -> length p <= length q -> exists r, q = p ++ r.
Proof.
  revert q. induction p as [|b p IH] using rev_ind; intros q Hp Hq Hl; [by exists q|].
  apply agrees_snoc in Hp as [Hp Hb]. rewrite length_app in Hl. simpl in Hl.
  destruct (IH q Hp Hq ltac:(lia)) as [r ->]. rewrite length_app in Hl. destruct r as [|c r]; [simpl in Hl; lia|].
  exists r. rewrite <- app_assoc. simpl. do 2 f_equal. rewrite <- Hb. symmetry. apply Hq. by apply list_lookup_middle.
Qed.

Lemma masked_testbit k d : key_ok k -> (0 <= d)%Z -> masked k (2 ^ d) = Z.testbit k d.
Proof.
  intros Hk Hd. unfold masked. rewrite wrap_small by (unfold key_ok in Hk; lia).
  destruct (Z.testbit k d) eqn:E.
  - apply negb_true_iff, Z.eqb_neq. intros Hz. apply (f_equal (fun z => Z.testbit z d)) in Hz.
    rewrite Z.land_spec, E, Z.pow2_bits_true, Z.testbit_0_l in Hz by lia. done.
  - apply negb_false_iff, Z.eqb_eq. apply Z.bits_inj'. intros n Hn.
    rewrite Z.land_spec, Z.testbit_0_l, Z.pow2_bits_eqb by lia. destruct (Z.eqb_spec d n) as [->|]; [by rewrite E|].
    apply andb_false_r.
Qed.

Lemma mask_shift d : (0 <= d < 31)%Z -> wrap 32 (Z.shiftl (2 ^ d) 1) = (2 ^ (d + 1))%Z.
Proof.
  intros Hd. rewrite Z.shiftl_mul_pow2 by lia. rewrite <- Z.pow_add_r by lia. apply wrap_small. split; [lia|].
  apply Z.pow_lt_mono_r; lia.
Qed.

Lemma mask_back d : (0 <= d)%Z -> Z.shiftr (2 ^ (d + 1)) 1 = (2 ^ d)%Z.
Proof.
  intros Hd. rewrite Z.shiftr_div_pow2 by lia. rewrite Z.pow_add_r by lia. apply Z.div_mul. done.
Qed.

(** ** The shape of the array *)

Record shape (items : list node) (root fre : option nat) (pos : gmap (list bool) nat) (fl : list nat) : Prop := {
  sh_root : root = pos !! [];
  sh_node : forall p i, pos !! p = Some i -> exists n, items !! i = Some n /\
    pid_left_ n = pos !! (p ++ [true]) /\ pid_right_ n = pos !! (p ++ [false]) /\ agrees (pid_ n) p /\ key_ok (pid_ n);
  sh_closed : forall p b, is_Some (pos !! (p ++ [b])) -> is_Some (pos !! p);
  sh_inj : forall p q i, pos !! p = Some i -> pos !! q = Some i -> p = q;
  sh_keys : forall p q i j n n', pos !! p = Some i -> pos !! q = Some j -> items !! i = Some n -> items !! j = Some n' ->
    pid_ n = pid_ n' -> p = q;
  sh_head : fre = head fl;
  sh_free : forall x j, fl !! x = Some j -> exists n, items !! j = Some n /\ pid_right_ n = fl !! S x;
  sh_nodup : NoDup fl;
  sh_disjoint : forall j p, j ∈ fl -> pos !! p <> Some j;
  sh_count : size pos + length fl = length items
}.

(** The entries of the map. *)
Definition holds (items : list node) (pos : gmap (list bool) nat) (k : Z) (d : data) : Prop :=
  exists p i n, pos !! p = Some i /\ items !! i = Some n /\ pid_ n = k /\ data_ n = d.

Record rep (s : t) (m : gmap Z data) : Prop := {
  rp_shape : exists pos fl, shape (items_ s) (tree_root_ s) (free_list_head_ s) pos fl /\
    (forall k d, m !! k = Some d <-> holds (items_ s) pos k d) /\ size m = size pos
}.

Lemma closed_prefix items root fre pos fl : shape items root fre pos fl ->
  forall r p, is_Some (pos !! (p ++ r)) -> is_Some (pos !! p).
Proof.
  intros Hsh. induction r as [|b r IH] using rev_ind; intros p; [by rewrite app_nil_r|].
  rewrite app_assoc. intros Hs. apply IH. by eapply sh_closed.
Qed.

(** ** Finding a key *)

Lemma item_lookup i n (s : t) : items_ s !! i = Some n -> item (Some i) s = Ret (i, n).
Proof. unfold item. by intros ->. Qed.

Lemma update_lookup i n f (s : t) : items_ s !! i = Some n ->
  update (Some i) f s = Ret (set_items (<[i := f n]> (items_ s)) s).
Proof. intros Hn. unfold update. by rewrite (item_lookup _ _ _ Hn). Qed.

(** Where [parent] points after the walk has reached [p]. *)
Definition parent_of (pos : gmap (list bool) nat) (p : list bool) : option nat :=
  match p with [] => None | _ => pos !! take (length p - 1) p end.

Lemma parent_of_snoc pos p b : parent_of pos (p ++ [b]) = pos !! p.
Proof.
  unfold parent_of. rewrite length_app. simpl. rewrite Nat.add_sub, take_app_length. by destruct (p ++ [b]) eqn:E; [destruct p|].
Qed.

(** The item at a position has another key. *)
Definition passed (items : list node) (pos : gmap (list bool) nat) (key : Z) (p : list bool) : Prop :=
  exists i n, pos !! p = Some i /\ items !! i = Some n /\ pid_ n <> key.

Lemma find_loop_spec s pos fl key : shape (items_ s) (tree_root_ s) (free_list_head_ s) pos fl -> key_ok key ->
  forall fuel p, agrees key p -> 32 <= fuel + length p ->
  (forall r b r', p = r ++ b :: r' -> passed (items_ s) pos key r) ->
  exists q, agrees key q /\
    find_loop fuel (2 ^ Z.of_nat (length p)) (parent_of pos p) key (set_current (pos !! p) s) =
      Ret ((2 ^ Z.of_nat (length q))%Z, parent_of pos q, set_current (pos !! q) s) /\
    (forall r b r', q = r ++ b :: r' -> passed (items_ s) pos key r) /\
    (pos !! q = None \/ exists i n, pos !! q = Some i /\ items_ s !! i = Some n /\ pid_ n = key).
Proof.
  intros Hsh Hk. induction fuel as [|fuel IH]; intros p Ha Hf Hpre; cbn [find_loop current_ set_current];
    (destruct (pos !! p) as [i|] eqn:Hp; [|by exists p; rewrite ?Hp; split_and!; auto]);
    destruct (sh_node _ _ _ _ _ Hsh p i Hp) as (n & Hn & Hl & Hr & Han & Hkn);
    rewrite (item_lookup i n) by exact Hn; cbn [mbind outcome_bind];
    (destruct (Z.eqb_spec key (pid_ n)) as [E|E]; [exists p; rewrite Hp; split_and!; auto; right; by exists i, n|]);
    assert (Hlen : length p <= 30) by (destruct (decide (31 <= length p)); [by destruct E; eapply agrees_eq|lia]).
  { lia. }
  rewrite mask_shift, masked_testbit by (done || lia).
  set (b := Z.testbit key (Z.of_nat (length p))).
  assert (Hq : agrees key (p ++ [b])) by (by apply agrees_snoc).
  destruct (IH (p ++ [b]) Hq) as (q & Haq & Eq & Hpq & Hres).
  { rewrite length_app. simpl. lia. }
  { intros r c r' Er. destruct r' as [|c' r'' _] using rev_ind.
    - apply app_inj_tail in Er as [-> ->]. exists i, n. split_and!; auto.
    - rewrite app_comm_cons, app_assoc in Er. apply app_inj_tail in Er as [Er _]. by eapply Hpre. }
  exists q. split_and!; [done| |done|done]. rewrite <- Eq, parent_of_snoc, Hp, length_app. simpl length.
  replace (Z.of_nat (length p + 1)) with (Z.of_nat (length p) + 1)%Z by lia.
  f_equal. unfold set_current. cbn [items_ tree_root_ free_list_head_]. f_equal. destruct b; congruence.
Qed.

(** A key that is not met on its path is not in the tree. *)
Lemma not_met items root fre pos fl key q : shape items root fre pos fl -> agrees key q -> pos !! q = None ->
  (forall r b r', q = r ++ b :: r' -> passed items pos key r) -> forall d, ~ holds items pos key d.
Proof.
  intros Hsh Ha Hq Hpre d (p & i & n & Hp & Hn & Hk & _).
  destruct (sh_node _ _ _ _ _ Hsh p i Hp) as (n' & Hn' & _ & _ & Han & _). assert (n' = n) as -> by congruence.
  rewrite Hk in Han. destruct (decide (length q <= length p)) as [Hl|Hl].
  - destruct (agrees_comparable _ _ _ Ha Han Hl) as [r ->].
    destruct (closed_prefix _ _ _ _ _ Hsh r q (ex_intro _ i Hp)) as [? ?]. congruence.
  - destruct (agrees_comparable key p q Han Ha ltac:(lia)) as [r ->]. destruct r as [|b r]; [rewrite app_nil_r in Hl; lia|].
    destruct (Hpre p b r eq_refl) as (i' & n' & ? & ? & ?). congruence.
Qed.

(** ** A new item *)

Lemma no_child items root fre pos fl q b : shape items root fre pos fl -> pos !! q = None -> pos !! (q ++ [b]) = None.
Proof.
  intros Hsh Hq. apply eq_None_not_Some. intros Hs. apply (sh_closed _ _ _ _ _ Hsh) in Hs as [? ?]. congruence.
Qed.

(** What an insertion at [q] has to do to the array. *)
Record inserted (items items' : list node) (pos : gmap (list bool) nat) (fl : list nat) (q : list bool) (j : nat)
    (key : Z) (d : data) : Prop := {
  in_length : length items' = length items;
  in_new : items' !! j = Some (mkNode None None key d);
  in_old : forall p i n, pos !! p = Some i -> items !! i = Some n ->
    exists n', items' !! i = Some n' /\ pid_ n' = pid_ n /\ data_ n' = data_ n /\
      pid_left_ n' = <[q := j]> pos !! (p ++ [true]) /\ pid_right_ n' = <[q := j]> pos !! (p ++ [false]);
  in_free : forall x, x ∈ fl -> items' !! x = items !! x
}.

Lemma holds_insert items items' root fre pos fl q j key d :
  shape items root fre pos (j :: fl) -> pos !! q = None -> inserted items items' pos fl q j key d ->
  forall k d', holds items' (<[q := j]> pos) k d' <-> (k = key /\ d' = d) \/ holds items pos k d'.
Proof.
  intros Hsh Hq [_ Hnew Hold _] k d'. split.
  - intros (p & i & n & Hp & Hn & Hk & Hd). destruct (decide (p = q)) as [->|Hne].
    + rewrite lookup_insert_eq in Hp. injection Hp as <-. rewrite Hnew in Hn. injection Hn as <-. left. by simpl in *.
    + rewrite lookup_insert_ne in Hp by done. destruct (sh_node _ _ _ _ _ Hsh p i Hp) as (n0 & Hn0 & _).
      destruct (Hold p i n0 Hp Hn0) as (n' & Hn' & E1 & E2 & _). assert (n' = n) as -> by congruence.
      right. exists p, i, n0. split_and!; congruence.
  - intros [[-> ->]|(p & i & n & Hp & Hn & Hk & Hd)].
    + exists q, j, (mkNode None None key d). by rewrite lookup_insert_eq.
    + destruct (Hold p i n Hp Hn) as (n' & Hn' & E1 & E2 & _). exists p, i, n'.
      rewrite lookup_insert_ne by congruence. split_and!; congruence.
Qed.

Lemma shape_insert items items' root fre pos fl q j key d :
  shape items root fre pos (j :: fl) -> pos !! q = None -> inserted items items' pos fl q j key d ->
  (q = [] \/ exists p b, q = p ++ [b] /\ is_Some (pos !! p)) -> key_ok key -> agrees key q ->
  (forall d', ~ holds items pos key d') ->
  shape items' (<[q := j]> pos !! []) (head fl) (<[q := j]> pos) fl.
Proof.
  intros Hsh Hq Hins Hpar Hk Ha Hfresh. pose proof Hins as [Hlen Hnew Hold Hfree].
  assert (Hj : forall p, pos !! p <> Some j) by (intros p; apply (sh_disjoint _ _ _ _ _ Hsh); by left).
  assert (Hnode : forall p i, pos !! p = Some i -> exists n n', items !! i = Some n /\ items' !! i = Some n' /\ pid_ n' = pid_ n).
  { intros p i Hp. destruct (sh_node _ _ _ _ _ Hsh p i Hp) as (n & Hn & _). destruct (Hold p i n Hp Hn) as (n' & ? & ? & _). eauto. }
  pose proof (sh_nodup _ _ _ _ _ Hsh) as [Hjf Hnd]%NoDup_cons.
  split; [done| | | | |done| |done| |].
  - intros p i Hp. destruct (decide (p = q)) as [->|Hne].
    + rewrite lookup_insert_eq in Hp. injection Hp as <-. eexists. split; [exact Hnew|]. simpl.
      rewrite !lookup_insert_ne, !(no_child _ _ _ _ _ _ _ Hsh Hq) by (intros E; by apply (f_equal length) in E; rewrite length_app in E; simpl in E; lia).
      done.
    + rewrite lookup_insert_ne in Hp by done. destruct (sh_node _ _ _ _ _ Hsh p i Hp) as (n & Hn & _ & _ & Han & Hkn).
      destruct (Hold p i n Hp Hn) as (n' & Hn' & E1 & _ & E2 & E3). exists n'. by rewrite E1, E2, E3.
  - intros p b Hs. destruct (decide (p = q)) as [->|Hne]; [rewrite lookup_insert_eq; eauto|]. rewrite lookup_insert_ne by done.
    destruct (decide (p ++ [b] = q)) as [<-|Hne2].
    + destruct Hpar as [E|(p' & b' & E & Hs')]; [by destruct p|]. by apply app_inj_tail in E as [-> _].
    + rewrite lookup_insert_ne in Hs by done. by eapply sh_closed.
  - intros p p' i Hp Hp'. destruct (decide (p = q)) as [->|Hne], (decide (p' = q)) as [->|Hne']; try done;
      rewrite ?lookup_insert_eq in *; rewrite ?lookup_insert_ne in * by done; simplify_eq.
    + by destruct (Hj p').
    + by destruct (Hj p).
    + by eapply (sh_inj _ _ _ _ _ Hsh).
  - intros p p' i i' n n' Hp Hp' Hn Hn' E. destruct (decide (p = q)) as [->|Hne], (decide (p' = q)) as [->|Hne']; try done;
      rewrite ?lookup_insert_eq in *; rewrite ?lookup_insert_ne in * by done; simplify_eq.
    + destruct (Hnode p' i' Hp') as (n0 & n1 & ? & ? & E1). destruct (Hfresh (data_ n0)). exists p', i', n0.
      split_and!; try done. assert (n1 = n') as -> by congruence. simpl in E. congruence.
    + destruct (Hnode p i Hp) as (n0 & n1 & ? & ? & E1). destruct (Hfresh (data_ n0)). exists p, i, n0.
      split_and!; try done. assert (n1 = n) as -> by congruence. simpl in E. congruence.
    + destruct (Hnode p i Hp) as (n0 & n1 & ? & ? & E1), (Hnode p' i' Hp') as (n2 & n3 & ? & ? & E2).
      eapply (sh_keys _ _ _ _ _ Hsh p p' i i' n0 n2); try done. congruence.
  - intros x y Hx. rewrite (Hfree y) by (by eapply list_elem_of_lookup_2).
    destruct (sh_free _ _ _ _ _ Hsh (S x) y) as (n & Hn & E); eauto.
  - intros y p Hy Hp. destruct (decide (p = q)) as [->|Hne].
    + rewrite lookup_insert_eq in Hp. injection Hp as ->. done.
    + rewrite lookup_insert_ne in Hp by done. by eapply (sh_disjoint _ _ _ _ _ Hsh y p); [right|].
  - rewrite map_size_insert_None by done. pose proof (sh_count _ _ _ _ _ Hsh) as Hc. simpl in Hc. lia.
Qed.

(** ** An item less *)

(** The entry at [p] is removed; the leaf at [q] below it moves there. *)
Definition moved (p q p' : list bool) : list bool := if decide (p' = p) then q else p'.

Record removed (items items' : list node) (pos : gmap (list bool) nat) (fl : list nat) (fre : option nat)
    (p q : list bool) (l : nat) : Prop := {
  rm_length : length items' = length items;
  rm_leaf : items' !! l = Some (mkNode None fre 0 no_data);
  rm_old : forall p' i, p' <> q -> pos !! p' = Some i ->
    exists n' i2 n2, items' !! i = Some n' /\ pos !! moved p q p' = Some i2 /\ items !! i2 = Some n2 /\
      pid_ n' = pid_ n2 /\ data_ n' = data_ n2 /\
      pid_left_ n' = delete q pos !! (p' ++ [true]) /\ pid_right_ n' = delete q pos !! (p' ++ [false]);
  rm_free : forall x, x ∈ fl -> items' !! x = items !! x
}.

Section Removal.
Context (items items' : list node) (root fre : option nat) (pos : gmap (list bool) nat) (fl : list nat).
Context (p r : list bool) (i l : nat) (n : node).
Let q := p ++ r.
Context (Hsh : shape items root fre pos fl) (Hp : pos !! p = Some i) (Hn : items !! i = Some n).
Context (Hq : pos !! q = Some l) (Hleaf : forall b, pos !! (q ++ [b]) = None).
Context (Hrm : removed items items' pos fl fre p q l).

Lemma moved_ne p' : p' <> q -> moved p q p' <> p.
Proof. unfold moved. case_decide; congruence. Qed.

Lemma moved_inj p1 p2 : p1 <> q -> p2 <> q -> moved p q p1 = moved p q p2 -> p1 = p2.
Proof. unfold moved. repeat case_decide; congruence. Qed.

Lemma holds_delete k d' : holds items' (delete q pos) k d' <-> holds items pos k d' /\ k <> pid_ n.
Proof using Hsh Hp Hn Hq Hrm.
  destruct Hrm as [_ _ Hold _]. split.
  - intros (p' & i' & n' & Hp' & Hn' & Hk & Hd). apply lookup_delete_Some in Hp' as [Hne Hp'].
    destruct (Hold p' i' (not_eq_sym Hne) Hp') as (n1 & i2 & n2 & Hn1 & Hi2 & Hn2 & E1 & E2 & _).
    assert (n1 = n') as -> by congruence. split; [exists (moved p q p'), i2, n2; split_and!; congruence|].
    intros E. apply (moved_ne p' (not_eq_sym Hne)). eapply (sh_keys _ _ _ _ _ Hsh (moved p q p') p i2 i n2 n); try done. congruence.
  - intros [(p0 & i0 & n0 & Hp0 & Hn0 & Hk & Hd) Hne].
    assert (Hpp : p0 <> p) by (intros ->; apply Hne; congruence).
    assert (Hx : exists p' i', p' <> q /\ pos !! p' = Some i' /\ moved p q p' = p0).
    { destruct (decide (p0 = q)) as [->|Hpq].
      - exists p, i. split_and!; [congruence|done|]. unfold moved. by rewrite decide_True.
      - exists p0, i0. split_and!; [done|done|]. unfold moved. by rewrite decide_False. }
    destruct Hx as (p' & i' & Hpq & Hp' & Em). destruct (Hold p' i' Hpq Hp') as (n1 & i2 & n2 & Hn1 & Hi2 & Hn2 & E1 & E2 & _).
    exists p', i', n1. rewrite lookup_delete_ne by done. rewrite Em in Hi2. split_and!; congruence.
Qed.

Lemma shape_delete : shape items' (delete q pos !! []) (Some l) (delete q pos) (l :: fl).
Proof using Hsh Hp Hn Hq Hleaf Hrm.
  destruct Hrm as [Hlen Hl Hold Hfree].
  assert (Hlf : l ∉ fl) by (intros Hin; by apply (sh_disjoint _ _ _ _ _ Hsh l q)).
  split; [done| | | | |done| | | |].
  - intros p' i' [Hne Hp']%lookup_delete_Some.
    destruct (Hold p' i' (not_eq_sym Hne) Hp') as (n1 & i2 & n2 & Hn1 & Hi2 & Hn2 & E1 & E2 & E3 & E4).
    exists n1. rewrite E3, E4. split_and!; try done; rewrite E1;
      destruct (sh_node _ _ _ _ _ Hsh _ _ Hi2) as (n3 & Hn3 & _ & _ & Ha & Hk); (assert (n3 = n2) as -> by congruence); [|done].
    revert Ha. unfold moved. case_decide; [subst p'; unfold q; apply agrees_app|done].
  - intros p' b [x [Hne Hx]%lookup_delete_Some]. destruct (decide (p' = q)) as [->|Hpq]; [by rewrite Hleaf in Hx|].
    rewrite lookup_delete_ne by done. eapply (sh_closed _ _ _ _ _ Hsh p' b). by exists x.
  - intros p1 p2 x [_ H1]%lookup_delete_Some [_ H2]%lookup_delete_Some. by eapply (sh_inj _ _ _ _ _ Hsh).
  - intros p1 p2 i1 i2 n1 n2 [Hq1 H1]%lookup_delete_Some [Hq2 H2]%lookup_delete_Some Hn1 Hn2 E.
    destruct (Hold p1 i1 (not_eq_sym Hq1) H1) as (m1 & j1 & k1 & Hm1 & Hj1 & Hk1 & E1 & _).
    destruct (Hold p2 i2 (not_eq_sym Hq2) H2) as (m2 & j2 & k2 & Hm2 & Hj2 & Hk2 & E2 & _).
    apply moved_inj; [done|done|]. eapply (sh_keys _ _ _ _ _ Hsh _ _ j1 j2 k1 k2); try done. congruence.
  - intros [|x] y Hy; simpl in Hy.
    + injection Hy as <-. eexists. split; [exact Hl|]. simpl. rewrite (sh_head _ _ _ _ _ Hsh). by destruct fl.
    + rewrite (Hfree y) by (by eapply list_elem_of_lookup_2). simpl. apply (sh_free _ _ _ _ _ Hsh x y Hy).
  - apply NoDup_cons. split; [done|]. apply Hsh.
  - intros y p' Hy [Hne Hp']%lookup_delete_Some. apply elem_of_cons in Hy as [->|Hy].
    + apply Hne. by eapply (sh_inj _ _ _ _ _ Hsh).
    + by eapply (sh_disjoint _ _ _ _ _ Hsh).
  - pose proof (sh_count _ _ _ _ _ Hsh) as Hc. rewrite map_size_delete_Some by (by exists l). simpl.
    assert (size pos <> 0) by (intros E; apply map_size_empty_inv in E; subst pos; by rewrite lookup_empty in Hq). lia.
Qed.

End Removal.

(** ** The operations on the array *)

Lemma depth items root fre pos fl p : shape items root fre pos fl -> is_Some (pos !! p) -> length p <= 31.
Proof.
  intros Hsh [i Hi]. destruct (decide (length p <= 31)) as [|Hl]; [done|]. exfalso.
  destruct p as [|b p _] using rev_ind; [simpl in Hl; lia|]. rewrite length_app in Hl. simpl in Hl.
  destruct (sh_closed _ _ _ _ _ Hsh p b ltac:(eauto)) as [j Hj].
  destruct (sh_node _ _ _ _ _ Hsh _ _ Hi) as (n & Hn & _ & _ & Ha & Hk).
  destruct (sh_node _ _ _ _ _ Hsh _ _ Hj) as (n' & Hn' & _ & _ & Ha' & Hk').
  assert (E : pid_ n = pid_ n') by (eapply agrees_eq; [done|done|by eapply agrees_app|done|lia]).
  apply (sh_keys _ _ _ _ _ Hsh (p ++ [b]) p i j n n' Hi Hj Hn Hn') in E.
  apply (f_equal length) in E. rewrite length_app in E. simpl in E. lia.
Qed.

Lemma leaf_loop_spec s pos fl : shape (items_ s) (tree_root_ s) (free_list_head_ s) pos fl ->
  forall fuel q i lp, pos !! q = Some i -> 32 <= fuel + length q ->
  exists r l, pos !! (q ++ r) = Some l /\ (forall b, pos !! ((q ++ r) ++ [b]) = None) /\
    leaf_loop fuel (Some i) lp s = Ret (Some l, match r with [] => lp | _ => parent_of pos (q ++ r) end).
Proof.
  intros Hsh. induction fuel as [|fuel IH]; intros q i lp Hi Hf;
    destruct (sh_node _ _ _ _ _ Hsh q i Hi) as (n & Hn & Hl & Hr & _); cbn [leaf_loop];
    rewrite (item_lookup i n) by exact Hn; cbn [mbind outcome_bind].
  { pose proof (depth _ _ _ _ _ q Hsh ltac:(eauto)). lia. }
  assert (Hstep : forall b j, pos !! (q ++ [b]) = Some j -> exists r l, pos !! (q ++ r) = Some l /\
    (forall b, pos !! ((q ++ r) ++ [b]) = None) /\
    leaf_loop fuel (Some j) (Some i) s = Ret (Some l, match r with [] => lp | _ => parent_of pos (q ++ r) end)).
  { intros b j Hj. destruct (IH (q ++ [b]) j (Some i) Hj) as (r & l & H1 & H2 & H3); [rewrite length_app; simpl; lia|].
    rewrite <- app_assoc in H1, H2, H3. exists (b :: r), l. split_and!; [done|done|]. rewrite H3. do 2 f_equal.
    destruct r; [|done]. by rewrite parent_of_snoc. }
  destruct (pid_left_ n) as [j|] eqn:El; [by eapply Hstep|]. destruct (pid_right_ n) as [j|] eqn:Er; [by eapply Hstep|].
  exists [], i. rewrite app_nil_r. split_and!; try done. intros []; congruence.
Qed.

(** Cutting the link from a parent to its child. *)
Definition cut (b : bool) (n : node) : node := if b then set_left None n else set_right None n.

Lemma unlink_spec (s : t) pos fl root fre items pp b ip l np : shape items root fre pos fl ->
  pos !! pp = Some ip -> pos !! (pp ++ [b]) = Some l -> items_ s !! ip = Some np ->
  pid_left_ np = pos !! (pp ++ [true]) ->
  unlink (Some ip) (Some l) s = Ret (set_items (<[ip := cut b np]> (items_ s)) s).
Proof.
  intros Hsh Hpp Hl Hnp El. unfold unlink. rewrite (item_lookup _ _ _ Hnp). cbn [mbind outcome_bind].
  rewrite (update_lookup _ _ _ _ Hnp). do 3 f_equal. rewrite El. destruct b; simpl.
  - by rewrite bool_decide_eq_true_2.
  - rewrite bool_decide_eq_false_2; [done|]. intros E. pose proof (sh_inj _ _ _ _ _ Hsh _ _ _ E Hl) as E2.
    by apply app_inj_tail in E2 as [_ ?].
Qed.

(** What the links look like once [q] is gone. *)
Lemma cut_links items root fre pos fl pp b p' i' n' : shape items root fre pos fl ->
  pos !! p' = Some i' -> p' <> pp ++ [b] ->
  pid_left_ n' = pos !! (p' ++ [true]) -> pid_right_ n' = pos !! (p' ++ [false]) ->
  let n2 := if decide (p' = pp) then cut b n' else n' in
  pid_left_ n2 = delete (pp ++ [b]) pos !! (p' ++ [true]) /\ pid_right_ n2 = delete (pp ++ [b]) pos !! (p' ++ [false]) /\
  pid_ n2 = pid_ n' /\ data_ n2 = data_ n'.
Proof.
  intros Hsh Hp' Hne El Er. cbv zeta. case_decide as E.
  - subst p'. destruct b; simpl; rewrite lookup_delete_eq, lookup_delete_ne by (intros E; by apply app_inj_tail in E as [_ ?]); done.
  - rewrite !lookup_delete_ne by (intros E2; apply app_inj_tail in E2 as [? _]; congruence). done.
Qed.

(** The freed item is put on top. *)
Lemma removed_intro items X pos fl root fre p q l : shape items root fre pos fl -> pos !! q = Some l ->
  length X = length items ->
  (forall p' i, p' <> q -> pos !! p' = Some i ->
    exists n' i2 n2, X !! i = Some n' /\ pos !! moved p q p' = Some i2 /\ items !! i2 = Some n2 /\
      pid_ n' = pid_ n2 /\ data_ n' = data_ n2 /\
      pid_left_ n' = delete q pos !! (p' ++ [true]) /\ pid_right_ n' = delete q pos !! (p' ++ [false])) ->
  (forall x, x ∈ fl -> X !! x = items !! x) ->
  removed items (<[l := mkNode None fre 0 no_data]> X) pos fl fre p q l.
Proof.
  intros Hsh Hq Hlen Hold Hfree. destruct (sh_node _ _ _ _ _ Hsh q l Hq) as (nl & Hnl & _).
  apply lookup_lt_Some in Hnl. split.
  - by rewrite length_insert.
  - apply list_lookup_insert_eq. lia.
  - intros p' i Hne Hi. rewrite list_lookup_insert_ne; [by apply Hold|].
    intros ->. apply Hne. by eapply (sh_inj _ _ _ _ _ Hsh).
  - intros x Hx. rewrite list_lookup_insert_ne; [by apply Hfree|]. intros ->. by apply (sh_disjoint _ _ _ _ _ Hsh x q).
Qed.

(** An item of the tree can be written without touching the free list or other items. *)
Lemma lookup_tree_insert items root fre pos fl p p' i i' (X : list node) n : shape items root fre pos fl ->
  pos !! p = Some i -> pos !! p' = Some i' -> i < length X ->
  <[i := n]> X !! i' = if decide (p' = p) then Some n else X !! i'.
Proof.
  intros Hsh Hp Hp' Hi. case_decide as E.
  - subst p'. assert (i' = i) as -> by congruence. by apply list_lookup_insert_eq.
  - apply list_lookup_insert_ne. intros ->. apply E. by eapply (sh_inj _ _ _ _ _ Hsh).
Qed.

Lemma lookup_free_insert items root fre pos fl p i x (X : list node) n : shape items root fre pos fl ->
  pos !! p = Some i -> x ∈ fl -> <[i := n]> X !! x = X !! x.
Proof. intros Hsh Hp Hx. apply list_lookup_insert_ne. intros ->. by apply (sh_disjoint _ _ _ _ _ Hsh x p). Qed.

(** The item that is removed is a leaf itself. *)
Lemma removed_leaf items root fre pos fl pp b ip l np : shape items root fre pos fl ->
  pos !! pp = Some ip -> pos !! (pp ++ [b]) = Some l -> items !! ip = Some np ->
  removed items (<[l := mkNode None fre 0 no_data]> (<[ip := cut b np]> items)) pos fl fre (pp ++ [b]) (pp ++ [b]) l.
Proof.
  intros Hsh Hpp Hl Hnp. apply (removed_intro _ _ _ _ root); [done|done|by rewrite length_insert| |].
  - intros p' i' Hne Hi'. destruct (sh_node _ _ _ _ _ Hsh p' i' Hi') as (n' & Hn' & El & Er & _).
    destruct (cut_links _ _ _ _ _ pp b p' i' n' Hsh Hi' Hne El Er) as (L1 & L2 & L3 & L4).
    exists (if decide (p' = pp) then cut b n' else n'), i', n'. rewrite (lookup_tree_insert _ _ _ _ _ _ _ _ _ _ _ Hsh Hpp Hi') by (by eapply lookup_lt_Some).
    unfold moved. rewrite (decide_False (P := p' = pp ++ [b])) by done.
    split; [|split; [done|split; [done|split; [exact L3|split; [exact L4|split; [exact L1|exact L2]]]]]].
    case_decide; [|done]. subst p'. do 2 f_equal. congruence.
  - intros x Hx. by eapply lookup_free_insert.
Qed.

(** A leaf below takes its place. *)
Lemma removed_below items root fre pos fl p pp b i ip l n nl np : shape items root fre pos fl ->
  pos !! p = Some i -> pos !! pp = Some ip -> pos !! (pp ++ [b]) = Some l -> p <> pp ++ [b] ->
  items !! i = Some n -> items !! l = Some nl ->
  let n1 := mkNode (pid_left_ n) (pid_right_ n) (pid_ nl) (data_ nl) in
  <[i := n1]> items !! ip = Some np ->
  removed items (<[l := mkNode None fre 0 no_data]> (<[ip := cut b np]> (<[i := n1]> items))) pos fl fre p (pp ++ [b]) l.
Proof.
  intros Hsh Hp Hpp Hl Hpq Hn Hnl n1 Hnp. pose proof (lookup_lt_Some _ _ _ Hn) as Hi.
  apply (removed_intro _ _ _ _ root); [done|done|by rewrite !length_insert| |].
  - intros p' i' Hne Hi'. destruct (sh_node _ _ _ _ _ Hsh p' i' Hi') as (n0 & Hn0 & El & Er & _).
    set (m' := if decide (p' = p) then n1 else n0).
    assert (Hm' : <[i := n1]> items !! i' = Some m').
    { rewrite (lookup_tree_insert _ _ _ _ _ _ _ _ _ _ _ Hsh Hp Hi') by done. unfold m'. by case_decide. }
    assert (Hlinks : pid_left_ m' = pos !! (p' ++ [true]) /\ pid_right_ m' = pos !! (p' ++ [false])).
    { unfold m'. case_decide; [|done]. subst p'. assert (n0 = n) as -> by congruence. done. }
    destruct (cut_links _ _ _ _ _ pp b p' i' m' Hsh Hi' Hne (proj1 Hlinks) (proj2 Hlinks)) as (L1 & L2 & L3 & L4).
    exists (if decide (p' = pp) then cut b m' else m').
    assert (Hmv : exists i2 n2, pos !! moved p (pp ++ [b]) p' = Some i2 /\ items !! i2 = Some n2 /\ pid_ m' = pid_ n2 /\ data_ m' = data_ n2).
    { unfold moved, m'. destruct (decide (p' = p)); [exists l, nl|exists i', n0]; by split_and!. }
    destruct Hmv as (i2 & n2 & M1 & M2 & M3 & M4). exists i2, n2.
    split; [|split_and!; [done|done|congruence|congruence|exact L1|exact L2]].
    rewrite (lookup_tree_insert _ _ _ _ _ _ _ _ _ _ _ Hsh Hpp Hi') by (rewrite length_insert; apply lookup_lt_Some in Hnp; by rewrite length_insert in Hnp).
    case_decide; [|done]. subst p'. do 2 f_equal. congruence.
  - intros x Hx. by rewrite !(lookup_free_insert _ _ _ _ _ _ _ _ _ _ Hsh) by eauto.
Qed.

Lemma deleteNode_spec s pos fl p r i l : shape (items_ s) (tree_root_ s) (free_list_head_ s) pos fl ->
  pos !! p = Some i -> pos !! (p ++ r) = Some l -> (forall b, pos !! ((p ++ r) ++ [b]) = None) -> current_ s = Some i ->
  exists items', deleteNode (parent_of pos p) (Some l) (tree_root_ s)
      (match r with [] => Some i | _ => parent_of pos (p ++ r) end) s =
      Ret (delete (p ++ r) pos !! [], mk items' (tree_root_ s) (Some l) (Some i)) /\
    removed (items_ s) items' pos fl (free_list_head_ s) p (p ++ r) l.
Proof.
  intros Hsh Hp Hl Hleaf Hc. unfold deleteNode. destruct s as [items root fre cur].
  cbn [items_ tree_root_ free_list_head_ current_] in *. subst cur.
  destruct (sh_node _ _ _ _ _ Hsh _ _ Hl) as (nl & Hnl & _). destruct (sh_node _ _ _ _ _ Hsh _ _ Hp) as (n & Hn & _).
  pose proof (sh_root _ _ _ _ _ Hsh) as Hroot. destruct (decide (p ++ r = [])) as [E|E].
  { apply app_nil in E as [-> ->]. cbn [app] in *. rewrite bool_decide_eq_true_2 by congruence. cbn [mbind outcome_bind].
    rewrite (update_lookup l nl) by exact Hnl. eexists. rewrite lookup_delete_eq. split; [done|].
    apply (removed_intro _ _ _ _ root); try done. intros p' i' Hne Hi'. exfalso. destruct p' as [|b p']; [done|].
    destruct (closed_prefix _ _ _ _ _ Hsh p' [b]) as [x Hx]; [by exists i'|]. by rewrite Hleaf in Hx. }
  rewrite bool_decide_eq_false_2 by (intros E2; rewrite Hroot in E2; apply E; by eapply (sh_inj _ _ _ _ _ Hsh)).
  rewrite lookup_delete_ne, <- Hroot by done.
  destruct (exists_last E) as (pp & b & Epp).
  destruct (sh_closed _ _ _ _ _ Hsh pp b) as [ip Hpp]; [rewrite <- Epp; by exists l|].
  rewrite Epp in Hl, Hleaf. destruct r as [|c r].
  - rewrite app_nil_r in Epp. subst p. assert (l = i) as -> by congruence. rewrite bool_decide_eq_true_2 by done.
    destruct (sh_node _ _ _ _ _ Hsh _ _ Hpp) as (np & Hnp & El & _). rewrite parent_of_snoc, Hpp.
    rewrite (unlink_spec (mk items root fre (Some i)) pos fl root fre items pp b ip i np Hsh Hpp Hl Hnp El). cbn [mbind outcome_bind].
    destruct (decide (ip = i)) as [->|Hne].
    { pose proof (sh_inj _ _ _ _ _ Hsh _ _ _ Hpp Hl) as X. apply (f_equal length) in X. rewrite length_app in X. simpl in X. lia. }
    rewrite (update_lookup i nl) by (simpl; by rewrite list_lookup_insert_ne).
    eexists. split; [done|]. rewrite app_nil_r. by eapply removed_leaf.
  - assert (Hpq : p <> pp ++ [b]).
    { intros X. rewrite <- Epp in X. apply (f_equal length) in X. rewrite length_app in X. simpl in X. lia. }
    rewrite bool_decide_eq_false_2 by (intros [= X]; subst l; apply Hpq; by eapply (sh_inj _ _ _ _ _ Hsh)).
    rewrite (item_lookup l nl) by exact Hnl. cbn [mbind outcome_bind]. rewrite (update_lookup i n) by exact Hn. cbn [mbind outcome_bind].
    rewrite Epp, parent_of_snoc, Hpp. cbn [set_items items_ tree_root_ free_list_head_ current_]. set (n1 := mkNode _ _ _ _).
    destruct (sh_node _ _ _ _ _ Hsh _ _ Hpp) as (np0 & Hnp0 & El0 & _).
    assert (Hnp : exists np, <[i := n1]> items !! ip = Some np /\ pid_left_ np = pos !! (pp ++ [true])).
    { rewrite (lookup_tree_insert _ _ _ _ _ _ _ _ _ _ _ Hsh Hp Hpp) by (by eapply lookup_lt_Some).
      case_decide; [|by exists np0]. subst pp. assert (np0 = n) as -> by congruence. by exists n1. }
    destruct Hnp as (np & Hnp & El). rewrite (unlink_spec (set_items (<[i := n1]> items) (mk items root fre (Some i))) pos fl root fre items pp b ip l np Hsh Hpp Hl Hnp El). cbn [mbind outcome_bind].
    assert (Hxl : exists nx, <[ip := cut b np]> (<[i := n1]> items) !! l = Some nx).
    { apply lookup_lt_is_Some_2. rewrite !length_insert. by eapply lookup_lt_Some. }
    destruct Hxl as [nx Hnx]. rewrite (update_lookup l nx) by exact Hnx.
    eexists. split; [done|]. by eapply removed_below.
Qed.

(** A new child of the item at [p]. *)
Definition link (b : bool) (c : option nat) (n : node) : node := if b then set_left c n else set_right c n.

Lemma inserted_child items root fre pos fl p b ip j np key d : shape items root fre pos (j :: fl) ->
  pos !! p = Some ip -> pos !! (p ++ [b]) = None -> items !! ip = Some np ->
  inserted items (<[ip := link b (Some j) np]> (<[j := mkNode None None key d]> items)) pos fl (p ++ [b]) j key d.
Proof.
  intros Hsh Hp Hq Hnp. destruct (sh_free _ _ _ _ _ Hsh 0 j eq_refl) as (nj & Hnj & _).
  assert (Hjp : forall p' i, pos !! p' = Some i -> j <> i) by (intros p' i Hi <-; apply (sh_disjoint _ _ _ _ _ Hsh j p'); [by left|done]).
  assert (Hjl : j < length items) by (by eapply lookup_lt_Some).
  assert (Hipl : ip < length items) by (by eapply lookup_lt_Some).
  pose proof (sh_nodup _ _ _ _ _ Hsh) as [Hjf _]%NoDup_cons. split.
  - by rewrite !length_insert.
  - rewrite list_lookup_insert_ne by (symmetry; by eapply Hjp). by apply list_lookup_insert_eq.
  - intros p' i n Hi Hn. rewrite (lookup_tree_insert _ _ _ _ _ _ _ _ _ _ _ Hsh Hp Hi) by (by rewrite length_insert).
    rewrite list_lookup_insert_ne by (by eapply Hjp). destruct (sh_node _ _ _ _ _ Hsh p' i Hi) as (n0 & Hn0 & El & Er & _).
    assert (n0 = n) as -> by congruence. destruct (decide (p' = p)) as [->|Hne].
    + assert (ip = i) as -> by congruence. assert (np = n) as -> by congruence.
      exists (link b (Some j) n). destruct b; simpl; rewrite lookup_insert_eq, lookup_insert_ne by (intros X; by apply app_inj_tail in X as [_ ?]); done.
    + exists n. rewrite !lookup_insert_ne by (intros X; apply app_inj_tail in X as [? _]; congruence). done.
  - intros x Hx. rewrite list_lookup_insert_ne by (intros ->; apply (sh_disjoint _ _ _ _ _ Hsh x p); [by right|done]).
    rewrite list_lookup_insert_ne; [done|]. by intros ->.
Qed.

Lemma insertNode_spec s pos j fl p b ip key d : shape (items_ s) (tree_root_ s) (free_list_head_ s) pos (j :: fl) ->
  pos !! p = Some ip -> pos !! (p ++ [b]) = None -> key_ok key -> agrees key (p ++ [b]) ->
  exists items', insertNode (2 ^ Z.of_nat (length (p ++ [b]))) (pos !! p) key d s =
      Ret (match component_ d with None => 1%Z | Some _ => 0%Z end, mk items' (tree_root_ s) (head fl) (Some j)) /\
    inserted (items_ s) items' pos fl (p ++ [b]) j key d.
Proof.
  intros Hsh Hp Hq Hk Ha. destruct s as [items root fre cur]. cbn [items_ tree_root_ free_list_head_] in *.
  pose proof (sh_head _ _ _ _ _ Hsh) as Hh. simpl in Hh. subst fre.
  destruct (sh_free _ _ _ _ _ Hsh 0 j eq_refl) as (nj & Hnj & Ej). destruct (sh_node _ _ _ _ _ Hsh p ip Hp) as (np & Hnp & _).
  assert (Hne : j <> ip) by (intros ->; apply (sh_disjoint _ _ _ _ _ Hsh ip p); [by left|done]).
  unfold insertNode. cbn [set_current current_ free_list_head_]. rewrite (item_lookup j nj) by exact Hnj.
  cbn [mbind outcome_bind set_free current_]. rewrite (update_lookup j nj) by exact Hnj. cbn [mbind outcome_bind].
  apply agrees_snoc in Ha as [Ha Hb].
  rewrite length_app. simpl length. replace (Z.of_nat (length p + 1)) with (Z.of_nat (length p) + 1)%Z by lia.
  rewrite mask_back, masked_testbit, Hb by (done || lia). rewrite Hp.
  rewrite (update_lookup ip np) by (simpl; by rewrite list_lookup_insert_ne). cbn [mbind outcome_bind].
  exists (<[ip := link b (Some j) np]> (<[j := mkNode None None key d]> items)). split; [|by eapply inserted_child].
  simpl. rewrite Ej. simpl. by destruct b, fl.
Qed.

(** ** One pass implements the map *)

Definition code (d : data) : Z := match component_ d with None => 1%Z | Some _ => 0%Z end.

(** What is told to a component, and the answer, when two entries meet. *)
Definition meet (new old : data) : option (C * Z) :=
  match component_ new, component_ old with
  | None, Some c => Some (c, status_ new)
  | Some c, None => Some (c, status_ old)
  | _, _ => None
  end.

Definition spec_pass (capacity : nat) (key : Z) (d : data) (m : gmap Z data) : Z * option (C * Z) * gmap Z data :=
  match m !! key with
  | None => if decide (size m < capacity) then (code d, None, <[key := d]> m) else ((-1)%Z, None, m)
  | Some old =>
      match meet d old with
      | Some told => ((1 - code d)%Z, Some told, delete key m)
      | None => ((-2)%Z, None, m)
      end
  end.

Lemma rep_found (s : t) (m : gmap Z data) (pos : gmap (list bool) nat) key p i n : (forall k d, m !! k = Some d <-> holds (items_ s) pos k d) ->
  pos !! p = Some i -> items_ s !! i = Some n -> pid_ n = key -> m !! key = Some (data_ n).
Proof. intros Hm Hp Hn Hk. apply Hm. by exists p, i, n. Qed.

Lemma removeNode_spec (s : t) (m : gmap Z data) (pos : gmap (list bool) nat) fl p i n tgt d : shape (items_ s) (tree_root_ s) (free_list_head_ s) pos fl ->
  (forall k d, m !! k = Some d <-> holds (items_ s) pos k d) -> size m = size pos ->
  pos !! p = Some i -> items_ s !! i = Some n -> current_ s = Some i -> component_ tgt = None ->
  exists r tgt1 root1 s1, removeNode tgt d (parent_of pos p) (tree_root_ s) s = Ret (r, tgt1, root1, s1) /\
    r = (spec_pass (length (items_ s)) (pid_ n) d m).1.1 /\
    match component_ tgt1 with Some c => Some (c, status_ tgt1) | None => None end = (spec_pass (length (items_ s)) (pid_ n) d m).1.2 /\
    rep (set_root root1 s1) (spec_pass (length (items_ s)) (pid_ n) d m).2 /\ length (items_ s1) = length (items_ s).
Proof.
  intros Hsh Hm Hsz Hp Hn Hc Ht. unfold removeNode. rewrite Hc, (item_lookup i n) by exact Hn. cbn [mbind outcome_bind].
  unfold spec_pass, meet, code. rewrite (rep_found s m pos (pid_ n) p i n Hm Hp Hn eq_refl).
  assert (Hsame : rep (set_root (tree_root_ s) s) m) by (split; exists pos, fl; by destruct s).
  assert (Hdel : exists l root1 s1, findLeaf (Some i) (Some i) s = Ret l /\
    deleteNode (parent_of pos p) l.1 (tree_root_ s) l.2 s = Ret (root1, s1) /\
    rep (set_root root1 s1) (delete (pid_ n) m) /\ length (items_ s1) = length (items_ s)).
  { destruct (leaf_loop_spec s pos fl Hsh levels p i (Some i) Hp ltac:(unfold levels; lia)) as (r & l & Hl & Hleaf & El).
    destruct (deleteNode_spec s pos fl p r i l Hsh Hp Hl Hleaf Hc) as (items' & Ed & Hrm).
    eexists _, _, _. split; [exact El|]. split; [exact Ed|]. split; [|apply Hrm]. split. exists (delete (p ++ r) pos), (l :: fl).
    simpl. split_and!; [by eapply shape_delete| |].
    - intros k d'. rewrite (holds_delete (items_ s) items' _ _ pos fl p r i l n Hsh Hp Hn Hl Hrm), lookup_delete_Some, Hm.
      split; intros [? ?]; split; auto.
    - rewrite !map_size_delete_Some; [by rewrite Hsz|by exists l|]. exists (data_ n). exact (rep_found s m pos (pid_ n) p i n Hm Hp Hn eq_refl). }
  destruct Hdel as ([l lp] & root1 & s1 & El & Ed & Hr & Hlen). simpl in Ed.
  destruct (component_ d) as [c|] eqn:Ecd, (component_ (data_ n)) as [c'|] eqn:Ecn; simpl;
    rewrite ?El; cbn [mbind outcome_bind]; rewrite ?Ed; cbn [mbind outcome_bind];
    eexists _, _, _, _; (split; [done|]); simpl; rewrite ?Ecn, ?Ht; split_and!; done.
Qed.

(** The first item. *)
Lemma pass_empty (s : t) (m : gmap Z data) pos fl key d : shape (items_ s) None (free_list_head_ s) pos fl -> tree_root_ s = None ->
  (forall k d, m !! k = Some d <-> holds (items_ s) pos k d) -> size m = size pos -> key_ok key -> 0 < length (items_ s) ->
  exists s', pass key d s = Ret ((spec_pass (length (items_ s)) key d m).1, s') /\
    rep s' (spec_pass (length (items_ s)) key d m).2 /\ length (items_ s') = length (items_ s).
Proof.
  intros Hsh Hroot Hm Hsz Hk Hpos. destruct s as [items root fre cur]. cbn [items_ tree_root_ free_list_head_] in *. subst root.
  pose proof (sh_root _ _ _ _ _ Hsh) as Hr0.
  assert (Hempty : pos = ∅).
  { apply map_empty. intros p. apply eq_None_not_Some. intros Hs. destruct (closed_prefix _ _ _ _ _ Hsh p []) as [x Hx]; [done|]. congruence. }
  subst pos. rewrite map_size_empty in Hsz. apply map_size_empty_inv in Hsz. subst m.
  pose proof (sh_count _ _ _ _ _ Hsh) as Hcnt. rewrite map_size_empty in Hcnt.
  destruct fl as [|j fl]; [simpl in Hcnt; lia|]. pose proof (sh_head _ _ _ _ _ Hsh) as Hh. simpl in Hh. subst fre.
  destruct (sh_free _ _ _ _ _ Hsh 0 j eq_refl) as (nj & Hnj & Ej).
  unfold pass. cbn [set_current tree_root_ current_ free_list_head_]. rewrite (item_lookup j nj) by exact Hnj.
  cbn [mbind outcome_bind set_free current_]. rewrite (update_lookup j nj) by exact Hnj. cbn [mbind outcome_bind].
  assert (Hsp : spec_pass (length items) key d ∅ = (code d, None, <[key := d]> ∅)).
  { unfold spec_pass. rewrite lookup_empty, decide_True; [done|]. by rewrite map_size_empty. }
  rewrite Hsp. eexists. split; [done|]. split; [|simpl; by rewrite length_insert].
  assert (Hins : inserted items (<[j := mkNode None None key d]> items) ∅ fl [] j key d).
  { pose proof (sh_nodup _ _ _ _ _ Hsh) as [Hjf _]%NoDup_cons. split.
    - by rewrite length_insert.
    - apply list_lookup_insert_eq. by eapply lookup_lt_Some.
    - intros p i n Hi. by rewrite lookup_empty in Hi.
    - intros x Hx. rewrite list_lookup_insert_ne; [done|]. by intros ->. }
  assert (Hnone : forall k d', ~ holds items ∅ k d') by (intros k d' (p & i & n & Hi & _); by rewrite lookup_empty in Hi).
  split. exists (<[[] := j]> ∅), fl. simpl. split_and!.
  - replace (pid_right_ nj) with (head fl) by (rewrite Ej; by destruct fl).
    pose proof (shape_insert items _ None (Some j) ∅ fl [] j key d Hsh (lookup_empty _) Hins (or_introl eq_refl) Hk (agrees_nil _) (Hnone key)) as X.
    by rewrite lookup_insert_eq in X.
  - intros k d'. rewrite (holds_insert items _ None (Some j) ∅ fl [] j key d Hsh (lookup_empty _) Hins).
    rewrite lookup_insert_Some, lookup_empty. split.
    + intros [[-> ->]|[_ ?]]; [by left|done].
    + intros [[-> ->]|Hh]; [by left|by destruct (Hnone k d')].
  - by rewrite !map_size_insert_None.
Qed.

Lemma pass_spec (s : t) (m : gmap Z data) key d : rep s m -> key_ok key -> 0 < length (items_ s) ->
  exists s', pass key d s = Ret ((spec_pass (length (items_ s)) key d m).1, s') /\
    rep s' (spec_pass (length (items_ s)) key d m).2 /\ length (items_ s') = length (items_ s).
Proof.
  intros [(pos & fl & Hsh & Hm & Hsz)] Hk Hpos. destruct (tree_root_ s) as [ri|] eqn:Er; [|by eapply pass_empty].
  unfold pass. rewrite Er. rewrite <- Er in Hsh.
  destruct (find_loop_spec s pos fl key Hsh Hk levels [] (agrees_nil _)) as (q & Haq & Eq & Hpre & Hres).
  { unfold levels. simpl. lia. } { intros r b r' X. by destruct r. }
  unfold findNode. pose proof (sh_root _ _ _ _ _ Hsh) as Hr0. rewrite <- Hr0, Er in Eq.
  change (2 ^ Z.of_nat (length []))%Z with 1%Z in Eq. change (parent_of pos []) with (@None nat) in Eq. rewrite Eq.
  cbn [mbind outcome_bind]. destruct Hres as [Hq|(i & n & Hq & Hn & Hkn)]; rewrite Hq; cbn [current_ set_current].
  - assert (Hfresh : forall d', ~ holds (items_ s) pos key d') by (by eapply not_met).
    assert (Hmk : m !! key = None) by (apply eq_None_not_Some; intros [d' Hd']; apply Hm in Hd'; by apply (Hfresh d')).
    destruct q as [|b p _] using rev_ind; [congruence|].
    destruct (Hpre p b [] eq_refl) as (ip & np & Hp & Hnp & _). rewrite parent_of_snoc. unfold spec_pass. rewrite Hmk.
    pose proof (sh_count _ _ _ _ _ Hsh) as Hcnt. destruct fl as [|j fl].
    + simpl in Hcnt. rewrite decide_False by lia. unfold insertNode. pose proof (sh_head _ _ _ _ _ Hsh) as Hh. simpl in Hh.
      cbn [set_current free_list_head_]. rewrite Hh. cbn [current_ mbind outcome_bind].
      eexists. split; [done|]. split; [|done]. split. exists pos, []. simpl. by rewrite <- Er.
    + rewrite decide_True by (simpl in Hcnt; lia).
      destruct (insertNode_spec (set_current None s) pos j fl p b ip key d Hsh Hp Hq Hk Haq) as (items' & -> & Hins).
      cbn [mbind outcome_bind]. eexists. split; [done|]. split; [|apply Hins].
      split. exists (<[p ++ [b] := j]> pos), fl. simpl. split_and!.
      * pose proof (shape_insert _ _ _ _ _ _ _ _ _ _ Hsh Hq Hins (or_intror (ex_intro _ p (ex_intro _ b (conj eq_refl (ex_intro _ ip Hp))))) Hk Haq Hfresh) as X.
        rewrite lookup_insert_ne in X by (by destruct p). by rewrite <- Hr0, Er in X.
      * intros k d'. rewrite (holds_insert _ _ _ _ _ _ _ _ _ _ Hsh Hq Hins), lookup_insert_Some, Hm.
        split; [intros [[-> ->]|[_ ?]]; auto|]. intros [[-> ->]|Hh]; [by left|right].
        split; [|done]. intros <-. by apply (Hfresh d').
      * rewrite !map_size_insert_None by done. by rewrite Hsz.
  - destruct (removeNode_spec (set_current (Some i) s) m pos fl q i n (mkData (status_ d) None) d Hsh Hm Hsz Hq Hn eq_refl eq_refl)
      as (r & tgt1 & root1 & s1 & E & Hr & Ht & Hrep & Hlen).
    simpl in E. rewrite Er in E. rewrite E. cbn [mbind outcome_bind]. rewrite Hkn in Hr, Ht, Hrep. simpl in Hr, Ht, Hrep, Hlen.
    eexists. split; [rewrite Hr, Ht; by destruct (spec_pass _ _ _ _) as [[? ?] ?]|]. done.
Qed.

Lemma make_process_map_rep n : rep (make n : t) ∅ /\ length (items_ (make n : t)) = n.
Proof.
  assert (Hlen : length (items_ (make n : t)) = n) by (simpl; by rewrite length_fmap, length_seq).
  split; [|done]. split. exists ∅, (seq 0 n). split_and!; [|by intros k d; rewrite lookup_empty; split; [|intros (p & i & x & Hp & _); by rewrite lookup_empty in Hp]|done].
  split.
  - done.
  - intros p i Hp. by rewrite lookup_empty in Hp.
  - intros p b [x Hx]. by rewrite lookup_empty in Hx.
  - intros p q i Hp. by rewrite lookup_empty in Hp.
  - intros p q i j x y Hp. by rewrite lookup_empty in Hp.
  - by destruct n.
  - intros x j Hj. apply lookup_seq in Hj as [-> Hx]. cbn [make items_ Nat.add]. rewrite list_lookup_fmap.
    rewrite (proj2 (lookup_seq 0 n x x)) by lia. eexists. split; [cbn [fmap option_fmap option_map]; reflexivity|]. cbn [pid_right_].
    destruct (Nat.eqb_spec (S x) n) as [E|E].
    + symmetry. apply lookup_ge_None_2. rewrite length_seq. lia.
    + symmetry. apply lookup_seq. lia.
  - apply NoDup_seq.
  - intros j p _. by rewrite lookup_empty.
  - by rewrite map_size_empty, length_seq, Hlen.
Qed.

(** ** Calls of several threads *)

(** A worker reports the process it started, the waiting thread the end of a
    child.  A schedule is a list of passes: a call that is answered with [None]
    appears in it again when its thread has got the lock again. *)
Inductive call :=
  | Started (pid : Z) (object : C)
  | Ended (pid status : Z).

Definition call_pid (c : call) : Z := match c with Started k _ | Ended k _ => k end.
Definition call_data (c : call) : data := match c with Started _ o => mkData 0 (Some o) | Ended _ st => mkData st None end.

Definition answer : Type := option (Z * option (C * Z)).

Definition call_step (c : call) (s : t) : outcome (answer * t) :=
  match c with
  | Started k o => insertIfNotTerminated k o s
  | Ended k st => findTerminated k st s
  end.

Fixpoint schedule (cs : list call) (s : t) : outcome (list answer * t) :=
  match cs with
  | [] => Ret ([], s)
  | c :: cs' => '(a, s1) ← call_step c s; '(l, s2) ← schedule cs' s1; Ret (a :: l, s2)
  end.

Definition spec_call (capacity : nat) (c : call) (m : gmap Z data) : answer * gmap Z data :=
  let '(r, told, m') := spec_pass capacity (call_pid c) (call_data c) m in
  (if (r =? -2)%Z then None else Some (r, told), m').

Fixpoint spec_schedule (capacity : nat) (cs : list call) (m : gmap Z data) : list answer * gmap Z data :=
  match cs with
  | [] => ([], m)
  | c :: cs' =>
      let '(a, m1) := spec_call capacity c m in
      let '(l, m2) := spec_schedule capacity cs' m1 in (a :: l, m2)
  end.

Definition pids_ok (cs : list call) : Prop := Forall (fun c => key_ok (call_pid c)) cs.

Lemma call_step_spec (s : t) m c : rep s m -> key_ok (call_pid c) -> 0 < length (items_ s) ->
  exists s', call_step c s = Ret ((spec_call (length (items_ s)) c m).1, s') /\
    rep s' (spec_call (length (items_ s)) c m).2 /\ length (items_ s') = length (items_ s).
Proof.
  intros Hr Hk Hpos. destruct (pass_spec s m (call_pid c) (call_data c) Hr Hk Hpos) as (s' & E & Hr' & Hl).
  assert (Hstep : call_step c s = search (call_pid c) (call_data c) s) by (by destruct c).
  exists s'. rewrite Hstep. unfold search, spec_call. rewrite (proj2 (Z.leb_le 0 _)) by apply Hk. rewrite E.
  destruct (spec_pass _ _ _ m) as [[r told] m']. done.
Qed.

Lemma schedule_spec cs : forall (s : t) m, rep s m -> pids_ok cs -> 0 < length (items_ s) ->
  exists s', schedule cs s = Ret ((spec_schedule (length (items_ s)) cs m).1, s') /\
    rep s' (spec_schedule (length (items_ s)) cs m).2 /\ length (items_ s') = length (items_ s).
Proof.
  induction cs as [|c cs IH]; intros s m Hr Hk Hpos; [by exists s|]. apply Forall_cons in Hk as [Hk Hks].
  destruct (call_step_spec s m c Hr Hk Hpos) as (s1 & E1 & Hr1 & Hl1). rewrite <- Hl1 in Hpos.
  destruct (IH s1 _ Hr1 Hks Hpos) as (s2 & E2 & Hr2 & Hl2). rewrite Hl1 in E2, Hr2, Hl2. exists s2. cbn [schedule spec_schedule].
  rewrite E1. cbn [mbind outcome_bind]. rewrite E2. cbn [mbind outcome_bind].
  destruct (spec_call _ c m) as [a m1]. cbn [fst snd] in *. by destruct (spec_schedule _ cs m1).
Qed.

(** ** Every termination is reported once *)

Lemma spec_schedule_app n cs1 cs2 m :
  spec_schedule n (cs1 ++ cs2) m =
    ((spec_schedule n cs1 m).1 ++ (spec_schedule n cs2 (spec_schedule n cs1 m).2).1,
     (spec_schedule n cs2 (spec_schedule n cs1 m).2).2).
Proof.
  revert m. induction cs1 as [|c cs1 IH]; intros m; [simpl; by destruct (spec_schedule n cs2 m)|].
  cbn [app spec_schedule]. destruct (spec_call n c m) as [a m1]. rewrite IH. by destruct (spec_schedule n cs1 m1).
Qed.

Lemma spec_schedule_length n cs m : length (spec_schedule n cs m).1 = length cs.
Proof.
  revert m. induction cs as [|c cs IH]; intros m; [done|]. cbn [spec_schedule]. destruct (spec_call n c m) as [a m1].
  specialize (IH m1). destruct (spec_schedule n cs m1). simpl in *. by rewrite IH.
Qed.

Lemma spec_call_other n c m k : call_pid c <> k -> (spec_call n c m).2 !! k = m !! k.
Proof.
  intros Hne. unfold spec_call, spec_pass. destruct (m !! call_pid c); [destruct (meet _ _)|case_decide]; simpl;
    rewrite ?lookup_delete_ne, ?lookup_insert_ne by done; done.
Qed.

Lemma spec_schedule_other n cs m k : Forall (fun c => call_pid c <> k) cs -> (spec_schedule n cs m).2 !! k = m !! k.
Proof.
  revert m. induction cs as [|c cs IH]; intros m Hf; [done|]. apply Forall_cons in Hf as [Hc Hf].
  cbn [spec_schedule]. pose proof (spec_call_other n c m k Hc) as E. destruct (spec_call n c m) as [a m1].
  specialize (IH m1 Hf). destruct (spec_schedule n cs m1). simpl in *. congruence.
Qed.

(** The map never holds more than the limit. *)
Lemma spec_schedule_size n cs m : size m <= n -> size (spec_schedule n cs m).2 <= n.
Proof.
  revert m. induction cs as [|c cs IH]; intros m Hm; [done|]. cbn [spec_schedule].
  assert (Hs : size (spec_call n c m).2 <= n).
  { unfold spec_call, spec_pass. destruct (m !! call_pid c) eqn:Hk; [destruct (meet _ _)|case_decide]; simpl; [|done| |done].
    - rewrite map_size_delete, Hk. simpl. lia.
    - rewrite map_size_insert, Hk. simpl. lia. }
  destruct (spec_call n c m) as [a m1]. specialize (IH m1 Hs). by destruct (spec_schedule n cs m1).
Qed.

(** What the components are told by the calls for one process id. *)
Definition told_for (k : Z) (cs : list call) (l : list answer) : list (C * Z) :=
  omap (fun '(c, a) => if (call_pid c =? k)%Z then a ≫= snd else None) (zip cs l).

Lemma told_for_app k cs1 cs2 l1 l2 : length l1 = length cs1 ->
  told_for k (cs1 ++ cs2) (l1 ++ l2) = told_for k cs1 l1 ++ told_for k cs2 l2.
Proof. intros Hl. unfold told_for. by rewrite zip_with_app, omap_app. Qed.

Lemma told_for_other k cs l : Forall (fun c => call_pid c <> k) cs -> told_for k cs l = [].
Proof.
  unfold told_for. intros Hf. revert l. induction Hf as [|c cs Hc Hf IH]; intros [|a l]; try done.
  simpl. rewrite (proj2 (Z.eqb_neq _ _) Hc). apply IH.
Qed.

Lemma told_for_cons k c a cs l : call_pid c = k -> told_for k (c :: cs) (a :: l) = option_list (a ≫= snd) ++ told_for k cs l.
Proof. intros Hc. unfold told_for. simpl. rewrite (proj2 (Z.eqb_eq _ _) Hc). by destruct (a ≫= snd). Qed.

Lemma spec_meeting n k c1 c2 told mid m : call_pid c1 = k -> call_pid c2 = k -> meet (call_data c2) (call_data c1) = Some told ->
  Forall (fun c => call_pid c <> k) mid -> m !! k = None -> size m < n ->
  exists a l b, (spec_schedule n (c1 :: mid ++ [c2]) m).1 = a :: l ++ [b] /\ length l = length mid /\
    a ≫= snd = None /\ b ≫= snd = Some told /\
    told_for k (c1 :: mid ++ [c2]) (spec_schedule n (c1 :: mid ++ [c2]) m).1 = [told] /\
    (spec_schedule n (c1 :: mid ++ [c2]) m).2 !! k = None.
Proof.
  intros E1 E2 Hm Hmid Hk1 Hsz. cbn [spec_schedule].
  assert (S1 : spec_call n c1 m = (Some (code (call_data c1), None), <[k := call_data c1]> m)).
  { unfold spec_call, spec_pass. rewrite E1, Hk1, decide_True by done. unfold code. by destruct (component_ _). }
  rewrite S1, spec_schedule_app. cbn [fst snd].
  pose proof (spec_schedule_other n mid (<[k := call_data c1]> m) k Hmid) as Hk2. rewrite lookup_insert_eq in Hk2.
  pose proof (spec_schedule_length n mid (<[k := call_data c1]> m)) as Hlen.
  set (r := spec_schedule n mid _) in *. cbn [spec_schedule].
  assert (S2 : spec_call n c2 r.2 = (Some ((1 - code (call_data c2))%Z, Some told), delete k r.2)).
  { unfold spec_call, spec_pass. rewrite E2, Hk2, Hm. unfold code. by destruct (component_ _). }
  rewrite S2. cbn [fst snd]. eexists _, r.1, _. split_and!; [reflexivity|done|done|done| |by rewrite lookup_delete_eq].
  rewrite told_for_cons by done. cbn [mbind option_bind option_list snd app]. rewrite told_for_app by done.
  rewrite told_for_other by done. cbn [app]. rewrite told_for_cons by done. done.
Qed.

(** C22: the tree implements a finite map of limited size.  Whatever calls the
    threads make, in whatever order they get the lock, from the empty map of [n]
    items on: no pass indexes outside the array or runs on in a loop, and its
    answers and the callbacks are those of a finite map of at most [n] entries, in
    which a call removes the entry of the other kind for its process id, stores its
    own if there is none and room is left, answers -1 if the map is full, and has
    to be repeated if there is an entry of its own kind. *)
Theorem process_map_refines_bounded_map n cs : 0 < n -> pids_ok cs ->
  exists s', schedule cs (make n) = Ret ((spec_schedule n cs ∅).1, s') /\ rep s' (spec_schedule n cs ∅).2.
Proof.
  intros Hn Hk. destruct (make_process_map_rep n) as [Hr Hl].
  destruct (schedule_spec cs (make n) ∅ Hr Hk ltac:(lia)) as (s' & E & Hr' & _). rewrite Hl in E, Hr'. by exists s'.
Qed.

(** C23: every termination reaches its component exactly once, as long as the map has room.  After any calls at all,
    for this process id or for others, the map holds at most [n] reports that wait for their counterpart.  Now a process
    is started and ends under a process id for which none of them is left over; the worker that started it and the thread that waits
    for children report this in either order, with any calls for other processes in between.  If there are fewer than
    [n] waiting reports when the first of the two comes, the component is told of the status exactly once, when the second
    comes, and nothing is left of either.  If there are [n], the first of the two is answered -1 and
    forgotten, and the map is as it was. *)
Theorem termination_reported_exactly_once n k object status first second pre mid :
  first = Started k object /\ second = Ended k status \/ first = Ended k status /\ second = Started k object ->
  0 < n -> key_ok k -> pids_ok (pre ++ mid) -> Forall (fun c => call_pid c <> k) mid ->
  let m1 := (spec_schedule n pre ∅).2 in
  exists l1 s1, schedule pre (make n) = Ret (l1, s1) /\ rep s1 m1 /\ size m1 <= n /\
    (m1 !! k = None ->
     if decide (size m1 < n) then
       exists a l2 b s2 m2, schedule (first :: mid ++ [second]) s1 = Ret (a :: l2 ++ [b], s2) /\ length l2 = length mid /\
         a ≫= snd = None /\ b ≫= snd = Some (object, status) /\
         told_for k (first :: mid ++ [second]) (a :: l2 ++ [b]) = [(object, status)] /\ rep s2 m2 /\ m2 !! k = None
     else exists s2, schedule [first] s1 = Ret ([Some ((-1)%Z, None)], s2) /\ rep s2 m1).
Proof.
  intros Ho Hn Hk Hok H2 m1. apply Forall_app in Hok as [Ho1 Ho2].
  assert (Hcalls : call_pid first = k /\ call_pid second = k /\ meet (call_data second) (call_data first) = Some (object, status))
    by (by destruct Ho as [[-> ->]|[-> ->]]).
  destruct Hcalls as (E1 & E2 & Em).
  destruct (make_process_map_rep n) as [Hr Hlen]. destruct (schedule_spec pre (make n) ∅ Hr Ho1 ltac:(lia)) as (s1 & Es & Hr1 & Hl1).
  rewrite Hlen in Es, Hr1, Hl1. eexists _, s1. split; [exact Es|]. split; [exact Hr1|].
  split; [apply spec_schedule_size; rewrite map_size_empty; lia|]. fold m1 in Hr1. intros Hk1.
  case_decide as Hsz.
  - assert (Hcs : pids_ok (first :: mid ++ [second])).
    { apply Forall_cons; split; [by rewrite E1|]. apply Forall_app; split; [done|].
      apply Forall_cons; split; [by rewrite E2|done]. }
    destruct (schedule_spec _ s1 m1 Hr1 Hcs ltac:(lia)) as (s2 & E & Hr2 & _). rewrite Hl1 in E, Hr2.
    destruct (spec_meeting n k first second (object, status) mid m1 E1 E2 Em H2 Hk1 Hsz) as (a & l2 & b & El & Hll & Ha & Hb & Ht & Hd).
    rewrite El in E, Ht. by exists a, l2, b, s2, (spec_schedule n (first :: mid ++ [second]) m1).2.
  - assert (Hcs : pids_ok [first]) by (by apply Forall_singleton; rewrite E1).
    destruct (schedule_spec _ s1 m1 Hr1 Hcs ltac:(lia)) as (s2 & E & Hr2 & _). rewrite Hl1 in E, Hr2.
    assert (Hf : spec_schedule n [first] m1 = ([Some ((-1)%Z, None)], m1)).
    { cbn [spec_schedule]. unfold spec_call, spec_pass. by rewrite E1, Hk1, decide_False. }
    rewrite Hf in E, Hr2. by exists s2.
Qed.

End Proofs.

(** Two workers and the waiting thread on a map of two items: process 6 ends before
    its worker has reported it, process 2 after. *)
Definition demo : list (@call nat) := [Started 2 7; Ended 6 256; Ended 9 3; Started 6 8; Ended 2 0].

Lemma process_map_refines_bounded_map_witness :
  exists s', schedule demo (make 2) = Ret ([Some (0%Z, None); Some (1%Z, None); Some ((-1)%Z, None); Some (1%Z, Some (8, 256%Z)); Some (0%Z, Some (7, 0%Z))], s') /\
    rep s' ∅.
Proof.
  destruct (process_map_refines_bounded_map 2 demo) as (s' & E & Hr); [lia| |].
  - repeat constructor; done.
  - exists s'. split; [exact E|exact Hr].
Defined.

(** Process 6 on the map of two items that holds the report of process 2. *)
Lemma termination_reported_exactly_once_witness :
  exists l1 s1, schedule [Started 2 7] (make 2) = Ret (l1, s1) /\
    exists l s2, schedule [Ended 6 256; Ended 9 3; Started 6 8] s1 = Ret (l, s2) /\
      told_for 6 [Ended 6 256; Ended 9 3; Started 6 8] l = [(8, 256%Z)].
Proof.
  destruct (termination_reported_exactly_once 2 6 8 256 (Ended 6 256) (Started 6 8) [Started 2 7] [Ended 9 3])
    as (l1 & s1 & E1 & _ & _ & Hmeet); [by right|lia|done|repeat constructor; done|repeat constructor; done|].
  assert (Hk : (spec_schedule 2 [Started 2 7] ∅).2 !! 6%Z = None) by (vm_compute; reflexivity).
  assert (Hn : size (spec_schedule 2 [Started 2 7] ∅).2 < 2) by (vm_compute; lia).
  specialize (Hmeet Hk). rewrite (decide_True _ _ Hn) in Hmeet.
  destruct Hmeet as (a & l2 & b & s2 & m2 & E & _ & _ & _ & Ht & _).
  exact (ex_intro _ l1 (ex_intro _ s1 (conj E1 (ex_intro _ _ (ex_intro _ s2 (conj E Ht)))))).
Defined.

End SafeProcessMapProofs.
