(* ===== verification/ProcessNodes.v ===== *)
(** * The process component

    [ProcessInfoNode] (process_group_manager/details/process_info_node.cpp) starts
    the process of a component, waits until it is ready, tries again if it is not,
    and stops it again; [TerminationWaiter] lets it wait for the end of the process.

    [activate] and [deactivate] run on a worker thread while the thread that
    waits for children calls [tryHandleTermination].  The worker's code is
    written in a state monad in which every access to a shared variable and every
    call of the operating system is one step; before each of them the end of the
    process may be handled.  The handler itself is one step.  What happens at the
    steps is an infinite sequence of inputs; the one loop without a bound, which
    sends SIGKILL until the process is gone, runs on fuel, which the monad hands
    down, and is [OutOfFuel] when that does not do. *)

From stdpp Require Import prelude.
From S2P Require Import Prelude Components Graphs.

(** [TerminationWaiter]; a wait returns what the flag is when the thread wakes up, on
    a notification, a time-out or a stop request. *)
Module TerminationWaiter.

Record t := mk { is_terminated_ : bool }.

Definition make : t := mk false.
Definition terminated (w : t) : t := if is_terminated_ w then w else mk true.
Definition reset (w : t) : t := mk false.
Definition wait_with_timeout (w : t) : bool := is_terminated_ w.

End TerminationWaiter.

Module ProcessInfoNode.

Inductive ProcessState := kIdle | kStarting | kRunning | kTerminating | kTerminated | kFailed.

#[export] Instance ProcessState_eq_dec : EqDecision ProcessState.
Proof. solve_decision. Defined.

(** The number of the enumerator. *)
Definition rank (s : ProcessState) : Z :=
  match s with kIdle => 0 | kStarting => 1 | kRunning => 2 | kTerminating => 3 | kTerminated => 4 | kFailed => 5 end.

Inductive ApplicationType := Native | Reporting | ReportingAndSupervised | StateManager.

#[export] Instance ApplicationType_eq_dec : EqDecision ApplicationType.
Proof. solve_decision. Defined.

(** [configuration::ReadyCondition]: [ProcessState] or [FileState]. *)
Inductive ReadyCondition := ReadyRunning | ReadyTerminated | ReadyFile.

#[export] Instance ReadyCondition_eq_dec : EqDecision ReadyCondition.
Proof. solve_decision. Defined.

Record ComponentConfig := mkConfig {
  name : IdentifierHash;
  application_type : ApplicationType;
  is_self_terminating : bool;
  has_alive_supervision : bool;
  ready_condition : ReadyCondition;
  activation_retry_attempts : nat
}.

(** The calls made on the supervision handle. *)
Inductive SupervisionCall := ActivateSupervision | DeactivateSupervision.

(** [sync_] counts the posts on the semaphore of the shared block. *)
Record t := mk {
  termination_requested_ : bool;
  pid_ : Z;
  exit_status_ : Z;
  process_state_ : ProcessState;
  reached_ready_ : bool;
  config_ : ComponentConfig;
  sync_ : option nat;
  success_returned_ : bool;
  supervision_handle_ : option (list SupervisionCall);
  start_retries_ : nat;
  identifier_ : IdentifierHash;
  termination_result_ : option TerminationResult;
  termination_waiter_ : TerminationWaiter.t
}.

Definition set_requested (b : bool) (n : t) : t :=
  mk b (pid_ n) (exit_status_ n) (process_state_ n) (reached_ready_ n) (config_ n) (sync_ n) (success_returned_ n)
     (supervision_handle_ n) (start_retries_ n) (identifier_ n) (termination_result_ n) (termination_waiter_ n).
Definition set_pid (p : Z) (n : t) : t :=
  mk (termination_requested_ n) p (exit_status_ n) (process_state_ n) (reached_ready_ n) (config_ n) (sync_ n) (success_returned_ n)
     (supervision_handle_ n) (start_retries_ n) (identifier_ n) (termination_result_ n) (termination_waiter_ n).
Definition set_exit (st : Z) (n : t) : t :=
  mk (termination_requested_ n) (pid_ n) st (process_state_ n) (reached_ready_ n) (config_ n) (sync_ n) (success_returned_ n)
     (supervision_handle_ n) (start_retries_ n) (identifier_ n) (termination_result_ n) (termination_waiter_ n).
Definition set_process_state (x : ProcessState) (n : t) : t :=
  mk (termination_requested_ n) (pid_ n) (exit_status_ n) x (reached_ready_ n) (config_ n) (sync_ n) (success_returned_ n)
     (supervision_handle_ n) (start_retries_ n) (identifier_ n) (termination_result_ n) (termination_waiter_ n).
Definition set_ready (b : bool) (n : t) : t :=
  mk (termination_requested_ n) (pid_ n) (exit_status_ n) (process_state_ n) b (config_ n) (sync_ n) (success_returned_ n)
     (supervision_handle_ n) (start_retries_ n) (identifier_ n) (termination_result_ n) (termination_waiter_ n).
Definition set_sync (y : option nat) (n : t) : t :=
  mk (termination_requested_ n) (pid_ n) (exit_status_ n) (process_state_ n) (reached_ready_ n) (config_ n) y (success_returned_ n)
     (supervision_handle_ n) (start_retries_ n) (identifier_ n) (termination_result_ n) (termination_waiter_ n).
Definition set_returned (b : bool) (n : t) : t :=
  mk (termination_requested_ n) (pid_ n) (exit_status_ n) (process_state_ n) (reached_ready_ n) (config_ n) (sync_ n) b
     (supervision_handle_ n) (start_retries_ n) (identifier_ n) (termination_result_ n) (termination_waiter_ n).
Definition set_supervision (h : option (list SupervisionCall)) (n : t) : t :=
  mk (termination_requested_ n) (pid_ n) (exit_status_ n) (process_state_ n) (reached_ready_ n) (config_ n) (sync_ n) (success_returned_ n)
     h (start_retries_ n) (identifier_ n) (termination_result_ n) (termination_waiter_ n).
Definition set_result (r : option TerminationResult) (n : t) : t :=
  mk (termination_requested_ n) (pid_ n) (exit_status_ n) (process_state_ n) (reached_ready_ n) (config_ n) (sync_ n) (success_returned_ n)
     (supervision_handle_ n) (start_retries_ n) (identifier_ n) r (termination_waiter_ n).
Definition set_waiter (v : TerminationWaiter.t) (n : t) : t :=
  mk (termination_requested_ n) (pid_ n) (exit_status_ n) (process_state_ n) (reached_ready_ n) (config_ n) (sync_ n) (success_returned_ n)
     (supervision_handle_ n) (start_retries_ n) (identifier_ n) (termination_result_ n) v.

(** The constructor; the factory answers with a handle or a null pointer, which
    is then used to add the connection to the environment of the process. *)
Definition make `{BuildMode} (config : ComponentConfig) (factory : option (list SupervisionCall)) : outcome t :=
  let n := mk false 0 0 kIdle false config None false None (activation_retry_attempts config) (name config) None TerminationWaiter.make in
  if bool_decide (application_type config = ReportingAndSupervised) then
    _ ← assert_dbg (has_alive_supervision config);
    _ ← (if has_alive_supervision config then Ret tt else Abort OutOfRange);
    match factory with
    | Some h => Ret (set_supervision (Some h) n)
    | None => Abort NullPointer
    end
  else Ret n.

Definition isReporting (n : t) : bool := negb (bool_decide (application_type (config_ n) = Native)).
Definition isSupervised (n : t) : bool :=
  bool_decide (application_type (config_ n) = ReportingAndSupervised) || bool_decide (application_type (config_ n) = StateManager).
Definition active (n : t) : bool := reached_ready_ n.
Definition getPid (n : t) : Z := pid_ n.
Definition getState (n : t) : ProcessState := process_state_ n.
Definition getIdentifier (n : t) : IdentifierHash := identifier_ n.

(** ** The node in its environment *)

(** The child process, as the process map sees it. *)
Inductive Child := NoChild | Unregistered | Registered.

#[export] Instance Child_eq_dec : EqDecision Child.
Proof. solve_decision. Defined.

(** What happens at a step of the worker: the process ended and its end is
    handled first, and the value that a call of the operating system returns. *)
Record input := mkInput { ends : option Z; value : Z }.

(** What the worker asks of others, in this order. *)
Inductive Call := Supervise (c : SupervisionCall) | Sigterm | Sigkill.

(** Beside the node: the child; what happens at each step, which may depend on the
    child; the number of steps so far; the number of processes started; whether a
    signal could not be sent; what the handler told the process monitor; and the calls
    on the supervision and the signals, in their order. *)
Record world := mkWorld {
  node : t;
  child : Child;
  script : nat -> Child -> input;
  clock : nat;
  launches : nat;
  refused : bool;
  told : list TerminationResult;
  journal : list Call
}.

Definition set_node (n : t) (w : world) : world :=
  mkWorld n (child w) (script w) (clock w) (launches w) (refused w) (told w) (journal w).
Definition set_child (c : Child) (w : world) : world :=
  mkWorld (node w) c (script w) (clock w) (launches w) (refused w) (told w) (journal w).
Definition stepped (w : world) : world :=
  mkWorld (node w) (child w) (script w) (S (clock w)) (launches w) (refused w) (told w) (journal w).
Definition launched (w : world) : world :=
  mkWorld (node w) (child w) (script w) (clock w) (S (launches w)) (refused w) (told w) (journal w).
Definition set_refused (w : world) : world :=
  mkWorld (node w) (child w) (script w) (clock w) (launches w) true (told w) (journal w).
Definition tell (r : TerminationResult) (w : world) : world :=
  mkWorld (node w) (child w) (script w) (clock w) (launches w) (refused w) (told w ++ [r]) (journal w).
Definition note (c : Call) (w : world) : world :=
  mkWorld (node w) (child w) (script w) (clock w) (launches w) (refused w) (told w) (journal w ++ [c]).

(** The input of the next step. *)
Definition next_input (w : world) : input := script w (clock w) (child w).

(** The first argument is the fuel. *)
Definition M (A : Type) : Type := nat -> world -> outcome (A * world).

#[export] Instance M_ret : MRet M := fun A a _ w => Ret (a, w).
#[export] Instance M_bind : MBind M := fun A B k m fuel w => '(a, w') ← m fuel w; k a fuel w'.

Definition modify (f : world -> world) : M unit := fun _ w => Ret (tt, f w).
Definition lift {A} (o : outcome A) : M A := fun _ w => a ← o; Ret (a, w).

(** ** Code of both threads *)

Section Shared.
(** What happens between two accesses. *)
Variable tick : M Z.

(** An access to the object. *)
Definition access {B} (f : t -> B * t) : M B :=
  fun fuel w0 => '(_, w) ← tick fuel w0; Ret ((f (node w)).1, set_node (f (node w)).2 w).
Definition read {B} (f : t -> B) : M B := access (fun n => (f n, n)).
Definition write (f : t -> t) : M unit := access (fun n => (tt, f n)).

(** [compare_exchange_strong] *)
Definition compare_exchange (old new : ProcessState) : M bool :=
  access (fun n => if bool_decide (process_state_ n = old) then (true, set_process_state new n) else (false, n)).

(** [atomic_flag::test_and_set] on [success_returned_] *)
Definition test_and_set : M bool := access (fun n => (success_returned_ n, set_returned true n)).

Definition setState (new_state : ProcessState) : M bool :=
  old_state ← read getState;
  if (rank old_state <? rank new_state)%Z || (bool_decide (new_state = old_state) && bool_decide (new_state = kIdle))
  then compare_exchange old_state new_state
  else if bool_decide (new_state = kIdle) && (bool_decide (old_state = kTerminated) || bool_decide (old_state = kFailed))
  then _ ← write (set_process_state new_state); mret true
  else mret false.

Definition tryReportSuccess : M RequestResult :=
  b ← test_and_set;
  if (b : bool) then mret kFailure
  else _ ← write (set_ready true); mret kSuccess.

Definition tryReportError (error : RequestResult) : M RequestResult :=
  b ← test_and_set;
  mret (if (b : bool) then kFailure else error).

Definition desired_state (c : ReadyCondition) : ProcessState :=
  match c with ReadyRunning => kRunning | ReadyTerminated => kTerminated | ReadyFile => kRunning end.

Definition tryReportCompletion (new_state : ProcessState) : M RequestResult :=
  cfg ← read config_;
  if bool_decide (new_state = kFailed) then tryReportError kFailure
  else if bool_decide (new_state = desired_state (ready_condition cfg)) then tryReportSuccess
  else mret kFailure.

Definition unblockSync : M unit := write (fun n => set_sync (option_map S (sync_ n)) n).

(** What the end of the process means if nobody asked for it. *)
Definition classify (cfg : ComponentConfig) (process_status : Z) : TerminationResult :=
  if is_self_terminating cfg && (process_status =? 0)%Z then kIgnore else kTerminationFailure.

Definition tryHandleTermination (process_status : Z) : M TerminationResult :=
  _ ← write (set_exit process_status);
  _ ← write (fun n => set_result (Some (classify (config_ n) process_status)) n);
  requested ← access (fun n => (termination_requested_ n, set_requested false n));
  res ← (if (requested : bool) then _ ← setState kTerminated; _ ← unblockSync; mret kIgnore
         else
           starting ← compare_exchange kStarting kTerminated;
           if (starting : bool) then _ ← unblockSync; mret kIgnore
           else
             _ ← setState kTerminated;
             r ← read termination_result_;
             if bool_decide (r = Some kIgnore) then _ ← tryReportCompletion kTerminated; mret kIgnore
             else mret kTerminationFailure);
  _ ← write (fun n => set_waiter (TerminationWaiter.terminated (termination_waiter_ n)) n);
  mret res.

End Shared.

(** ** Steps of the worker *)

(** Inside the handler nothing else happens. *)
Definition quiet : M Z := mret (-1)%Z.

(** [ProcessMonitor::terminated] on the node: the entry in the process map is gone. *)
Definition fire (process_status : Z) : M unit :=
  _ ← modify (set_child NoChild);
  r ← tryHandleTermination quiet process_status;
  modify (tell r).

(** One step: the next input. *)
Definition tick : M Z := fun fuel w =>
  let i := next_input w in
  match ends i, child w with
  | Some process_status, Registered => '(_, w') ← fire process_status fuel (stepped w); Ret (value i, w')
  | _, _ => Ret (value i, stepped w)
  end.

(** An [OsalReturnType]: [kSuccess] is 0. *)
Definition os_call : M bool := v ← tick; mret (v =? 0)%Z.

Definition send (signal : Call) : M bool :=
  ok ← os_call; _ ← modify (note signal); _ ← modify (if (ok : bool) then id else set_refused); mret ok.
Definition requestTermination : M bool := send Sigterm.
Definition forceTermination : M bool := send Sigkill.

Definition waitForTermination : M bool := read tick (fun n => TerminationWaiter.wait_with_timeout (termination_waiter_ n)).

Fixpoint force_loop (rounds : nat) : M unit :=
  match rounds with
  | 0 => lift (Abort OutOfFuel)
  | S rounds' =>
      sent ← forceTermination;
      if (sent : bool) then
        gone ← waitForTermination;
        if (gone : bool) then mret tt else force_loop rounds'
      else mret tt
  end.

Definition handleForcedTermination : M unit := fun fuel w => force_loop fuel fuel w.

Definition handleTerminationProcess : M unit :=
  _ ← write tick (set_requested true);
  sent ← requestTermination;
  gone ← (if (sent : bool) then waitForTermination else mret true);
  _ ← (if (gone : bool) then mret tt else handleForcedTermination);
  write tick (set_requested false).

Definition terminateProcess : M unit :=
  b ← setState tick kTerminating;
  if (b : bool) then handleTerminationProcess else mret tt.

(** The ready condition, waited for. *)
Definition startup_condition_met : M bool :=
  cfg ← read tick config_;
  reporting ← read tick isReporting;
  let exited_well := st ← read tick exit_status_; mret (st =? 0)%Z in
  match ready_condition cfg with
  | ReadyFile =>
      _ ← (if (reporting : bool) then os_call else mret true);
      found ← os_call;
      if (found : bool) then exited_well else mret false
  | ready_state =>
      if negb reporting && bool_decide (ready_state = ReadyRunning) then exited_well
      else
        running ← (if (reporting : bool) then os_call else mret true);
        if (running : bool) then
          ended ← (if bool_decide (ready_state = ReadyTerminated) then waitForTermination else mret true);
          if (ended : bool) then exited_well else mret false
        else mret false
  end.

(** [expected_blank]: [None] is success. *)
Definition handleProcessStillStarting : M (option RequestResult) :=
  met ← startup_condition_met;
  if (met : bool) then mret None
  else
    x ← read tick getState;
    if bool_decide (x = kTerminated) then mret (Some kFailure)
    else _ ← terminateProcess; mret (Some kTimeout).

Definition handleProcessAlreadyTerminated : M (option RequestResult) :=
  reporting ← read tick isReporting;
  mret (if (reporting : bool) then Some kFailure else None).

(** The process map: [kOk] and the end of the process may be handled from now
    on; [kYield], and its end has been handled by this call; or an error. *)
Inductive MapAnswer := kOk | kYield | kInsertionError.

Definition insertIfNotTerminated : M MapAnswer := fun fuel w =>
  let i := next_input w in
  if (value i =? 0)%Z then Ret (kOk, set_child Registered (stepped w))
  else if (value i =? 1)%Z then '(_, w') ← fire (default 0%Z (ends i)) fuel (stepped w); Ret (kYield, w')
  else Ret (kInsertionError, stepped w).

(** [inl]: a fatal error; [inr]: the attempt's result. *)
Definition handleProcessStarted : M (RequestResult + option RequestResult) :=
  a ← insertIfNotTerminated;
  match a with
  | kOk => r ← handleProcessStillStarting; mret (inr r)
  | kYield => r ← handleProcessAlreadyTerminated; mret (inr r)
  | kInsertionError => _ ← terminateProcess; mret (inl kFailure)
  end.

(** [IProcess::startProcess]: a process id and a fresh shared block, or an error. *)
Definition launch : M bool :=
  v ← tick;
  if (0 <? v)%Z then
    reporting ← read quiet isReporting;
    _ ← write quiet (fun n => set_sync (if (reporting : bool) then Some 0 else None) (set_pid v n));
    _ ← modify (fun w => launched (set_child Unregistered w));
    mret true
  else mret false.

(** An attempt to start: prepared, launched and waited for. *)
Definition prepare : M unit :=
  _ ← write tick (set_pid 0);
  _ ← write tick (set_exit 0);
  _ ← write tick (set_result None);
  _ ← write tick (fun n => set_waiter (TerminationWaiter.reset (termination_waiter_ n)) n);
  _ ← setState tick kStarting;
  mret tt.

(** The body of the loop of [startProcess]: the loop is left with an error or
    without ([inl]), or the attempt failed and is repeated ([inr]). *)
Definition attempt : M (option RequestResult + RequestResult) :=
  idle ← setState tick kIdle;
  if negb idle then mret (inl (Some kFailure))
  else
    _ ← prepare;
    ok ← launch;
    if (ok : bool) then
      res ← handleProcessStarted;
      match res with
      | inl e => _ ← setState tick kFailed; mret (inl (Some e))
      | inr None => mret (inl None)
      | inr (Some e) => mret (inr e)
      end
    else _ ← setState tick kFailed; mret (inl (Some kFailure)).

Section Worker.
Context `{BuildMode}.

(** The loop of [startProcess], with the attempts that are left; the states that
    the assertions look at are read in every build. *)
Fixpoint start_loop (attempts : nat) (error : option RequestResult) : M (option RequestResult) :=
  match attempts with
  | 0 => mret error
  | S attempts' =>
      x ← read tick getState;
      _ ← lift (assert_dbg (negb (bool_decide (x = kStarting))));
      x' ← read tick getState;
      _ ← lift (assert_dbg (negb (bool_decide (x' = kRunning))));
      r ← attempt;
      match r with
      | inl e => mret e
      | inr e =>
          x'' ← read tick getState;
          _ ← lift (assert_dbg (bool_decide (x'' = kTerminated)));
          _ ← write tick (set_sync None);
          start_loop attempts' (Some e)
      end
  end.

Definition startProcess : M RequestResult :=
  retries ← read tick start_retries_;
  error ← start_loop (S retries) None;
  match error with
  | Some e => tryReportError tick e
  | None =>
      running ← setState tick kRunning;
      if (running : bool) then tryReportCompletion tick kRunning
      else
        r ← read tick termination_result_;
        _ ← lift (assert_dbg (bool_decide (is_Some r)));
        if bool_decide (r = Some kIgnore) then tryReportSuccess tick
        else tryReportError tick kFailure
  end.

(** [if (auto time = getTimeForAliveState()) supervision_handle_->...] *)
Definition supervise (c : SupervisionCall) : M unit :=
  called ← access tick (fun n => match supervision_handle_ n with
                                 | Some l => if isSupervised n then (true, set_supervision (Some (l ++ [c])) n) else (false, n)
                                 | None => (false, n)
                                 end);
  modify (if (called : bool) then note (Supervise c) else id).

Definition activate : M RequestResult :=
  _ ← write tick (set_returned false);
  ready ← read tick reached_ready_;
  if (ready : bool) then tryReportSuccess tick
  else
    res ← startProcess;
    _ ← (if bool_decide (res = kSuccess) then supervise ActivateSupervision else mret tt);
    mret res.

Definition deactivate : M RequestResult :=
  _ ← write tick (set_returned false);
  _ ← write tick (set_ready false);
  _ ← supervise DeactivateSupervision;
  _ ← terminateProcess;
  _ ← setState tick kIdle;
  mret kSuccess.

End Worker.
End ProcessInfoNode.
