(* ===== verification/ProcessNodeProofs.v ===== *)
(** * Correctness of the process component

    [activate] and [deactivate] of [ProcessInfoNode] in every environment: at every
    step the process may end, and every call of the operating system may fail.
    The code is specified by postconditions, with one rule per monadic
    operation; the phases of a process ([live], [dead]) are the assertions.  A
    postcondition includes that enough fuel lets the computation return; for
    the loop that sends SIGKILL this needs that a process that is killed goes
    ([mortal]). *)

From Stdlib Require Import ConstructiveEpsilon.
From stdpp Require Import prelude.
From S2P Require Import Prelude Components Graphs ProcessNodes.

Module ProcessInfoNodeProofs.
Import ProcessInfoNode.

(** ** Rules *)

(** With enough fuel the computation returns [a] and [w']. *)
Definition runs {A} (m : M A) (w : world) (a : A) (w' : world) : Prop :=
  exists enough, forall fuel, enough <= fuel -> m fuel w = Ret (a, w').

(** With enough fuel the computation returns, and [Q] holds of its result and the new world. *)
Definition post {A} (m : M A) (w : world) (Q : A -> world -> Prop) : Prop := exists a w', runs m w a w' /\ Q a w'.

Lemma runs_unique {A} (m : M A) w a b w1 w2 : runs m w a w1 -> runs m w b w2 -> a = b /\ w1 = w2.
Proof. intros [f1 H1] [f2 H2]. specialize (H1 (f1 `max` f2) ltac:(lia)). rewrite H2 in H1 by lia. by injection H1. Qed.

Lemma bind_run {A B} (m : M A) (k : A -> M B) w a w1 b w2 : runs m w a w1 -> runs (k a) w1 b w2 -> runs (m ≫= k) w b w2.
Proof.
  intros [f1 H1] [f2 H2]. exists (f1 `max` f2). intros f Hf. unfold mbind, M_bind. rewrite H1 by lia. cbn. apply H2. lia.
Qed.

Lemma ret_run {A} (a : A) w : runs (mret a) w a w.
Proof. by exists 0. Qed.

Lemma post_mono {A} (m : M A) w (P Q : A -> world -> Prop) : post m w P -> (forall a w', P a w' -> Q a w') -> post m w Q.
Proof. intros (a & w' & Hr & Hp) Hi. exists a, w'. auto. Qed.

Lemma post_bind {A B} (m : M A) (k : A -> M B) w (Q : B -> world -> Prop) :
  post m w (fun a w' => post (k a) w' Q) -> post (m ≫= k) w Q.
Proof. intros (a & w1 & H1 & b & w2 & H2 & HQ). exists b, w2. split; [by eapply bind_run|done]. Qed.

Lemma post_ret {A} (a : A) w (Q : A -> world -> Prop) : Q a w -> post (mret a) w Q.
Proof. intros HQ. exists a, w. split; [apply ret_run|done]. Qed.

Lemma post_modify f w (Q : unit -> world -> Prop) : Q tt (f w) -> post (modify f) w Q.
Proof. intros HQ. exists tt, (f w). split; [by exists 0|done]. Qed.

Lemma post_access {B} (tk : M Z) (f : t -> B * t) w (Q : B -> world -> Prop) :
  post tk w (fun _ w' => Q (f (node w')).1 (set_node (f (node w')).2 w')) -> post (access tk f) w Q.
Proof.
  intros (v & w1 & [f0 H1] & HQ). eexists _, _. split; [|exact HQ]. exists f0. intros fuel Hf. unfold access. by rewrite H1.
Qed.

Lemma set_node_id w : set_node (node w) w = w.
Proof. by destruct w. Qed.

Lemma post_read {B} (tk : M Z) (f : t -> B) w (Q : B -> world -> Prop) :
  post tk w (fun _ w' => Q (f (node w')) w') -> post (read tk f) w Q.
Proof. intros Hp. apply post_access. eapply post_mono; [exact Hp|]. cbn beta. intros _ w' HQ. cbn. by rewrite set_node_id. Qed.

Lemma post_write (tk : M Z) (f : t -> t) w (Q : unit -> world -> Prop) :
  post tk w (fun _ w' => Q tt (set_node (f (node w')) w')) -> post (write tk f) w Q.
Proof. intros Hp. apply post_access. exact Hp. Qed.

Lemma post_and {A} (m : M A) w (P Q : A -> world -> Prop) : post m w P -> post m w Q -> post m w (fun a w' => P a w' /\ Q a w').
Proof. intros (a & w1 & H1 & HP) (b & w2 & H2 & HQ). destruct (runs_unique _ _ _ _ _ _ H1 H2) as [<- <-]. by exists a, w1. Qed.

Lemma post_run {A} (m : M A) w Q : post m w Q -> exists a w', runs m w a w' /\ Q a w'.
Proof. done. Qed.

(** Most computations take no fuel. *)
Definition direct {A} (m : M A) : Prop := forall fuel w, m fuel w = m 0 w.

Lemma direct_ret {A} (a : A) : direct (mret a).
Proof. done. Qed.
Lemma direct_modify f : direct (modify f).
Proof. done. Qed.
Lemma direct_bind {A B} (m : M A) (k : A -> M B) : direct m -> (forall a, direct (k a)) -> direct (m ≫= k).
Proof. intros Hm Hk fuel w. unfold mbind, M_bind. rewrite Hm. destruct (m 0 w) as [[a w']|]; cbn; [apply Hk|done]. Qed.
Lemma direct_access {B} (tk : M Z) (f : t -> B * t) : direct tk -> direct (access tk f).
Proof. intros Hm fuel w. unfold access. by rewrite Hm. Qed.

Lemma direct_fire st : direct (fire st).
Proof.
  unfold fire, tryHandleTermination, setState, compare_exchange, unblockSync, tryReportCompletion, tryReportSuccess, tryReportError, test_and_set, read, write.
  repeat first [by intros ?? | apply direct_bind; [|intros ?] | apply direct_access | apply direct_ret | apply direct_modify | case_match].
Qed.

Lemma post_direct {A} (m : M A) w Q : direct m -> post m w Q <-> returns (m 0 w) (fun '(a, w') => Q a w').
Proof.
  intros Hd. split.
  - intros (a & w' & [f Hf] & HQ). specialize (Hf f ltac:(lia)). rewrite Hd in Hf. by rewrite Hf.
  - destruct (m 0 w) as [[a w']|] eqn:E; [|done]. intros HQ. exists a, w'. split; [|done]. exists 0. intros f _. by rewrite Hd.
Qed.

(** ** Phases of the process *)

Definition gone (n : t) : bool := TerminationWaiter.is_terminated_ (termination_waiter_ n).

(** The process is known to the map and its end has not been handled. *)
Definition live (x : ProcessState) (w : world) : Prop :=
  child w = Registered /\ process_state_ (node w) = x /\ gone (node w) = false.

(** Its end has been handled. *)
Definition dead (w : world) : Prop :=
  child w = NoChild /\ process_state_ (node w) = kTerminated /\ gone (node w) = true /\
  termination_result_ (node w) = Some (classify (config_ (node w)) (exit_status_ (node w))).

Definition calm (w : world) : Prop := termination_requested_ (node w) = false.

(** Nothing but signals was sent. *)
Definition is_signal (c : Call) : Prop := match c with Supervise _ => False | Sigterm | Sigkill => True end.
Definition signalled (w w' : world) : Prop := exists l, journal w' = journal w ++ l /\ Forall is_signal l.

#[export] Instance signalled_preorder : PreOrder signalled.
Proof.
  split; [by exists []; rewrite app_nil_r|]. intros w1 w2 w3 (l1 & E1 & F1) (l2 & E2 & F2). exists (l1 ++ l2).
  rewrite E2, E1, app_assoc. split; [done|]. by apply Forall_app.
Qed.

Lemma signalled_none w w' : journal w' = journal w -> signalled w w'.
Proof. intros E. exists []. by rewrite app_nil_r. Qed.

(** What the end of a process does not change; the flags that report readiness may
    change only if the component is ready when its process has ended. *)
Record keeps (w w' : world) : Prop := {
  k_config : config_ (node w') = config_ (node w);
  k_retries : start_retries_ (node w') = start_retries_ (node w);
  k_identifier : identifier_ (node w') = identifier_ (node w);
  k_supervision : supervision_handle_ (node w') = supervision_handle_ (node w);
  k_script : script w' = script w;
  k_launches : launches w' = launches w;
  k_refused : refused w = true -> refused w' = true;
  k_journal : signalled w w';
  k_flags : ready_condition (config_ (node w)) <> ReadyTerminated ->
    reached_ready_ (node w') = reached_ready_ (node w) /\ success_returned_ (node w') = success_returned_ (node w)
}.

#[export] Instance keeps_preorder : PreOrder keeps.
Proof.
  split; [by split|]. intros w1 w2 w3 [A1 A2 A3 A4 A5 A6 A7 A8 A9] [B1 B2 B3 B4 B5 B6 B7 B8 B9].
  split; try congruence; [by eauto|by etrans|]. intros Hr. destruct (A9 Hr), (B9 ltac:(congruence)). split; congruence.
Qed.

(** Only time has passed. *)
Definition same (w w' : world) : Prop :=
  node w' = node w /\ child w' = child w /\ launches w' = launches w /\ refused w' = refused w /\ told w' = told w /\
  script w' = script w /\ journal w' = journal w.

Lemma same_keeps w w' : same w w' -> keeps w w'.
Proof. intros (E1 & E2 & E3 & E4 & E5 & E6 & E7). split; rewrite ?E1, ?E3, ?E4; auto using signalled_none. Qed.

(** What the handler answers. *)
Definition verdict (n : t) (process_status : Z) : TerminationResult :=
  if termination_requested_ n || bool_decide (process_state_ n = kStarting) then kIgnore
  else classify (config_ n) process_status.

(** The end of the process was handled. *)
Definition ended (w w' : world) : Prop :=
  keeps w w' /\ dead w' /\ calm w' /\ told w' = told w ++ [verdict (node w) (exit_status_ (node w'))] /\ journal w' = journal w.

Definition running_state (x : ProcessState) : Prop := x = kStarting \/ x = kRunning \/ x = kTerminating.

(** The handler is evaluated on an object whose flags are known. *)
Local Ltac finish_handler :=
  match goal with |- returns ?x _ => let y := eval vm_compute in x in change x with y end;
  cbn [returns]; unfold ended; split_and!; first [split; first [done|by apply signalled_none] | done | by repeat split].

Lemma fire_spec st w : running_state (process_state_ (node w)) ->
  post (fire st) w (fun _ w' => ended w w' /\ exit_status_ (node w') = st /\ clock w' = clock w).
Proof.
  rewrite post_direct by apply direct_fire.
  destruct w as [[rq pd ex ps rr [nm ap sl al rc ra] sy sr sh re id tr [tm]] ch scr ck la rf tl jr]. cbn [node process_state_]. intros Hx.
  destruct tm, rq; destruct Hx as [->|[->| ->]]; try finish_handler;
    destruct sl, st; try finish_handler; destruct rc, sr; finish_handler.
Qed.

(** ** A step of the worker *)

Lemma direct_tick : direct tick.
Proof.
  intros fuel w. unfold tick. destruct (ends (next_input w)) as [st|]; [|done]. destruct (child w); try done. by rewrite direct_fire.
Qed.

Lemma direct_os_call : direct os_call.
Proof. apply direct_bind; [apply direct_tick|intros v; apply direct_ret]. Qed.

(** One step: its input, and what it does. *)
Lemma tick_step w : (child w = Registered -> running_state (process_state_ (node w))) ->
  post tick w (fun v w' => v = value (next_input w) /\ clock w' = S (clock w) /\
    (same w w' /\ (child w = Registered -> ends (next_input w) = None) \/ child w = Registered /\ ended w w')).
Proof.
  intros Hx. rewrite post_direct by apply direct_tick. unfold tick. destruct (ends (next_input w)) as [st|]; [|cbn; split_and!; try done; by left].
  destruct (child w) eqn:Ec; try (cbn; split_and!; try done; left; split; [|done]; by repeat split).
  pose proof (fire_spec st (stepped w) (Hx eq_refl)) as Hf. rewrite post_direct in Hf by apply direct_fire.
  cbn [mbind outcome_bind]. destruct (fire st 0 (stepped w)) as [[u w']|]; [|done]. cbn in *.
  destruct Hf as ((Hk & Hd & Hc & Ht & Hj) & _ & Hck). split_and!; [done|done|]. right. split; [done|]. by destruct Hk.
Qed.

Lemma tick_any w : (child w = Registered -> running_state (process_state_ (node w))) ->
  post tick w (fun _ w' => same w w' \/ child w = Registered /\ ended w w').
Proof. intros Hx. eapply post_mono; [by apply tick_step|]. cbn beta. intros v w' (_ & _ & [[Hs _]|He]); auto. Qed.

(** In a phase with a process, it is still there or has ended; otherwise nothing happens. *)
Lemma tick_live x w : live x w -> running_state x -> post tick w (fun _ w' => same w w' \/ ended w w').
Proof.
  intros (Hc & Hs & Hg) Hx. eapply post_mono; [apply tick_any; by rewrite Hs|]. intros _ w' [H|[_ H]]; auto.
Qed.

Lemma tick_still w : child w <> Registered -> post tick w (fun _ w' => same w w').
Proof. intros Hc. eapply post_mono; [by apply tick_any|]. by intros _ w' [H|[H _]]. Qed.

Lemma same_live x w w' : same w w' -> live x w -> live x w'.
Proof. intros (E1 & E2 & _) (Hc & Hs & Hg). unfold live. by rewrite E1, E2. Qed.

Lemma same_dead w w' : same w w' -> dead w -> dead w'.
Proof. intros (E1 & E2 & _) Hd. unfold dead. by rewrite E1, E2. Qed.

Lemma same_calm w w' : same w w' -> calm w -> calm w'.
Proof. intros (E1 & _) Hd. unfold calm. by rewrite E1. Qed.

Lemma dead_child w : dead w -> child w <> Registered.
Proof. intros (Hc & _). by rewrite Hc. Qed.

(** The assertion of most steps: a process in phase [x], or one that has ended
    since [w0]; [c] says that nobody has asked for its end. *)
Definition phase (c : bool) (x : ProcessState) (w0 w : world) : Prop :=
  keeps w0 w /\ (live x w \/ dead w) /\ (c = true -> calm w).

Lemma phase_same c x w0 w w' : same w w' -> phase c x w0 w -> phase c x w0 w'.
Proof.
  intros Hs (Hk & Hp & Hc). split_and!; [by etrans; [|apply same_keeps]| |intros E; eapply same_calm; [done|auto]].
  destruct Hp; [left; by eapply same_live|right; by eapply same_dead].
Qed.

Lemma phase_ended c x w0 w w' : ended w w' -> phase c x w0 w -> phase c x w0 w'.
Proof. intros (Hk & Hd & Hc & _) (Hk0 & _). split_and!; [by etrans|by right|done]. Qed.

Lemma phase_weaken c x w0 w : phase c x w0 w -> phase false x w0 w.
Proof. by intros (Hk & Hp & Hc). Qed.

Lemma tick_phase c x w0 w : running_state x -> phase c x w0 w ->
  post tick w (fun _ w' => phase c x w0 w' /\ (same w w' \/ ended w w')).
Proof.
  intros Hx Hp. destruct (proj1 (proj2 Hp)) as [Hl|Hd].
  - eapply post_mono; [by apply (tick_live x)|]. intros _ w' [H|H]; split; auto; [by eapply phase_same|by eapply phase_ended].
  - eapply post_mono; [apply tick_still; by apply dead_child|]. cbn beta. intros _ w' H. split; [by eapply phase_same|by left].
Qed.

(** A change of the object that the phases do not see. *)
Definition neutral (f : t -> t) : Prop := forall n,
  process_state_ (f n) = process_state_ n /\ config_ (f n) = config_ n /\ start_retries_ (f n) = start_retries_ n /\
  identifier_ (f n) = identifier_ n /\ supervision_handle_ (f n) = supervision_handle_ n /\ exit_status_ (f n) = exit_status_ n /\
  termination_result_ (f n) = termination_result_ n /\ termination_waiter_ (f n) = termination_waiter_ n /\
  reached_ready_ (f n) = reached_ready_ n /\ success_returned_ (f n) = success_returned_ n.

(** A world that differs in the object only, and there in nothing that [keeps] speaks of. *)
Lemma keeps_node w n' : config_ n' = config_ (node w) -> start_retries_ n' = start_retries_ (node w) ->
  identifier_ n' = identifier_ (node w) -> supervision_handle_ n' = supervision_handle_ (node w) ->
  reached_ready_ n' = reached_ready_ (node w) -> success_returned_ n' = success_returned_ (node w) -> keeps w (set_node n' w).
Proof. intros. split; try done. by apply signalled_none. Qed.

Lemma neutral_phase f c c' x w0 w : neutral f -> (c' = true -> calm (set_node (f (node w)) w)) ->
  phase c x w0 w -> phase c' x w0 (set_node (f (node w)) w).
Proof.
  intros Hf Hc' (Hk & Hp & Hc). destruct (Hf (node w)) as (E1 & E2 & E3 & E4 & E5 & E6 & E7 & E8 & E9 & E10).
  assert (Hk' : keeps w (set_node (f (node w)) w)) by by apply keeps_node.
  split_and!; [by etrans| |done]. unfold live, dead, gone in *. simpl. rewrite E1, E2, E6, E7, E8. done.
Qed.

Lemma read_phase {B} (f : t -> B) c x w0 w : running_state x -> phase c x w0 w ->
  post (read tick f) w (fun b w' => phase c x w0 w' /\ b = f (node w')).
Proof. intros Hx Hp. apply post_read. eapply post_mono; [by apply (tick_phase c x w0)|]. by intros _ w' [Hp' _]. Qed.

Lemma os_call_phase c x w0 w : running_state x -> phase c x w0 w -> post os_call w (fun _ w' => phase c x w0 w').
Proof.
  intros Hx Hp. apply post_bind. eapply post_mono; [by apply (tick_phase c x w0)|]. cbn beta. intros v w' [Hp' _]. by apply post_ret.
Qed.

(** ** Stopping the process *)

(** The journal and the refusal of a signal. *)
Lemma note_keeps c w : is_signal c -> keeps w (note c w).
Proof. intros Hc. split; try done. exists [c]. split; [done|by constructor]. Qed.

Lemma refused_keeps w : keeps w (set_refused w).
Proof. split; try done. by apply signalled_none. Qed.

Lemma note_phase s c x w0 w : is_signal s -> phase c x w0 w -> phase c x w0 (note s w).
Proof. intros Hs (Hk & Hp & Hc). split_and!; [|done|done]. etrans; [done|by apply note_keeps]. Qed.

Lemma refuse_phase c x w0 w : phase c x w0 w -> phase c x w0 (set_refused w).
Proof. intros (Hk & Hp & Hc). split_and!; [|done|done]. etrans; [done|by apply refused_keeps]. Qed.

Lemma wait_phase c x w0 w : running_state x -> phase c x w0 w ->
  post waitForTermination w (fun b w' => phase c x w0 w' /\ (b = true <-> dead w')).
Proof.
  intros Hx Hp. eapply post_mono; [by apply (read_phase _ c x w0)|]. intros b w' [Hp' ->]. split; [done|].
  destruct (proj1 (proj2 Hp')) as [(Hc & Hs & Hg)|Hd]; [|destruct Hd as (Hc & Hs & Hg & Ht); split; [|done]; by repeat split].
  unfold gone in Hg. unfold TerminationWaiter.wait_with_timeout. rewrite Hg. split; [done|]. intros (Hc' & _). congruence.
Qed.

(** The process has ended, or a signal could not be sent. *)
Definition stopped (c : bool) (w0 w : world) : Prop := phase c kTerminating w0 w /\ (dead w \/ refused w = true).

Lemma terminating_runs : running_state kTerminating.
Proof. right; by right. Qed.
Lemma starting_runs : running_state kStarting.
Proof. by left. Qed.
Lemma running_runs : running_state kRunning.
Proof. right; by left. Qed.

(** Killing has an effect: from any step on, the end of a process that the map
    knows is handled some time; and for a child in another state, a signal that
    is sent again at every other step is refused some time. *)
Definition kills (s : nat -> Child -> input) (c : Child) : Prop := forall n, exists k,
  if decide (c = Registered) then is_Some (ends (s (n + k) c)) else value (s (n + 2 * k) c) <> 0%Z.

(** A process that is killed goes: one that the map knows ends, and one that the map
    could not take is gone some time, so that the signal is refused. *)
Definition mortal (s : nat -> Child -> input) : Prop := kills s Registered /\ kills s Unregistered.

(** The process will be gone after at most [k] rounds. *)
Definition goes_within (k : nat) (w : world) : Prop := exists j, j <= k /\
  if decide (child w = Registered) then is_Some (ends (script w (clock w + j) (child w)))
  else value (script w (clock w + 2 * j) (child w)) <> 0%Z.

Lemma kills_goes w : kills (script w) (child w) -> exists k, goes_within k w.
Proof. intros Hm. destruct (Hm (clock w)) as [k Hk]. exists k, k. by split. Qed.

(** The end of a process that is waited for, for any assertion that the
    steps keep: a process in a phase, or one that the map could not take. *)
Section Stopping.
Context (I : world -> Prop)
  (I_runs : forall w, I w -> child w = Registered -> running_state (process_state_ (node w)))
  (I_same : forall w w', same w w' -> I w -> I w')
  (I_ended : forall w w', ended w w' -> child w = Registered -> I w -> I w')
  (I_refused : forall w, I w -> I (set_refused w))
  (I_note : forall s w, is_signal s -> I w -> I (note s w))
  (I_request : forall b w, I w -> I (set_node (set_requested b (node w)) w)).

Lemma tick_kept w : I w -> post tick w (fun v w' => I w' /\ v = value (next_input w) /\ clock w' = S (clock w) /\
  script w' = script w /\ (refused w = true -> refused w' = true) /\
  (child w' = child w /\ gone (node w') = gone (node w) /\ (child w = Registered -> ends (next_input w) = None) \/ gone (node w') = true)).
Proof using I_runs I_same I_ended.
  intros HI. eapply post_mono; [apply tick_step, I_runs, HI|]. cbn beta.
  intros v w' (Hv & Hck & [[Hs Hne]|[Hc He]]); split_and!; eauto; try apply (proj1 He).
  - apply Hs.
  - destruct Hs as (_ & _ & _ & -> & _). done.
  - left. destruct Hs as (-> & -> & _). done.
  - right. apply (proj1 (proj2 He)).
Qed.

Lemma send_kept s w : is_signal s -> I w ->
  post (send s) w (fun ok w' => I w' /\ (ok = true -> value (next_input w) = 0%Z) /\ (ok = false -> refused w' = true) /\
    clock w' = S (clock w) /\ script w' = script w /\
    (child w' = child w /\ gone (node w') = gone (node w) /\ (child w = Registered -> ends (next_input w) = None) \/ gone (node w') = true)).
Proof using I_runs I_same I_ended I_refused I_note.
  intros Hs HI. unfold send, os_call. apply post_bind, post_bind. eapply post_mono; [by apply tick_kept|]. cbn beta.
  intros v w1 (HI1 & -> & Hck & Hsc & _ & Hg). apply post_ret, post_bind, post_modify, post_bind, post_modify, post_ret.
  destruct (value (next_input w) =? 0)%Z eqn:Ev; split_and!; eauto; try done. intros _. by apply Z.eqb_eq.
Qed.

Lemma wait_kept w : I w -> post waitForTermination w (fun b w' => I w' /\ b = gone (node w') /\ clock w' = S (clock w) /\ script w' = script w /\
  (child w' = child w /\ gone (node w') = gone (node w) /\ (child w = Registered -> ends (next_input w) = None) \/ gone (node w') = true)).
Proof using I_runs I_same I_ended.
  intros HI. apply post_read. eapply post_mono; [by apply tick_kept|]. cbn beta. intros _ w1 (HI1 & _ & Hck & Hsc & _ & Hg). done.
Qed.

(** A round after which the process is still there has used up one of the rounds it may stay. *)
Lemma round_counts k w w1 w2 : goes_within k w -> value (next_input w) = 0%Z ->
  clock w1 = S (clock w) -> script w1 = script w -> clock w2 = S (clock w1) -> script w2 = script w1 -> gone (node w2) = false ->
  (child w1 = child w /\ gone (node w1) = gone (node w) /\ (child w = Registered -> ends (next_input w) = None) \/ gone (node w1) = true) ->
  (child w2 = child w1 /\ gone (node w2) = gone (node w1) /\ (child w1 = Registered -> ends (next_input w1) = None) \/ gone (node w2) = true) ->
  exists k', k = S k' /\ goes_within k' w2.
Proof.
  intros (j & Hj & Hw) Hv C1 S1 C2 S2 G2 H1 H2. destruct H2 as [(E2 & Eg2 & N2)|H2]; [|congruence].
  destruct H1 as [(E1 & Eg1 & N1)|H1]; [|congruence]. unfold goes_within, next_input in *. rewrite S2, S1, C2, C1, E2, E1 in *.
  case_decide as Hc.
  - specialize (N1 Hc). specialize (N2 Hc).
    destruct j as [|[|j]]; [rewrite Nat.add_0_r, N1 in Hw; by destruct Hw|replace (clock w + 1) with (S (clock w)) in Hw by lia; rewrite N2 in Hw; by destruct Hw|].
    destruct k as [|k]; [lia|]. exists k. split; [done|]. exists j. split; [lia|].
    by replace (S (S (clock w)) + j) with (clock w + S (S j)) by lia.
  - destruct j as [|j]; [by rewrite Nat.add_0_r in Hw|]. destruct k as [|k]; [lia|]. exists k. split; [done|]. exists j. split; [lia|].
    by replace (S (S (clock w)) + 2 * j) with (clock w + 2 * S j) by lia.
Qed.

(** The loop ends after that many rounds, and whatever more it was given changes nothing. *)
Lemma force_loop_kept k : forall w, I w -> goes_within k w ->
  exists w', (forall rounds, k < rounds -> runs (force_loop rounds) w tt w') /\ I w' /\ (gone (node w') = true \/ refused w' = true).
Proof using I_runs I_same I_ended I_refused I_note.
  induction k as [k IH] using lt_wf_ind. intros w HI Hgo.
  destruct (post_run _ _ _ (send_kept Sigkill w Logic.I HI)) as (ok & w1 & R1 & HI1 & Hok & Hno & C1 & S1 & G1). destruct ok.
  2:{ exists w1. split_and!; [|done|auto]. intros [|rounds] Hr; [lia|]. cbn [force_loop]. eapply bind_run; [exact R1|]. apply ret_run. }
  destruct (post_run _ _ _ (wait_kept w1 HI1)) as (b & w2 & R2 & HI2 & Hb & C2 & S2 & G2). destruct b.
  { exists w2. split_and!; [|done|auto]. intros [|rounds] Hr; [lia|]. cbn [force_loop]. eapply bind_run; [exact R1|]. cbn iota.
    eapply bind_run; [exact R2|]. apply ret_run. }
  destruct (round_counts k w w1 w2) as (k' & -> & Hgo2); eauto.
  destruct (IH k' ltac:(lia) w2 HI2 Hgo2) as (w' & Hrun & HI' & Hg). exists w'. split_and!; [|done|done].
  intros [|rounds] Hr; [lia|]. cbn [force_loop]. eapply bind_run; [exact R1|]. cbn iota. eapply bind_run; [exact R2|]. apply Hrun. lia.
Qed.

Lemma direct_force_loop rounds : direct (force_loop rounds).
Proof.
  induction rounds as [|rounds IH]; [by intros fuel w|]. cbn [force_loop]. apply direct_bind.
  - apply direct_bind; [apply direct_os_call|]. intros ok. apply direct_bind; [apply direct_modify|]. intros _.
    apply direct_bind; [apply direct_modify|]. intros _. apply direct_ret.
  - intros []; [|apply direct_ret]. apply direct_bind; [apply direct_access, direct_tick|]. intros []; [apply direct_ret|done].
Qed.

Lemma handleForcedTermination_kept w : I w -> kills (script w) (child w) ->
  post handleForcedTermination w (fun _ w' => I w' /\ (gone (node w') = true \/ refused w' = true)).
Proof using I_runs I_same I_ended I_refused I_note.
  intros HI Hm. destruct (kills_goes w Hm) as [k Hk]. destruct (force_loop_kept k w HI Hk) as (w' & Hrun & HI' & Hg).
  exists tt, w'. split; [|done]. exists (S k). intros fuel Hf. unfold handleForcedTermination.
  destruct (Hrun fuel ltac:(lia)) as [f0 Hf0]. rewrite direct_force_loop, <- (direct_force_loop fuel f0). by apply Hf0.
Qed.

Lemma handleTerminationProcess_kept w : I w -> kills (script w) (child w) ->
  post handleTerminationProcess w (fun _ w' => I w' /\ calm w' /\ (gone (node w') = true \/ refused w' = true)).
Proof using I_runs I_same I_ended I_refused I_note I_request.
  intros HI Hm. unfold handleTerminationProcess. apply post_bind, post_write. eapply post_mono; [by apply tick_kept|]. cbn beta.
  intros _ w1 (HI1 & _ & _ & S1 & _ & G1). apply post_bind. eapply post_mono; [by apply (send_kept Sigterm), (I_request true)|]. cbn beta.
  intros sent w2 (HI2 & _ & Hr & _ & S2 & G2). apply post_bind. cbn in S2. change (child (set_node _ w1)) with (child w1) in G2.
  change (gone (node (set_node _ w1))) with (gone (node w1)) in G2.
  assert (Hw : post (if sent then waitForTermination else mret true) w2 (fun b w3 => I w3 /\ script w3 = script w2 /\
    if (b : bool) then gone (node w3) = true \/ refused w3 = true else child w3 = child w)).
  { destruct sent; [|apply post_ret; by split_and!; auto]. eapply post_mono; [by apply wait_kept|]. cbn beta. intros b w3 (H3 & -> & _ & S3 & G3).
    split_and!; [done|done|]. destruct (gone (node w3)) eqn:Eg; [by left|].
    destruct G3 as [(E3 & Eg3 & _)|?]; [|done]. destruct G2 as [(E2 & Eg2 & _)|?]; [|congruence]. destruct G1 as [(E1 & _)|?]; congruence. }
  eapply post_mono; [exact Hw|]. cbn beta. intros b w3 (H3 & S3 & Hb). apply post_bind.
  assert (Hf : post (if b then mret tt else handleForcedTermination) w3 (fun _ w4 => I w4 /\ (gone (node w4) = true \/ refused w4 = true))).
  { destruct b; [by apply post_ret; split; auto|]. apply handleForcedTermination_kept; [done|]. by rewrite Hb, S3, S2, S1. }
  eapply post_mono; [exact Hf|]. cbn beta. intros _ w4 [H4 Hg4]. apply post_write.
  eapply post_mono; [apply (tick_kept w4 H4)|]. cbn beta.
  intros _ w5 (H5 & _ & _ & _ & Hr5 & He). split_and!; [by apply I_request|done|].
  destruct Hg4 as [Hg|Hg]; [left; change (gone (node w5) = true)|right; by apply Hr5]. destruct He as [(_ & E & _)|E]; [by rewrite E|done].
Qed.
End Stopping.

(** ** Changes of the process state *)

(** The changes [setState] makes when nobody interferes. *)
Definition allowed (x y : ProcessState) : bool :=
  (rank x <? rank y)%Z || bool_decide (y = kIdle) && (bool_decide (x = kIdle) || bool_decide (x = kTerminated) || bool_decide (x = kFailed)).

Lemma access_still {B} (f : t -> B * t) w (Q : B -> world -> Prop) : child w <> Registered ->
  (forall w', same w w' -> Q (f (node w)).1 (set_node (f (node w)).2 w')) -> post (access tick f) w Q.
Proof.
  intros Hc HQ. apply post_access. eapply post_mono; [by apply tick_still|]. cbn beta. intros _ w' Hs.
  rewrite (proj1 Hs). by apply HQ.
Qed.

Lemma same_set_node f w w' : same w w' -> same (set_node (f (node w)) w) (set_node (f (node w')) w').
Proof. intros (E1 & E2 & E3 & E4 & E5 & E6 & E7). unfold same. simpl. by rewrite E1. Qed.

Lemma same_trans w1 w2 w3 : same w1 w2 -> same w2 w3 -> same w1 w3.
Proof. unfold same. intros (? & ? & ? & ? & ? & ? & ?) (? & ? & ? & ? & ? & ? & ?). split_and!; congruence. Qed.

Lemma read_still {B} (f : t -> B) w : child w <> Registered -> post (read tick f) w (fun b w' => same w w' /\ b = f (node w)).
Proof. intros Hc. apply access_still; [done|]. intros w' Hs. simpl. split; [|done]. destruct Hs as (E1 & E2 & E3 & E4 & E5 & E6 & E7). by repeat split. Qed.

Lemma write_still (f : t -> t) w : child w <> Registered -> post (write tick f) w (fun _ w' => same (set_node (f (node w)) w) w').
Proof. intros Hc. apply access_still; [done|]. intros w' Hs. rewrite <- (proj1 Hs) at 2. by apply (same_set_node f). Qed.

Lemma setState_still y w : child w <> Registered ->
  post (setState tick y) w (fun b w' => b = allowed (process_state_ (node w)) y /\
    same (set_node (if b then set_process_state y (node w) else node w) w) w').
Proof.
  intros Hc. unfold setState, allowed. apply post_bind. eapply post_mono; [by apply read_still|]. cbn beta. intros x w1 [Hs ->].
  assert (Hc1 : child w1 <> Registered) by (by rewrite (proj1 (proj2 Hs))).
  assert (Hsame : same (set_node (node w) w) w1) by (destruct Hs as (E1 & E2 & E3 & E4 & E5 & E6 & E7); by repeat split).
  unfold getState. destruct (rank (process_state_ (node w)) <? rank y)%Z eqn:Er; cbn [orb].
  - apply access_still; [done|]. intros w2 Hs2. rewrite (proj1 Hs). rewrite bool_decide_true by done. cbn [fst snd]. split; [done|].
    pose proof (same_set_node (set_process_state y) w w2 (same_trans _ _ _ Hs Hs2)) as X. by rewrite (proj1 (same_trans _ _ _ Hs Hs2)) in X.
  - destruct (decide (y = kIdle)) as [->|Hy]; [|rewrite !(bool_decide_false (y = kIdle)), andb_false_r by done; by apply post_ret].
    rewrite (bool_decide_true (kIdle = kIdle)) by done. rewrite andb_true_r. cbn [andb].
    destruct (decide (process_state_ (node w) = kIdle)) as [Ei|Ei].
    + rewrite !bool_decide_true by done. cbn [orb]. apply access_still; [done|]. intros w2 Hs2. rewrite (proj1 Hs).
      rewrite bool_decide_true by done. cbn [fst snd]. split; [done|].
      pose proof (same_set_node (set_process_state kIdle) w w2 (same_trans _ _ _ Hs Hs2)) as X. by rewrite (proj1 (same_trans _ _ _ Hs Hs2)) in X.
    + rewrite (bool_decide_false (kIdle = _)), (bool_decide_false (_ = kIdle)) by congruence. cbn [orb].
      destruct (bool_decide _ || bool_decide _); [|by apply post_ret; split]. apply post_bind. eapply post_mono; [by apply write_still|]. cbn beta.
      intros _ w2 Hs2. apply post_ret. split; [done|]. rewrite (proj1 Hs) in Hs2. eapply same_trans; [|exact Hs2]. destruct Hs as (E1 & E2 & E3 & E4 & E5 & E6 & E7). by repeat split.
Qed.

(** Raising the state of a process that runs succeeds, unless it has ended. *)
Lemma setState_up c x y w0 w : running_state x -> running_state y -> (rank x < rank y)%Z -> phase c x w0 w ->
  post (setState tick y) w (fun b w' => if b then phase c y w0 w' /\ live y w' else phase c x w0 w' /\ dead w').
Proof.
  intros Hx Hy Hr Hp. unfold setState. apply post_bind. eapply post_mono; [by apply (read_phase getState c x w0)|]. cbn beta.
  intros o w1 [Hp1 ->]. unfold getState. destruct (proj1 (proj2 Hp1)) as [Hl|Hd].
  - rewrite (proj1 (proj2 Hl)). rewrite (proj2 (Z.ltb_lt _ _) Hr). cbn [orb]. unfold compare_exchange. apply post_access.
    eapply post_mono; [by apply (tick_phase c x w0)|]. cbn beta. intros _ w2 [Hp2 [Hs|He]].
    + rewrite (proj1 Hs), (proj1 (proj2 Hl)), bool_decide_true by done. cbn [fst snd].
      assert (Hl2 : live y (set_node (set_process_state y (node w1)) w2)).
      { rewrite <- (proj1 Hs). pose proof (same_live x w1 w2 Hs Hl) as (Hc2 & _ & Hg2). by repeat split. }
      split; [|done]. destruct Hp2 as (Hk2 & _ & Hc2). split_and!; [|by left|].
      * etrans; [exact Hk2|]. rewrite <- (proj1 Hs). by apply keeps_node.
      * rewrite <- (proj1 Hs). exact Hc2.
    + destruct He as (_ & Hd & _). rewrite (proj1 (proj2 Hd)), bool_decide_false by (by destruct Hx as [->|[->| ->]]). cbn [fst snd].
      by rewrite set_node_id.
  - rewrite (proj1 (proj2 Hd)). assert (Hyi : y <> kIdle) by (by destruct Hy as [->|[->| ->]]).
    rewrite (bool_decide_false (y = kIdle)) by done. rewrite andb_false_r, orb_false_r. cbn [andb].
    rewrite (proj2 (Z.ltb_ge _ _)) by (by destruct Hy as [->|[->| ->]]). by apply post_ret.
Qed.

Lemma phase_dead c x y w0 w : phase c x w0 w -> dead w -> phase c y w0 w.
Proof. intros (Hk & _ & Hc) Hd. split_and!; [done|by right|done]. Qed.

Lemma phase_runs c x w0 w : running_state x -> phase c x w0 w -> child w = Registered -> running_state (process_state_ (node w)).
Proof. intros Hx (_ & [(_ & -> & _)|Hd] & _) Hc; [done|]. by destruct (dead_child w Hd). Qed.

Lemma gone_dead c x w0 w : phase c x w0 w -> gone (node w) = true -> dead w.
Proof. intros (_ & [(_ & _ & Hg)|Hd] & _) Hg'; congruence. Qed.

Lemma requested_neutral b : neutral (set_requested b).
Proof. by intros []. Qed.

(** A process that is starting or running is stopped, or a signal was refused. *)
Lemma terminateProcess_phase x w0 w : mortal (script w0) -> x = kStarting \/ x = kRunning -> phase true x w0 w ->
  post terminateProcess w (fun _ w' => stopped true w0 w').
Proof.
  intros Hm Hx Hp. assert (Hr : running_state x /\ (rank x < rank kTerminating)%Z) by (by destruct Hx as [->| ->]; split; [left|..|right; left|]).
  unfold terminateProcess. apply post_bind. eapply post_mono; [apply (setState_up true x kTerminating w0); try apply Hr; [apply terminating_runs|done]|].
  cbn beta. intros [] w1 [Hp1 Hs]; [|apply post_ret; split; [by eapply phase_dead|by left]].
  eapply post_mono; [apply (handleTerminationProcess_kept (phase false kTerminating w0))|].
  - intros w2 H2. eapply phase_runs; [apply terminating_runs|done].
  - intros w2 w3. apply phase_same.
  - intros w2 w3 He _. by apply phase_ended.
  - intros w2. apply refuse_phase.
  - intros s w2. apply note_phase.
  - intros b w2 H2. by eapply neutral_phase; [apply requested_neutral| |].
  - by eapply phase_weaken.
  - rewrite (k_script _ _ (proj1 Hp1)), (proj1 Hs). apply Hm.
  - cbn beta. intros _ w2 (H2 & Hc & Hg). split.
    + destruct H2 as (Hk & Hl & _). by split_and!.
    + destruct Hg as [Hg|]; [left; by eapply gone_dead|by right].
Qed.

(** A process that the map could not take. *)
Definition lost (x : ProcessState) (w0 w : world) : Prop := keeps w0 w /\ child w <> Registered /\ process_state_ (node w) = x.

Lemma lost_same x w0 w w' : same w w' -> lost x w0 w -> lost x w0 w'.
Proof.
  intros Hs (Hk & Hc & Hx). split; [etrans; [done|by apply same_keeps]|]. destruct Hs as (E1 & E2 & _). by rewrite E1, E2.
Qed.

Lemma lost_set x y w0 w : lost x w0 w -> lost y w0 (set_node (set_process_state y (node w)) w).
Proof. intros (Hk & Hc & Hx). split; [etrans; [done|by apply keeps_node]|done]. Qed.

Lemma terminateProcess_lost x w0 w : ((rank x < rank kTerminating)%Z -> kills (script w0) (child w)) -> lost x w0 w -> calm w ->
  post terminateProcess w (fun _ w' => lost (if (rank x <? rank kTerminating)%Z then kTerminating else x) w0 w' /\ calm w').
Proof.
  intros Hm Hl Hcalm. unfold terminateProcess. apply post_bind. eapply post_mono; [apply setState_still, Hl|]. cbn beta. intros b w1 [Hb Hs].
  rewrite (proj2 (proj2 Hl)) in Hb. unfold allowed in Hb. rewrite (bool_decide_false (kTerminating = kIdle)), orb_false_r in Hb by done.
  subst b. destruct (rank x <? rank kTerminating)%Z eqn:Er.
  - apply (lost_set x kTerminating) in Hl. apply (lost_same _ _ _ _ Hs) in Hl.
    eapply post_mono; [apply (handleTerminationProcess_kept (lost kTerminating w0))|]; [| | | | | |done| |].
    + by intros w2 (_ & Hc & _).
    + intros w2 w3. apply lost_same.
    + by intros w2 w3 _ Hc (_ & Hc' & _).
    + intros w2 (Hk & Hc & Hx). split; [etrans; [done|by apply refused_keeps]|done].
    + intros s w2 Hs2 (Hk & Hc & Hx). split; [etrans; [done|by apply note_keeps]|done].
    + intros b w2 (Hk & Hc & Hx). split; [etrans; [done|by apply keeps_node]|done].
    + rewrite (k_script _ _ (proj1 Hl)), (proj1 (proj2 Hs)). by apply Hm, Z.ltb_lt.
    + by intros _ w2 (H2 & Hc & _).
  - rewrite set_node_id in Hs. apply post_ret. split; [by eapply lost_same|]. by apply (same_calm _ _ Hs).
Qed.


(** ** Waiting until the process is ready *)

Lemma startup_condition_met_spec w0 w : phase true kStarting w0 w ->
  post startup_condition_met w (fun b w' => phase true kStarting w0 w' /\
    (b = true -> ready_condition (config_ (node w0)) = ReadyTerminated -> dead w' /\ exit_status_ (node w') = 0%Z)).
Proof.
  intros Hp. assert (Hw : forall wx, phase true kStarting w0 wx -> (ready_condition (config_ (node w0)) = ReadyTerminated -> dead wx) ->
    post (st ← read tick exit_status_; mret (st =? 0)%Z) wx (fun b w' => phase true kStarting w0 w' /\
    (b = true -> ready_condition (config_ (node w0)) = ReadyTerminated -> dead w' /\ exit_status_ (node w') = 0%Z))).
  { intros wx Hx Hd. apply post_bind, post_read. eapply post_mono; [apply (tick_phase _ _ _ _ starting_runs Hx)|]. cbn beta.
    intros _ w1 [H1 Hse]. apply post_ret. split; [done|]. intros ?%Z.eqb_eq Hr. split; [|done].
    destruct Hse as [Hs|(_ & Hd' & _)]; [eapply same_dead; [done|auto]|done]. }
  unfold startup_condition_met. apply post_bind. eapply post_mono; [apply (read_phase _ _ _ _ _ starting_runs Hp)|]. cbn beta.
  intros cfg w1 [H1 ->]. apply post_bind. eapply post_mono; [apply (read_phase _ _ _ _ _ starting_runs H1)|]. cbn beta.
  intros rep w2 [H2 _]. clear Hp.
  assert (Ecfg : config_ (node w1) = config_ (node w0)) by apply H1. rewrite Ecfg.
  assert (Hcall : forall wx (b : bool), phase true kStarting w0 wx -> post (if b then os_call else mret true) wx (fun _ w' => phase true kStarting w0 w')).
  { intros wx [] Hx; [|by apply post_ret]. by apply os_call_phase; [apply starting_runs|]. }
  destruct (ready_condition (config_ (node w0))) eqn:Er.
  - destruct (negb rep && bool_decide (ReadyRunning = ReadyRunning)); [by apply Hw|]. apply post_bind.
    eapply post_mono; [by apply Hcall|]. cbn beta. intros [] w3 H3; [|by apply post_ret; split]. by apply Hw.
  - rewrite andb_false_r. apply post_bind. eapply post_mono; [by apply Hcall|]. cbn beta. intros [] w3 H3; [|by apply post_ret; split].
    apply post_bind. eapply post_mono; [apply (wait_phase _ _ _ _ starting_runs H3)|]. cbn beta. intros [] w4 [H4 Hd]; [|by apply post_ret; split].
    apply Hw; [done|]. intros _. by apply Hd.
  - apply post_bind. eapply post_mono; [by apply Hcall|]. cbn beta. intros _ w3 H3. apply post_bind.
    eapply post_mono; [by apply os_call_phase; [apply starting_runs|]|]. cbn beta. intros [] w4 H4; [|by apply post_ret; split]. by apply Hw.
Qed.

(** ** One attempt to start *)

(** The process runs and is ready, or has ended. *)
Definition is_up (w0 w : world) : Prop :=
  phase true kStarting w0 w /\ (ready_condition (config_ (node w0)) = ReadyTerminated -> dead w).

Lemma handleProcessStillStarting_spec w0 w : mortal (script w0) -> phase true kStarting w0 w ->
  post handleProcessStillStarting w (fun r w' => match r with None => is_up w0 w' | Some e => e <> kSuccess /\ stopped true w0 w' end).
Proof.
  intros Hm0 Hp. unfold handleProcessStillStarting. apply post_bind. eapply post_mono; [by apply startup_condition_met_spec|]. cbn beta.
  intros [] w1 [H1 Hm]; [apply post_ret; split; [done|]; intros Hr; by apply Hm|]. apply post_bind.
  eapply post_mono; [apply (read_phase _ _ _ _ _ starting_runs H1)|]. cbn beta. intros x w2 [H2 ->]. unfold getState.
  case_bool_decide as Ex.
  - assert (Hd : dead w2) by (destruct (proj1 (proj2 H2)) as [(_ & Hs & _)|]; congruence).
    apply post_ret. split; [done|]. split; [by eapply phase_dead|by left].
  - apply post_bind. eapply post_mono; [apply (terminateProcess_phase kStarting w0); [done|by left|done]|]. cbn beta. intros _ w3 H3. by apply post_ret.
Qed.

Lemma direct_insert : direct insertIfNotTerminated.
Proof.
  intros fuel w. unfold insertIfNotTerminated. cbv zeta. case_match; [done|]. case_match; [|done]. by rewrite direct_fire.
Qed.

Lemma handleProcessStarted_spec w0 w : mortal (script w0) -> child w = Unregistered -> lost kStarting w0 w -> calm w -> gone (node w) = false ->
  post handleProcessStarted w (fun r w' => match r with
    | inl e => e = kFailure /\ lost kTerminating w0 w' /\ calm w'
    | inr None => is_up w0 w'
    | inr (Some e) => e <> kSuccess /\ stopped true w0 w'
    end).
Proof.
  intros Hm Hch Hl Hc Hg. unfold handleProcessStarted. apply post_bind.
  assert (Hs : same w (stepped w)) by (by repeat split). pose proof (lost_same _ _ _ _ Hs Hl) as Hl1.
  rewrite post_direct by apply direct_insert. unfold insertIfNotTerminated. cbv zeta.
  destruct (value (next_input w) =? 0)%Z; [|destruct (value (next_input w) =? 1)%Z].
  - cbn [returns]. apply post_bind. eapply post_mono; [apply (handleProcessStillStarting_spec w0); [done|]|].
    + split_and!; [|left|done].
      * etrans; [apply Hl1|]. split; try done. by apply signalled_none.
      * by repeat split; [apply Hl1|].
    + cbn beta. intros [e|] w1 H1; by apply post_ret.
  - pose proof (fire_spec (default 0%Z (ends (next_input w))) (stepped w)) as Hf. rewrite (proj2 (proj2 Hl1)) in Hf.
    specialize (Hf starting_runs). rewrite post_direct in Hf by apply direct_fire. cbn [mbind outcome_bind].
    destruct (fire _ 0 (stepped w)) as [[u w']|]; [|done]. cbn in Hf. destruct Hf as [(Hk & Hd & Hc' & _) _]. cbn [returns].
    assert (Hp : phase true kStarting w0 w') by (split_and!; [etrans; [apply Hl1|done]|by right|done]).
    apply post_bind. unfold handleProcessAlreadyTerminated. apply post_bind.
    eapply post_mono; [apply (post_and _ _ _ _ (read_phase _ _ _ _ _ starting_runs Hp) (read_still isReporting w' (dead_child w' Hd)))|]. cbn beta.
    intros rep w1 [[H1 _] [Hs1 _]]. pose proof (same_dead _ _ Hs1 Hd) as Hd1. apply post_ret. destruct rep; apply post_ret.
    + split; [done|]. split; [by eapply phase_dead|by left].
    + by split.
  - cbn [returns]. apply post_bind. eapply post_mono; [apply (terminateProcess_lost kStarting w0); [intros _; simpl; rewrite Hch; apply Hm|done|done]|]. cbn beta.
    intros _ w' [H1 H2]. by apply post_ret.
Qed.

(** Between two attempts, and between two jobs of a component that does not
    run: nothing is left of the process, or a signal was refused. *)
Definition resting (w : world) : Prop :=
  calm w /\ (live kTerminating w /\ refused w = true \/
             child w <> Registered /\ process_state_ (node w) <> kStarting /\ process_state_ (node w) <> kRunning).

Lemma resting_same w w' : same w w' -> resting w -> resting w'.
Proof.
  intros Hs [Hc Hr]. split; [by eapply same_calm|]. destruct Hr as [[Hl Hr]|Hr].
  - left. split; [by eapply same_live|]. by destruct Hs as (_ & _ & _ & -> & _).
  - right. destruct Hs as (E1 & E2 & _). by rewrite E1, E2.
Qed.

Lemma dead_resting w : dead w -> calm w -> resting w.
Proof. intros Hd Hc. split; [done|right]. split; [by apply dead_child|]. destruct Hd as (_ & -> & _). done. Qed.

Lemma lost_resting x w0 w : lost x w0 w -> calm w -> x <> kStarting -> x <> kRunning -> resting w.
Proof. intros (_ & Hc & Hx) Hcalm H1 H2. split; [done|right]. by rewrite Hx. Qed.

Lemma stopped_resting w0 w : stopped true w0 w -> resting w.
Proof.
  intros [(Hk & Hp & Hc) Hr]. specialize (Hc eq_refl). destruct Hr as [Hd|Hr]; [by apply dead_resting|].
  destruct Hp as [Hl|Hd]; [|by apply dead_resting]. split; [done|by left].
Qed.

Lemma tick_resting w0 w : keeps w0 w -> resting w -> post tick w (fun _ w' => keeps w0 w' /\ resting w').
Proof.
  intros Hk Hr. eapply post_mono; [apply tick_any|].
  - destruct Hr as [_ [[(_ & -> & _) _]|[Hc _]]]; [intros _; apply terminating_runs|done].
  - intros _ w' [Hs|[_ (Hk' & Hd & Hc & _)]].
    + split; [etrans; [done|by apply same_keeps]|by eapply resting_same].
    + split; [by etrans|by apply dead_resting].
Qed.

Lemma read_resting {B} (f : t -> B) w0 w : keeps w0 w -> resting w ->
  post (read tick f) w (fun b w' => keeps w0 w' /\ resting w' /\ b = f (node w')).
Proof. intros Hk Hr. apply post_read. eapply post_mono; [by apply (tick_resting w0)|]. by intros _ w' [H1 H2]. Qed.

Lemma resting_state w : resting w -> process_state_ (node w) <> kStarting /\ process_state_ (node w) <> kRunning.
Proof. intros [_ [[(_ & -> & _) _]|(_ & H1 & H2)]]; done. Qed.

Lemma sync_resting w0 w : keeps w0 w -> resting w -> post (write tick (set_sync None)) w (fun _ w' => keeps w0 w' /\ resting w').
Proof. intros Hk Hr. apply post_write. eapply post_mono; [by apply (tick_resting w0)|]. cbn beta. intros _ w' [H1 H2]. split; [|done]. etrans; [done|by apply keeps_node]. Qed.

Lemma setIdle_resting w0 w : keeps w0 w -> resting w ->
  post (setState tick kIdle) w (fun b w' => calm w' /\ if b then lost kIdle w0 w' else keeps w0 w' /\ resting w').
Proof.
  intros Hk Hr. destruct (proj2 Hr) as [[Hl Href]|(Hc & _)].
  - unfold setState. apply post_bind, post_read. eapply post_mono; [apply (tick_live _ _ Hl terminating_runs)|]. cbn beta.
    intros _ w1 [Hs|(Hk1 & Hd & Hc1 & _)].
    + unfold getState. rewrite (proj1 Hs), (proj1 (proj2 Hl)). cbn. apply post_ret. split; [eapply same_calm; [done|apply Hr]|].
      split; [etrans; [done|by apply same_keeps]|by eapply resting_same].
    + unfold getState. rewrite (proj1 (proj2 Hd)). cbn. apply post_bind. eapply post_mono; [by apply write_still, dead_child|]. cbn beta.
      intros _ w2 Hs. apply post_ret. split; [by apply (same_calm _ _ Hs)|]. eapply lost_same; [done|]. split; [etrans; [done|]; etrans; [done|by apply keeps_node]|].
      split; [exact (dead_child w1 Hd)|done].
  - eapply post_mono; [by apply setState_still|]. cbn beta. intros b w1 [Hb Hs]. split; [apply (same_calm _ _ Hs); destruct b; apply Hr|].
    destruct b.
    + eapply lost_same; [done|]. split; [etrans; [done|by apply keeps_node]|done].
    + rewrite set_node_id in Hs. rename Hs into Hs'. split; [etrans; [done|by apply same_keeps]|by eapply resting_same].
Qed.

Lemma setFailed_lost x w0 w : lost x w0 w -> calm w -> x <> kFailed -> post (setState tick kFailed) w (fun _ w' => lost kFailed w0 w' /\ calm w').
Proof.
  intros Hl Hc Hx. eapply post_mono; [apply setState_still, Hl|]. cbn beta. intros b w1 [Hb Hs].
  rewrite (proj2 (proj2 Hl)) in Hb. assert (b = true) as -> by (by destruct x). split; [|by apply (same_calm _ _ Hs)].
  eapply lost_same; [done|]. by eapply lost_set.
Qed.

(** [w] after [n] more processes were launched. *)
Definition bump (n : nat) (w : world) : world :=
  mkWorld (node w) (child w) (script w) (clock w) (n + launches w) (refused w) (told w) (journal w).

Lemma prepare_spec w0 w : lost kIdle w0 w -> calm w -> post prepare w (fun _ w' => lost kStarting w0 w' /\ calm w' /\ gone (node w') = false).
Proof.
  intros Hl Hc. unfold prepare.
  assert (Hstep : forall f wx, lost kIdle w0 wx -> calm wx -> (forall v, keeps v (set_node (f (node v)) v)) ->
    (forall n, process_state_ (f n) = process_state_ n /\ termination_requested_ (f n) = termination_requested_ n) ->
    post (write tick f) wx (fun _ w' => lost kIdle w0 w' /\ calm w' /\ exists v, node w' = f v)).
  { intros f wx Hx Hcx Hf1 Hf2. eapply post_mono; [apply write_still, Hx|]. cbn beta. intros _ w1 Hs. destruct (Hf2 (node wx)) as [Hf3 Hf4].
    assert (Hlw : lost kIdle w0 (set_node (f (node wx)) wx)).
    { destruct Hx as (Hk & Hcc & Hst). split; [by etrans|]. split; [done|]. simpl. congruence. }
    split_and!; [by eapply lost_same|eapply same_calm; [done|]; unfold calm in *; simpl; congruence|]. exists (node wx). apply Hs. }
  apply post_bind. eapply post_mono; [apply Hstep; try done; intros v; by apply keeps_node|]. cbn beta. intros _ w1 (H1 & C1 & _).
  apply post_bind. eapply post_mono; [apply Hstep; try done; intros v; by apply keeps_node|]. cbn beta. intros _ w2 (H2 & C2 & _).
  apply post_bind. eapply post_mono; [apply Hstep; try done; intros v; by apply keeps_node|]. cbn beta. intros _ w3 (H3 & C3 & _).
  apply post_bind. eapply post_mono; [apply Hstep; try done; intros v; by apply keeps_node|]. cbn beta. intros _ w4 (H4 & C4 & v & Ev).
  apply post_bind. eapply post_mono; [apply setState_still, H4|]. cbn beta. intros b w5 [Hb Hs].
  rewrite (proj2 (proj2 H4)) in Hb. cbn in Hb. subst b. apply post_ret. split_and!.
  - eapply lost_same; [done|]. by eapply lost_set.
  - apply (same_calm _ _ Hs). exact C4.
  - rewrite (proj1 Hs), Ev. done.
Qed.

Lemma launch_spec w0 w : lost kStarting w0 w -> calm w -> gone (node w) = false ->
  post launch w (fun b w' => calm w' /\ gone (node w') = false /\ lost kStarting (bump (if b then 1 else 0) w0) w' /\ (b = true -> child w' = Unregistered)).
Proof.
  intros Hl Hc Hg. unfold launch. apply post_bind. eapply post_mono; [apply tick_still, Hl|]. cbn beta. intros v w1 Hs.
  pose proof (lost_same _ _ _ _ Hs Hl) as Hl1. pose proof (same_calm _ _ Hs Hc) as Hc1. rewrite <- (proj1 Hs) in Hg.
  destruct (0 <? v)%Z.
  - eexists _, _. split; [exists 0; intros fuel _; reflexivity|]. split_and!; [done|done| |done].
    destruct Hl1 as (Hk & Hch & Hst). split; [|by split].
    destruct Hk as [A1 A2 A3 A4 A5 A6 A7 A8 A9]. split; try done. simpl. by rewrite A6.
  - apply post_ret. split_and!; [done|done| |done]. by destruct w0.
Qed.

(** What an attempt leaves behind, after at most one launch. *)
Lemma attempt_spec w0 w : mortal (script w0) -> keeps w0 w -> resting w ->
  post attempt w (fun r w' => exists n, n <= 1 /\ match r with
    | inl None => is_up (bump n w0) w'
    | inl (Some e) => e <> kSuccess /\ keeps (bump n w0) w' /\ resting w'
    | inr e => e <> kSuccess /\ stopped true (bump n w0) w'
    end).
Proof.
  intros Hm Hk Hr. unfold attempt. apply post_bind. eapply post_mono; [by apply (setIdle_resting w0)|]. cbn beta.
  intros [] w1 [C1 H1]; cbn [negb]; [|apply post_ret; exists 0; split; [lia|]; split; [done|]; by destruct w0].
  apply post_bind. eapply post_mono; [by apply (prepare_spec w0)|]. cbn beta. intros _ w2 (H2 & C2 & G2).
  apply post_bind. eapply post_mono; [by apply (launch_spec w0)|]. cbn beta. intros [] w3 (C3 & G3 & H3 & Hch3).
  - apply post_bind. eapply post_mono; [by apply (handleProcessStarted_spec (bump 1 w0)); auto|]. cbn beta. intros [e|[e|]] w4.
    + intros (-> & H4 & C4). apply post_bind. eapply post_mono; [by apply (setFailed_lost kTerminating (bump 1 w0))|]. cbn beta.
      intros _ w5 [H5 C5]. apply post_ret. exists 1. split_and!; [done|done|apply H5|by eapply lost_resting].
    + intros H4. apply post_ret. by exists 1.
    + intros H4. apply post_ret. by exists 1.
  - apply post_bind. eapply post_mono; [by apply (setFailed_lost kStarting (bump 0 w0))|]. cbn beta.
    intros _ w5 [H5 C5]. apply post_ret. exists 0. split_and!; [lia|done|apply H5|by eapply lost_resting].
Qed.


(** ** Starting the process *)

Lemma assert_run {B} `{BuildMode} (b : bool) (k : unit -> M B) w x w' : dbg_checks = false \/ b = true ->
  runs (k tt) w x w' -> runs (lift (assert_dbg b) ≫= k) w x w'.
Proof.
  intros Hb. apply bind_run. exists 0. intros fuel _. unfold lift, assert_dbg. destruct dbg_checks; [|done]. by destruct Hb as [?| ->].
Qed.

Lemma bump_bump n m w : bump n (bump m w) = bump (n + m) w.
Proof. unfold bump. simpl. by rewrite Nat.add_assoc. Qed.

Lemma keeps_bump n w w' : keeps w w' -> keeps (bump n w) (bump n w').
Proof. intros [A1 A2 A3 A4 A5 A6 A7 A8 A9]. split; try done. simpl. by rewrite A6. Qed.

Lemma is_up_trans w0 w1 w : keeps w0 w1 -> is_up w1 w -> is_up w0 w.
Proof.
  intros Hk [(Hk1 & Hp & Hc) Hd]. split; [split_and!; [by etrans|done|done]|]. intros Hr. apply Hd. by rewrite (k_config _ _ Hk).
Qed.

Definition loop_post (attempts : nat) (w0 : world) (e : option RequestResult) (w' : world) : Prop :=
  exists n, n <= attempts /\ match e with
    | None => is_up (bump n w0) w'
    | Some e => e <> kSuccess /\ keeps (bump n w0) w' /\ resting w'
    end.

(** The loop's first steps, in either build. *)
Lemma start_loop_step bm attempts err w w1 w2 r w3 e w' :
  runs (read tick getState) w (getState (node w1)) w1 -> process_state_ (node w1) <> kStarting ->
  runs (read tick getState) w1 (getState (node w2)) w2 -> process_state_ (node w2) <> kRunning ->
  runs attempt w2 r w3 ->
  runs (match r with
        | inl e => mret e
        | inr e => x'' ← read tick getState; _ ← lift (@assert_dbg bm (bool_decide (x'' = kTerminated)));
                   _ ← write tick (set_sync None); @start_loop bm attempts (Some e)
        end) w3 e w' -> runs (@start_loop bm (S attempts) err) w e w'.
Proof.
  intros E1 N1 E2 N2 E3 E4. cbn [start_loop]. eapply bind_run; [exact E1|].
  apply assert_run; [right; unfold getState; by rewrite bool_decide_false|]. eapply bind_run; [exact E2|].
  apply assert_run; [right; unfold getState; by rewrite bool_decide_false|]. by eapply bind_run.
Qed.

(** A signal that was refused before the last write was refused after it. *)
Lemma sync_refused w u w' : resting w -> runs (write tick (set_sync None)) w u w' -> refused w = true -> refused w' = true.
Proof.
  intros Hr E X. destruct (post_run _ _ _ (sync_resting w w (reflexivity w) Hr)) as (v & w2 & E2 & Hk & _).
  destruct (runs_unique _ _ _ _ _ _ E E2) as [_ ->]. by apply Hk.
Qed.

Lemma start_loop_spec attempts : forall err w0 w, mortal (script w0) -> keeps w0 w -> resting w ->
  (attempts = 0 -> err <> None) -> err <> Some kSuccess ->
  exists e w', runs (@start_loop release_build attempts err) w e w' /\ loop_post attempts w0 e w' /\
    (refused w' = false -> runs (@start_loop debug_build attempts err) w e w').
Proof.
  induction attempts as [|attempts IH]; intros err w0 w Hm Hk Hr He Hs.
  { exists err, w. split_and!; [apply ret_run| |intros _; apply ret_run]. exists 0. split; [done|]. destruct err as [e|]; [|by specialize (He eq_refl)].
    split; [congruence|]. by destruct w0. }
  destruct (post_run _ _ _ (read_resting getState w0 w Hk Hr)) as (x & w1 & E1 & Hk1 & Hr1 & ->).
  destruct (post_run _ _ _ (read_resting getState w0 w1 Hk1 Hr1)) as (x & w2 & E2 & Hk2 & Hr2 & ->).
  destruct (resting_state w1 Hr1) as [N1 _]. destruct (resting_state w2 Hr2) as [_ N2].
  destruct (post_run _ _ _ (attempt_spec w0 w2 Hm Hk2 Hr2)) as (r & w3 & E3 & n & Hn & H3).
  pose proof (fun bm e w' => start_loop_step bm attempts err w w1 w2 r w3 e w' E1 N1 E2 N2 E3) as Hrun.
  destruct r as [e|e].
  { exists e, w3. split_and!; [apply Hrun, ret_run| |intros _; apply Hrun, ret_run]. exists n. split; [lia|]. by destruct e. }
  destruct H3 as [Hes Hst].
  destruct (post_run _ _ _ (post_and _ _ _ _ (read_phase getState _ _ _ _ terminating_runs (proj1 Hst))
    (read_resting getState (bump n w0) w3 (proj1 (proj1 Hst)) (stopped_resting _ _ Hst)))) as (x & w4 & E4 & [Hp4 _] & Hk4 & Hr4 & ->).
  destruct (post_run _ _ _ (sync_resting (bump n w0) w4 Hk4 Hr4)) as (u & w5 & E5 & Hk5 & Hr5).
  assert (Hm5 : mortal (script w5)) by (by rewrite (k_script _ _ Hk5)).
  destruct (IH (Some e) w5 w5 Hm5 (reflexivity w5) Hr5 ltac:(done) ltac:(congruence)) as (e' & w6 & E6 & (n' & Hn' & H6) & Hd6).
  exists e', w6. split_and!.
  - apply Hrun. eapply bind_run; [exact E4|]. apply assert_run; [by left|]. by eapply bind_run.
  - exists (n' + n). split; [lia|]. apply (keeps_bump n') in Hk5. rewrite bump_bump in Hk5.
    destruct e' as [e'|]; [split_and!; [apply H6|etrans; [done|apply H6]|apply H6]|by eapply is_up_trans].
  - intros Href. apply Hrun. eapply bind_run; [exact E4|]. apply assert_run; [right|eapply bind_run; [exact E5|by apply Hd6]].
    apply bool_decide_true. assert (Hmono : refused w4 = true -> refused w6 = true).
    { intros X. pose proof (sync_refused _ _ _ Hr4 E5 X) as X5. destruct e' as [e'|]; by apply H6. }
    unfold getState. destruct (proj1 (proj2 Hp4)) as [Hl|Hd]; [|apply Hd].
    destruct (proj2 Hr4) as [[_ X]|[X _]]; [by rewrite Hmono in Href|]. by destruct X; apply Hl.
Qed.

(** ** Reporting the result *)

(** What the reports change neither. *)
Record core (w w' : world) : Prop := {
  c_config : config_ (node w') = config_ (node w);
  c_retries : start_retries_ (node w') = start_retries_ (node w);
  c_identifier : identifier_ (node w') = identifier_ (node w);
  c_script : script w' = script w;
  c_launches : launches w' = launches w;
  c_refused : refused w = true -> refused w' = true
}.

#[export] Instance core_preorder : PreOrder core.
Proof. split; [by split|]. intros w1 w2 w3 [A1 A2 A3 A4 A5 A6] [B1 B2 B3 B4 B5 B6]. split; [congruence..|auto]. Qed.

Lemma keeps_core w w' : keeps w w' -> core w w'.
Proof. by intros [A1 A2 A3 A4 A5 A6 A7 A8 A9]. Qed.

(** The process was started successfully: it runs, or its end was judged. *)
Definition was_up (w : world) : Prop :=
  calm w /\ (live kRunning w \/ dead w /\ last (told w) = Some (classify (config_ (node w)) (exit_status_ (node w)))).

(** A successful activation. *)
Definition is_ready (w : world) : Prop :=
  reached_ready_ (node w) = true /\
  (ready_condition (config_ (node w)) <> ReadyTerminated /\ was_up w \/
   calm w /\ dead w /\ classify (config_ (node w)) (exit_status_ (node w)) = kIgnore).

Lemma was_up_ended w w' : calm w -> live kRunning w -> ended w w' -> was_up w'.
Proof.
  intros Hc (_ & Hs & _) (Hk & Hd & Hc' & Ht & _). split; [done|right]. split; [done|]. rewrite Ht, last_snoc. unfold verdict, calm in *.
  rewrite Hc, Hs, (k_config _ _ Hk). done.
Qed.

Lemma was_up_same w w' : same w w' -> was_up w -> was_up w'.
Proof.
  intros Hs [Hc Hw]. split; [by eapply same_calm|]. destruct Hw as [Hl|[Hd Ht]]; [left; by eapply same_live|right].
  split; [by eapply same_dead|]. destruct Hs as (-> & _ & _ & _ & -> & _). done.
Qed.

Lemma tick_was_up w0 w : keeps w0 w -> was_up w -> post tick w (fun _ w' => keeps w0 w' /\ was_up w').
Proof.
  intros Hk Hw. destruct (proj2 Hw) as [Hl|[Hd _]].
  - eapply post_mono; [apply (tick_live _ _ Hl running_runs)|]. intros _ w' [Hs|He].
    + split; [etrans; [done|by apply same_keeps]|by eapply was_up_same].
    + split; [etrans; [done|apply He]|]. eapply was_up_ended; [apply Hw|done|done].
  - eapply post_mono; [by apply tick_still, dead_child|]. cbn beta. intros _ w' Hs.
    split; [etrans; [done|by apply same_keeps]|by eapply was_up_same].
Qed.

Lemma tick_is_ready w : is_ready w -> post tick w (fun _ w' => keeps w w' /\ is_ready w').
Proof.
  intros [Hr [[Hn Hu]|(Hc & Hd & Hcl)]].
  - eapply post_mono; [by apply (tick_was_up w w)|]. intros _ w' [Hk Hu']. split; [done|]. destruct (k_flags _ _ Hk Hn) as [Ef _].
    split; [congruence|]. left. by rewrite (k_config _ _ Hk).
  - eapply post_mono; [by apply tick_still, dead_child|]. cbn beta. intros _ w' Hs. split; [by apply same_keeps|].
    pose proof (same_dead _ _ Hs Hd) as Hd'. pose proof (same_calm _ _ Hs Hc) as Hc'. unfold is_ready. rewrite (proj1 Hs). auto.
Qed.

(** Reporting an error. *)
Lemma tryReportError_resting e w : e <> kSuccess -> resting w ->
  post (tryReportError tick e) w (fun r w' => r <> kSuccess /\ core w w' /\ resting w' /\ supervision_handle_ (node w') = supervision_handle_ (node w)).
Proof.
  intros He Hr. unfold tryReportError, test_and_set. apply post_bind, post_access. eapply post_mono; [by apply (tick_resting w w)|]. cbn beta.
  intros _ w1 [Hk H1]. apply post_ret. split_and!; [by destruct (success_returned_ _)|apply keeps_core in Hk; by destruct Hk|exact H1|apply Hk].
Qed.

(** Reporting success for a process that runs. *)
Lemma tryReportSuccess_up w0 w : keeps w0 w -> was_up w -> ready_condition (config_ (node w0)) <> ReadyTerminated -> success_returned_ (node w0) = false ->
  post (tryReportSuccess tick) w (fun r w' => r = kSuccess /\ core w0 w' /\ is_ready w' /\ supervision_handle_ (node w') = supervision_handle_ (node w0)).
Proof.
  intros Hk Hu Hn Hf. unfold tryReportSuccess, test_and_set. apply post_bind, post_access. eapply post_mono; [by apply (tick_was_up w0)|]. cbn beta.
  intros _ w1 [Hk1 Hu1]. destruct (k_flags _ _ Hk1 Hn) as [_ Ef]. cbn [fst snd]. rewrite Ef, Hf. apply post_bind, post_write.
  set (w1' := set_node _ w1). eapply post_mono; [apply (tick_was_up w1' w1'); done|]. cbn beta. intros _ w2 [Hk2 Hu2].
  assert (Hcore : core w0 w2).
  { etrans; [by apply keeps_core|]. etrans; [|by apply keeps_core]. by split. }
  apply post_ret. split_and!; [done|by destruct Hcore| |].
  - split; [done|]. left. split; [|exact Hu2]. simpl. by rewrite (c_config _ _ Hcore).
  - simpl. rewrite (k_supervision _ _ Hk2). apply Hk1.
Qed.

(** Reporting success for a process that has ended well. *)
Lemma tryReportSuccess_dead w : calm w -> dead w -> classify (config_ (node w)) (exit_status_ (node w)) = kIgnore ->
  post (tryReportSuccess tick) w (fun r w' => (r = kSuccess -> is_ready w') /\ core w w' /\ resting w' /\
    supervision_handle_ (node w') = supervision_handle_ (node w)).
Proof.
  intros Hc Hd Hcl. unfold tryReportSuccess, test_and_set. apply post_bind. apply access_still; [by apply dead_child|]. intros w1 Hs. cbn [fst snd].
  assert (Hd1 : dead (set_node (set_returned true (node w)) w1)) by (destruct Hs as (_ & E & _); unfold dead; simpl; by rewrite E).
  assert (C1 : core w (set_node (set_returned true (node w)) w1)).
  { destruct Hs as (_ & _ & E3 & E4 & _ & E6 & _). split; simpl; try done. by rewrite E4. }
  destruct (success_returned_ (node w)).
  - apply post_ret. split_and!; [done|done|by apply dead_resting|done].
  - apply post_bind. eapply post_mono; [by apply write_still, dead_child|]. cbn beta. intros _ w2 Hs2. apply post_ret. simpl in Hs2.
    assert (Hd2 : dead w2) by (eapply same_dead; [done|exact Hd1]). assert (Hc2 : calm w2) by (eapply same_calm; [done|exact Hc]). split_and!.
    + intros _. split; [by rewrite (proj1 Hs2)|]. right. split_and!; [done|done|]. by rewrite (proj1 Hs2).
    + etrans; [exact C1|]. destruct Hs2 as (E1 & _ & E3 & E4 & _ & E6 & _). simpl in *. by split; rewrite ?E1, ?E3, ?E4.
    + by apply dead_resting.
    + by rewrite (proj1 Hs2).
Qed.

(** What is known when [startProcess] returns. *)
Definition reported (w0 : world) (r : RequestResult) (w' : world) : Prop :=
  core w0 w' /\ supervision_handle_ (node w') = supervision_handle_ (node w0) /\ if decide (r = kSuccess) then is_ready w' else resting w'.

Lemma is_up_runs w0 w1 : is_up w0 w1 -> post (setState tick kRunning) w1 (fun b w2 => keeps w0 w2 /\ calm w2 /\
  if b then ready_condition (config_ (node w0)) <> ReadyTerminated /\ live kRunning w2 else dead w2).
Proof.
  intros [Hp Hd]. destruct (decide (ready_condition (config_ (node w0)) = ReadyTerminated)) as [Er|Er].
  - specialize (Hd Er). eapply post_mono; [by apply setState_still, dead_child|]. cbn beta. intros b w2 [Hb Hs].
    rewrite (proj1 (proj2 Hd)) in Hb. cbn in Hb. change (b = false) in Hb. subst b. rewrite set_node_id in Hs. rename Hs into Hs'. split_and!.
    + etrans; [apply Hp|by apply same_keeps].
    + eapply same_calm; [done|by apply Hp].
    + by eapply same_dead.
  - eapply post_mono; [apply (setState_up _ _ _ _ _ starting_runs running_runs ltac:(done) Hp)|]. cbn beta. intros [] w2 [(Hk & _ & Hc) Hl]; auto.
Qed.

Section Tail.
Context (bm : BuildMode).

(** The end of [startProcess], after an attempt without error. *)
Definition report_up : M RequestResult :=
  running ← setState tick kRunning;
  if (running : bool) then tryReportCompletion tick kRunning
  else
    r ← read tick termination_result_;
    _ ← lift (assert_dbg (bool_decide (is_Some r)));
    if bool_decide (r = Some kIgnore) then tryReportSuccess tick
    else tryReportError tick kFailure.
End Tail.

Lemma report_dead w : calm w -> dead w -> exists r w', reported w r w' /\ forall bm,
  runs (r ← read tick termination_result_; _ ← lift (@assert_dbg bm (bool_decide (is_Some r)));
   if bool_decide (r = Some kIgnore) then tryReportSuccess tick else tryReportError tick kFailure) w r w'.
Proof.
  intros Hc Hd. destruct (post_run _ _ _ (read_still termination_result_ w (dead_child w Hd))) as (x & w1 & E1 & Hs & ->).
  pose proof (same_dead _ _ Hs Hd) as Hd1. pose proof (same_calm _ _ Hs Hc) as Hc1. rewrite <- (proj1 Hs) in E1.
  assert (Hres : exists r w', runs (if bool_decide (termination_result_ (node w1) = Some kIgnore) then tryReportSuccess tick else tryReportError tick kFailure) w1 r w' /\ reported w r w').
  { apply post_run. pose proof (keeps_core _ _ (same_keeps _ _ Hs)) as Hcore. destruct Hd1 as (D1 & D2 & D3 & D4). rewrite D4. case_bool_decide as E.
    - eapply post_mono; [apply tryReportSuccess_dead; [done|done|congruence]|]. cbn beta. intros r w' (Hr & Hc' & Hrest & Hsup).
      split_and!; [by etrans|rewrite Hsup; by rewrite (proj1 Hs)|]. case_decide; auto.
    - eapply post_mono; [apply (tryReportError_resting kFailure); [done|by apply dead_resting]|]. cbn beta. intros r w' (Hr & Hc' & Hrest & Hsup).
      split_and!; [by etrans|rewrite Hsup; by rewrite (proj1 Hs)|]. by rewrite decide_False. }
  destruct Hres as (r & w' & E2 & H2). exists r, w'. split; [done|]. intros bm. eapply bind_run; [exact E1|].
  apply assert_run; [|exact E2]. right. apply bool_decide_true. destruct Hd1 as (_ & _ & _ & ->). by eexists.
Qed.

Lemma report_up_spec w0 w1 : is_up w0 w1 -> (ready_condition (config_ (node w0)) <> ReadyTerminated -> success_returned_ (node w0) = false) ->
  exists r w', reported w0 r w' /\ forall bm, runs (report_up bm) w1 r w'.
Proof.
  intros Hu Hf. destruct (post_run _ _ _ (is_up_runs w0 w1 Hu)) as ([] & w2 & E2 & Hk & Hc & Hb).
  - destruct Hb as [Hn Hl].
    assert (Hup : post (tryReportCompletion tick kRunning) w2 (reported w0)).
    { unfold tryReportCompletion. apply post_bind, post_read. eapply post_mono; [apply (tick_was_up w0); [done|by split; auto]|]. cbn beta.
      intros _ w3 [Hk3 Hu3]. rewrite (k_config _ _ Hk3). rewrite bool_decide_false by done. rewrite bool_decide_true by (by destruct (ready_condition _)).
      eapply post_mono; [by apply (tryReportSuccess_up w0); auto|]. cbn beta. intros r w' (-> & ? & ? & ?). by split_and!. }
    destruct (post_run _ _ _ Hup) as (r & w' & E3 & H3). exists r, w'. split; [done|]. intros bm. unfold report_up. by eapply bind_run; [exact E2|].
  - destruct (report_dead w2 Hc Hb) as (r & w' & (H1 & H2 & H3) & E3). exists r, w'. split.
    + split_and!; [etrans; [by apply keeps_core|done]|rewrite H2; apply Hk|done].
    + intros bm. unfold report_up. eapply bind_run; [exact E2|]. apply E3.
Qed.

Lemma reported_bump_trans w0 n w1 r w' : keeps (bump n w0) w1 -> reported w1 r w' -> reported (bump n w0) r w'.
Proof. intros Hk (H1 & H2 & H3). split_and!; [etrans; [by apply keeps_core|done]|rewrite H2; apply Hk|done]. Qed.

Lemma startProcess_spec w : mortal (script w) -> resting w ->
  (ready_condition (config_ (node w)) <> ReadyTerminated -> success_returned_ (node w) = false) ->
  exists r w', runs (@startProcess release_build) w r w' /\ (refused w' = false -> runs (@startProcess debug_build) w r w') /\
    exists n, n <= S (start_retries_ (node w)) /\ reported (bump n w) r w'.
Proof.
  intros Hm Hr Hf. destruct (post_run _ _ _ (read_resting start_retries_ w w (reflexivity w) Hr)) as (x & w1 & E1 & Hk1 & Hr1 & ->).
  destruct (start_loop_spec (S (start_retries_ (node w1))) None w w1 Hm Hk1 Hr1 ltac:(done) ltac:(done)) as (e & w2 & E2 & (n & Hn & H2) & Hd2).
  rewrite (k_retries _ _ Hk1) in Hn. destruct e as [e|].
  - destruct H2 as (He & Hk2 & Hr2). destruct (post_run _ _ _ (tryReportError_resting e w2 He Hr2)) as (r & w3 & E3 & Hr3 & Hc3 & Hrest & Hsup).
    exists r, w3. unfold startProcess. split_and!.
    + eapply bind_run; [exact E1|]. by eapply bind_run; [exact E2|].
    + intros Href. eapply bind_run; [exact E1|]. eapply bind_run; [apply Hd2|exact E3].
      destruct (refused w2) eqn:X; [by rewrite (c_refused _ _ Hc3 X) in Href|done].
    + exists n. split; [done|]. eapply reported_bump_trans; [exact Hk2|]. split_and!; [done|done|by rewrite decide_False].
  - assert (Hk2 : keeps (bump n w) w2) by apply H2. destruct (report_up_spec w2 w2) as (r & w3 & H3 & E3).
    { destruct H2 as [(_ & Hp & Hc) Hd]. split; [by split_and!|]. intros X. apply Hd. by rewrite (k_config _ _ Hk2) in X. }
    { intros X. rewrite (k_config _ _ Hk2) in X. destruct (k_flags _ _ Hk2 X) as [_ ->]. by apply Hf. }
    exists r, w3. unfold startProcess. split_and!.
    + eapply bind_run; [exact E1|]. eapply bind_run; [exact E2|]. apply E3.
    + intros Href. eapply bind_run; [exact E1|]. eapply bind_run; [apply Hd2|apply E3].
      destruct (refused w2) eqn:X; [by rewrite (c_refused _ _ (proj1 H3) X) in Href|done].
    + exists n. split; [done|by eapply reported_bump_trans].
Qed.

(** ** The jobs *)

(** Between two jobs. *)
Definition settled (w : world) : Prop :=
  resting w \/ calm w /\ live kRunning w /\ reached_ready_ (node w) = true /\ ready_condition (config_ (node w)) <> ReadyTerminated.

Lemma is_ready_settled w : is_ready w -> settled w.
Proof.
  intros [Hr [[Hn [Hc [Hl|[Hd _]]]]|(Hc & Hd & _)]]; [right; by split_and!|left; by apply dead_resting|left; by apply dead_resting].
Qed.

Lemma tick_settled w : settled w -> post tick w (fun _ w' => keeps w w' /\ settled w').
Proof.
  intros [Hr|(Hc & Hl & Hr & Hn)]; [eapply post_mono; [by apply (tick_resting w)|]; intros _ w' [? ?]; split; [done|by left]|].
  eapply post_mono; [apply (tick_live _ _ Hl running_runs)|]. intros _ w' [Hs|(Hk & Hd & Hc' & _)].
  - split; [by apply same_keeps|]. right. split_and!; [by eapply same_calm|by eapply same_live|by rewrite (proj1 Hs)|by rewrite (proj1 Hs)].
  - split; [done|]. left. by apply dead_resting.
Qed.

(** Changes of the flags. *)
Lemma settled_returned b w : settled w -> settled (set_node (set_returned b (node w)) w).
Proof. done. Qed.

Lemma settled_ready w : settled w -> settled (set_node (set_ready true (node w)) w).
Proof. intros [Hr|(Hc & Hl & Hr & Hn)]; [by left|right]. by split_and!. Qed.

Lemma settled_inactive w : settled w -> reached_ready_ (node w) = false -> resting w.
Proof. intros [?|(_ & _ & ? & _)] ?; [done|congruence]. Qed.

Lemma tryReportSuccess_settled w : settled w -> post (tryReportSuccess tick) w (fun _ w' => core w w' /\ settled w').
Proof.
  intros Hs. unfold tryReportSuccess, test_and_set. apply post_bind, post_access. eapply post_mono; [by apply tick_settled|]. cbn beta.
  intros _ w1 [Hk1 H1]. cbn [fst snd]. assert (C1 : core w (set_node (set_returned true (node w1)) w1)) by (apply keeps_core in Hk1; by destruct Hk1).
  destruct (success_returned_ (node w1)); [by apply post_ret; split|]. apply post_bind, post_write.
  eapply post_mono; [by apply tick_settled, settled_returned|]. cbn beta. intros _ w2 [Hk2 H2]. apply post_ret.
  split; [|by apply settled_ready]. etrans; [exact C1|]. apply keeps_core in Hk2. by destruct Hk2.
Qed.

Definition supervised (c : SupervisionCall) (n : t) : t :=
  match supervision_handle_ n with Some l => if isSupervised n then set_supervision (Some (l ++ [c])) n else n | None => n end.

Lemma supervised_only c n : supervised c n = set_supervision (supervision_handle_ (supervised c n)) n.
Proof. unfold supervised. destruct n as [? ? ? ? ? ? ? ? [l|]]; simpl; [|done]. by destruct (isSupervised _). Qed.

Lemma supervised_eq c n n' : supervision_handle_ n = supervision_handle_ n' -> config_ n = config_ n' ->
  supervision_handle_ (supervised c n) = supervision_handle_ (supervised c n').
Proof.
  unfold supervised, isSupervised. intros Hs ->. rewrite Hs.
  destruct (supervision_handle_ n') eqn:E; [destruct (_ || _)|]; simpl; congruence.
Qed.

(** The call on the handle, if there is one, is written down. *)
Definition calls_supervision (n : t) : bool := match supervision_handle_ n with Some _ => isSupervised n | None => false end.

Definition supervise_world (c : SupervisionCall) (w : world) : world :=
  let w' := set_node (supervised c (node w)) w in if calls_supervision (node w) then note (Supervise c) w' else w'.

Lemma post_supervise c w (Q : unit -> world -> Prop) :
  post tick w (fun _ w' => Q tt (supervise_world c w')) -> post (supervise c) w Q.
Proof.
  intros Hp. unfold supervise. apply post_bind, post_access. eapply post_mono; [exact Hp|]. cbn beta. intros _ w' HQ. apply post_modify.
  unfold supervise_world, calls_supervision, supervised in HQ. destruct (supervision_handle_ (node w')); [destruct (isSupervised (node w'))|]; exact HQ.
Qed.

Lemma node_supervise_world c w : node (supervise_world c w) = set_supervision (supervision_handle_ (supervised c (node w))) (node w).
Proof. rewrite <- supervised_only. unfold supervise_world. by destruct (calls_supervision _). Qed.

Lemma supervise_world_rest c w : child (supervise_world c w) = child w /\ script (supervise_world c w) = script w /\ launches (supervise_world c w) = launches w /\
  refused (supervise_world c w) = refused w /\ told (supervise_world c w) = told w.
Proof. unfold supervise_world. by destruct (calls_supervision _). Qed.

Lemma core_supervise c w : core w (supervise_world c w).
Proof.
  destruct (supervise_world_rest c w) as (_ & E2 & E3 & E4 & _). split; rewrite ?node_supervise_world, ?E3, ?E4; done.
Qed.

Lemma is_ready_supervise c w : is_ready w -> is_ready (supervise_world c w).
Proof.
  destruct (supervise_world_rest c w) as (E1 & _ & _ & _ & E5).
  unfold is_ready, was_up, live, dead, calm, gone. by rewrite node_supervise_world, E1, E5.
Qed.

Lemma supervise_ready w : is_ready w -> post (supervise ActivateSupervision) w (fun _ w' => core w w' /\ is_ready w' /\
  supervision_handle_ (node w') = supervision_handle_ (supervised ActivateSupervision (node w))).
Proof.
  intros Hr. apply post_supervise. eapply post_mono; [by apply tick_is_ready|]. cbn beta. intros _ w1 [Hk H1]. split_and!.
  - etrans; [by apply keeps_core|apply core_supervise].
  - by apply is_ready_supervise.
  - rewrite node_supervise_world. simpl. apply supervised_eq; apply Hk.
Qed.

Lemma write_returned_settled w : settled w -> post (write tick (set_returned false)) w (fun _ w' => core w w' /\ settled w' /\
  success_returned_ (node w') = false /\ (child w <> Registered -> same (set_node (set_returned false (node w)) w) w')).
Proof.
  intros Hs. destruct (decide (child w = Registered)) as [Hc|Hc].
  - apply post_write. eapply post_mono; [by apply tick_settled|]. cbn beta. intros _ w1 [Hk H1].
    split_and!; [apply keeps_core in Hk; by destruct Hk|done|done|done].
  - eapply post_mono; [by apply write_still|]. cbn beta. intros _ w1 Hsm. pose proof (keeps_core _ _ (same_keeps _ _ Hsm)) as Hk. split_and!.
    + by destruct Hk.
    + destruct Hs as [Hr|(_ & (Hc' & _) & _)]; [|done]. left. eapply resting_same; [done|exact Hr].
    + by rewrite (proj1 Hsm).
    + done.
Qed.

Lemma settled_runs w : settled w -> child w = Registered -> running_state (process_state_ (node w)).
Proof.
  intros [[_ [[(_ & -> & _) _]|[Hc _]]]|(_ & (_ & -> & _) & _)] Hc'; [apply terminating_runs|done|apply running_runs].
Qed.

Lemma read_settled {B} (f : t -> B) w : settled w ->
  post (read tick f) w (fun b w' => keeps w w' /\ settled w' /\ (child w <> Registered -> same w w') /\ b = f (node w')).
Proof.
  intros Hs. apply post_read. eapply post_mono; [apply (post_and _ _ _ _ (tick_settled w Hs) (tick_any w (settled_runs w Hs)))|]. cbn beta.
  intros _ w' [[Hk H'] Hsame]. split_and!; try done. intros Hc. by destruct Hsame as [?|[? _]].
Qed.

(** Everything that is known of an activation. *)
Lemma activate_spec w : mortal (script w) -> settled w ->
  exists r w', runs (@activate release_build) w r w' /\ (refused w' = false -> runs (@activate debug_build) w r w') /\
  (exists n, n <= S (start_retries_ (node w)) /\ core (bump n w) w') /\ settled w' /\
  (r = kSuccess -> child w <> Registered -> reached_ready_ (node w) = false ->
   is_ready w' /\ supervision_handle_ (node w') = supervision_handle_ (supervised ActivateSupervision (node w))).
Proof.
  intros Hm Hs. destruct (post_run _ _ _ (write_returned_settled w Hs)) as (u & w1 & E1 & C1 & H1 & F1 & S1).
  destruct (post_run _ _ _ (read_settled reached_ready_ w1 H1)) as (b & w2 & E2 & Hk2 & H2 & Hst & ->).
  assert (Hrun : forall bm r w', runs (if reached_ready_ (node w2) then tryReportSuccess tick
      else res ← @startProcess bm; _ ← (if bool_decide (res = kSuccess) then supervise ActivateSupervision else mret tt); mret res) w2 r w' ->
    runs (@activate bm) w r w').
  { intros bm r w' Hr. unfold activate. eapply bind_run; [exact E1|]. by eapply bind_run; [exact E2|]. }
  assert (Hnode : child w <> Registered -> node w2 = set_returned false (node w)).
  { intros Hc. specialize (S1 Hc). rewrite (proj1 (Hst ltac:(by rewrite (proj1 (proj2 S1))))). apply S1. }
  assert (C2 : core w w2) by (etrans; [done|by apply keeps_core]).
  destruct (reached_ready_ (node w2)) eqn:Er.
  - destruct (post_run _ _ _ (tryReportSuccess_settled w2 H2)) as (r & w3 & E3 & C3 & H3). exists r, w3. split_and!; [by apply Hrun|by intros _; apply Hrun| |done|].
    + exists 0. split; [lia|]. etrans; [|exact C3]. destruct C2. by destruct w.
    + intros _ Hc Hr. rewrite (Hnode Hc) in Er. simpl in Er. congruence.
  - destruct (startProcess_spec w2) as (r & w3 & E3 & Ed & n & Hn & Hcore & Hsup & Hrep);
      [by rewrite (c_script _ _ C2)|by apply settled_inactive|intros X; rewrite (k_config _ _ Hk2) in X; destruct (k_flags _ _ Hk2 X) as [_ ->]; exact F1|].
    assert (Hc3 : core (bump n w) w3) by (etrans; [|exact Hcore]; destruct C2 as [B1 B2 B3 B4 B5 B6]; split; try done; simpl; by rewrite B5).
    rewrite (c_retries _ _ C2) in Hn. destruct (decide (r = kSuccess)) as [->|Hr].
    + destruct (post_run _ _ _ (supervise_ready w3 Hrep)) as (v & w4 & E4 & C4 & H4 & Hs4). exists kSuccess, w4. split_and!.
      * apply Hrun. eapply bind_run; [exact E3|]. rewrite bool_decide_true by done. eapply bind_run; [exact E4|apply ret_run].
      * intros Href. apply Hrun. eapply bind_run; [apply Ed; destruct (refused w3) eqn:X; [by rewrite (c_refused _ _ C4 X) in Href|done]|].
        rewrite bool_decide_true by done. eapply bind_run; [exact E4|apply ret_run].
      * exists n. split; [done|by etrans].
      * by apply is_ready_settled.
      * intros _ Hc _. split; [done|]. rewrite Hs4. apply supervised_eq; [|apply Hc3].
        rewrite Hsup. simpl. by rewrite (Hnode Hc).
    + exists r, w3. split_and!.
      * apply Hrun. eapply bind_run; [exact E3|]. rewrite bool_decide_false by done. eapply bind_run; apply ret_run.
      * intros Href. apply Hrun. eapply bind_run; [by apply Ed|]. rewrite bool_decide_false by done. eapply bind_run; apply ret_run.
      * by exists n.
      * by left.
      * done.
Qed.


(** ** Deactivation *)

(** A component whose process was started: it has ended, runs, or could not be signalled. *)
Definition over (w : world) : Prop :=
  child w <> Registered /\ (process_state_ (node w) = kTerminated \/ process_state_ (node w) = kFailed).
Definition started (w : world) : Prop :=
  calm w /\ (over w \/ live kTerminating w /\ refused w = true \/ live kRunning w).

Lemma dead_over w : dead w -> over w.
Proof. intros Hd. split; [by apply dead_child|left; apply Hd]. Qed.

Lemma started_ended w w' : ended w w' -> started w'.
Proof. intros (_ & Hd & Hc & _). split; [done|left]. by apply dead_over. Qed.

Lemma started_same w w' : same w w' -> started w -> started w'.
Proof.
  intros Hs [Hc Hw]. split; [by eapply same_calm|]. destruct Hw as [Ho|[[Hl Hr]|Hl]].
  - left. unfold over. destruct Hs as (-> & -> & _). exact Ho.
  - right; left. split; [by eapply same_live|]. by destruct Hs as (_ & _ & _ & -> & _).
  - right; right. by eapply same_live.
Qed.

Lemma tick_started w : started w -> post tick w (fun _ w' => keeps w w' /\ started w' /\ journal w' = journal w).
Proof.
  intros Hs. eapply post_mono; [apply tick_any|].
  - destruct Hs as [_ [[Hc _]|[[(_ & -> & _) _]|(_ & -> & _)]]]; [done|intros _; apply terminating_runs|intros _; apply running_runs].
  - intros _ w' [H|[_ H]]; [split_and!; [by apply same_keeps|by eapply started_same|apply H]|split_and!; [apply H|by eapply started_ended|apply H]].
Qed.

(** Writes that leave the phase alone. *)
Lemma write_started (f : t -> t) w : (forall n, core (set_node n w) (set_node (f n) w)) ->
  (forall n, process_state_ (f n) = process_state_ n /\ termination_requested_ (f n) = termination_requested_ n /\ termination_waiter_ (f n) = termination_waiter_ n) ->
  started w -> post (write tick f) w (fun _ w' => core w w' /\ started w' /\ journal w' = journal w /\ exists w1, keeps w w1 /\ node w' = f (node w1)).
Proof.
  intros Hf Hg Hs. apply post_write. eapply post_mono; [by apply tick_started|]. cbn beta. intros _ w1 (Hk & H1 & Hj).
  destruct (Hg (node w1)) as (G1 & G2 & G3). split_and!; [| |done|by exists w1].
  - etrans; [by apply keeps_core|]. destruct (Hf (node w1)) as [B1 B2 B3 B4 B5 B6]. by split.
  - unfold started, over, live, calm, gone in *. simpl. by rewrite G1, G2, G3.
Qed.

Lemma started_supervise c w : started w -> started (supervise_world c w).
Proof.
  destruct (supervise_world_rest c w) as (E1 & _ & _ & E4 & _).
  unfold started, over, live, calm, gone. by rewrite node_supervise_world, E1, E4.
Qed.

Lemma supervise_started w : started w -> post (supervise DeactivateSupervision) w (fun _ w' =>
  started w' /\ exists w1, keeps w w1 /\ journal w1 = journal w /\ w' = supervise_world DeactivateSupervision w1).
Proof.
  intros Hs. apply post_supervise. eapply post_mono; [by apply tick_started|]. cbn beta. intros _ w1 (Hk & H1 & Hj).
  split; [by apply started_supervise|]. by exists w1.
Qed.

Lemma terminate_started w : mortal (script w) -> started w -> post terminateProcess w (fun _ w' => keeps w w' /\ calm w' /\ (over w' \/ live kTerminating w' /\ refused w' = true)).
Proof.
  intros Hm [Hc [Ho|[[Hl Hr]|Hl]]].
  - assert (Hlost : lost (process_state_ (node w)) w w) by (split; [done|]; by split; [apply Ho|]).
    eapply post_mono; [by apply (terminateProcess_lost (process_state_ (node w)) w w); [intros Hrk; by destruct Ho as [_ [Ho|Ho]]; rewrite Ho in Hrk|exact Hlost|]|]. cbn beta. intros _ w' [(Hk & Hc1 & Hst) Hcalm].
    split_and!; [done|done|]. left. split; [done|]. rewrite Hst. by destruct Ho as [_ [-> | ->]]; [left|right].
  - unfold terminateProcess. apply post_bind. unfold setState at 1. apply post_bind, post_read.
    eapply post_mono; [apply (tick_live _ _ Hl terminating_runs)|]. cbn beta. unfold getState. intros _ w1 [Hs|He].
    + rewrite (proj1 Hs), (proj1 (proj2 Hl)). cbn. apply post_ret. apply post_ret. split_and!; [by apply same_keeps|by eapply same_calm|].
      right. split; [by eapply same_live|]. by destruct Hs as (_ & _ & _ & -> & _).
    + destruct He as (Hk & Hd & Hc1 & _). rewrite (proj1 (proj2 Hd)). cbn. apply post_ret. apply post_ret.
      split_and!; [done|done|left; by apply dead_over].
  - eapply post_mono; [apply (terminateProcess_phase kRunning w); [done|by right|split_and!; [done|by left|done]]|]. cbn beta.
    intros _ w' [(Hk & Hp & Hcalm) Hd]. split_and!; [done|by apply Hcalm|]. destruct Hd as [Hd|Hr]; [left; by apply dead_over|].
    destruct Hp as [Hl'|Hd]; [by right|left; by apply dead_over].
Qed.

Lemma setIdle_over w : over w -> post (setState tick kIdle) w (fun _ w' => lost kIdle w w').
Proof.
  intros [Hc Ho]. eapply post_mono; [by apply setState_still|]. cbn beta. intros b w' [Hb Hs].
  assert (b = true) as -> by (by destruct Ho as [Ho|Ho]; rewrite Ho in Hb). eapply lost_same; [done|]. by eapply lost_set.
Qed.

(** The calls of a deactivation: first the supervision is told, then there are signals. *)
Definition deactivation_calls (n : t) (l : list Call) : Prop :=
  if calls_supervision n then exists signals, l = Supervise DeactivateSupervision :: signals /\ Forall is_signal signals
  else Forall is_signal l.

(** The outcome of a deactivation. *)
Definition quit (w w' : world) : Prop :=
  core w w' /\ settled w' /\ (ready_condition (config_ (node w)) <> ReadyTerminated -> reached_ready_ (node w') = false) /\
  supervision_handle_ (node w') = supervision_handle_ (supervised DeactivateSupervision (node w)) /\
  (exists l, journal w' = journal w ++ l /\ deactivation_calls (node w) l) /\
  (refused w' = false -> child w' <> Registered /\ process_state_ (node w') = kIdle).

(** The state before the process is terminated. *)
Definition unsupervised (w w3 : world) : Prop :=
  core w w3 /\ started w3 /\ (ready_condition (config_ (node w)) <> ReadyTerminated -> reached_ready_ (node w3) = false) /\
  supervision_handle_ (node w3) = supervision_handle_ (supervised DeactivateSupervision (node w)) /\
  journal w3 = journal w ++ if calls_supervision (node w) then [Supervise DeactivateSupervision] else [].

Lemma deactivate_start w : started w ->
  post (_ ← write tick (set_returned false); _ ← write tick (set_ready false); supervise DeactivateSupervision) w (fun _ w' => unsupervised w w').
Proof.
  intros Hs. apply post_bind. eapply post_mono; [by apply (write_started (set_returned false))|]. cbn beta. intros _ w1 (C1 & H1 & J1 & v1 & K1 & N1).
  apply post_bind. eapply post_mono; [by apply (write_started (set_ready false))|]. cbn beta. intros _ w2 (C2 & H2 & J2 & v2 & K2 & N2).
  eapply post_mono; [by apply supervise_started|]. cbn beta. intros _ w3 (H3 & v3 & K3 & J3 & ->).
  assert (Esup : supervision_handle_ (node v3) = supervision_handle_ (node w) /\ config_ (node v3) = config_ (node w)).
  { rewrite (k_supervision _ _ K3), (k_config _ _ K3), N2. simpl. rewrite (k_supervision _ _ K2), (k_config _ _ K2), N1. simpl. split; apply K1. }
  destruct Esup as [Es Ec]. split_and!; [|done| | |].
  - etrans; [done|]. etrans; [done|]. etrans; [by apply keeps_core|apply core_supervise].
  - intros Hn. rewrite node_supervise_world. simpl.
    destruct (k_flags _ _ K3) as [-> _]; [by rewrite (c_config _ _ C2), (c_config _ _ C1)|]. by rewrite N2.
  - rewrite node_supervise_world. simpl. by apply supervised_eq.
  - unfold supervise_world. assert (E : calls_supervision (node v3) = calls_supervision (node w)).
    { unfold calls_supervision, isSupervised. by rewrite Es, Ec. }
    rewrite E. destruct (calls_supervision (node w)); simpl; rewrite J3, J2, J1; [done|]. by rewrite app_nil_r.
Qed.

Lemma bind_assoc_run {A B C} (m : M A) (k : A -> M B) (k' : B -> M C) w c w' :
  runs ((m ≫= k) ≫= k') w c w' -> runs (m ≫= fun a => k a ≫= k') w c w'.
Proof.
  intros [f0 Hf]. exists f0. intros fuel Hle. specialize (Hf fuel Hle). unfold mbind, M_bind in *.
  destruct (m fuel w) as [[a w1]|]; [|done]. cbn in *. exact Hf.
Qed.

(** The first three steps of [deactivate] and the rest. *)
Lemma deactivate_split w r w' :
  runs ((_ ← write tick (set_returned false); _ ← write tick (set_ready false); supervise DeactivateSupervision) ≫=
        fun _ => _ ← terminateProcess; _ ← setState tick kIdle; mret kSuccess) w r w' ->
  runs deactivate w r w'.
Proof.
  intros Hr. unfold deactivate. apply bind_assoc_run in Hr. destruct Hr as [f0 Hr]. exists f0. intros fuel Hle. specialize (Hr fuel Hle).
  unfold mbind, M_bind in *. destruct (write tick (set_returned false) fuel w) as [[u w1]|]; [|done]. cbn in *.
  destruct (write tick (set_ready false) fuel w1) as [[u2 w2]|]; [|done]. cbn in *. exact Hr.
Qed.

Lemma deactivate_spec w : mortal (script w) -> started w -> post deactivate w (fun r w' => r = kSuccess /\ quit w w').
Proof.
  intros Hm Hs. assert (Hp : post ((_ ← write tick (set_returned false); _ ← write tick (set_ready false); supervise DeactivateSupervision) ≫=
      fun _ => _ ← terminateProcess; _ ← setState tick kIdle; mret kSuccess) w (fun r w' => r = kSuccess /\ quit w w')).
  2:{ destruct Hp as (r & w' & Hr & HQ). exists r, w'. split; [by apply deactivate_split|done]. }
  apply post_bind. eapply post_mono; [by apply deactivate_start|]. cbn beta. intros _ w3 (C & H3 & Hready & Hsup & Hj3).
  assert (Hm3 : mortal (script w3)) by (by rewrite (c_script _ _ C)).
  apply post_bind. eapply post_mono; [by apply terminate_started|]. cbn beta. intros _ w4 (K4 & C4 & H4).
  assert (Hfin : forall w5, keeps w3 w5 -> core w w5 /\ (ready_condition (config_ (node w)) <> ReadyTerminated -> reached_ready_ (node w5) = false) /\
    supervision_handle_ (node w5) = supervision_handle_ (supervised DeactivateSupervision (node w)) /\
    exists l, journal w5 = journal w ++ l /\ deactivation_calls (node w) l).
  { intros w5 K5. split_and!; [etrans; [done|by apply keeps_core]| |rewrite <- Hsup; apply K5|].
    - intros Hn. destruct (k_flags _ _ K5) as [-> _]; [by rewrite (c_config _ _ C)|auto].
    - destruct (k_journal _ _ K5) as (l & El & Fl). rewrite Hj3, <- app_assoc in El. eexists. split; [exact El|].
      unfold deactivation_calls. destruct (calls_supervision (node w)); [by exists l|done]. }
  apply post_bind. destruct H4 as [Ho|[Hl Hr]].
  - eapply post_mono; [apply (post_and _ _ _ _ (setIdle_over w4 Ho) (setIdle_resting w3 w4 K4 ltac:(split; [done|right; split; [apply Ho|]; by destruct Ho as [_ [-> | ->]]])))|]. cbn beta.
    intros b w5 [(K5 & Hc5 & Hx5) [Cm5 _]]. destruct (Hfin w5 ltac:(by etrans)) as (F1 & F2 & F3 & F4). apply post_ret. split; [done|].
    split_and!; [done|left; by eapply (lost_resting kIdle w4)|done|done|done|done].
  - eapply post_mono; [apply (setIdle_resting w4 w4 (reflexivity w4)); split; [done|by left]|]. cbn beta. intros b w5 [Cm5 H5].
    assert (K5 : keeps w4 w5) by (destruct b; apply H5). destruct (Hfin w5 ltac:(by etrans)) as (F1 & F2 & F3 & F4). apply post_ret. split; [done|].
    split_and!; [done| |done|done|done|].
    + left. destruct b; [by eapply (lost_resting kIdle w4)|apply H5].
    + intros Hrf. by rewrite (k_refused _ _ K5 Hr) in Hrf.
Qed.

(** Without a process, nothing sets the flag again. *)
Lemma terminateProcess_flag w : kills (script w) (child w) -> child w <> Registered ->
  post terminateProcess w (fun _ w' => child w' <> Registered /\ reached_ready_ (node w') = reached_ready_ (node w)).
Proof.
  intros Hm Hc. unfold terminateProcess. apply post_bind. eapply post_mono; [by apply setState_still|]. cbn beta. intros b w1 [_ Hs].
  assert (H1 : child w1 <> Registered /\ reached_ready_ (node w1) = reached_ready_ (node w)).
  { destruct Hs as (-> & -> & _). by destruct b. }
  destruct b; [|by apply post_ret]. eapply post_mono;
    [apply (handleTerminationProcess_kept (fun w' => child w' <> Registered /\ reached_ready_ (node w') = reached_ready_ (node w)))|];
    [by intros w2 [? _]|intros w2 w3 (-> & -> & _); done|by intros w2 w3 _ ? [? _]|done|done|done|done| |by intros _ w2 [? _]].
  destruct Hs as (_ & -> & _ & _ & _ & -> & _). exact Hm.
Qed.

Lemma same_unregistered w w' : same w w' -> child w <> Registered -> child w' <> Registered.
Proof. by intros (_ & -> & _). Qed.

Lemma deactivate_still w : kills (script w) (child w) -> child w <> Registered -> settled w ->
  post deactivate w (fun r w' => core w w' /\ settled w' /\ child w' <> Registered /\ reached_ready_ (node w') = false).
Proof.
  intros Hm Hc [[Hcalm Hr]|(_ & (Hc' & _) & _)]; [|done]. assert (Hx : process_state_ (node w) <> kStarting /\ process_state_ (node w) <> kRunning).
  { destruct Hr as [[(Hc' & _) _]|[_ Hx]]; [done|exact Hx]. }
  unfold deactivate. apply post_bind. eapply post_mono; [by apply write_still|]. cbn beta. intros _ w1 S1.
  apply post_bind. eapply post_mono; [apply write_still, (same_unregistered _ _ S1), Hc|]. cbn beta. intros _ w2 S2.
  apply post_bind, post_supervise. eapply post_mono; [apply tick_still, (same_unregistered _ _ S2), (same_unregistered _ _ S1), Hc|]. cbn beta. intros _ w2b S3.
  set (w3 := supervise_world DeactivateSupervision w2b).
  assert (Hn : exists h, node w3 = set_supervision h (set_ready false (set_returned false (node w)))).
  { eexists. unfold w3. rewrite node_supervise_world. destruct S3 as (-> & _), S2 as (-> & _). simpl. destruct S1 as (-> & _). done. }
  destruct (supervise_world_rest DeactivateSupervision w2b) as (G1 & G2 & G3 & G4 & _). fold w3 in G1, G2, G3, G4.
  destruct Hn as [h Hn]. assert (Hc3 : child w3 <> Registered) by (rewrite G1; apply (same_unregistered _ _ S3), (same_unregistered _ _ S2), (same_unregistered _ _ S1), Hc).
  assert (C3 : core w w3).
  { destruct S1 as (_ & _ & L1 & R1 & _ & X1 & _), S2 as (_ & _ & L2 & R2 & _ & X2 & _), S3 as (_ & _ & L3 & R3 & _ & X3 & _). simpl in *.
    split; rewrite ?Hn, ?G2, ?G3, ?G4; simpl; congruence. }
  assert (Hm3 : kills (script w3) (child w3)).
  { rewrite (c_script _ _ C3), G1. destruct S3 as (_ & -> & _), S2 as (_ & -> & _). simpl. destruct S1 as (_ & -> & _). exact Hm. }
  assert (Hl : lost (process_state_ (node w)) w3 w3) by (split_and!; [done|done|by rewrite Hn]). assert (Hcalm3 : calm w3) by (unfold calm; by rewrite Hn).
  apply post_bind. eapply post_mono; [exact (post_and _ _ _ _ (terminateProcess_lost _ w3 w3 (fun _ => Hm3) Hl Hcalm3) (terminateProcess_flag w3 Hm3 Hc3))|]. cbn beta.
  intros _ w4 [[Hl4 Hcalm4] [Hc4 Hf4]].
  assert (Hr4 : resting w4) by (eapply lost_resting; [exact Hl4|exact Hcalm4|by destruct (process_state_ (node w))..]; tauto).
  apply post_bind. eapply post_mono; [exact (post_and _ _ _ _ (setIdle_resting w3 w4 (proj1 Hl4) Hr4) (setState_still kIdle w4 Hc4))|]. cbn beta.
  intros b w5 [[Hcalm5 H5] [_ S5]]. apply post_ret.
  assert (Hk5 : keeps w3 w5 /\ resting w5) by (destruct b; [split; [apply H5|by eapply (lost_resting kIdle w3)]|done]). split_and!.
  - etrans; [exact C3|apply keeps_core, Hk5].
  - left. apply Hk5.
  - exact (same_unregistered _ _ S5 Hc4).
  - destruct S5 as (-> & _). destruct b; simpl; rewrite Hf4, Hn; done.
Qed.

(** ** The process component as a node of the graph *)

(** Between its jobs, in an environment in which a killed process goes and a
    signal to a process that is not there is refused. *)
Definition node_ok (w : world) : Prop :=
  settled w /\ (ready_condition (config_ (node w)) <> ReadyTerminated \/ child w <> Registered) /\ forall c, kills (script w) c.

Lemma settled_started w : settled w -> child w = Registered -> started w.
Proof.
  intros [[Hc [Hl|[Hx _]]]|(Hc & Hl & _)] Hr; [split; auto|done|split; auto].
Qed.

Lemma node_deactivate w : node_ok w -> post deactivate w (fun _ w' => node_ok w' /\ core w w' /\ reached_ready_ (node w') = false).
Proof.
  intros (Hs & Hn & Hm). destruct (decide (child w = Registered)) as [Hc|Hc].
  - destruct Hn as [Hn|]; [|done]. eapply post_mono; [by apply deactivate_spec; [split; apply Hm|apply settled_started]|]. cbn beta.
    intros r w' [_ (C & Hs' & Hr & _)]. split_and!; [split_and!; [done|left|by rewrite (c_script _ _ C)]|done|auto]. by rewrite (c_config _ _ C).
  - eapply post_mono; [by apply deactivate_still|]. cbn beta. intros r w' (C & Hs' & Hc' & Hr).
    split_and!; [split_and!; [done|by right|by rewrite (c_script _ _ C)]|done|done].
Qed.

(** More fuel changes no result. *)
Definition monotone {A} (m : M A) : Prop := forall f f' w x, f <= f' -> m f w = Ret x -> m f' w = Ret x.

Lemma direct_monotone {A} (m : M A) : direct m -> monotone m.
Proof. intros Hd f f' w x _. by rewrite (Hd f), (Hd f'). Qed.

Lemma monotone_bind {A B} (m : M A) (k : A -> M B) : monotone m -> (forall a, monotone (k a)) -> monotone (m ≫= k).
Proof.
  intros Hm Hk f f' w x Hf. unfold mbind, M_bind. destruct (m f w) as [[a w']|] eqn:E; [|done]. rewrite (Hm f f' w _ Hf E). cbn. by apply Hk.
Qed.

Lemma force_loop_rounds r : forall r' f w x, r <= r' -> force_loop r f w = Ret x -> force_loop r' f w = Ret x.
Proof.
  induction r as [|r IH]; intros [|r'] f w x Hr; [done|done|lia|]. cbn [force_loop]. unfold mbind, M_bind.
  destruct (forceTermination f w) as [[[] w1]|]; [|done|done]. cbn [mbind outcome_bind].
  destruct (waitForTermination f w1) as [[[] w2]|]; [done| |done]. cbn [mbind outcome_bind]. apply IH. lia.
Qed.

Lemma monotone_terminate : monotone terminateProcess.
Proof.
  assert (Ht : forall B (g : t -> B * t), direct (access tick g)) by (intros; apply direct_access, direct_tick).
  unfold terminateProcess. apply monotone_bind.
  - apply direct_monotone. unfold setState, read, compare_exchange, write.
    repeat first [apply Ht | apply direct_bind; [|intros ?] | apply direct_ret | case_match].
  - intros []; [|by apply direct_monotone, direct_ret]. unfold handleTerminationProcess, read, write, requestTermination, send.
    apply monotone_bind; [apply direct_monotone, Ht|intros _]. apply monotone_bind; [apply direct_monotone|intros sent].
    { repeat first [apply direct_os_call | apply direct_modify | apply direct_ret | apply direct_bind; [|intros ?]]. }
    apply monotone_bind; [apply direct_monotone; destruct sent; [apply Ht|apply direct_ret]|intros gone].
    apply monotone_bind; [|intros _; apply direct_monotone, Ht]. destruct gone; [apply direct_monotone, direct_ret|].
    intros f f' w x Hf. unfold handleForcedTermination. rewrite (direct_force_loop f f), (direct_force_loop f' f'). by apply force_loop_rounds.
Qed.

Lemma monotone_deactivate : monotone deactivate.
Proof.
  assert (Ht : forall B (g : t -> B * t), direct (access tick g)) by (intros; apply direct_access, direct_tick).
  unfold deactivate, write. apply monotone_bind; [apply direct_monotone, Ht|intros _]. apply monotone_bind; [apply direct_monotone, Ht|intros _].
  apply monotone_bind; [apply direct_monotone; unfold supervise; apply direct_bind; [apply Ht|intros; apply direct_modify]|intros _].
  apply monotone_bind; [apply monotone_terminate|intros _]. apply monotone_bind; [|intros _; apply direct_monotone, direct_ret].
  apply direct_monotone. unfold setState, read, compare_exchange, write.
  repeat first [apply Ht | apply direct_bind; [|intros ?] | apply direct_ret | case_match].
Qed.

Definition returned {A} (o : outcome A) : bool := match o with Ret _ => true | Abort _ => false end.

(** The fuel that a computation needs can be found by trying. *)
Definition find_fuel {A} (m : M A) (w : world) (H : exists f, returned (m f w) = true) : { f : nat | returned (m f w) = true } :=
  constructive_indefinite_ground_description_nat (fun f => returned (m f w) = true) (fun f => bool_dec _ _) H.

Definition process_node : Type := { w : world | node_ok w }.

Lemma deactivate_node_total (p : process_node) : { x : RequestResult * process_node | runs deactivate (`p) x.1 (`x.2) /\
  core (`p) (`x.2) /\ reached_ready_ (node (`x.2)) = false }.
Proof.
  destruct p as [w Hw]. pose proof (node_deactivate w Hw) as Hp. simpl.
  assert (He : exists f, returned (deactivate f w) = true).
  { destruct Hp as (r & w' & [f Hf] & _). exists f. by rewrite Hf. }
  destruct (find_fuel deactivate w He) as [f Hf]. destruct (deactivate f w) as [[r w']|] eqn:E; [|done].
  assert (Hr : runs deactivate w r w') by (exists f; intros f' Hle; by eapply monotone_deactivate).
  assert (HQ : node_ok w' /\ core w w' /\ reached_ready_ (node w') = false).
  { destruct Hp as (r2 & w2 & Hr2 & HQ). by destruct (runs_unique _ _ _ _ _ _ Hr Hr2) as [_ ->]. }
  exists (r, w' ↾ proj1 HQ). simpl. by split_and!; [|apply HQ..].
Defined.

Definition deactivate_node (p : process_node) : RequestResult * process_node := proj1_sig (deactivate_node_total p).

(** Process components fulfil what the graph relies on. *)
#[export] Instance process_info_component : IComponent process_node.
Proof.
  refine {| Components.active p := ProcessInfoNode.active (node (`p)); Components.getIdentifier p := ProcessInfoNode.getIdentifier (node (`p));
            Components.deactivate := deactivate_node |}.
  - intros p. apply (proj2_sig (deactivate_node_total p)).
  - intros p. unfold ProcessInfoNode.getIdentifier. apply (proj2_sig (deactivate_node_total p)).
Defined.

#[export] Instance process_info_node : ProcessNode process_node := { Graphs.getPid p := ProcessInfoNode.getPid (node (`p)) }.


(** ** Claims *)

(** C24: an activation always ends, if killing a process has an effect.  Whatever
    else the process and the operating system do, [activate] with enough fuel for
    its loop over SIGKILL returns after at most one launch more than the configured
    retries, and leaves the component in a state from which its next job can run.
    The assertions of a debug build hold unless a signal could not be sent. *)
Theorem activation_ends w : mortal (script w) -> settled w -> exists r w',
  runs (@activate release_build) w r w' /\ (refused w' = false -> runs (@activate debug_build) w r w') /\
  settled w' /\ launches w' <= launches w + S (start_retries_ (node w)).
Proof.
  intros Hm Hs. destruct (activate_spec w Hm Hs) as (r & w' & E & Ed & (n & Hn & C) & Hs' & _). exists r, w'. split_and!; [done|done|done|].
  rewrite (c_launches _ _ C). simpl. lia.
Qed.

(** An activation that reports success has made the component ready.  It is
    active, and its process runs, or has ended well, or has ended badly after it was
    ready, and then the manager was told; a component that is ready when its process
    has terminated has a process that ended well.  A supervised component is
    supervised from now on. *)
Theorem successful_activation_is_ready w w' : mortal (script w) -> settled w -> child w <> Registered -> active (node w) = false ->
  runs (@activate release_build) w kSuccess w' ->
  active (node w') = true /\
  (child w' = Registered /\ getState (node w') = kRunning /\ ready_condition (config_ (node w)) <> ReadyTerminated \/
   child w' = NoChild /\ is_self_terminating (config_ (node w)) = true /\ exit_status_ (node w') = 0%Z \/
   child w' = NoChild /\ ready_condition (config_ (node w)) <> ReadyTerminated /\ last (told w') = Some kTerminationFailure) /\
  supervision_handle_ (node w') = supervision_handle_ (supervised ActivateSupervision (node w)).
Proof.
  intros Hm Hs Hc Ha E. destruct (activate_spec w Hm Hs) as (r & w1 & E1 & _ & (n & _ & C) & _ & Hr).
  destruct (runs_unique _ _ _ _ _ _ E E1) as [<- <-].
  destruct (Hr eq_refl Hc Ha) as [[Hready Hcase] Hsup]. pose proof (c_config _ _ C) as Ecfg. simpl in Ecfg. split_and!; [done| |done].
  assert (Hcl : forall st, classify (config_ (node w)) st = kIgnore -> is_self_terminating (config_ (node w)) = true /\ st = 0%Z).
  { intros st. unfold classify. destruct (is_self_terminating _); simpl; [|done]. destruct (Z.eqb_spec st 0); done. }
  rewrite Ecfg in Hcase. destruct Hcase as [[Hn [Hcalm [(Hl & Hst & _)|[Hd Ht]]]]|(_ & Hd & Hcl')].
  - left. by split_and!.
  - rewrite Ecfg in Ht. destruct (classify (config_ (node w)) (exit_status_ (node w'))) eqn:Ecl.
    + right; left. destruct (Hcl _ Ecl). split_and!; [apply Hd|done|done].
    + right; right. split_and!; [apply Hd|done|done].
  - right; left. destruct (Hcl _ Hcl'). split_and!; [apply Hd|done|done].
Qed.

(** C25: a deactivation stops the process, if killing it has an effect.  [deactivate] of a component whose
    process was started always ends, with success; no process is left and the
    component can be started again, unless a signal could not be sent.  The component
    is inactive.  If it is supervised, the first call that it makes is the one that ends the supervision, and
    every signal to the process comes after that; otherwise it sends signals only. *)
Theorem deactivation_stops_process w : mortal (script w) -> started w -> exists w' calls, runs deactivate w kSuccess w' /\
  (refused w' = false -> child w' <> Registered /\ getState (node w') = kIdle) /\
  (ready_condition (config_ (node w)) <> ReadyTerminated -> active (node w') = false) /\
  supervision_handle_ (node w') = supervision_handle_ (supervised DeactivateSupervision (node w)) /\
  journal w' = journal w ++ calls /\
  (if calls_supervision (node w) then exists signals, calls = Supervise DeactivateSupervision :: signals /\ Forall is_signal signals
   else Forall is_signal calls) /\
  settled w'.
Proof.
  intros Hm Hs. destruct (post_run _ _ _ (deactivate_spec w Hm Hs)) as (r & w' & E & -> & C & Hs' & Hr & Hsup & (l & Ej & Hl) & Hidle).
  by exists w', l.
Qed.

(** C26: the graph can use process components.  [ProcessInfoNode] fulfils the contract
    that the graph's theorems assume of a component, in every environment in which signals have an effect:
    [deactivate] on the main thread returns, keeps the identifier and leaves the
    component inactive. *)
Theorem process_component_contract (p : process_node) :
  exists r p', runs deactivate (`p) r (`p') /\ Components.deactivate p = (r, p') /\
    Components.active p' = false /\ Components.getIdentifier p' = Components.getIdentifier p.
Proof.
  destruct (Components.deactivate p) as [r p'] eqn:E. exists r, p'. simpl in E. unfold deactivate_node in E.
  pose proof (proj2_sig (deactivate_node_total p)) as (H1 & H2 & H3). rewrite E in H1, H2, H3. split_and!; [done|done|done|]. apply H2.
Qed.

(** A process that never goes, however often SIGKILL is sent, keeps the loop going. *)
Definition stays (w : world) : Prop :=
  child w = Registered /\ gone (node w) = false /\ forall n, script w (clock w + n) Registered = mkInput None 0.

Lemma stays_stepped w : stays w -> stays (stepped w).
Proof. intros (Hc & Hg & Hs). split_and!; [done|done|]. intros n. cbn. by replace (S (clock w + n)) with (clock w + S n) by lia. Qed.

Lemma stays_tick fuel w : stays w -> tick fuel w = Ret (0%Z, stepped w).
Proof. intros (Hc & Hg & Hs). unfold tick, next_input. rewrite Hc. specialize (Hs 0). rewrite Nat.add_0_r in Hs. by rewrite Hs. Qed.

Lemma bind_eq {A B} (m : M A) (k : A -> M B) fuel w a w1 : m fuel w = Ret (a, w1) -> (m ≫= k) fuel w = k a fuel w1.
Proof. intros E. unfold mbind, M_bind. by rewrite E. Qed.

Lemma force_loop_forever rounds : forall fuel w, stays w -> force_loop rounds fuel w = Abort OutOfFuel.
Proof.
  induction rounds as [|rounds IH]; intros fuel w Hw; [done|].
  set (w1 := note Sigkill (stepped w)). assert (Hw1 : stays w1) by (destruct (stays_stepped w Hw) as (? & ? & ?); done).
  assert (Ek : forceTermination fuel w = Ret (true, w1)).
  { unfold forceTermination, send, os_call, mbind, M_bind. by rewrite (stays_tick fuel w Hw). }
  assert (Ew : waitForTermination fuel w1 = Ret (false, stepped w1)).
  { unfold waitForTermination, read, access. rewrite (stays_tick fuel w1 Hw1). cbn [mbind outcome_bind fst snd].
    rewrite set_node_id. destruct Hw as (_ & Hg & _). unfold gone in Hg. cbn. unfold TerminationWaiter.wait_with_timeout. by rewrite Hg. }
  cbn [force_loop]. rewrite (bind_eq _ _ _ _ _ _ Ek). cbn iota. rewrite (bind_eq _ _ _ _ _ _ Ew). by apply IH, stays_stepped.
Qed.

(** ** Concrete components *)

Module Example.

Definition cfg : ComponentConfig := mkConfig 5%Z ReportingAndSupervised false true ReadyRunning 1.
Definition quiet_steps (n : nat) : list input := repeat (mkInput None 0) n.

(** These inputs; after them every process ends at once, and no call succeeds. *)
Definition then_over (l : list input) : nat -> Child -> input := fun n _ => nth n l (mkInput (Some 9%Z) 1).

Lemma then_over_kills l c : kills (then_over l) c.
Proof. intros n. exists (length l). unfold then_over. case_decide; rewrite nth_overflow by lia; [by eexists|done]. Qed.

Lemma then_over_mortal l : mortal (then_over l).
Proof. split; apply then_over_kills. Qed.

(** The first process does not report within its time, is stopped and ends with
    a signal; the second one reports. *)
Definition two_starts : list input :=
  quiet_steps 13 ++ [mkInput None 7; mkInput None 0] ++ quiet_steps 2 ++ [mkInput None (-1)] ++ quiet_steps 5 ++ [mkInput (Some 15%Z) 0] ++
  quiet_steps 13 ++ [mkInput None 8] ++ quiet_steps 11.

Definition w_idle : world :=
  mkWorld (mk false 0 0 kIdle false cfg None false (Some []) 1 5%Z None TerminationWaiter.make) NoChild (then_over two_starts) 0 0 false [] [].

Definition after_activation (script : nat -> Child -> input) : world :=
  mkWorld (mk false 8 0 kRunning true cfg (Some 0) true (Some [ActivateSupervision]) 1 5%Z None TerminationWaiter.make)
    Registered script 0 2 false [kIgnore] [Sigterm; Supervise ActivateSupervision].

(** The second process does not react to the first signal, and is killed. *)
Definition w_stop : world := after_activation (then_over (quiet_steps 10 ++ [mkInput (Some 9%Z) 0] ++ quiet_steps 20)).

(** Neither signal has an effect on the second process. *)
Definition w_stuck : world := after_activation (fun _ _ => mkInput None 0).

Lemma w_idle_settled : settled w_idle.
Proof. left. by split; [|right]. Qed.

Lemma w_stop_started script : started (after_activation script).
Proof. split; [done|]. right; right. by repeat split. Qed.

(** The state after the activation. *)
Definition w_up : world := Nat.iter 49 stepped (after_activation (then_over two_starts)).

Lemma w_idle_activated : runs (@activate release_build) w_idle kSuccess w_up.
Proof. exists 0. intros fuel _. vm_compute. reflexivity. Qed.

Lemma activation_ends_witness : mortal (script w_idle) /\ settled w_idle /\ exists r w',
  runs (@activate release_build) w_idle r w' /\ (refused w' = false -> runs (@activate debug_build) w_idle r w') /\
  settled w' /\ launches w' <= launches w_idle + S (start_retries_ (node w_idle)).
Proof.
  split; [exact (then_over_mortal _)|]. split; [exact w_idle_settled|].
  apply (activation_ends w_idle); [exact (then_over_mortal _)|exact w_idle_settled].
Defined.

Lemma successful_activation_is_ready_witness : launches w_up = 2 /\ active (node w_up) = true /\
  (child w_up = Registered /\ getState (node w_up) = kRunning /\ ready_condition cfg <> ReadyTerminated \/
   child w_up = NoChild /\ is_self_terminating cfg = true /\ exit_status_ (node w_up) = 0%Z \/
   child w_up = NoChild /\ ready_condition cfg <> ReadyTerminated /\ last (told w_up) = Some kTerminationFailure) /\
  supervision_handle_ (node w_up) = Some [ActivateSupervision].
Proof.
  split; [reflexivity|]. apply (successful_activation_is_ready w_idle w_up).
  - exact (then_over_mortal _).
  - exact w_idle_settled.
  - discriminate.
  - reflexivity.
  - exact w_idle_activated.
Qed.

Lemma deactivation_stops_process_witness : exists w' calls, runs deactivate w_stop kSuccess w' /\
  (refused w' = false -> child w' <> Registered /\ getState (node w') = kIdle) /\
  (ready_condition cfg <> ReadyTerminated -> active (node w') = false) /\
  supervision_handle_ (node w') = Some [ActivateSupervision; DeactivateSupervision] /\
  journal w' = [Sigterm; Supervise ActivateSupervision] ++ calls /\
  (exists signals, calls = Supervise DeactivateSupervision :: signals /\ Forall is_signal signals) /\
  settled w'.
Proof. exact (deactivation_stops_process w_stop (then_over_mortal _) (w_stop_started _)). Defined.

Lemma w_stop_killed : match deactivate 5 w_stop with
  | Ret (_, w') => refused w' = false /\ told w' = [kIgnore; kIgnore] /\
      journal w' = [Sigterm; Supervise ActivateSupervision; Supervise DeactivateSupervision; Sigterm; Sigkill; Sigkill]
  | Abort _ => False
  end.
Proof. vm_compute. by split_and!. Qed.

(** If the process never goes, the deactivation never ends: nothing bounds the
    number of times SIGKILL is sent. *)
Lemma deactivation_may_never_end : started w_stuck /\ forall fuel, deactivate fuel w_stuck = Abort OutOfFuel.
Proof.
  split; [exact (w_stop_started _)|]. intros fuel. cbv -[force_loop]. rewrite force_loop_forever; [done|]. by split_and!.
Qed.

(** The end of the process falls between the change to [kTerminating] and the
    flag that says that its end was asked for: it is reported as a failure. *)
Lemma stop_race_reported : match deactivate 5 (after_activation (then_over (quiet_steps 5 ++ [mkInput (Some 0%Z) 0] ++ quiet_steps 9))) with
  | Ret (_, w') => told w' = [kIgnore; kTerminationFailure]
  | Abort _ => False
  end.
Proof. vm_compute. reflexivity. Qed.

(** Without a supervision from the factory the constructor uses a null pointer. *)
Lemma construction_without_supervision : @make release_build cfg None = Abort NullPointer.
Proof. reflexivity. Qed.

(** A component of the graph in an environment in which killing has an effect. *)
Lemma w_idle_ok : node_ok w_idle.
Proof. split_and!; [exact w_idle_settled|by left|exact (then_over_kills two_starts)]. Qed.

Definition p_idle : process_node := exist _ w_idle w_idle_ok.

Lemma process_component_contract_witness : exists r p', runs deactivate (`p_idle) r (`p') /\ Components.deactivate p_idle = (r, p') /\
  Components.active p' = false /\ Components.getIdentifier p' = 5%Z.
Proof. exact (process_component_contract p_idle). Defined.

End Example.

End ProcessInfoNodeProofs.
