(* ===== verification/Watchdog.v ===== *)
(** * The watchdog

    [WatchdogImpl] (watchdog/details/WatchdogImpl.cpp): the configuration of the
    hardware watchdog, its activation, and the calls the main loop makes.  The device
    is reached through [open], [ioctl], [write] and [close]: a parameter with the
    documented behaviour of watchdog devices.  The unit of time differs between the
    platforms, seconds on Linux and milliseconds on QNX. *)

From stdpp Require Import prelude strings.
From S2P Require Import Prelude.

Module Watchdog.

(** The requests of [linux/watchdog.h]. *)
Inductive Request := WDIOC_SETOPTIONS | WDIOC_KEEPALIVE | WDIOC_SETTIMEOUT | WDIOC_GETTIMEOUT | WDIOC_GETTIMELEFT.

Definition WDIOS_DISABLECARD : Z := 1.
Definition WDIOS_ENABLECARD : Z := 2.

(** [Fcntl::open], [DeviceIf::ioctl], [Unistd::write] of the magic character and
    [Unistd::close].  [ioctl] gets and returns the payload. *)
Class DeviceIf (D : Type) := {
  open_ : D -> option Z * D;
  ioctl : Z -> Request -> Z -> D -> Z * Z * D;
  write_magic : Z -> D -> D;
  close_ : Z -> D -> D
}.

(** [__QNXNTO__] *)
Class Platform := qnx : bool.

Inductive ELibState := idle | activated | react.

#[export] Instance ELibState_eq_dec : EqDecision ELibState.
Proof. solve_decision. Defined.

(** [configuration::WatchdogConfig]; the timeout is a [uint32_t]. *)
Record WatchdogConfig := mkWatchdogConfig {
  device_file_path : string;
  max_timeout_ms : Z;
  deactivate_on_shutdown : bool;
  require_magic_close : bool
}.

Record DeviceConfig := mkDeviceConfig {
  timeoutMin : Z;
  timeoutMax : Z;
  canBeDeactivated : bool;
  needsMagicClose : bool
}.

Record WatchdogDevice := mkDevice { config : DeviceConfig; fileDescriptor : Z }.

Section Impl.
Context {D : Type} `{DeviceIf D} `{Platform}.

Definition kTimeoutMinMillis : Z := if qnx then 100 else 1000.
Definition kTimeoutResolution : Z := if qnx then 1 else 1000.
Definition kTimeoutMaxMillis : Z := 30 * 1000.

Definition INT32_MAX : Z := 2 ^ 31 - 1.

(** [device_] is the device behind the interfaces. *)
Record t := mk {
  watchdogDevice_ : option WatchdogDevice;
  state_ : ELibState;
  device_ : D
}.

Definition make (d : D) : t := mk None idle d.

(** Conversions; on QNX there are none. *)
Definition toDevice (ms : Z) : Z := if qnx then ms else (ms / 1000)%Z.
Definition fromDevice (v : Z) : outcome Z :=
  if qnx then Ret v else _ ← assert (v <? Z.quot INT32_MAX 1000)%Z; Ret (v * 1000)%Z.

Definition deviceAlreadyConfigured (w : t) : bool := bool_decide (is_Some (watchdogDevice_ w)).

Definition hasValidTimeout (c : DeviceConfig) : bool :=
  (kTimeoutMinMillis <=? timeoutMax c)%Z && (timeoutMax c <=? kTimeoutMaxMillis)%Z && (timeoutMax c mod kTimeoutResolution =? 0)%Z.

Definition validateTimeoutWithCycleTime (cycleTimeInNs : Z) (c : DeviceConfig) : bool :=
  (Z.quot cycleTimeInNs 1000000 <=? timeoutMax c)%Z.

Definition isValidDeviceConfig (c : DeviceConfig) (cycleTimeInNs : Z) (w : t) : bool :=
  negb (deviceAlreadyConfigured w) && hasValidTimeout c && validateTimeoutWithCycleTime cycleTimeInNs c.

Definition configureDevice (c : DeviceConfig) (cycleTimeInNs : Z) (w : t) : bool * t :=
  if negb (bool_decide (state_ w = idle)) then (false, w)
  else if negb (isValidDeviceConfig c cycleTimeInNs w) then (false, w)
  else (true, mk (Some (mkDevice c (-1))) (state_ w) (device_ w)).

Definition init (c : WatchdogConfig) (cycle_time_ns : Z) (w : t) : bool * t :=
  if (UINT16_MAX <? max_timeout_ms c)%Z then (false, w)
  else configureDevice (mkDeviceConfig 0 (wrap 16 (max_timeout_ms c)) (deactivate_on_shutdown c) (require_magic_close c)) cycle_time_ns w.

(** ** Operations on the device: result and changed device. *)

Definition setEnableCardOption (fd : Z) (d : D) : bool * D :=
  let '(r, _, d') := ioctl fd WDIOC_SETOPTIONS WDIOS_ENABLECARD d in ((0 <=? r)%Z, d').

Definition getConfiguredTimeout (fd : Z) (d : D) : outcome (Z * Z * D) :=
  let '(r, v, d') := ioctl fd WDIOC_GETTIMEOUT (-1) d in
  if (r <? 0)%Z then Ret ((-1)%Z, v, d') else ms ← fromDevice v; Ret (0%Z, ms, d').

Definition getRemainingTime (fd : Z) (d : D) : outcome (Z * Z * D) :=
  let '(r, v, d') := ioctl fd WDIOC_GETTIMELEFT (-1) d in
  if (r <? 0)%Z then Ret ((-1)%Z, v, d') else ms ← fromDevice v; Ret (0%Z, ms, d').

Definition setTimeout (fd timeoutInMs : Z) (d : D) : outcome (bool * D) :=
  let timeoutBefore := toDevice timeoutInMs in
  let '(r, timeout, d') := ioctl fd WDIOC_SETTIMEOUT timeoutBefore d in
  timeout_ms ← fromDevice timeout;
  before_ms ← fromDevice timeoutBefore;
  Ret ((0 <=? r)%Z && (before_ms =? timeout_ms)%Z, d').

Definition updateTimeout (fd : Z) (c : DeviceConfig) (configuredTimeoutOld : Z) (d : D) : outcome (bool * D) :=
  if (configuredTimeoutOld =? timeoutMax c)%Z then Ret (true, d)
  else
    '(result, _, d1) ← getRemainingTime fd d;
    if (0 <=? result)%Z then setTimeout fd (timeoutMax c) d1 else Ret (false, d1).

Definition enableDevice (dev : WatchdogDevice) (d : D) : outcome (bool * WatchdogDevice * D) :=
  _ ← assert (fileDescriptor dev =? -1)%Z;
  let '(r, d1) := open_ d in
  let fd := default (-1)%Z r in
  let dev1 := mkDevice (config dev) fd in
  if (0 <=? fd)%Z then
    '(result, configuredTimeout, d2) ← getConfiguredTimeout fd d1;
    if (0 <=? result)%Z then
      '(updated, d3) ← updateTimeout fd (config dev) configuredTimeout d2;
      if (updated : bool) then let '(b, d4) := setEnableCardOption fd d3 in Ret (b, dev1, d4)
      else Ret (false, dev1, d3)
    else Ret (false, dev1, d2)
  else Ret (false, dev1, d1).

Definition disableDevice (dev : WatchdogDevice) (d : D) : outcome (bool * WatchdogDevice * D) :=
  _ ← assert (0 <=? fileDescriptor dev)%Z;
  if negb (canBeDeactivated (config dev)) then Ret (false, dev, d)
  else
    let d1 := if needsMagicClose (config dev) then write_magic (fileDescriptor dev) d else d in
    let '(_, _, d2) := ioctl (fileDescriptor dev) WDIOC_SETOPTIONS WDIOS_DISABLECARD d1 in
    Ret (true, mkDevice (config dev) (-1), close_ (fileDescriptor dev) d2).

(** ** The interface *)

Definition enable (w : t) : outcome (bool * t) :=
  if negb (bool_decide (state_ w = idle)) then Ret (false, w)
  else match watchdogDevice_ w with
       | None => Ret (true, w)
       | Some dev =>
           '(wasEnabled, dev', d) ← enableDevice dev (device_ w);
           Ret (wasEnabled, mk (Some dev') (if (wasEnabled : bool) then activated else state_ w) d)
       end.

(** [*watchdogDevice_] *)
Definition the_device (w : t) : outcome WatchdogDevice := value_of (watchdogDevice_ w).

Definition disable (w : t) : outcome t :=
  if negb (bool_decide (state_ w = activated)) then Ret w
  else
    dev ← the_device w;
    '(disabled, dev', d) ← disableDevice dev (device_ w);
    Ret (mk (Some dev') (if (disabled : bool) then idle else state_ w) d).

Definition serviceWatchdog (w : t) : outcome t :=
  if negb (bool_decide (state_ w = activated)) then Ret w
  else
    dev ← the_device w;
    _ ← assert (0 <=? fileDescriptor dev)%Z;
    Ret (mk (watchdogDevice_ w) (state_ w) (ioctl (fileDescriptor dev) WDIOC_KEEPALIVE 0 (device_ w)).2).

(** In state [activated] the call does not return: the thread waits for the reset. *)
Definition fireWatchdogReaction (w : t) : outcome t :=
  if negb (bool_decide (state_ w = activated)) then Ret w
  else
    dev ← the_device w;
    _ ← assert (0 <=? fileDescriptor dev)%Z;
    '(_, d) ← setTimeout (fileDescriptor dev) 0 (device_ w);
    Ret (mk (watchdogDevice_ w) react d).

End Impl.
Arguments t : clear implicits.

(** ** Documented behaviour of watchdog devices

    [timeout] is in the unit of the device; a value that a request returns is a
    time the device supports or, if the request failed, the payload it was given. *)
Class DeviceLaws (D : Type) `{DeviceIf D} := {
  timeout : D -> Z;
  running : D -> bool;
  law_open d fd d' : open_ d = (Some fd, d') -> (0 <= fd)%Z;
  law_get fd p d r v d' : ioctl fd WDIOC_GETTIMEOUT p d = (r, v, d') -> (0 <= r)%Z -> v = timeout d /\ timeout d' = timeout d;
  law_left fd p d r v d' : ioctl fd WDIOC_GETTIMELEFT p d = (r, v, d') -> timeout d' = timeout d;
  law_set fd p d r v d' : ioctl fd WDIOC_SETTIMEOUT p d = (r, v, d') -> (0 <= r)%Z -> timeout d' = v;
  law_enable fd d r v d' : ioctl fd WDIOC_SETOPTIONS WDIOS_ENABLECARD d = (r, v, d') -> (0 <= r)%Z -> running d' = true /\ timeout d' = timeout d;
  law_value fd rq p d r v d' : ioctl fd rq p d = (r, v, d') -> v = p \/ (0 <= v < 2000000)%Z
}.

Section Proofs.
Context {D : Type} {HD : DeviceIf D} {HL : DeviceLaws D} {HP : Platform}.
Implicit Types (w : t D) (d : D).

Definition value_ok (v : Z) : Prop := (-1 <= v < 2000000)%Z.

Lemma fromDevice_ok v : value_ok v -> fromDevice v = Ret (if qnx then v else v * 1000)%Z.
Proof.
  intros Hv. unfold fromDevice. destruct qnx; [done|]. unfold value_ok in Hv.
  rewrite (proj2 (Z.ltb_lt _ _)); [done|]. change (Z.quot INT32_MAX 1000) with 2147483%Z. lia.
Qed.

Lemma ioctl_value fd rq p d r v d' : value_ok p -> ioctl fd rq p d = (r, v, d') -> value_ok v.
Proof. unfold value_ok. intros Hp E. destruct (law_value _ _ _ _ _ _ _ E) as [->|]; lia. Qed.

Definition config_ok (c : DeviceConfig) : Prop := hasValidTimeout c = true.

Lemma config_range c : config_ok c -> (0 < timeoutMax c <= 30000)%Z /\ (timeoutMax c mod kTimeoutResolution = 0)%Z.
Proof.
  unfold config_ok, hasValidTimeout. rewrite !andb_true_iff, !Z.leb_le, Z.eqb_eq. unfold kTimeoutMinMillis, kTimeoutMaxMillis. destruct qnx; lia.
Qed.

Lemma toDevice_ok ms : (0 <= ms <= 30000)%Z -> value_ok (toDevice ms).
Proof. intros Hm. unfold toDevice, value_ok. destruct qnx; [lia|].
  assert (0 <= ms / 1000 <= 30000)%Z by (split; [apply Z.div_pos; lia|apply Z.div_le_upper_bound; lia]). lia.
Qed.

Lemma fromDevice_toDevice c : config_ok c -> fromDevice (toDevice (timeoutMax c)) = Ret (timeoutMax c).
Proof.
  intros Hc. destruct (config_range c Hc) as [Hr Hm]. rewrite fromDevice_ok by (apply toDevice_ok; lia). unfold toDevice, kTimeoutResolution in *.
  destruct qnx; [done|]. f_equal. pose proof (Z.div_mod (timeoutMax c) 1000 ltac:(lia)). lia.
Qed.

Lemma setTimeout_ret fd ms d : (0 <= ms <= 30000)%Z -> exists b d', setTimeout fd ms d = Ret (b, d').
Proof.
  intros Hm. unfold setTimeout. destruct (ioctl fd WDIOC_SETTIMEOUT (toDevice ms) d) as [[r v] d'] eqn:E.
  rewrite (fromDevice_ok v) by (eapply ioctl_value; [|exact E]; by apply toDevice_ok). cbn [mbind outcome_bind].
  rewrite fromDevice_ok by (by apply toDevice_ok). by eexists _, _.
Qed.

Lemma setTimeout_sets fd c d d' : config_ok c -> setTimeout fd (timeoutMax c) d = Ret (true, d') -> timeout d' = toDevice (timeoutMax c).
Proof.
  intros Hc. destruct (config_range c Hc) as [Hr _]. unfold setTimeout. destruct (ioctl fd _ _ d) as [[r v] d1] eqn:E.
  assert (Hv : value_ok v) by (eapply ioctl_value; [|exact E]; apply toDevice_ok; lia).
  rewrite (fromDevice_ok v) by done. cbn [mbind outcome_bind]. rewrite fromDevice_ok by (apply toDevice_ok; lia). cbn [mbind outcome_bind].
  intros [= Hb <-]. apply andb_true_iff in Hb as [Hr0%Z.leb_le Heq%Z.eqb_eq]. rewrite (law_set _ _ _ _ _ _ E Hr0). destruct qnx; lia.
Qed.

Lemma getRemainingTime_ret fd d : exists r v d', getRemainingTime fd d = Ret (r, v, d') /\ timeout d' = timeout d.
Proof.
  unfold getRemainingTime. destruct (ioctl fd _ _ d) as [[r v] d'] eqn:E. pose proof (law_left _ _ _ _ _ _ E) as Ht.
  destruct (r <? 0)%Z; [by eexists _, _, _|]. rewrite fromDevice_ok by (by eapply ioctl_value; [|exact E]). by eexists _, _, _.
Qed.

Lemma getConfiguredTimeout_ret fd d : exists r v d', getConfiguredTimeout fd d = Ret (r, v, d') /\
  ((0 <= r)%Z -> v = (if qnx then timeout d else timeout d * 1000)%Z /\ timeout d' = timeout d).
Proof.
  unfold getConfiguredTimeout. destruct (ioctl fd _ _ d) as [[r v] d'] eqn:E.
  destruct (Z.ltb_spec r 0); [eexists _, _, _; split; [done|]; lia|]. rewrite fromDevice_ok by (by eapply ioctl_value; [|exact E]).
  eexists _, _, _. split; [done|]. intros _. destruct (law_get _ _ _ _ _ _ E ltac:(lia)) as [-> ->]. done.
Qed.

(** A device that was enabled has the configured timeout. *)
Lemma enableDevice_spec dev d : config_ok (config dev) -> fileDescriptor dev = (-1)%Z ->
  exists b fd d', enableDevice dev d = Ret (b, mkDevice (config dev) fd, d') /\ (-1 <= fd)%Z /\
    (b = true -> (0 <= fd)%Z /\ running d' = true /\ timeout d' = toDevice (timeoutMax (config dev))).
Proof.
  intros Hc Hfd. unfold enableDevice. rewrite Hfd. cbn [assert Z.eqb Z.opp mbind outcome_bind]. destruct (open_ d) as [r d1] eqn:Eo. cbn.
  destruct r as [fd|]; cbn; [|by eexists _, _, _]. pose proof (law_open _ _ _ Eo) as Hfd0. rewrite (proj2 (Z.leb_le _ _)) by done.
  destruct (getConfiguredTimeout_ret fd d1) as (r & v & d2 & E2 & H2). rewrite E2. cbn [mbind outcome_bind].
  destruct (Z.leb_spec 0 r); [|eexists _, _, _; split; [done|]; split; [lia|done]]. destruct (H2 ltac:(lia)) as [Hv Ht2].
  assert (Hup : exists b d3, updateTimeout fd (config dev) v d2 = Ret (b, d3) /\ (b = true -> timeout d3 = toDevice (timeoutMax (config dev)))).
  { unfold updateTimeout. destruct (config_range _ Hc) as [Hr _]. destruct (Z.eqb_spec v (timeoutMax (config dev))) as [Ev|Ev].
    - eexists _, _. split; [done|]. intros _. rewrite Ht2. unfold toDevice. rewrite <- Ev, Hv. destruct qnx; [done|]. by rewrite Z.div_mul.
    - destruct (getRemainingTime_ret fd d2) as (r' & v' & d2' & E3 & _). rewrite E3. cbn [mbind outcome_bind]. destruct (0 <=? r')%Z; [|by eexists _, _].
      destruct (setTimeout_ret fd (timeoutMax (config dev)) d2' ltac:(lia)) as (b & d3 & E4). rewrite E4. eexists _, _. split; [done|].
      intros ->. by eapply setTimeout_sets. }
  destruct Hup as (b & d3 & E3 & H3). rewrite E3. cbn [mbind outcome_bind]. destruct b; [|eexists _, _, _; split; [done|]; split; [lia|done]].
  unfold setEnableCardOption. destruct (ioctl fd _ _ d3) as [[r4 v4] d4] eqn:E4. eexists _, _, _. split; [done|]. split; [lia|].
  intros Hr%Z.leb_le. destruct (law_enable _ _ _ _ _ E4 Hr) as [-> ->]. auto.
Qed.

(** ** Calls in any order *)

(** [failed]: the last activation failed.  The manager does not start then. *)
Inductive reached : bool -> t D -> Prop :=
| wd_make d : reached false (make d)
| wd_init failed w c cycle b w' : (0 <= max_timeout_ms c)%Z -> reached failed w -> init c cycle w = (b, w') -> reached failed w'
| wd_enable w b w' : reached false w -> enable w = Ret (b, w') -> reached (negb b) w'
| wd_disable failed w w' : reached failed w -> disable w = Ret w' -> reached failed w'
| wd_service failed w w' : reached failed w -> serviceWatchdog w = Ret w' -> reached failed w'
| wd_fire failed w w' : reached failed w -> fireWatchdogReaction w = Ret w' -> reached failed w'.

Definition inv (failed : bool) w : Prop :=
  match watchdogDevice_ w with
  | None => state_ w = idle
  | Some dev => config_ok (config dev) /\
      (state_ w = idle -> failed = false -> fileDescriptor dev = (-1)%Z) /\ (state_ w <> idle -> (0 <= fileDescriptor dev)%Z)
  end.

Lemma init_spec c cycle w : (0 <= max_timeout_ms c)%Z -> exists b w', init c cycle w = (b, w') /\
  (b = true <-> state_ w = idle /\ watchdogDevice_ w = None /\ (kTimeoutMinMillis <= max_timeout_ms c <= kTimeoutMaxMillis)%Z /\
                (max_timeout_ms c mod kTimeoutResolution = 0)%Z /\ (Z.quot cycle 1000000 <= max_timeout_ms c)%Z) /\
  (b = false -> w' = w) /\
  (b = true -> exists dev, w' = mk (Some dev) idle (device_ w) /\ config_ok (config dev) /\ timeoutMax (config dev) = max_timeout_ms c /\ fileDescriptor dev = (-1)%Z).
Proof.
  intros Hc. unfold init, configureDevice. destruct (Z.ltb_spec UINT16_MAX (max_timeout_ms c)) as [Hbig|Hsmall].
  { eexists _, _. split; [done|]. split_and!; [|done|done]. unfold kTimeoutMaxMillis, UINT16_MAX in *. split; [done|]. intros (_ & _ & ? & _). lia. }
  assert (Hw : wrap 16 (max_timeout_ms c) = max_timeout_ms c) by (apply wrap_small; unfold UINT16_MAX in *; lia). rewrite Hw.
  destruct (decide (state_ w = idle)) as [Hi|Hi]; [rewrite bool_decide_true by done|rewrite bool_decide_false by done]; cbn [negb];
    [|eexists _, _; split; [done|]; split_and!; [|done|done]; by split; [|intros [? _]]].
  destruct (isValidDeviceConfig _ _ w) eqn:Ev; cbn [negb]; eexists _, _; (split; [done|]); split_and!; try done.
  - split; [|done]. intros _. unfold isValidDeviceConfig, hasValidTimeout, validateTimeoutWithCycleTime, deviceAlreadyConfigured in Ev. cbn in Ev.
    rewrite !andb_true_iff, negb_true_iff, bool_decide_eq_false, !Z.leb_le, Z.eqb_eq in Ev. destruct Ev as [[Hn [[H1 H2] H3]] H4].
    split_and!; try done. by destruct (watchdogDevice_ w); [destruct Hn|].
  - intros _. eexists. rewrite Hi. split_and!; try done. unfold isValidDeviceConfig in Ev. rewrite !andb_true_iff in Ev. apply Ev.
  - split; [done|]. intros (_ & Hn & [H1 H2] & H3 & H4). unfold isValidDeviceConfig, hasValidTimeout, validateTimeoutWithCycleTime, deviceAlreadyConfigured in Ev.
    cbn in Ev. rewrite Hn in Ev. rewrite (proj2 (Z.leb_le _ _) H1), (proj2 (Z.leb_le _ _) H2), H3, (proj2 (Z.leb_le _ _) H4) in Ev. done.
Qed.

Lemma inv_init failed w c cycle b w' : (0 <= max_timeout_ms c)%Z -> inv failed w -> init c cycle w = (b, w') -> inv failed w'.
Proof.
  intros Hc Hi E. destruct (init_spec c cycle w Hc) as (b1 & w1 & E1 & _ & Hf & Ht). rewrite E in E1. injection E1 as <- <-.
  destruct b; [|by rewrite Hf]. destruct (Ht eq_refl) as (dev & -> & Hok & _ & Hfd). unfold inv. cbn. by split_and!.
Qed.

(** Everything returns, but for a second activation after one that failed. *)
Lemma enable_inv w : inv false w -> exists b w', enable w = Ret (b, w') /\ inv (negb b) w'.
Proof.
  unfold inv, enable. intros Hi. destruct (decide (state_ w = idle)) as [Es|Es]; [rewrite bool_decide_true by done|rewrite bool_decide_false by done]; cbn [negb].
  - destruct (watchdogDevice_ w) as [dev|] eqn:Ed; [|eexists _, _; split; [done|]; cbn; by rewrite Ed]. destruct Hi as (Hc & Hfd & _).
    destruct (enableDevice_spec dev (device_ w) Hc (Hfd Es eq_refl)) as (b & fd & d' & E & Hge & Ht). rewrite E. cbn [mbind outcome_bind].
    eexists _, _. split; [done|]. destruct b; cbn; rewrite ?Es; (split; [done|]); split; try done. intros _. by apply Ht.
  - eexists _, _. split; [done|]. cbn. destruct (watchdogDevice_ w) as [dev|]; [|done]. destruct Hi as (Hc & _ & Hfd). by split_and!.
Qed.

Lemma disable_inv failed w : inv failed w -> exists w', disable w = Ret w' /\ inv failed w'.
Proof.
  unfold inv, disable, the_device. intros Hi. destruct (decide (state_ w = activated)) as [Es|Es]; [rewrite bool_decide_true by done|rewrite bool_decide_false by done]; cbn [negb];
    [|by exists w]. rewrite Es in *. destruct (watchdogDevice_ w) as [dev|] eqn:Ed; [|done]. destruct Hi as (Hc & _ & Hfd). cbn [value_of mbind outcome_bind].
  specialize (Hfd ltac:(done)). unfold disableDevice. rewrite (proj2 (Z.leb_le _ _) Hfd). cbn [assert mbind outcome_bind].
  destruct (canBeDeactivated _); cbn [negb].
  - destruct (ioctl _ _ _ _) as [[r v] d2]. cbn. eexists. split; [done|]. cbn. by split_and!.
  - cbn. eexists. split; [done|]. cbn. by split_and!.
Qed.

Lemma service_inv failed w : inv failed w -> exists w', serviceWatchdog w = Ret w' /\ inv failed w'.
Proof.
  unfold inv, serviceWatchdog, the_device. intros Hi. destruct (decide (state_ w = activated)) as [Es|Es]; [rewrite bool_decide_true by done|rewrite bool_decide_false by done]; cbn [negb];
    [|by exists w]. rewrite Es in *. destruct (watchdogDevice_ w) as [dev|] eqn:Ed; [|done]. destruct Hi as (Hc & _ & Hfd). cbn [value_of mbind outcome_bind].
  rewrite (proj2 (Z.leb_le _ _)) by (by apply Hfd). cbn [assert mbind outcome_bind]. eexists. split; [done|]. cbn. by split_and!.
Qed.

Lemma fire_inv failed w : inv failed w -> exists w', fireWatchdogReaction w = Ret w' /\ inv failed w'.
Proof.
  unfold inv, fireWatchdogReaction, the_device. intros Hi. destruct (decide (state_ w = activated)) as [Es|Es]; [rewrite bool_decide_true by done|rewrite bool_decide_false by done]; cbn [negb];
    [|by exists w]. rewrite Es in *. destruct (watchdogDevice_ w) as [dev|] eqn:Ed; [|done]. destruct Hi as (Hc & _ & Hfd). cbn [value_of mbind outcome_bind].
  rewrite (proj2 (Z.leb_le _ _)) by (by apply Hfd). cbn [assert mbind outcome_bind].
  destruct (setTimeout_ret (fileDescriptor dev) 0 (device_ w) ltac:(lia)) as (b & d & E). rewrite E. cbn. eexists. split; [done|]. cbn.
  split_and!; [done|done|]. intros _. by apply Hfd.
Qed.

Lemma reached_inv failed w : reached failed w -> inv failed w.
Proof.
  induction 1 as [d|failed w c cycle b w' Hc Hr IH E|w b w' Hr IH E|failed w w' Hr IH E|failed w w' Hr IH E|failed w w' Hr IH E].
  - done.
  - by eapply inv_init.
  - destruct (enable_inv w IH) as (b1 & w1 & E1 & H1). rewrite E in E1. by injection E1 as <- <-.
  - destruct (disable_inv failed w IH) as (w1 & E1 & H1). rewrite E in E1. by injection E1 as <-.
  - destruct (service_inv failed w IH) as (w1 & E1 & H1). rewrite E in E1. by injection E1 as <-.
  - destruct (fire_inv failed w IH) as (w1 & E1 & H1). rewrite E in E1. by injection E1 as <-.
Qed.

(** C30: a watchdog that is enabled protects the main loop.  If [init] took the
    configuration and [enable] succeeded, the device runs with exactly the
    configured timeout, which is in the supported range, and the cycle in which the
    main loop services it is less than a millisecond longer. *)
Theorem watchdog_enabled_as_configured c cycle d w w' : (0 <= max_timeout_ms c)%Z ->
  init c cycle (make d) = (true, w) -> enable w = Ret (true, w') ->
  state_ w' = activated /\ running (device_ w') = true /\
  (timeout (device_ w') * (if qnx then 1 else 1000) = max_timeout_ms c)%Z /\
  (kTimeoutMinMillis <= max_timeout_ms c <= kTimeoutMaxMillis)%Z /\ (cycle < (max_timeout_ms c + 1) * 1000000)%Z.
Proof.
  intros Hc Ei Ee. destruct (init_spec c cycle (make d) Hc) as (b & w1 & E & Hb & _ & Ht). rewrite Ei in E. injection E as <- <-.
  destruct (proj1 Hb eq_refl) as (_ & _ & Hr & Hm & Hq). destruct (Ht eq_refl) as (dev & -> & Hok & Ht' & Hfd).
  destruct (enableDevice_spec dev d Hok Hfd) as (b & fd & d' & E & _ & Hen). unfold enable in Ee. cbn in Ee. rewrite E in Ee. cbn in Ee.
  injection Ee as -> <-. destruct (Hen eq_refl) as (_ & Hrun & Hto). cbn. split_and!; try apply Hr; try done.
  - rewrite Hto, Ht'. unfold toDevice, kTimeoutResolution in *. destruct qnx; [lia|]. pose proof (Z.div_mod (max_timeout_ms c) 1000 ltac:(lia)). lia.
  - destruct (Z.le_gt_cases 0 cycle); [|unfold kTimeoutMinMillis in Hr; destruct qnx; lia].
    rewrite Z.quot_div_nonneg in Hq by lia. pose proof (Z.div_mod cycle 1000000 ltac:(lia)). pose proof (Z.mod_pos_bound cycle 1000000 ltac:(lia)). lia.
Qed.

(** The watchdog's assertions hold.  After any sequence of calls, for every
    device with the documented behaviour, every call returns: no file descriptor is
    used that is not open, and no time overflows.  [enable] is excepted after an
    [enable] that failed.  Once the reaction was fired, no call changes anything. *)
Theorem watchdog_calls_return failed w : reached failed w ->
  (exists w', serviceWatchdog w = Ret w') /\ (exists w', fireWatchdogReaction w = Ret w') /\ (exists w', disable w = Ret w') /\
  (failed = false -> exists b w', enable w = Ret (b, w')) /\
  (state_ w = react -> serviceWatchdog w = Ret w /\ fireWatchdogReaction w = Ret w /\ disable w = Ret w /\ enable w = Ret (false, w) /\
                       forall c cycle, init c cycle w = (false, w)).
Proof.
  intros Hr%reached_inv. split_and!.
  - destruct (service_inv failed w Hr) as (w' & E & _). by exists w'.
  - destruct (fire_inv failed w Hr) as (w' & E & _). by exists w'.
  - destruct (disable_inv failed w Hr) as (w' & E & _). by exists w'.
  - intros ->. destruct (enable_inv w Hr) as (b & w' & E & _). by exists b, w'.
  - intros Es. unfold serviceWatchdog, fireWatchdogReaction, disable, enable, init, configureDevice. rewrite Es. cbn. split_and!; try done.
    intros c cycle. by destruct (_ <? _)%Z.
Qed.

End Proofs.

(** ** A device *)
Module Example.

Record device := mkDev { seconds : Z; on : bool; broken : bool }.

(** The register for the seconds has a limited width. *)
Definition shown (d : device) : Z := (seconds d mod 2000000)%Z.

#[export] Instance device_if : DeviceIf device := {
  open_ d := (Some 3%Z, d);
  ioctl fd rq p d :=
    match rq with
    | WDIOC_GETTIMEOUT => (0%Z, shown d, d)
    | WDIOC_GETTIMELEFT => (if broken d then (-1)%Z else 0%Z, shown d, d)
    | WDIOC_SETTIMEOUT => if (p <? 2000000)%Z && (0 <=? p)%Z then (0%Z, p, mkDev p (on d) (broken d)) else ((-1)%Z, p, d)
    | WDIOC_SETOPTIONS => (0%Z, p, mkDev (seconds d) (p =? WDIOS_ENABLECARD)%Z (broken d))
    | WDIOC_KEEPALIVE => (0%Z, p, d)
    end;
  write_magic fd d := d;
  close_ fd d := d
}.

#[export] Instance device_laws : DeviceLaws device.
Proof.
  refine {| timeout := shown; running := on |}.
  - intros d fd d' [= <- <-]. done.
  - intros fd p d r v d' [= <- <- <-] _. done.
  - intros fd p d r v d' [= <- <- <-]. done.
  - intros fd p d r v d'. cbn. destruct (Z.ltb_spec p 2000000), (Z.leb_spec 0 p); cbn; intros [= <- <- <-] Hr; try lia. unfold shown. cbn. apply Z.mod_small. lia.
  - intros fd d r v d' [= <- <- <-] _. done.
  - intros fd rq p d r v d'. destruct rq; cbn; [intros [= <- <- <-]; by left|intros [= <- <- <-]; by left| |..];
      [destruct (_ && _); intros [= <- <- <-]; by left|..]; intros [= <- <- <-]; right; apply Z.mod_pos_bound; lia.
Defined.

#[export] Instance linux : Platform := false.

Definition d0 : device := mkDev 60 false false.
Definition ten_seconds : WatchdogConfig := mkWatchdogConfig "/dev/watchdog" 10000 true true.
Definition w_init : t device := (init ten_seconds 50000000 (make d0)).2.
Definition w_on : t device := match enable w_init with Ret (_, w) => w | Abort _ => w_init end.

Lemma watchdog_enabled_as_configured_witness :
  state_ w_on = activated /\ running (device_ w_on) = true /\ (timeout (device_ w_on) * (if qnx then 1 else 1000) = max_timeout_ms ten_seconds)%Z /\
  (kTimeoutMinMillis <= max_timeout_ms ten_seconds <= kTimeoutMaxMillis)%Z /\ (50000000 < (max_timeout_ms ten_seconds + 1) * 1000000)%Z.
Proof.
  apply (watchdog_enabled_as_configured ten_seconds 50000000 d0 w_init w_on).
  - discriminate.
  - vm_compute. reflexivity.
  - vm_compute. reflexivity.
Defined.

Lemma w_on_reached : reached false w_on.
Proof.
  apply (wd_enable w_init true); [|vm_compute; reflexivity].
  apply (wd_init false (make d0) ten_seconds 50000000 true); [discriminate|apply wd_make|vm_compute; reflexivity].
Defined.

Lemma watchdog_calls_return_witness :
  (exists w', serviceWatchdog w_on = Ret w') /\ (exists w', fireWatchdogReaction w_on = Ret w') /\ (exists w', disable w_on = Ret w') /\
  (false = false -> exists b w', enable w_on = Ret (b, w')) /\
  (state_ w_on = react -> serviceWatchdog w_on = Ret w_on /\ fireWatchdogReaction w_on = Ret w_on /\ disable w_on = Ret w_on /\
     enable w_on = Ret (false, w_on) /\ forall c cycle, init c cycle w_on = (false, w_on)).
Proof. apply (watchdog_calls_return false w_on). exact w_on_reached. Defined.

(** An activation that fails leaves the device open, and the next one aborts. *)
Lemma second_enable_aborts : (enable (init ten_seconds 50000000 (make (mkDev 60 false true))).2 ≫= fun '(b, w1) => enable w1) = Abort AssertionFailed.
Proof. reflexivity. Qed.

(** A cycle that is longer than the timeout is accepted. *)
Lemma longer_cycle_accepted : (init (mkWatchdogConfig "/dev/watchdog" 1000 true true) 1000999999 (make d0)).1 = true.
Proof. vm_compute. reflexivity. Qed.

End Example.

End Watchdog.
