(* ===== verification/Mpmc.v ===== *)
(** * The job queue of the worker threads

    [MPMCConcurrentQueue] (common/concurrency/mpmc_concurrent_queue.hpp): a ring of
    slots without a lock.  A thread waits on a semaphore, claims a ticket with
    [fetch_add], waits until the turn of the slot is its own, moves the item and
    advances the turn.  Here every access to shared memory is a step, and the
    steps of any number of threads are interleaved in any order; a wait may time out
    and a call on a semaphore may fail.  The counters are unbounded. *)

From stdpp Require Import prelude.
From S2P Require Import Prelude Queues.

Module MPMCConcurrentQueue.

Section Queue.
Context {T : Type}.

(** The capacity is a power of two: [2 ^ log_capacity]. *)
Variable log_capacity : nat.

Definition Capacity : nat := 2 ^ log_capacity.

Record Slot := mkSlot { turn : nat; item : option T }.

(** [m_items] and [m_spaces] are the values of the semaphores. *)
Record t := mk {
  m_slots : list Slot;
  m_head : nat;
  m_tail : nat;
  m_stopped : bool;
  m_items : nat;
  m_spaces : nat
}.

Definition make : t := mk (replicate Capacity (mkSlot 0 None)) 0 0 false 0 Capacity.

Definition set_head (h : nat) (q : t) : t := mk (m_slots q) h (m_tail q) (m_stopped q) (m_items q) (m_spaces q).
Definition set_tail (h : nat) (q : t) : t := mk (m_slots q) (m_head q) h (m_stopped q) (m_items q) (m_spaces q).
Definition set_stopped (q : t) : t := mk (m_slots q) (m_head q) (m_tail q) true (m_items q) (m_spaces q).
Definition set_items (n : nat) (q : t) : t := mk (m_slots q) (m_head q) (m_tail q) (m_stopped q) n (m_spaces q).
Definition set_spaces (n : nat) (q : t) : t := mk (m_slots q) (m_head q) (m_tail q) (m_stopped q) (m_items q) n.
Definition set_slot (i : nat) (s : Slot) (q : t) : t := mk (<[i := s]> (m_slots q)) (m_head q) (m_tail q) (m_stopped q) (m_items q) (m_spaces q).

(** [tail & (Capacity - 1U)] *)
Definition index (ticket : nat) : nat := Nat.land ticket (Capacity - 1).

(** [(tail / Capacity) * 2], the producer's turn; the consumer's is one more. *)
Definition expected_turn (ticket : nat) : nat := (ticket / Capacity) * 2.

Inductive result :=
| Pushed (ticket : nat)
| Popped (ticket : nat) (x : T)
| Stopped
| Error (e : ConcurrencyErrc).

(** Where a thread is.  [PChecked], [CChecked]: [m_stopped] was not set. *)
Inductive pc :=
| PWait (x : T) | PGot (x : T) | PChecked (x : T) | PClaimed (x : T) (ticket : nat) | PWritten (x : T) (ticket : nat) | PStored (ticket : nat)
| CWait | CGot | CChecked | CClaimed (ticket : nat) | CRead (ticket : nat) (x : T) | CFreed (ticket : nat) (x : T)
| SStop | SItems | SSpaces
| Done (r : result).

Definition slot_of (ticket : nat) (q : t) : option Slot := m_slots q !! index ticket.

(** What a call on a semaphore returns, if it can. *)
Inductive OsalReturnType := kSuccess | kTimeout | kFail.

(** [m_items.post()] and [m_spaces.post()] *)
Definition post_items (o : OsalReturnType) (q : t) : t := match o with kSuccess => set_items (S (m_items q)) q | _ => q end.
Definition post_spaces (o : OsalReturnType) (q : t) : t := match o with kSuccess => set_spaces (S (m_spaces q)) q | _ => q end.

(** One step of [push_impl], [pop] or [stop]; [None]: the thread waits. *)
Definition push_step (o : OsalReturnType) (p : pc) (q : t) : option (pc * t) :=
  match p with
  | PWait x =>
      match o with
      | kSuccess => match m_spaces q with 0 => None | S n => Some (PGot x, set_spaces n q) end
      | kTimeout => Some (Done (Error kErrTimeout), q)
      | kFail => Some (Done (Error kErrOsError), q)
      end
  | PGot x =>
      if m_stopped q then Some (Done (Error kErrStopped), post_spaces o q)
      else Some (PChecked x, q)
  | PChecked x => Some (PClaimed x (m_tail q), set_tail (S (m_tail q)) q)
  | PClaimed x k =>
      s ← slot_of k q;
      if turn s =? expected_turn k then Some (PWritten x k, set_slot (index k) (mkSlot (turn s) (Some x)) q) else None
  | PWritten x k =>
      s ← slot_of k q;
      Some (PStored k, set_slot (index k) (mkSlot (expected_turn k + 1) (item s)) q)
  | PStored k =>
      Some (Done (match o with kSuccess => Pushed k | _ => Error kErrOsError end), post_items o q)
  | _ => None
  end.

Definition pop_step (o : OsalReturnType) (p : pc) (q : t) : option (pc * t) :=
  match p with
  | CWait =>
      match o with
      | kSuccess => match m_items q with 0 => None | S n => Some (CGot, set_items n q) end
      | kTimeout => Some (Done (Error kErrTimeout), q)
      | kFail => Some (Done (Error kErrOsError), q)
      end
  | CGot =>
      if m_stopped q then Some (Done (Error kErrStopped), post_items o q)
      else Some (CChecked, q)
  | CChecked => Some (CClaimed (m_head q), set_head (S (m_head q)) q)
  | CClaimed k =>
      s ← slot_of k q;
      if turn s =? expected_turn k + 1 then x ← item s; Some (CRead k x, q) else None
  | CRead k x =>
      s ← slot_of k q;
      Some (CFreed k x, set_slot (index k) (mkSlot (expected_turn k + 2) (item s)) q)
  | CFreed k x =>
      Some (Done (match o with kSuccess => Popped k x | _ => Error kErrOsError end), post_spaces o q)
  | _ => None
  end.

Definition stop_step (o : OsalReturnType) (p : pc) (q : t) : option (pc * t) :=
  match p with
  | SStop => Some (SItems, set_stopped q)
  | SItems => Some (match o with kSuccess => SSpaces | _ => Done (Error kErrOsError) end, post_items o q)
  | SSpaces => Some (Done (match o with kSuccess => Stopped | _ => Error kErrOsError end), post_spaces o q)
  | _ => None
  end.

Definition thread_step (o : OsalReturnType) (p : pc) (q : t) : option (pc * t) :=
  match p with
  | PWait _ | PGot _ | PChecked _ | PClaimed _ _ | PWritten _ _ | PStored _ => push_step o p q
  | CWait | CGot | CChecked | CClaimed _ | CRead _ _ | CFreed _ _ => pop_step o p q
  | SStop | SItems | SSpaces => stop_step o p q
  | Done _ => None
  end.

End Queue.
End MPMCConcurrentQueue.
