(* ===== verification/MpmcProofs.v ===== *)
(** * Correctness of the job queue

    Any number of threads push, pop and stop in any interleaving.  The invariant
    speaks about tickets: the turn of a slot says for every ticket of the slot
    whether its item was stored and whether it was taken.  A second invariant counts
    the tokens of the semaphores; from both follows that no thread waits for a slot
    in vain. *)

From stdpp Require Import prelude.
From S2P Require Import Prelude Queues Mpmc.

Module MPMCProofs.
Import MPMCConcurrentQueue.

Section Proofs.
Context {T : Type} (log_capacity : nat).
Notation t := (@MPMCConcurrentQueue.t T).
Notation pc := (@MPMCConcurrentQueue.pc T).
Notation Slot := (@MPMCConcurrentQueue.Slot T).
Notation N := (Capacity log_capacity).
Notation index := (index log_capacity).

(** ** Tickets *)

Definition lap (k : nat) : nat := k / N.

Lemma N_pos : 0 < N.
Proof. unfold Capacity. apply Nat.neq_0_lt_0, Nat.pow_nonzero. lia. Qed.

Lemma index_mod k : index k = k mod N.
Proof.
  unfold MPMCConcurrentQueue.index, Capacity. rewrite <- Nat.land_ones, Nat.ones_equiv. f_equal. lia.
Qed.

Lemma index_lt k : index k < N.
Proof. rewrite index_mod. apply Nat.mod_upper_bound. pose proof N_pos. lia. Qed.

Lemma ticket_split k : k = lap k * N + index k.
Proof. rewrite index_mod. unfold lap. pose proof N_pos. rewrite (Nat.div_mod k N) at 1 by lia. lia. Qed.

Lemma ticket_le k k' : index k' = index k -> lap k' <= lap k -> k' <= k.
Proof. intros Hi Hl. rewrite (ticket_split k), (ticket_split k'), Hi. nia. Qed.

Lemma ticket_eq k k' : index k' = index k -> lap k' = lap k -> k' = k.
Proof. intros Hi Hl. rewrite (ticket_split k), (ticket_split k'). congruence. Qed.

Lemma expected_lap k : expected_turn log_capacity k = 2 * lap k.
Proof. unfold expected_turn, lap. lia. Qed.

(** The slot of a ticket. *)
Definition turn_at (slots : list Slot) (k : nat) : nat := match slots !! index k with Some s => turn s | None => 0 end.
Definition item_at (slots : list Slot) (k : nat) : option T := match slots !! index k with Some s => item s | None => None end.

Lemma slot_at (slots : list Slot) k : length slots = N -> exists s, slots !! index k = Some s /\ turn s = turn_at slots k /\ item s = item_at slots k.
Proof.
  intros Hl. destruct (lookup_lt_is_Some_2 slots (index k)) as [s Hs]; [rewrite Hl; apply index_lt|].
  exists s. unfold turn_at, item_at. by rewrite Hs.
Qed.

Lemma turn_at_insert (slots : list Slot) k k' s : length slots = N ->
  turn_at (<[index k := s]> slots) k' = if decide (index k' = index k) then turn s else turn_at slots k'.
Proof.
  intros Hl. unfold turn_at. case_decide as E.
  - rewrite E, list_lookup_insert_eq; [done|]. rewrite Hl. apply index_lt.
  - by rewrite list_lookup_insert_ne by done.
Qed.

Lemma item_at_insert (slots : list Slot) k k' s : length slots = N ->
  item_at (<[index k := s]> slots) k' = if decide (index k' = index k) then item s else item_at slots k'.
Proof.
  intros Hl. unfold item_at. case_decide as E.
  - rewrite E, list_lookup_insert_eq; [done|]. rewrite Hl. apply index_lt.
  - by rewrite list_lookup_insert_ne by done.
Qed.

(** The turn depends on the slot only. *)
Lemma turn_at_index (slots : list Slot) k k' : index k' = index k -> turn_at slots k' = turn_at slots k.
Proof. unfold turn_at. by intros ->. Qed.

(** ** Threads *)

(** The queue, its threads, and what happened: the items in the order of their
    tickets, the tickets that were taken, and the tokens that were posted. *)
Record config := mkConfig {
  queue : t;
  threads : list pc;
  pushed : list T;
  popped : list (nat * T);
  items_posted : nat;
  spaces_posted : nat
}.

Definition idle_config (n : nat) : config := mkConfig (make log_capacity) (replicate n (Done Stopped)) [] [] 0 0.

(** One step of thread [i]. *)
Definition step (i : nat) (o : OsalReturnType) (c : config) : option config :=
  p ← threads c !! i;
  '(p', q') ← thread_step log_capacity o p (queue c);
  Some (mkConfig q' (<[i := p']> (threads c))
    (match p with PChecked x => pushed c ++ [x] | _ => pushed c end)
    (match p with CRead k x => popped c ++ [(k, x)] | _ => popped c end)
    (match p, o with PStored _, kSuccess => S (items_posted c) | _, _ => items_posted c end)
    (match p, o with CFreed _ _, kSuccess => S (spaces_posted c) | _, _ => spaces_posted c end)).

(** The calls a thread makes when it is not in one. *)
Inductive call := Push (x : T) | Pop | Stop.
Definition entry (k : call) : pc := match k with Push x => PWait x | Pop => CWait | Stop => SStop end.

Definition start (i : nat) (k : call) (c : config) : option config :=
  p ← threads c !! i;
  match p with
  | Done _ => Some (mkConfig (queue c) (<[i := entry k]> (threads c)) (pushed c) (popped c) (items_posted c) (spaces_posted c))
  | _ => None
  end.

Inductive reachable (n : nat) : config -> Prop :=
| r_idle : reachable n (idle_config n)
| r_start c i k c' : reachable n c -> start i k c = Some c' -> reachable n c'
| r_step c i o c' : reachable n c -> step i o c = Some c' -> reachable n c'.

(** ** The invariant of the tickets *)

Definition ptk (p : pc) : option nat := match p with PClaimed _ k | PWritten _ k => Some k | _ => None end.
Definition ctk (p : pc) : option nat := match p with CClaimed k | CRead k _ => Some k | _ => None end.

Section Tickets.
Implicit Types (slots : list Slot) (head tail : nat) (log : list T) (taken : list (nat * T)) (ths : list pc).

Definition pc_ok slots head tail log taken (p : pc) : Prop :=
  match p with
  | PClaimed x k => k < tail /\ turn_at slots k <= 2 * lap k /\ log !! k = Some x
  | PWritten x k => k < tail /\ turn_at slots k = 2 * lap k /\ log !! k = Some x /\ item_at slots k = Some x
  | CClaimed k => k < head /\ turn_at slots k <= 2 * lap k + 1
  | CRead k x => k < head /\ turn_at slots k = 2 * lap k + 1 /\ log !! k = Some x
  | CFreed k x | Done (Popped k x) => (k, x) ∈ taken
  | PStored k | Done (Pushed k) => k < tail
  | _ => True
  end.

Record tinv slots head tail log taken ths : Prop := {
  t_len : length slots = N;
  t_log : length log = tail;
  t_stored k : 2 * lap k + 1 <= turn_at slots k -> k < tail;
  t_freed k : 2 * lap k + 2 <= turn_at slots k -> k < head;
  t_pc i p : ths !! i = Some p -> pc_ok slots head tail log taken p;
  t_item k : turn_at slots k = 2 * lap k + 1 -> item_at slots k = log !! k;
  t_producer k : k < tail -> turn_at slots k <= 2 * lap k -> exists i p, ths !! i = Some p /\ ptk p = Some k;
  t_consumer k : k < head -> turn_at slots k <= 2 * lap k + 1 -> exists i p, ths !! i = Some p /\ ctk p = Some k;
  t_punique i j p p' k : ths !! i = Some p -> ths !! j = Some p' -> ptk p = Some k -> ptk p' = Some k -> i = j;
  t_cunique i j p p' k : ths !! i = Some p -> ths !! j = Some p' -> ctk p = Some k -> ctk p' = Some k -> i = j;
  t_taken k x : (k, x) ∈ taken -> log !! k = Some x /\ 2 * lap k + 2 <= turn_at slots k;
  t_taken_all k : 2 * lap k + 2 <= turn_at slots k -> k ∈ taken.*1;
  t_nodup : NoDup taken.*1
}.

Lemma lookup_thread ths i p p' j r : ths !! i = Some p -> <[i := p']> ths !! j = Some r -> j = i /\ r = p' \/ j <> i /\ ths !! j = Some r.
Proof.
  intros Hi. destruct (decide (j = i)) as [->|Hj].
  - rewrite list_lookup_insert_eq by (by eapply lookup_lt_Some). intros [= <-]. by left.
  - rewrite list_lookup_insert_ne by done. by right.
Qed.

Lemma new_thread ths i p p' : ths !! i = Some p -> <[i := p']> ths !! i = Some p'.
Proof. intros Hi. apply list_lookup_insert_eq. by eapply lookup_lt_Some. Qed.

Lemma other_thread ths i p' j r : j <> i -> ths !! j = Some r -> <[i := p']> ths !! j = Some r.
Proof. intros Hj. by rewrite list_lookup_insert_ne. Qed.

(** A ticket that another state of the thread does not have is held by another thread. *)
Lemma keep_holder (f : pc -> option nat) ths i p p' k : ths !! i = Some p -> f p <> Some k ->
  (exists j r, ths !! j = Some r /\ f r = Some k) -> exists j r, <[i := p']> ths !! j = Some r /\ f r = Some k.
Proof.
  intros Hi Hp (j & r & Hj & Hr). exists j, r. split; [|done]. apply other_thread; [|done]. intros ->. congruence.
Qed.

(** If the thread held no more than before, tickets stay unique. *)
Lemma keep_unique (f : pc -> option nat) ths i p p' : ths !! i = Some p -> (f p' = None \/ f p' = f p) ->
  (forall i j r r' k, ths !! i = Some r -> ths !! j = Some r' -> f r = Some k -> f r' = Some k -> i = j) ->
  forall j j' r r' k, <[i := p']> ths !! j = Some r -> <[i := p']> ths !! j' = Some r' -> f r = Some k -> f r' = Some k -> j = j'.
Proof.
  intros Hi Hf Hu j j' r r' k Hj Hj' Hr Hr'.
  apply (lookup_thread _ _ _ _ _ _ Hi) in Hj as [[-> ->]|[Hn Hj]]; apply (lookup_thread _ _ _ _ _ _ Hi) in Hj' as [[-> ->]|[Hn' Hj']]; try done.
  - destruct Hf as [Hf|Hf]; [congruence|]. rewrite Hf in Hr. eauto.
  - destruct Hf as [Hf|Hf]; [congruence|]. rewrite Hf in Hr'. eauto.
  - eauto.
Qed.

(** A step that touches neither slots nor tickets. *)
Lemma tinv_neutral slots head tail log taken ths i p p' : tinv slots head tail log taken ths -> ths !! i = Some p ->
  ptk p = None -> ctk p = None -> ptk p' = None -> ctk p' = None -> pc_ok slots head tail log taken p' ->
  tinv slots head tail log taken (<[i := p']> ths).
Proof.
  intros [A1 A2 A3 A4 A5 A6 A7 A8 A9 A10 A11 A12 A13] Hi P1 C1 P2 C2 Hok. split; try done.
  - intros j r Hj. apply (lookup_thread _ _ _ _ _ _ Hi) in Hj as [[-> ->]|[_ Hj]]; [done|eauto].
  - intros k Hk Ht. eapply keep_holder; [done|congruence|auto].
  - intros k Hk Ht. eapply keep_holder; [done|congruence|auto].
  - eapply keep_unique; eauto.
  - eapply keep_unique; eauto.
Qed.

(** [m_tail.fetch_add] *)
Lemma tinv_claim_push slots head tail log taken ths i x : tinv slots head tail log taken ths -> ths !! i = Some (PChecked x) ->
  tinv slots head (S tail) (log ++ [x]) taken (<[i := PClaimed x tail]> ths).
Proof.
  intros [A1 A2 A3 A4 A5 A6 A7 A8 A9 A10 A11 A12 A13] Hi.
  assert (Hlog : forall k y, log !! k = Some y -> (log ++ [x]) !! k = Some y) by (intros k y; apply lookup_app_l_Some).
  assert (Hnew : forall j r, ths !! j = Some r -> ptk r <> Some tail).
  { intros j r Hj Hr. specialize (A5 j r Hj). destruct r; try done; injection Hr as ->; simpl in A5; lia. }
  split; try done.
  - rewrite length_app. simpl. lia.
  - intros k Hk. apply A3 in Hk. lia.
  - intros j r Hj. apply (lookup_thread _ _ _ _ _ _ Hi) in Hj as [[-> ->]|[_ Hj]].
    + simpl. split_and!; [lia| |]; [|by rewrite <- A2, list_lookup_middle]. destruct (decide (2 * lap tail + 1 <= turn_at slots tail)) as [Hl|]; [|lia].
      apply A3 in Hl. lia.
    + specialize (A5 j r Hj). destruct r as [| | | | | | | | | | | | | | |[]]; simpl in *; naive_solver lia.
  - intros k Hk. rewrite lookup_app_l; [auto|]. rewrite A2. apply A3. lia.
  - intros k Hk Ht. destruct (decide (k = tail)) as [->|]; [exists i, (PClaimed x tail); split; [by eapply new_thread|done]|].
    eapply keep_holder; [done|done|apply A7; [lia|done]].
  - intros k Hk Ht. eapply keep_holder; [done|done|auto].
  - intros j j' r r' k Hj Hj' Hr Hr'. apply (lookup_thread _ _ _ _ _ _ Hi) in Hj as [[-> ->]|[_ Hj]];
      apply (lookup_thread _ _ _ _ _ _ Hi) in Hj' as [[-> ->]|[_ Hj']]; try done.
    + injection Hr as <-. by destruct (Hnew j' r' Hj').
    + injection Hr' as <-. by destruct (Hnew j r Hj).
    + eauto.
  - eapply keep_unique; [done|by left|done].
  - intros k y Hk. destruct (A11 k y Hk). auto.
Qed.

(** [m_head.fetch_add] *)
Lemma tinv_claim_pop slots head tail log taken ths i : tinv slots head tail log taken ths -> ths !! i = Some CChecked ->
  tinv slots (S head) tail log taken (<[i := CClaimed head]> ths).
Proof.
  intros [A1 A2 A3 A4 A5 A6 A7 A8 A9 A10 A11 A12 A13] Hi.
  assert (Hnew : forall j r, ths !! j = Some r -> ctk r <> Some head).
  { intros j r Hj Hr. specialize (A5 j r Hj). destruct r; try done; injection Hr as ->; simpl in A5; lia. }
  split; try done.
  - intros k Hk. apply A4 in Hk. lia.
  - intros j r Hj. apply (lookup_thread _ _ _ _ _ _ Hi) in Hj as [[-> ->]|[_ Hj]].
    + simpl. split; [lia|]. destruct (decide (2 * lap head + 2 <= turn_at slots head)) as [Hl|]; [|lia]. apply A4 in Hl. lia.
    + specialize (A5 j r Hj). destruct r as [| | | | | | | | | | | | | | |[]]; simpl in *; naive_solver lia.
  - intros k Hk Ht. eapply keep_holder; [done|done|auto].
  - intros k Hk Ht. destruct (decide (k = head)) as [->|]; [exists i, (CClaimed head); split; [by eapply new_thread|done]|].
    eapply keep_holder; [done|done|apply A8; [lia|done]].
  - eapply keep_unique; [done|by left|done].
  - intros j j' r r' k Hj Hj' Hr Hr'. apply (lookup_thread _ _ _ _ _ _ Hi) in Hj as [[-> ->]|[_ Hj]];
      apply (lookup_thread _ _ _ _ _ _ Hi) in Hj' as [[-> ->]|[_ Hj']]; try done.
    + injection Hr as <-. by destruct (Hnew j' r' Hj').
    + injection Hr' as <-. by destruct (Hnew j r Hj).
    + eauto.
Qed.

(** A producer writes the item when the turn is its own. *)
Lemma tinv_write slots head tail log taken ths i x k tn : tinv slots head tail log taken ths -> ths !! i = Some (PClaimed x k) ->
  tn = 2 * lap k -> turn_at slots k = tn -> tinv (<[index k := mkSlot tn (Some x)]> slots) head tail log taken (<[i := PWritten x k]> ths).
Proof.
  intros [A1 A2 A3 A4 A5 A6 A7 A8 A9 A10 A11 A12 A13] Hi Etn Ht.
  assert (Hturn : forall k', turn_at (<[index k := mkSlot tn (Some x)]> slots) k' = turn_at slots k').
  { intros k'. rewrite turn_at_insert by done. case_decide as E; [|done]. simpl. by rewrite (turn_at_index slots k k' E). }
  pose proof (A5 i _ Hi) as (Hk & _ & Hx). split; try done; try (setoid_rewrite Hturn; done).
  - by rewrite length_insert.
  - intros j r Hj. apply (lookup_thread _ _ _ _ _ _ Hi) in Hj as [[-> ->]|[Hn Hj]].
    + simpl. rewrite Hturn, item_at_insert, decide_True by done. split_and!; try done. lia.
    + pose proof (A5 j r Hj) as Hr. destruct r as [| | |y k'|y k'| | | | | | | | | | |[]]; simpl in *; rewrite ?Hturn; try done.
      rewrite item_at_insert by done. case_decide as E; [|done]. destruct Hr as (H1 & H2 & H3 & H4).
      rewrite (turn_at_index slots k k' E) in H2. assert (k' = k) as -> by (apply ticket_eq; [done|lia]). destruct Hn. by eapply (A9 j i).
  - intros k' Hk'. rewrite Hturn in Hk'. rewrite item_at_insert by done. case_decide as E; [|auto].
    rewrite (turn_at_index slots k k' E) in Hk'. lia.
  - setoid_rewrite Hturn. intros k' Hk' Ht'. destruct (decide (k' = k)) as [->|Hne]; [exists i, (PWritten x k); split; [by eapply new_thread|done]|].
    eapply keep_holder; [done|simpl; congruence|auto].
  - setoid_rewrite Hturn. intros k' Hk' Ht'. eapply keep_holder; [done|done|auto].
  - eapply keep_unique; [done|by right|done].
  - eapply keep_unique; [done|by left|done].
Qed.

(** The turn goes to the consumer. *)
Lemma tinv_store slots head tail log taken ths i x k it : tinv slots head tail log taken ths -> ths !! i = Some (PWritten x k) ->
  it = item_at slots k -> tinv (<[index k := mkSlot (2 * lap k + 1) it]> slots) head tail log taken (<[i := PStored k]> ths).
Proof.
  intros [A1 A2 A3 A4 A5 A6 A7 A8 A9 A10 A11 A12 A13] Hi Eit. pose proof (A5 i _ Hi) as (Hk & Ht & Hx & Hit).
  set (slots' := <[index k := _]> slots).
  assert (Hturn : forall k', turn_at slots' k' = if decide (index k' = index k) then 2 * lap k + 1 else turn_at slots k') by (intros k'; by apply turn_at_insert).
  assert (Hold : forall k', index k' = index k -> turn_at slots k' = 2 * lap k) by (intros k' E; by rewrite (turn_at_index slots k k' E)).
  split; try done.
  - unfold slots'. by rewrite length_insert.
  - intros k' Hk'. rewrite Hturn in Hk'. case_decide as E; [|auto]. pose proof (ticket_le k k' E ltac:(lia)). lia.
  - intros k' Hk'. rewrite Hturn in Hk'. case_decide as E; [|auto]. apply A4. rewrite Hold by done. lia.
  - intros j r Hj. apply (lookup_thread _ _ _ _ _ _ Hi) in Hj as [[-> ->]|[Hn Hj]]; [done|].
    pose proof (A5 j r Hj) as Hr. destruct r as [| | |y k'|y k'| | | | |k'|k' y| | | | |[]]; simpl in *; try done; rewrite Hturn; case_decide as E; try done.
    + destruct Hr as (H1 & H2 & H3). rewrite Hold in H2 by done. split_and!; [done| |done].
      destruct (decide (lap k' = lap k)) as [El|]; [|lia]. destruct Hn. rewrite (ticket_eq k k' E El) in Hj. by eapply (A9 j i).
    + destruct Hr as (H1 & H2 & _). rewrite Hold in H2 by done. destruct Hn. rewrite (ticket_eq k k' E ltac:(lia)) in Hj. by eapply (A9 j i).
    + unfold slots'. rewrite item_at_insert, decide_False by done. done.
    + destruct Hr as (H1 & H2). rewrite Hold in H2 by done. split; [done|lia].
    + destruct Hr as (H1 & H2 & _). rewrite Hold in H2 by done. lia.
  - intros k' Hk'. rewrite Hturn in Hk'. unfold slots'. rewrite item_at_insert by done. case_decide as E; [|auto].
    rewrite (ticket_eq k k' E ltac:(lia)). simpl. congruence.
  - intros k' Hk' Ht'. rewrite Hturn in Ht'. destruct (decide (k' = k)) as [->|Hne]; [rewrite decide_True in Ht' by done; lia|].
    eapply keep_holder; [done|simpl; congruence|]. apply A7; [done|]. case_decide as E; [rewrite Hold by done; lia|done].
  - intros k' Hk' Ht'. rewrite Hturn in Ht'. eapply keep_holder; [done|done|]. apply A8; [done|]. case_decide as E; [rewrite Hold by done; lia|done].
  - eapply keep_unique; [done|by left|done].
  - eapply keep_unique; [done|by left|done].
  - intros k' y Hk'. destruct (A11 k' y Hk') as [H1 H2]. split; [done|]. rewrite Hturn. case_decide as E; [rewrite Hold in H2 by done; lia|done].
  - intros k' Hk'. rewrite Hturn in Hk'. apply A12. case_decide as E; [rewrite Hold by done; lia|done].
Qed.

(** A consumer reads the item when the turn is its own. *)
Lemma tinv_read slots head tail log taken ths i x k : tinv slots head tail log taken ths -> ths !! i = Some (CClaimed k) ->
  turn_at slots k = 2 * lap k + 1 -> item_at slots k = Some x -> tinv slots head tail log taken (<[i := CRead k x]> ths).
Proof.
  intros [A1 A2 A3 A4 A5 A6 A7 A8 A9 A10 A11 A12 A13] Hi Ht Hit. pose proof (A5 i _ Hi) as (Hk & _). split; try done.
  - intros j r Hj. apply (lookup_thread _ _ _ _ _ _ Hi) in Hj as [[-> ->]|[_ Hj]]; [|eauto]. simpl. split_and!; [done|done|]. rewrite <- Hit. symmetry. by apply A6.
  - intros k' Hk' Ht'. eapply keep_holder; [done|done|auto].
  - intros k' Hk' Ht'. destruct (decide (k' = k)) as [->|Hne]; [exists i, (CRead k x); split; [by eapply new_thread|done]|].
    eapply keep_holder; [done|simpl; congruence|auto].
  - eapply keep_unique; [done|by left|done].
  - eapply keep_unique; [done|by right|done].
Qed.

(** The turn goes to the producer of the next lap. *)
Lemma tinv_free slots head tail log taken ths i x k it : tinv slots head tail log taken ths -> ths !! i = Some (CRead k x) ->
  it = item_at slots k -> tinv (<[index k := mkSlot (2 * lap k + 2) it]> slots) head tail log (taken ++ [(k, x)]) (<[i := CFreed k x]> ths).
Proof.
  intros [A1 A2 A3 A4 A5 A6 A7 A8 A9 A10 A11 A12 A13] Hi Eit. pose proof (A5 i _ Hi) as (Hk & Ht & Hx).
  set (slots' := <[index k := _]> slots).
  assert (Hturn : forall k', turn_at slots' k' = if decide (index k' = index k) then 2 * lap k + 2 else turn_at slots k') by (intros k'; by apply turn_at_insert).
  assert (Hold : forall k', index k' = index k -> turn_at slots k' = 2 * lap k + 1) by (intros k' E; by rewrite (turn_at_index slots k k' E)).
  split; try done.
  - unfold slots'. by rewrite length_insert.
  - intros k' Hk'. rewrite Hturn in Hk'. case_decide as E; [|auto]. apply A3. rewrite Hold by done. lia.
  - intros k' Hk'. rewrite Hturn in Hk'. case_decide as E; [|auto]. pose proof (ticket_le k k' E ltac:(lia)). lia.
  - intros j r Hj. apply (lookup_thread _ _ _ _ _ _ Hi) in Hj as [[-> ->]|[Hn Hj]]; [simpl; apply elem_of_snoc_iff; by right|].
    pose proof (A5 j r Hj) as Hr. destruct r as [| | |y k'|y k'| | | | |k'|k' y|k' y| | | |[]]; simpl in *; try done; rewrite ?Hturn;
      try (apply elem_of_snoc_iff; by left); case_decide as E; try done.
    + destruct Hr as (H1 & H2 & H3). rewrite Hold in H2 by done. split_and!; [done|lia|done].
    + destruct Hr as (H1 & H2 & _). rewrite Hold in H2 by done. lia.
    + unfold slots'. rewrite item_at_insert, decide_False by done. done.
    + destruct Hr as (H1 & H2). rewrite Hold in H2 by done. split; [done|].
      destruct (decide (lap k' = lap k)) as [El|]; [|lia]. destruct Hn. rewrite (ticket_eq k k' E El) in Hj. by eapply (A10 j i).
    + destruct Hr as (H1 & H2 & _). rewrite Hold in H2 by done. destruct Hn. rewrite (ticket_eq k k' E ltac:(lia)) in Hj. by eapply (A10 j i).
  - intros k' Hk'. rewrite Hturn in Hk'. unfold slots'. rewrite item_at_insert by done. case_decide as E; [lia|auto].
  - intros k' Hk' Ht'. rewrite Hturn in Ht'. eapply keep_holder; [done|done|]. apply A7; [done|]. case_decide as E; [rewrite Hold by done; lia|done].
  - intros k' Hk' Ht'. rewrite Hturn in Ht'. destruct (decide (k' = k)) as [->|Hne]; [rewrite decide_True in Ht' by done; lia|].
    eapply keep_holder; [done|simpl; congruence|]. apply A8; [done|]. case_decide as E; [rewrite Hold by done; lia|done].
  - eapply keep_unique; [done|by left|done].
  - eapply keep_unique; [done|by left|done].
  - intros k' y [Hk'|[= -> ->]]%elem_of_snoc_iff; [|rewrite Hturn, decide_True by done; done].
    destruct (A11 k' y Hk') as [H1 H2]. split; [done|]. rewrite Hturn. case_decide as E; [rewrite Hold in H2 by done; lia|done].
  - intros k' Hk'. rewrite Hturn in Hk'. rewrite fmap_app. apply elem_of_snoc_iff. simpl. case_decide as E; [|left; auto].
    destruct (decide (lap k' = lap k)) as [El|]; [right; by apply ticket_eq|left]. apply A12. rewrite Hold by done. lia.
  - rewrite fmap_app. simpl. apply NoDup_snoc_iff. split; [|done]. intros ([k' y] & -> & Hk')%list_elem_of_fmap. destruct (A11 k' y Hk') as [_ H2]. simpl in *. lia.
Qed.

End Tickets.
(** ** The tokens *)

Definition count (f : pc -> nat) (ths : list pc) : nat := sum_list_with f ths.

Lemma count_insert f ths i p p' : ths !! i = Some p -> count f (<[i := p']> ths) + f p = count f ths + f p'.
Proof.
  intros Hi. unfold count. pose proof (take_drop_middle ths i p Hi) as E. rewrite <- E at 2.
  rewrite insert_take_drop by (by eapply lookup_lt_Some). rewrite !sum_list_with_app. simpl. lia.
Qed.

Definition is_pgot (p : pc) : nat := match p with PGot _ => 1 | _ => 0 end.
Definition is_pchecked (p : pc) : nat := match p with PChecked _ => 1 | _ => 0 end.
Definition is_pin (p : pc) : nat := match p with PClaimed _ _ | PWritten _ _ | PStored _ => 1 | _ => 0 end.
Definition is_cgot (p : pc) : nat := match p with CGot => 1 | _ => 0 end.
Definition is_cchecked (p : pc) : nat := match p with CChecked => 1 | _ => 0 end.
Definition is_cin (p : pc) : nat := match p with CClaimed _ | CRead _ _ | CFreed _ _ => 1 | _ => 0 end.
Definition stops (p : pc) : bool := match p with SItems | SSpaces => true | _ => false end.

(** [head]s and [tail]s are covered by posted tokens; [stop] posts tokens too,
    but whoever takes one of them sees the flag. *)
Record cinv (q : t) (ths : list pc) (ip sp : nat) : Prop := {
  n_space : count is_pchecked ths + m_tail q <= N + sp;
  n_spaces : m_stopped q = false -> m_spaces q + count is_pgot ths + count is_pchecked ths + m_tail q <= N + sp;
  n_spost : sp + count is_cin ths <= m_head q;
  n_item : count is_cchecked ths + m_head q <= ip;
  n_items : m_stopped q = false -> m_items q + count is_cgot ths + count is_cchecked ths + m_head q <= ip;
  n_ipost : ip + count is_pin ths <= m_tail q;
  n_stop i p : ths !! i = Some p -> stops p = true -> m_stopped q = true
}.

Lemma cinv_step o p p' q q' ths ip sp i : cinv q ths ip sp -> ths !! i = Some p -> thread_step log_capacity o p q = Some (p', q') ->
  cinv q' (<[i := p']> ths) (match p, o with PStored _, kSuccess => S ip | _, _ => ip end) (match p, o with CFreed _ _, kSuccess => S sp | _, _ => sp end).
Proof.
  intros [B1 B2 B3 B4 B5 B6 B7] Hi E.
  pose proof (count_insert is_pgot ths i p p' Hi) as G1. pose proof (count_insert is_pchecked ths i p p' Hi) as G2.
  pose proof (count_insert is_pin ths i p p' Hi) as G3. pose proof (count_insert is_cgot ths i p p' Hi) as G4.
  pose proof (count_insert is_cchecked ths i p p' Hi) as G5. pose proof (count_insert is_cin ths i p p' Hi) as G6.
  assert (Hst : forall j r, <[i := p']> ths !! j = Some r -> stops r = true -> m_stopped q' = true).
  { intros j r Hj Hr. assert (Hmono : m_stopped q = true -> m_stopped q' = true).
    { intros X. destruct p, o; simpl in E; simplify_option_eq; repeat (case_match; simplify_option_eq); try done; exact X. }
    apply (lookup_thread _ _ _ _ _ _ Hi) in Hj as [[-> ->]|[_ Hj]]; [|eauto].
    pose proof (B7 i p Hi) as Hp. destruct p, o; simpl in E; simplify_option_eq; repeat (case_match; simplify_option_eq); try done; auto. }
  pose proof (B7 i p Hi) as Hp. clear B7 Hi.
  destruct p, o; simpl in E; simplify_option_eq; repeat (case_match; simplify_option_eq); try done; cbn [is_pgot is_pchecked is_pin is_cgot is_cchecked is_cin stops] in *;
    try specialize (Hp eq_refl);
    (split; cbn [m_tail m_head m_items m_spaces m_stopped set_items set_spaces set_head set_tail set_stopped set_slot post_items post_spaces] in *;
     [lia|intros ?; try congruence; try specialize (B2 ltac:(done)); lia|lia|lia|intros ?; try congruence; try specialize (B5 ltac:(done)); lia|lia|exact Hst]).
Qed.

(** ** Every reachable configuration *)

Definition tinv_of (c : config) : Prop := tinv (m_slots (queue c)) (m_head (queue c)) (m_tail (queue c)) (pushed c) (popped c) (threads c).
Definition cinv_of (c : config) : Prop := cinv (queue c) (threads c) (items_posted c) (spaces_posted c).

Lemma slot_of_spec (q : t) k s : slot_of log_capacity k q = Some s -> turn s = turn_at (m_slots q) k /\ item s = item_at (m_slots q) k.
Proof. unfold slot_of, turn_at, item_at. by intros ->. Qed.

Lemma tinv_step i o c c' : tinv_of c -> step i o c = Some c' -> tinv_of c'.
Proof.
  unfold step. intros Hinv E. destruct (threads c !! i) as [p|] eqn:Hi; [|done]. simpl in E.
  destruct (thread_step log_capacity o p (queue c)) as [[p' q']|] eqn:Es; [|done]. simpl in E. injection E as <-. unfold tinv_of in *. cbn [queue threads pushed popped].
  pose proof (t_pc _ _ _ _ _ _ Hinv i p Hi) as Hp.
  destruct p as [x|x|x|x k|x k|k| | | |k|k x|k x| | | |r]; simpl in Es.
  - destruct o; [destruct (m_spaces (queue c))|..]; simplify_eq; by eapply tinv_neutral.
  - destruct (m_stopped (queue c)), o; simplify_eq; by eapply tinv_neutral.
  - simplify_eq. by apply tinv_claim_push.
  - destruct (slot_of log_capacity k (queue c)) as [s|] eqn:Esl; [|done]. simpl in Es. destruct (slot_of_spec _ _ _ Esl) as [Et _].
    destruct (Nat.eqb_spec (turn s) (expected_turn log_capacity k)) as [Eq|]; [|done]. simplify_eq. rewrite expected_lap in Eq.
    eapply tinv_write; [done|done|done|congruence].
  - destruct (slot_of log_capacity k (queue c)) as [s|] eqn:Esl; [|done]. simpl in Es. destruct (slot_of_spec _ _ _ Esl) as [_ Et]. simplify_eq.
    rewrite expected_lap. by eapply tinv_store.
  - simplify_eq. assert (Hq : m_slots (post_items o (queue c)) = m_slots (queue c) /\ m_head (post_items o (queue c)) = m_head (queue c) /\ m_tail (post_items o (queue c)) = m_tail (queue c)) by (by destruct o).
    destruct Hq as (-> & -> & ->). eapply tinv_neutral; try done. by destruct o.
  - destruct o; [destruct (m_items (queue c))|..]; simplify_eq; by eapply tinv_neutral.
  - destruct (m_stopped (queue c)), o; simplify_eq; by eapply tinv_neutral.
  - simplify_eq. by apply tinv_claim_pop.
  - destruct (slot_of log_capacity k (queue c)) as [s|] eqn:Esl; [|done]. simpl in Es. destruct (slot_of_spec _ _ _ Esl) as [Et Ei].
    destruct (Nat.eqb_spec (turn s) (expected_turn log_capacity k + 1)) as [Eq|]; [|done]. rewrite expected_lap in Eq.
    destruct (item s) as [x|]; [|done]. simpl in Es. simplify_eq. eapply tinv_read; [done|done|congruence|done].
  - destruct (slot_of log_capacity k (queue c)) as [s|] eqn:Esl; [|done]. simpl in Es. destruct (slot_of_spec _ _ _ Esl) as [_ Et]. simplify_eq.
    rewrite expected_lap. by eapply tinv_free.
  - simplify_eq. assert (Hq : m_slots (post_spaces o (queue c)) = m_slots (queue c) /\ m_head (post_spaces o (queue c)) = m_head (queue c) /\ m_tail (post_spaces o (queue c)) = m_tail (queue c)) by (by destruct o).
    destruct Hq as (-> & -> & ->). eapply tinv_neutral; try done. by destruct o.
  - simplify_eq. by eapply tinv_neutral.
  - destruct o; simplify_eq; by eapply tinv_neutral.
  - destruct o; simplify_eq; by eapply tinv_neutral.
  - done.
Qed.

Lemma cinv_step_config i o c c' : cinv_of c -> step i o c = Some c' -> cinv_of c'.
Proof.
  unfold step. intros Hinv E. destruct (threads c !! i) as [p|] eqn:Hi; [|done]. simpl in E.
  destruct (thread_step log_capacity o p (queue c)) as [[p' q']|] eqn:Es; [|done]. simpl in E. injection E as <-. by eapply cinv_step.
Qed.

Lemma mpmc_start_inv i k c c' : tinv_of c -> cinv_of c -> start i k c = Some c' -> tinv_of c' /\ cinv_of c'.
Proof.
  unfold start. intros Ht Hc E. destruct (threads c !! i) as [p|] eqn:Hi; [|done]. simpl in E. destruct p; try done. injection E as <-. split.
  - by eapply tinv_neutral; [done|done|done|done|destruct k..].
  - pose proof (fun f => count_insert f (threads c) i _ (entry k) Hi) as G. destruct Hc as [B1 B2 B3 B4 B5 B6 B7]. unfold cinv_of. cbn [queue threads items_posted spaces_posted].
    pose proof (G is_pgot) as G1. pose proof (G is_pchecked) as G2. pose proof (G is_pin) as G3.
    pose proof (G is_cgot) as G4. pose proof (G is_cchecked) as G5. pose proof (G is_cin) as G6.
    assert (Hz : is_pgot (entry k) = 0 /\ is_pchecked (entry k) = 0 /\ is_pin (entry k) = 0 /\ is_cgot (entry k) = 0 /\ is_cchecked (entry k) = 0 /\ is_cin (entry k) = 0)
      by (by destruct k). destruct Hz as (Z1 & Z2 & Z3 & Z4 & Z5 & Z6). rewrite Z1 in G1. rewrite Z2 in G2. rewrite Z3 in G3. rewrite Z4 in G4. rewrite Z5 in G5. rewrite Z6 in G6.
    cbn in G1, G2, G3, G4, G5, G6. split; try lia; try (intros X; specialize (B2 X); specialize (B5 X); lia).
    intros j p Hj Hs. apply (lookup_thread _ _ _ _ _ _ Hi) in Hj as [[-> ->]|[_ Hj]]; [by destruct k|eauto].
Qed.

Lemma count_zero f (p : pc) n : f p = 0 -> count f (replicate n p) = 0.
Proof. intros Hf. unfold count. induction n; simpl; lia. Qed.

Lemma mpmc_reachable_inv n c : reachable n c -> tinv_of c /\ cinv_of c.
Proof.
  induction 1 as [|c i k c' _ [IH1 IH2] E|c i o c' _ [IH1 IH2] E].
  - assert (Hth : forall i p, replicate n (Done (T := T) Stopped) !! i = Some p -> p = Done Stopped) by (by intros i p [-> _]%lookup_replicate).
    assert (Ht0 : forall k, turn_at (replicate N (mkSlot 0 None)) k = 0).
    { intros k. unfold turn_at. destruct (replicate N (mkSlot 0 None) !! index k) as [s|] eqn:E; [|done]. by apply lookup_replicate in E as [-> _]. }
    split; unfold tinv_of, cinv_of; cbn [idle_config queue threads pushed popped items_posted spaces_posted].
    + split; cbn [make m_slots m_head m_tail]; try setoid_rewrite Ht0; try (intros; lia).
      * apply length_replicate.
      * done.
      * intros i p ->%Hth. done.
      * intros i j p p' k ->%Hth. done.
      * intros i j p p' k ->%Hth. done.
      * intros k x Hk. by apply elem_of_nil in Hk.
      * constructor.
    + split; cbn [make m_head m_tail m_spaces m_items m_stopped]; rewrite ?count_zero by done; try (intros; lia). intros i p ->%Hth. done.
  - by eapply mpmc_start_inv.
  - split; [by eapply tinv_step|by eapply cinv_step_config].
Qed.

(** ** Nobody waits in vain *)

(** Steps until a thread that has a ticket returns. *)
Definition todo (p : pc) : nat :=
  match p with PClaimed _ _ | CClaimed _ => 3 | PWritten _ _ | CRead _ _ => 2 | PStored _ | CFreed _ _ => 1 | _ => 0 end.

Definition can_go (c : config) (p : pc) : Prop :=
  match p with
  | PClaimed _ k => turn_at (m_slots (queue c)) k = 2 * lap k
  | CClaimed k => turn_at (m_slots (queue c)) k = 2 * lap k + 1
  | PWritten _ _ | PStored _ | CRead _ _ | CFreed _ _ => True
  | _ => False
  end.

Lemma can_go_step c i p : tinv_of c -> cinv_of c -> threads c !! i = Some p -> can_go c p ->
  exists c', step i kSuccess c = Some c' /\ count todo (threads c') + 1 = count todo (threads c).
Proof.
  intros Ht Hc Hi Hgo.
  assert (Hs : exists p' q', thread_step log_capacity kSuccess p (queue c) = Some (p', q') /\ todo p' + 1 = todo p).
  { destruct p as [x|x|x|x k|x k|k| | | |k|k x|k x| | | |r]; try done; simpl in *; try (by eexists _, _);
      destruct (slot_at (m_slots (queue c)) k (t_len _ _ _ _ _ _ Ht)) as (s & Es & Et & Ei); unfold slot_of; rewrite Es; simpl; try (by eexists _, _).
    - rewrite Et, Hgo, expected_lap, Nat.eqb_refl. by eexists _, _.
    - rewrite Et, Hgo, expected_lap, Nat.eqb_refl. rewrite Ei, (t_item _ _ _ _ _ _ Ht k Hgo).
      assert (Hk : k < m_tail (queue c)) by (apply (t_stored _ _ _ _ _ _ Ht); lia). rewrite <- (t_log _ _ _ _ _ _ Ht) in Hk.
      destruct (lookup_lt_is_Some_2 _ _ Hk) as [x ->]. simpl. by eexists _, _. }
  destruct Hs as (p' & q' & Es & Hw). eexists. unfold step. rewrite Hi. simpl. rewrite Es. simpl. split; [done|].
  cbn [threads]. pose proof (count_insert todo (threads c) i p p' Hi). lia.
Qed.

(** If the turn of a slot is too low for a ticket, an earlier ticket can go on. *)
Lemma blocked c k : tinv_of c -> cinv_of c -> k < m_tail (queue c) -> turn_at (m_slots (queue c)) k < 2 * lap k ->
  exists i p, threads c !! i = Some p /\ can_go c p.
Proof.
  intros Ht Hc Hk Hlt. set (l := turn_at (m_slots (queue c)) k / 2). set (k' := l * N + index k).
  pose proof (index_lt k) as Hi. assert (Ei : index k' = index k) by (rewrite (index_mod k'); unfold k'; rewrite Nat.add_comm, Nat.Div0.mod_add; by apply Nat.mod_small).
  assert (El : lap k' = l) by (unfold lap, k'; rewrite Nat.div_add_l by lia; rewrite Nat.div_small by done; lia).
  pose proof (Nat.div_mod_eq (turn_at (m_slots (queue c)) k) 2) as Hd. fold l in Hd. pose proof (Nat.mod_upper_bound (turn_at (m_slots (queue c)) k) 2 ltac:(lia)) as Hm.
  assert (Hkk : k' + N <= k) by (pose proof (ticket_split k); pose proof (Nat.mul_le_mono_r (l + 1) (lap k) N ltac:(lia)); unfold k'; lia). pose proof (turn_at_index (m_slots (queue c)) k k' Ei) as Hturn.
  destruct (decide (turn_at (m_slots (queue c)) k = 2 * l)) as [E|E].
  - pose proof N_pos. destruct (t_producer _ _ _ _ _ _ Ht k' ltac:(lia) ltac:(rewrite Hturn, El; lia)) as (i & p & Hp & Htk).
    exists i, p. split; [done|]. destruct p; try done; injection Htk as ->; simpl; try done; rewrite Hturn, El; lia.
  - pose proof (n_space _ _ _ _ Hc). pose proof (n_spost _ _ _ _ Hc).
    destruct (t_consumer _ _ _ _ _ _ Ht k') as (i & p & Hp & Htk); [lia|rewrite Hturn, El; lia|].
    exists i, p. split; [done|]. destruct p; try done; injection Htk as ->; simpl; try done; rewrite Hturn, El; lia.
Qed.

Lemma someone_goes c : tinv_of c -> cinv_of c -> 0 < count todo (threads c) -> exists i p, threads c !! i = Some p /\ can_go c p.
Proof.
  intros Ht Hc Hpos. assert (Hex : exists i p, threads c !! i = Some p /\ 0 < todo p).
  { clear Ht Hc. unfold count in Hpos. induction (threads c) as [|p ths IH]; simpl in Hpos; [lia|]. destruct (decide (0 < todo p)) as [Hp|Hp]; [by exists 0, p|].
    destruct IH as (i & r & Hi & Hr); [lia|]. by exists (S i), r. }
  destruct Hex as (i & p & Hi & Hp). pose proof (t_pc _ _ _ _ _ _ Ht i p Hi) as Hok.
  destruct p as [x|x|x|x k|x k|k| | | |k|k x|k x| | | |r]; simpl in Hp; try lia; try (by exists i; eexists; split; [exact Hi|]); simpl in Hok.
  - destruct Hok as (Hk & Hle & _). destruct (decide (turn_at (m_slots (queue c)) k = 2 * lap k)); [by exists i; eexists; split; [exact Hi|]|].
    apply (blocked c k); [done|done|done|lia].
  - destruct Hok as (Hk & Hle). pose proof (n_item _ _ _ _ Hc). pose proof (n_ipost _ _ _ _ Hc).
    destruct (decide (turn_at (m_slots (queue c)) k = 2 * lap k + 1)); [by exists i; eexists; split; [exact Hi|]|].
    destruct (decide (turn_at (m_slots (queue c)) k = 2 * lap k)) as [E|E].
    + destruct (t_producer _ _ _ _ _ _ Ht k) as (j & r & Hr & Htk); [lia|lia|]. exists j, r. split; [done|]. destruct r; try done; injection Htk as ->; done.
    + apply (blocked c k); [done|done|lia|lia].
Qed.

(** A schedule, all of whose calls on semaphores succeed. *)
Fixpoint run (ids : list nat) (c : config) : option config :=
  match ids with [] => Some c | i :: ids' => c' ← step i kSuccess c; run ids' c' end.

Lemma drain m : forall n c, reachable n c -> count todo (threads c) = m -> exists ids c', run ids c = Some c' /\ length ids = m /\ count todo (threads c') = 0.
Proof.
  induction m as [|m IH]; intros n c Hr Hm; [by exists [], c|]. destruct (mpmc_reachable_inv n c Hr) as [Ht Hc].
  destruct (someone_goes c Ht Hc ltac:(lia)) as (i & p & Hi & Hgo). destruct (can_go_step c i p Ht Hc Hi Hgo) as (c1 & E1 & Hw).
  destruct (IH n c1 (r_step n c i kSuccess c1 Hr E1) ltac:(lia)) as (ids & c2 & E2 & Hl & Hz). exists (i :: ids), c2. simpl. rewrite E1. simpl. split_and!; [done|lia|done].
Qed.

(** ** Claims *)

Lemma lookup_seq_take (l : list T) h : h <= length l -> omap (fun k => l !! k) (seq 0 h) = take h l.
Proof.
  induction h as [|h IH]; intros Hh; [done|]. rewrite seq_S, omap_app, IH by lia. simpl. destruct (lookup_lt_is_Some_2 l h ltac:(lia)) as [x Hx].
  rewrite Hx. symmetry. by apply take_S_r.
Qed.

(** C31: the queue delivers every item once and in order, under every
    interleaving.  The item that a [pop] returns is the one of the [push] with the
    same ticket, no ticket is taken twice, the queue never holds more than its
    capacity, and whenever no consumer is at work, exactly the items of the first
    tickets have been taken. *)
Theorem mpmc_delivers_once n c : reachable n c ->
  length (pushed c) = m_tail (queue c) /\ m_head (queue c) <= m_tail (queue c) <= m_head (queue c) + N /\
  NoDup (popped c).*1 /\ (forall k x, (k, x) ∈ popped c -> pushed c !! k = Some x) /\
  (forall i k x, threads c !! i = Some (Done (Popped k x)) -> (k, x) ∈ popped c) /\
  ((forall i p, threads c !! i = Some p -> ctk p = None) -> (popped c).*2 ≡ₚ take (m_head (queue c)) (pushed c)).
Proof.
  intros [Ht Hc]%mpmc_reachable_inv. pose proof (n_item _ _ _ _ Hc). pose proof (n_ipost _ _ _ _ Hc). pose proof (n_space _ _ _ _ Hc). pose proof (n_spost _ _ _ _ Hc).
  split_and!; [apply Ht|lia|lia|apply Ht|intros k x Hk; by apply (t_taken _ _ _ _ _ _ Ht)|intros i k x Hi; exact (t_pc _ _ _ _ _ _ Ht i _ Hi)|].
  intros Hq. assert (Hperm : (popped c).*1 ≡ₚ seq 0 (m_head (queue c))).
  { apply NoDup_Permutation; [apply Ht|apply NoDup_seq|]. intros k. rewrite elem_of_seq. split.
    - intros ([k' x] & -> & Hk)%list_elem_of_fmap. destruct (t_taken _ _ _ _ _ _ Ht _ _ Hk) as [_ Hf]. pose proof (t_freed _ _ _ _ _ _ Ht _ Hf). simpl. lia.
    - intros [_ Hk]. apply (t_taken_all _ _ _ _ _ _ Ht). destruct (decide (2 * lap k + 2 <= turn_at (m_slots (queue c)) k)) as [|Hn]; [done|].
      destruct (t_consumer _ _ _ _ _ _ Ht k) as (i & p & Hi & Hp); [lia|lia|]. by rewrite (Hq i p Hi) in Hp. }
  rewrite <- lookup_seq_take by (rewrite (t_log _ _ _ _ _ _ Ht); lia). rewrite <- Hperm.
  assert (Hall : forall k x, (k, x) ∈ popped c -> pushed c !! k = Some x) by (intros k x Hk; by apply (t_taken _ _ _ _ _ _ Ht)). clear -Hall.
  induction (popped c) as [|[k x] l IH]; [done|]. simpl. rewrite (Hall k x) by (by left). f_equiv. apply IH. intros k' x' Hk. apply Hall. by right.
Qed.

(** C32: no thread is stuck in the queue.  From every reachable configuration there is a
    schedule of the threads that hold a ticket, without any new call, after which
    all of them have returned; it takes at most three steps for each. *)
Theorem mpmc_no_thread_stuck n c : reachable n c -> exists ids c', run ids c = Some c' /\ length ids = count todo (threads c) /\
  (forall i p, threads c' !! i = Some p -> ptk p = None /\ ctk p = None) .
Proof.
  intros Hr. destruct (drain _ n c Hr eq_refl) as (ids & c' & E & Hl & Hz). exists ids, c'. split_and!; [done|done|].
  intros i p Hi. pose proof (count_insert todo (threads c') i p (Done Stopped) Hi) as Hw. simpl in Hw. assert (todo p = 0) by lia. by destruct p.
Qed.

End Proofs.

(** ** A consumer that overtakes a producer *)
Module Example.

Inductive act := Call (i : nat) (k : @call nat) | Go (i : nat).

Fixpoint exec (l : list act) (c : config) : option config :=
  match l with
  | [] => Some c
  | Call i k :: l' => c' ← start i k c; exec l' c'
  | Go i :: l' => c' ← step 1 i kSuccess c; exec l' c'
  end.

Lemma exec_reachable n l c c' : reachable 1 n c -> exec l c = Some c' -> reachable 1 n c'.
Proof.
  revert c. induction l as [|[i k|i] l IH]; intros c Hr E; simpl in E; [by injection E as <-| |].
  - destruct (start i k c) as [c1|] eqn:E1; [|done]. eapply IH; [by eapply r_start|done].
  - destruct (step 1 i kSuccess c) as [c1|] eqn:E1; [|done]. eapply IH; [by eapply r_step|done].
Defined.

(** Thread 0 holds ticket 0 and pauses, thread 1 pushes with ticket 1; thread 2
    takes its token and waits for the item of ticket 0. *)
Definition overtaken : list act :=
  [Call 0 (Push 7); Go 0; Go 0; Go 0; Call 1 (Push 8); Go 1; Go 1; Go 1; Go 1; Go 1; Go 1; Call 2 Pop; Go 2; Go 2; Go 2].

Definition c_wait : config := default (idle_config 1 3) (exec overtaken (idle_config 1 3)).
Definition c_end : config := default (idle_config 1 3) (exec [Go 0; Go 0; Go 0; Go 2; Go 2; Go 2] c_wait).

Lemma c_wait_reachable : reachable 1 3 c_wait.
Proof. apply (exec_reachable 3 overtaken (idle_config 1 3)); [apply r_idle|vm_compute; reflexivity]. Defined.

Lemma c_end_reachable : reachable 1 3 c_end.
Proof. apply (exec_reachable 3 [Go 0; Go 0; Go 0; Go 2; Go 2; Go 2] c_wait); [apply c_wait_reachable|vm_compute; reflexivity]. Defined.

Lemma mpmc_delivers_once_witness : threads c_end !! 2 = Some (Done (Popped 0 7)) /\
  length (pushed c_end) = m_tail (queue c_end) /\ m_head (queue c_end) <= m_tail (queue c_end) <= m_head (queue c_end) + Capacity 1 /\
  NoDup (popped c_end).*1 /\ (forall k x, (k, x) ∈ popped c_end -> pushed c_end !! k = Some x) /\
  (forall i k x, threads c_end !! i = Some (Done (Popped k x)) -> (k, x) ∈ popped c_end) /\
  ((forall i p, threads c_end !! i = Some p -> ctk p = None) -> (popped c_end).*2 ≡ₚ take (m_head (queue c_end)) (pushed c_end)).
Proof. split; [vm_compute; reflexivity|]. apply (mpmc_delivers_once 1 3 c_end). exact c_end_reachable. Defined.

Lemma mpmc_no_thread_stuck_witness : count todo (threads c_wait) = 6 /\
  exists ids c', run 1 ids c_wait = Some c' /\ length ids = count todo (threads c_wait) /\ (forall i p, threads c' !! i = Some p -> ptk p = None /\ ctk p = None).
Proof. split; [vm_compute; reflexivity|]. apply (mpmc_no_thread_stuck 1 3 c_wait). exact c_wait_reachable. Defined.

End Example.
End MPMCProofs.
