(* ===== verification/Names.v ===== *)
(** * Names

    [FixedString] (lm_control/src/fixed_string.hpp), the string of bounded length
    that crosses the interface of the Launch Manager, and [IdentifierHash]
    (common/identifier_hash.cpp), the hash of a name with the registry that leads
    back to the name.  Neither loses a name. *)

From Stdlib Require Import Ascii.
From stdpp Require Import prelude fin_maps gmap strings.
From S2P Require Import Prelude Components.

(** ** Characters and C strings *)

Definition NUL : Ascii.ascii := Ascii.zero.

(** A [std::string_view] is its characters. *)
Notation chars := (list Ascii.ascii).

(** The characters from a pointer to the first NUL; [None] is an access beyond the
    array. *)
Fixpoint c_string (a : chars) : option chars :=
  match a with
  | [] => None
  | x :: a' => if bool_decide (x = NUL) then Some [] else rest ← c_string a'; Some (x :: rest)
  end.

(** [strcmp(a, b) == 0] *)
Fixpoint strcmp_eq (a b : chars) : option bool :=
  match a, b with
  | x :: a', y :: b' =>
      if bool_decide (x <> y) then Some false
      else if bool_decide (x = NUL) then Some true
      else strcmp_eq a' b'
  | _, _ => None
  end.

(** [strncmp(a, b, n) == 0] *)
Fixpoint strncmp_eq (n : nat) (a b : chars) : option bool :=
  match n with
  | 0 => Some true
  | S n' =>
      match a, b with
      | x :: a', y :: b' =>
          if bool_decide (x <> y) then Some false
          else if bool_decide (x = NUL) then Some true
          else strncmp_eq n' a' b'
      | _, _ => None
      end
  end.

Module FixedString.

(** [storage_] has [MaxLength + 1] characters; those after the terminator are
    indeterminate, a new object starts with the characters [junk]. *)
Record t := mk { storage_ : chars }.

Section FixedString.
Context (MaxLength : nat).

Definition make (junk : chars) : t := mk (<[0 := NUL]> junk).

(** The loop of the constructors and of the assignment, from index [i], with the
    terminator after it. *)
Fixpoint copy (i : nat) (s : chars) (a : chars) : chars :=
  match s with
  | [] => <[i := NUL]> a
  | c :: s' => copy (S i) s' (<[i := c]> a)
  end.

(** From a literal; the [static_assert] bounds its length. *)
Definition of_literal (s : chars) (junk : chars) : t := mk (copy 0 s junk).

Definition of_view (s : chars) (junk : chars) : t :=
  let len := length s `min` MaxLength in mk (copy 0 (take len s) junk).

Definition assign (s : chars) (f : t) : t :=
  let len := length s `min` MaxLength in mk (copy 0 (take len s) (storage_ f)).

Definition max_size : nat := MaxLength.
Definition as_string_view (f : t) : option chars := c_string (storage_ f).
Definition size (f : t) : option nat := length <$> as_string_view f.
Definition empty (f : t) : option bool := (fun c => bool_decide (c = NUL)) <$> storage_ f !! 0.
Definition clear (f : t) : t := mk (<[0 := NUL]> (storage_ f)).
Definition data (f : t) : chars := storage_ f.

(** The equality operators; the first also compares strings of different capacity. *)
Definition eq (f other : t) : option bool := strcmp_eq (data f) (data other).

Definition eq_view (f : t) (other : chars) : option bool :=
  if MaxLength <? length other then Some false
  else
    same ← strncmp_eq (length other) (storage_ f) other;
    if (same : bool) then (fun c => bool_decide (c = NUL)) <$> storage_ f !! length other else Some false.

(** With a literal; its array ends with a NUL. *)
Definition eq_literal (f : t) (other : chars) : option bool :=
  if MaxLength <? length other then Some false
  else
    same ← strncmp_eq (length other) (storage_ f) (other ++ [NUL]);
    if (same : bool) then (fun c => bool_decide (c = NUL)) <$> storage_ f !! length other else Some false.

Definition ne (f other : t) : option bool := negb <$> eq f other.
Definition ne_view (f : t) (other : chars) : option bool := negb <$> eq_view f other.
Definition ne_literal (f : t) (other : chars) : option bool := negb <$> eq_literal f other.

End FixedString.
End FixedString.

(** ** Hashes of names *)

Module Identifier.

(** [get_registry()]: the names by their hashes; the mutex makes each operation one
    step.  [hash_bytes_fnv1a] is a library function. *)
Notation Registry := (gmap IdentifierHash chars).

Section Identifier.
Context (fnv1a : chars -> IdentifierHash).

(** [try_emplace] *)
Definition try_emplace (h : IdentifierHash) (id : chars) (r : Registry) : Registry :=
  match r !! h with Some _ => r | None => <[h := id]> r end.

Definition make (id : chars) (r : Registry) : IdentifierHash * Registry :=
  let hash_id := fnv1a id in (hash_id, try_emplace hash_id id r).

Definition make_null (r : Registry) : IdentifierHash * Registry :=
  let hash_id := fnv1a [] in (hash_id, try_emplace hash_id [] r).

Definition if_exists (id : chars) (r : Registry) : option IdentifierHash :=
  let hash_id := fnv1a id in
  match r !! hash_id with None => None | Some _ => Some hash_id end.

Definition eq (a b : IdentifierHash) : bool := (a =? b)%Z.
Definition ne (a b : IdentifierHash) : bool := negb (eq a b).
Definition lt (a b : IdentifierHash) : bool := (a <? b)%Z.

(** The comparison with a name constructs an identifier and so registers the name. *)
Definition eq_name (a : IdentifierHash) (other : chars) (r : Registry) : bool * Registry :=
  let '(b, r') := make other r in (eq a b, r').
Definition ne_name (a : IdentifierHash) (other : chars) (r : Registry) : bool * Registry :=
  let '(b, r') := make other r in (negb (eq a b), r').

(** [get_registry()\[hash_id_\]] inserts an empty name when there is none. *)
Definition get_name (a : IdentifierHash) (r : Registry) : chars * Registry :=
  match r !! a with
  | Some name => (name, r)
  | None => ([], <[a := []]> r)
  end.

(** [operator<<]: the name, or the number of an unknown identifier. *)
Definition print (a : IdentifierHash) (r : Registry) : chars + IdentifierHash :=
  match r !! a with Some name => inl name | None => inr a end.

End Identifier.
End Identifier.

(** ** Proofs: fixed strings *)

Module FixedStringProofs.
Import FixedString.

(** The characters before the first NUL. *)
Fixpoint before_nul (s : chars) : chars :=
  match s with
  | [] => []
  | c :: s' => if bool_decide (c = NUL) then [] else c :: before_nul s'
  end.

Lemma before_nul_no_nul s : NUL ∉ before_nul s.
Proof. induction s as [|c s IH]; simpl; [set_solver|]. case_bool_decide; set_solver. Qed.

Lemma before_nul_id s : NUL ∉ s -> before_nul s = s.
Proof. induction s as [|c s IH]; simpl; [done|]. intros Hn. rewrite bool_decide_eq_false_2 by set_solver. rewrite IH; set_solver. Qed.

Lemma before_nul_length s : length (before_nul s) <= length s.
Proof. induction s as [|c s IH]; simpl; [done|]. case_bool_decide; simpl; lia. Qed.

Lemma before_nul_app s a : NUL ∉ s -> before_nul (s ++ NUL :: a) = s.
Proof.
  induction s as [|c s IH]; simpl; [done|].
  intros Hn. rewrite bool_decide_eq_false_2 by set_solver. rewrite IH; set_solver.
Qed.

(** An array of [n + 1] characters that holds the string [x]. *)
Definition holds (n : nat) (f : t) (x : chars) : Prop :=
  NUL ∉ x /\ length (storage_ f) = S n /\ exists rest, storage_ f = x ++ NUL :: rest.

Lemma copy_spec s : forall i a, i + length s < length a -> copy i s a = take i a ++ s ++ NUL :: drop (S (i + length s)) a.
Proof.
  induction s as [|c s IH]; intros i a Hi; simpl in *.
  - rewrite Nat.add_0_r in *. rewrite insert_take_drop by lia. done.
  - rewrite IH by (rewrite length_insert; lia).
    rewrite (take_S_r _ i c) by (apply list_lookup_insert_eq; lia).
    rewrite take_insert_ge by lia. rewrite drop_insert_lt by lia.
    rewrite <- app_assoc. simpl. by rewrite Nat.add_succ_r.
Qed.

Lemma copy_length s : forall i a, length (copy i s a) = length a.
Proof. induction s as [|c s IH]; intros i a; simpl; [|rewrite IH]; apply length_insert. Qed.

(** Copying a string into the array stores it up to its first NUL. *)
Lemma copy_holds n s a : length s <= n -> length a = S n -> holds n (mk (copy 0 s a)) (before_nul s).
Proof.
  intros Hs Ha. split; [apply before_nul_no_nul|]. simpl. split; [by rewrite copy_length|].
  rewrite copy_spec by (simpl; lia). simpl. generalize (drop (S (length s)) a).
  clear. induction s as [|c s IH]; intros rest; simpl; [by exists rest|].
  case_bool_decide as Hc; [subst; by eexists|]. destruct (IH rest) as [r ->]. by exists r.
Qed.

Lemma take_min_length n (s : chars) : length (take (length s `min` n) s) <= n.
Proof. rewrite length_take. lia. Qed.

Lemma take_min (n : nat) (s : chars) : take (length s `min` n) s = take n s.
Proof.
  destruct (Nat.le_gt_cases (length s) n); [by rewrite Nat.min_l, firstn_all, take_ge by lia | by rewrite Nat.min_r by lia].
Qed.

Lemma of_view_holds n s junk : length junk = S n -> holds n (of_view n s junk) (before_nul (take n s)).
Proof. intros Hj. rewrite <- take_min. apply copy_holds; [apply take_min_length | done]. Qed.

Lemma assign_holds n s f x : holds n f x -> holds n (assign n s f) (before_nul (take n s)).
Proof. intros (_ & Hl & _). rewrite <- take_min. apply copy_holds; [apply take_min_length | done]. Qed.

Lemma clear_holds n f x : holds n f x -> holds n (clear f) [].
Proof.
  intros (_ & Hl & _). split; [set_solver|]. simpl. rewrite length_insert. split; [done|].
  destruct (storage_ f) as [|c a]; [done|]. by exists a.
Qed.

Lemma holds_le n f x : holds n f x -> length x <= n.
Proof. intros (_ & Hl & r & E). rewrite E, length_app in Hl. simpl in Hl. lia. Qed.

Lemma c_string_app x r : NUL ∉ x -> c_string (x ++ NUL :: r) = Some x.
Proof.
  induction x as [|c x IH]; intros Hn; simpl; [done|].
  rewrite bool_decide_eq_false_2 by set_solver. rewrite IH; set_solver.
Qed.

Lemma strcmp_app x y r r' :
  NUL ∉ x -> NUL ∉ y -> strcmp_eq (x ++ NUL :: r) (y ++ NUL :: r') = Some (bool_decide (x = y)).
Proof.
  revert y. induction x as [|c x IH]; intros [|d y] Hx Hy; simpl.
  - done.
  - by rewrite bool_decide_eq_true_2 by set_solver.
  - by rewrite bool_decide_eq_true_2 by set_solver.
  - destruct (decide (c = d)) as [->|Hc].
    + rewrite bool_decide_eq_false_2 by naive_solver. rewrite bool_decide_eq_false_2 by set_solver.
      rewrite IH by set_solver. f_equal. apply bool_decide_ext. naive_solver.
    + rewrite bool_decide_eq_true_2 by done. by rewrite bool_decide_eq_false_2 by naive_solver.
Qed.

(** The comparison with the first [length y] characters, and the look at the next. *)
Lemma strncmp_app x y r tail :
  NUL ∉ x -> NUL ∉ y -> length y <= length x + length r ->
  (same ← strncmp_eq (length y) (x ++ NUL :: r) (y ++ tail);
   if (same : bool) then (fun c => bool_decide (c = NUL)) <$> (x ++ NUL :: r) !! length y else Some false)
  = Some (bool_decide (x = y)).
Proof.
  revert y. induction x as [|c x IH]; intros [|d y] Hx Hy Hl; simpl.
  - done.
  - rewrite bool_decide_eq_true_2 by set_solver. done.
  - by rewrite bool_decide_eq_false_2 by set_solver.
  - destruct (decide (c = d)) as [->|Hc].
    + rewrite bool_decide_eq_false_2 by naive_solver. rewrite bool_decide_eq_false_2 by set_solver.
      simpl in Hl. rewrite IH by (set_solver || lia). f_equal. apply bool_decide_ext. naive_solver.
    + rewrite bool_decide_eq_true_2 by done. simpl. by rewrite bool_decide_eq_false_2 by naive_solver.
Qed.

Lemma holds_view n f x : holds n f x -> as_string_view f = Some x.
Proof. intros (Hx & _ & r & E). unfold as_string_view. rewrite E. by apply c_string_app. Qed.

Lemma holds_empty n f x : holds n f x -> empty f = Some (bool_decide (x = [])).
Proof.
  intros (Hx & _ & r & E). unfold empty. rewrite E. destruct x as [|c x]; [done|]. simpl.
  by rewrite bool_decide_eq_false_2 by set_solver.
Qed.

Lemma holds_eq n m f g x y : holds n f x -> holds m g y -> eq f g = Some (bool_decide (x = y)).
Proof. intros (Hx & _ & r & E) (Hy & _ & r' & E'). unfold eq, data. rewrite E, E'. by apply strcmp_app. Qed.

Lemma holds_eq_chars n f x y tail :
  holds n f x -> NUL ∉ y ->
  (if n <? length y then Some false
   else same ← strncmp_eq (length y) (storage_ f) (y ++ tail);
        if (same : bool) then (fun c => bool_decide (c = NUL)) <$> storage_ f !! length y else Some false)
  = Some (bool_decide (x = y)).
Proof.
  intros H Hy. pose proof (holds_le _ _ _ H) as Hle. destruct H as (Hx & Hl & r & E).
  destruct (Nat.ltb_spec n (length y)) as [Hn|Hn].
  - rewrite bool_decide_eq_false_2; [done|]. intros ->. lia.
  - rewrite E in Hl |- *. rewrite length_app in Hl. simpl in Hl. apply strncmp_app; [done..|lia].
Qed.

Lemma holds_eq_view n f x y : holds n f x -> NUL ∉ y -> eq_view n f y = Some (bool_decide (x = y)).
Proof. intros H Hy. pose proof (holds_eq_chars n f x y [] H Hy) as E. by rewrite app_nil_r in E. Qed.

Lemma holds_eq_literal n f x y : holds n f x -> NUL ∉ y -> eq_literal n f y = Some (bool_decide (x = y)).
Proof. apply holds_eq_chars. Qed.

(** The operations that change a string, and what they do to its characters. *)
Inductive op := Assign (s : chars) | Clear.

Definition step (n : nat) (f : t) (o : op) : t :=
  match o with Assign s => assign n s f | Clear => clear f end.
Definition effect (n : nat) (x : chars) (o : op) : chars :=
  match o with Assign s => before_nul (take n s) | Clear => [] end.

Lemma steps_hold n ops : forall f x, holds n f x -> holds n (foldl (step n) f ops) (foldl (effect n) x ops).
Proof.
  induction ops as [|[s|] ops IH]; intros f x H; simpl; [done|..]; apply IH; [by eapply assign_holds | by eapply clear_holds].
Qed.

(** A fixed string refines the string of its characters: after a construction
    from a view and any assignments, whatever the indeterminate memory holds, it
    is the last view up to its capacity and its first NUL; no operation reads
    outside the array; and the comparisons with fixed strings of any
    capacity, with views and with literals decide the equality of the characters. *)
Theorem fixed_string_is_its_characters (n : nat) (s junk : chars) (ops : list op) :
  length junk = S n ->
  let f := foldl (step n) (of_view n s junk) ops in
  let x := foldl (effect n) (before_nul (take n s)) ops in
  as_string_view f = Some x /\ size f = Some (length x) /\ length x <= max_size n /\
  empty f = Some (bool_decide (x = [])) /\
  (forall m g y, holds m g y -> eq f g = Some (bool_decide (x = y)) /\ ne f g = Some (bool_decide (x <> y))) /\
  (forall y, NUL ∉ y ->
     eq_view n f y = Some (bool_decide (x = y)) /\ eq_literal n f y = Some (bool_decide (x = y)) /\
     ne_view n f y = Some (bool_decide (x <> y)) /\ ne_literal n f y = Some (bool_decide (x <> y))).
Proof.
  intros Hj f x. assert (H : holds n f x) by by apply steps_hold, of_view_holds.
  split_and!; [by eapply holds_view | | by eapply holds_le | by eapply holds_empty | |].
  - unfold size. by rewrite (holds_view _ _ _ H).
  - intros m g y Hg. unfold ne. rewrite (holds_eq _ _ _ _ _ _ H Hg). split; [done|]. simpl. by rewrite bool_decide_not.
  - intros y Hy. unfold ne_view, ne_literal. rewrite (holds_eq_view _ _ _ _ H Hy), (holds_eq_literal _ _ _ _ H Hy).
    simpl. by rewrite bool_decide_not.
Qed.

(** A name that fits comes back unchanged. *)
Lemma fixed_string_roundtrip n s junk :
  length junk = S n -> length s <= n -> NUL ∉ s -> as_string_view (of_view n s junk) = Some s.
Proof.
  intros Hj Hs Hn. rewrite (holds_view _ _ _ (of_view_holds n s junk Hj)). by rewrite take_ge, before_nul_id.
Qed.

Module Example.

Definition ab : chars := ["a"%char; "b"%char].
Definition zeros : chars := replicate 9 NUL.

Lemma fixed_string_is_its_characters_witness :
  let f := foldl (step 8) (of_view 8 ab zeros) [Clear; Assign (ab ++ ab)] in
  as_string_view f = Some (ab ++ ab) /\ eq_view 8 f ab = Some false.
Proof.
  destruct (fixed_string_is_its_characters 8 ab zeros [Clear; Assign (ab ++ ab)] eq_refl) as (Hv & _ & _ & _ & _ & He).
  split; [exact Hv|]. destruct (He ab) as (E & _); [|exact E]. vm_compute. intros H. inversion H; inversion H2; inversion H6.
Defined.

(** A view with a NUL inside can be taken for equal to a shorter string. *)
Lemma embedded_nul_taken_for_equal : eq_view 8 (of_view 8 ab zeros) (ab ++ [NUL; "c"%char]) = Some true.
Proof. reflexivity. Qed.

End Example.

End FixedStringProofs.

(** ** Proofs: identifiers *)

Module IdentifierProofs.
Import Identifier.

Section Registry.
Context (fnv1a : chars -> IdentifierHash).

(** Registries with the names given to constructors so far.  Identifiers come only
    from constructors, so [get_name] is asked only for the hash of such a name. *)
Inductive reachable : Registry -> list chars -> Prop :=
| reach_start : reachable ∅ []
| reach_make r l id : reachable r l -> reachable (make fnv1a id r).2 (l ++ [id])
| reach_null r l : reachable r l -> reachable (make_null fnv1a r).2 (l ++ [[]])
| reach_compare r l a id : reachable r l -> reachable (eq_name fnv1a a id r).2 (l ++ [id])
| reach_compare_ne r l a id : reachable r l -> reachable (ne_name fnv1a a id r).2 (l ++ [id])
| reach_name r l a : reachable r l -> a ∈ fnv1a <$> l -> reachable (get_name a r).2 l.

(** The first name with a hash is the registered one. *)
Definition first_name (l : list chars) (h : IdentifierHash) : option chars := head (filter (fun s => fnv1a s = h) l).

Lemma first_name_snoc l id h :
  first_name (l ++ [id]) h =
  match first_name l h with Some s => Some s | None => if decide (fnv1a id = h) then Some id else None end.
Proof.
  unfold first_name. rewrite filter_app. destruct (filter _ l) as [|x l'] eqn:E; [|done]. simpl.
  rewrite filter_cons, filter_nil. by case_decide.
Qed.

Lemma try_emplace_first (r : Registry) l id :
  (forall h, r !! h = first_name l h) -> forall h, try_emplace (fnv1a id) id r !! h = first_name (l ++ [id]) h.
Proof.
  intros Hr h. rewrite first_name_snoc, <- Hr. unfold try_emplace.
  destruct (r !! fnv1a id) as [s|] eqn:E.
  - destruct (r !! h) eqn:Eh; [done|]. rewrite decide_False; [done|]. intros <-. by rewrite E in Eh.
  - destruct (decide (fnv1a id = h)) as [<-|Hn]; [by rewrite lookup_insert_eq, E|].
    rewrite lookup_insert_ne by done. by destruct (r !! h).
Qed.

Lemma first_name_Some l h s : first_name l h = Some s -> s ∈ l /\ fnv1a s = h.
Proof.
  unfold first_name. destruct (filter _ l) as [|x l'] eqn:E; [done|]. intros [= <-].
  assert (x ∈ filter (fun s => fnv1a s = h) l) as [? ?]%list_elem_of_filter by (rewrite E; left). done.
Qed.

Lemma first_name_is_Some l h : h ∈ fnv1a <$> l -> is_Some (first_name l h).
Proof.
  intros (s & -> & Hs)%list_elem_of_fmap. unfold first_name. destruct (filter _ l) as [|x l'] eqn:E; [|by eexists].
  assert (s ∈ filter (fun t => fnv1a t = fnv1a s) l) as Hf by by apply list_elem_of_filter. rewrite E in Hf. by apply elem_of_nil in Hf.
Qed.

Lemma registry_spec r l : reachable r l -> forall h, r !! h = first_name l h.
Proof.
  induction 1 as [|r l id _ IH|r l _ IH|r l a id _ IH|r l a id _ IH|r l a _ IH Ha].
  - intros h. by rewrite lookup_empty.
  - by apply try_emplace_first.
  - by apply try_emplace_first.
  - by apply try_emplace_first.
  - by apply try_emplace_first.
  - unfold get_name. destruct (first_name_is_Some l a Ha) as [s Hs]. by rewrite IH, Hs.
Qed.

Lemma if_exists_spec r l s :
  reachable r l -> if_exists fnv1a s r = if bool_decide (fnv1a s ∈ fnv1a <$> l) then Some (fnv1a s) else None.
Proof.
  intros Hr. unfold if_exists. rewrite (registry_spec r l Hr). case_bool_decide as Hin.
  - by destruct (first_name_is_Some l _ Hin) as [x ->].
  - destruct (first_name l (fnv1a s)) as [x|] eqn:E; [|done]. apply first_name_Some in E as [Hx Ex].
    destruct Hin. rewrite <- Ex. by apply list_elem_of_fmap_2.
Qed.

Lemma registered_name r l id :
  reachable r l -> (forall s t, s ∈ l -> t ∈ l -> fnv1a s = fnv1a t -> s = t) -> id ∈ l -> r !! fnv1a id = Some id.
Proof.
  intros Hr Hinj Hid. rewrite (registry_spec r l Hr).
  destruct (first_name_is_Some l (fnv1a id)) as [x Hx]; [by apply list_elem_of_fmap_2|].
  rewrite Hx. apply first_name_Some in Hx as [Hx Ex]. f_equal. by apply Hinj.
Qed.

(** In every reachable registry a name is known exactly when some constructed
    name has its hash; and when the constructed names do not collide, every
    identifier leads back to the name it was made from, reading it changes
    nothing, and comparing identifiers compares names. *)
Theorem identifiers_keep_names (r : Registry) (l : list chars) :
  reachable r l -> (forall s t, s ∈ l -> t ∈ l -> fnv1a s = fnv1a t -> s = t) ->
  (forall s h, if_exists fnv1a s r = Some h <-> h = fnv1a s /\ h ∈ fnv1a <$> l) /\
  forall id, id ∈ l ->
    get_name (fnv1a id) r = (id, r) /\ print (fnv1a id) r = inl id /\
    forall other, other ∈ l -> eq (fnv1a id) (fnv1a other) = bool_decide (id = other).
Proof.
  intros Hr Hinj. split.
  - intros s h. rewrite (if_exists_spec r l s Hr). case_bool_decide; naive_solver.
  - intros id Hid. pose proof (registered_name r l id Hr Hinj Hid) as El.
    unfold get_name, print. rewrite El. split_and!; [done..|]. intros other Ho. unfold eq.
    destruct (Z.eqb_spec (fnv1a id) (fnv1a other)) as [E|E]; [|by rewrite bool_decide_eq_false_2 by naive_solver].
    by rewrite bool_decide_eq_true_2 by by apply Hinj.
Qed.

End Registry.

Module Example.

(** A hash that tells the two names of the example apart. *)
Definition hash (s : chars) : IdentifierHash := Z.of_nat (length s).
Definition off : chars := ["O"%char; "f"%char; "f"%char].
Definition on_ : chars := ["O"%char; "n"%char].
Definition two : Registry := (eq_name hash 3%Z on_ (make hash off ∅).2).2.

Lemma identifiers_keep_names_witness :
  get_name (hash off) two = (off, two) /\ eq (hash off) (hash on_) = false.
Proof.
  destruct (identifiers_keep_names hash two [off; on_]) as [_ H].
  - change [off; on_] with (([] ++ [off]) ++ [on_]). apply reach_compare, reach_make, reach_start.
  - intros s t Hs Ht E. assert (forall x, x ∈ [off; on_] -> x = off \/ x = on_) as Hc by set_solver.
    destruct (Hc s Hs) as [->| ->], (Hc t Ht) as [->| ->]; try reflexivity; discriminate E.
  - destruct (H off) as (E & _ & _); [left|]. split; [exact E | reflexivity].
Defined.

End Example.

End IdentifierProofs.
