(* ===== verification/Configuration.v ===== *)
(** * The configuration of the Launch Manager

    Module [fb]: the tables of the FlatBuffers schema
    (configuration/details/lm_flatcfg.fbs), as the accessors that the build generates
    present them.  Modules after the structs of component_config.hpp, config.hpp and
    recovery_action_config.hpp: the configuration the daemon works with.
    Module [Environment]: environment_config.cpp.  Module [Converters]:
    flatbuffer_type_converters.cpp.  Module [ConfigLoader]:
    flatbuffer_config_loader.cpp and config.cpp.  The proofs are in
    [ConfigurationProofs]. *)

From stdpp Require Import prelude fin_maps gmap strings.
From S2P Require Import Prelude Queues Depgraph Components Transitions Graphs ProcessNodes Watchdog.

(** ** The schema

    A pointer to a string, a vector or a table is an [option]; a scalar with
    [= null] is an [Optional], also an [option].  An enumeration is the number
    that is stored, which may be none of the enumerators. *)

Module fb.

Definition Native : Z := 0.
Definition Reporting : Z := 1.
Definition Reporting_And_Supervised : Z := 2.
Definition State_Manager : Z := 3.

Definition Running : Z := 0.
Definition Terminated : Z := 1.

Definition Exists : Z := 0.
Definition NotExisting : Z := 1.

Definition OTHER : Z := 0.
Definition FIFO : Z := 1.
Definition RR : Z := 2.

Definition POSIX_RLIMIT_AS : Z := 0.
Definition POSIX_RLIMIT_CORE : Z := 1.
Definition POSIX_RLIMIT_CPU : Z := 2.
Definition POSIX_RLIMIT_DATA : Z := 3.
Definition POSIX_RLIMIT_FSIZE : Z := 4.
Definition POSIX_RLIMIT_NOFILE : Z := 5.
Definition POSIX_RLIMIT_STACK : Z := 6.

Module ComponentAliveSupervision.
Record t := mk {
  reporting_cycle_ms : option Z;
  failed_cycles_tolerance : option Z;
  min_indications : option Z;
  max_indications : option Z
}.
End ComponentAliveSupervision.

Module ApplicationProfile.
Record t := mk {
  application_type : option Z;
  is_self_terminating : option bool;
  alive_supervision : option ComponentAliveSupervision.t
}.
End ApplicationProfile.

(** [state] has a default and is never absent. *)
Module FileState.
Record t := mk {
  file_path : option string;
  state : Z;
  polling_interval_ms : option Z
}.
End FileState.

Module ReadyCondition.
Record t := mk {
  process_state : option Z;
  file_state : option FileState.t
}.
End ReadyCondition.

Module ComponentProperties.
Record t := mk {
  binary_name : option string;
  application_profile : option ApplicationProfile.t;
  depends_on : option (list (option string));
  process_arguments : option (list (option string));
  ready_condition : option ReadyCondition.t
}.
End ComponentProperties.

Module SwitchRunTargetAction.
Record t := mk { run_target : option string }.
End SwitchRunTargetAction.

Module EnvironmentalVariable.
Record t := mk {
  key : option string;
  value : option string
}.
End EnvironmentalVariable.

Module Rlimit.
Record t := mk {
  resource : option Z;
  soft : option Z;
  hard : option Z
}.
End Rlimit.

(** Without the two fields that the schema calls ignored. *)
Module Sandbox.
Record t := mk {
  uid : option Z;
  gid : option Z;
  supplementary_group_ids : option (list Z);
  security_policy : option string;
  scheduling_policy : option Z;
  scheduling_priority : option Z;
  rlimits : option (list (option Rlimit.t));
  affinity_mask : option Z
}.
End Sandbox.

Module DeploymentConfig.
Record t := mk {
  ready_timeout_ms : option Z;
  shutdown_timeout_ms : option Z;
  environmental_variables : option (list (option EnvironmentalVariable.t));
  bin_dir : option string;
  working_dir : option string;
  activation_retry_attempts : option Z;
  activation_retry_delay_ms : option Z;
  recovery_action : option SwitchRunTargetAction.t;
  sandbox : option Sandbox.t
}.
End DeploymentConfig.

Module RunTarget.
Record t := mk {
  name : option string;
  description : option string;
  depends_on : option (list (option string));
  transition_timeout_ms : option Z;
  recovery_action : option SwitchRunTargetAction.t
}.
End RunTarget.

Module Component.
Record t := mk {
  name : option string;
  description : option string;
  component_properties : option ComponentProperties.t;
  deployment_config : option DeploymentConfig.t
}.
End Component.

Module AliveSupervision.
Record t := mk { evaluation_cycle_ms : option Z }.
End AliveSupervision.

Module Watchdog.
Record t := mk {
  device_file_path : option string;
  max_timeout_ms : option Z;
  deactivate_on_shutdown : option bool;
  require_magic_close : option bool
}.
End Watchdog.

Module FallbackRunTarget.
Record t := mk {
  description : option string;
  depends_on : option (list (option string));
  transition_timeout_ms : option Z
}.
End FallbackRunTarget.

Module LaunchManagerConfig.
Record t := mk {
  schema_version : option Z;
  components : option (list (option Component.t));
  run_targets : option (list (option RunTarget.t));
  initial_run_target : option string;
  fallback_run_target : option FallbackRunTarget.t;
  alive_supervision : option AliveSupervision.t;
  watchdog : option Watchdog.t
}.
End LaunchManagerConfig.

End fb.

(** ** Constants of the platform *)

Class Platform := {
  SCHED_OTHER : Z; SCHED_FIFO : Z; SCHED_RR : Z;
  RLIMIT_AS : Z; RLIMIT_CORE : Z; RLIMIT_CPU : Z; RLIMIT_DATA : Z;
  RLIMIT_FSIZE : Z; RLIMIT_NOFILE : Z; RLIMIT_STACK : Z;
  RLIM_INFINITY : Z;
  uid_min : Z; uid_max : Z; gid_min : Z; gid_max : Z
}.

(** ** Environment variables *)

Module EnvironmentVariable.

Record t := mk { entry_ : string; key_length_ : nat }.

Definition make (key value : string) : outcome t :=
  _ ← assert (bool_decide (key <> ""));
  Ret (mk (key +:+ "=" +:+ value) (String.length key)).

Definition key (v : t) : string := String.substring 0 (key_length_ v) (entry_ v).
Definition value (v : t) : string :=
  String.substring (key_length_ v + 1) (String.length (entry_ v) - key_length_ v - 1) (entry_ v).
Definition c_str (v : t) : string := entry_ v.

End EnvironmentVariable.

Module Environment.

(** A pointer to the string of an entry is the entry's index, [None] is the null
    pointer that ends the array. *)
Record t := mk { entries_ : list EnvironmentVariable.t; pointers_ : list (option nat) }.

Definition make : t := mk [] [None].

Definition rebuildPointers (e : t) : t :=
  mk (entries_ e) (fmap Some (seq 0 (length (entries_ e))) ++ [None]).

Definition add (key value : string) (e : t) : outcome t :=
  v ← EnvironmentVariable.make key value;
  Ret (rebuildPointers (mk (entries_ e ++ [v]) (pointers_ e))).

Definition set (entries : list EnvironmentVariable.t) (e : t) : t :=
  rebuildPointers (mk entries (pointers_ e)).

Definition size (e : t) : nat := length (entries_ e).

(** The move constructor: the new object and what is left of the other. *)
Definition move (other : t) : t * t :=
  (rebuildPointers (mk (entries_ other) [None]), mk [] (pointers_ other)).

(** The move assignment to another object. *)
Definition assign (other this : t) : t * t :=
  (rebuildPointers (mk (entries_ other) (pointers_ this)), mk [] (pointers_ other)).

(** What [execve] reads from [envp()]: strings up to the null pointer; [None]
    when it would follow a pointer that is no longer valid or leave the array. *)
Fixpoint read_pointers (entries : list EnvironmentVariable.t) (p : list (option nat)) : option (list string) :=
  match p with
  | [] => None
  | None :: _ => Some []
  | Some i :: p' =>
      v ← entries !! i;
      rest ← read_pointers entries p';
      Some (EnvironmentVariable.c_str v :: rest)
  end.

Definition envp (e : t) : option (list string) := read_pointers (entries_ e) (pointers_ e).

End Environment.

(** ** The configuration of the daemon *)

Module ComponentAliveSupervision.
Record t := mk {
  reporting_cycle_ms : Z;
  failed_cycles_tolerance : Z;
  min_indications : option Z;
  max_indications : option Z
}.
Definition empty : t := mk 0 0 None None.
End ComponentAliveSupervision.

Module ApplicationProfile.
Record t := mk {
  application_type : ProcessInfoNode.ApplicationType;
  is_self_terminating : bool;
  alive_supervision : option ComponentAliveSupervision.t
}.
Definition empty : t := mk ProcessInfoNode.Native false None.
End ApplicationProfile.

Inductive FileExistenceState := Exists | NotExisting.

Module FileState.
Record t := mk {
  file_path : string;
  state : FileExistenceState;
  polling_interval : Z
}.
End FileState.

Inductive ProcessState := Running | Terminated.

(** [std::variant<ProcessState, FileState>] *)
Inductive ReadyCondition :=
| OnProcessState (s : ProcessState)
| OnFileState (f : FileState.t).

Module ResourceLimit.
Record t := mk { resource : Z; rlim_cur : Z; rlim_max : Z }.
End ResourceLimit.

Module ComponentProperties.
Record t := mk {
  binary_name : string;
  application_profile : ApplicationProfile.t;
  depends_on : list string;
  process_arguments : list string;
  ready_condition : ReadyCondition
}.
Definition empty : t := mk "" ApplicationProfile.empty [] [] (OnProcessState Running).
End ComponentProperties.

Module Sandbox.
Record t := mk {
  uid : Z;
  gid : Z;
  supplementary_group_ids : list Z;
  security_policy : option string;
  scheduling_policy : Z;
  scheduling_priority : Z;
  rlimits : list ResourceLimit.t;
  affinity_mask : option Z
}.
Definition empty : t := mk 0 0 [] None 0 0 [] None.
End Sandbox.

Module SwitchRunTargetAction.
Record t := mk { run_target : string }.
End SwitchRunTargetAction.

Module DeploymentConfig.
Record t := mk {
  ready_timeout_ms : Z;
  shutdown_timeout_ms : Z;
  environmental_variables : Environment.t;
  executable_path : string;
  working_dir : string;
  activation_retry_attempts : Z;
  activation_retry_delay_ms : Z;
  recovery_action : option SwitchRunTargetAction.t;
  sandbox : Sandbox.t
}.
Definition empty : t := mk 0 0 Environment.make "" "" 0 0 None Sandbox.empty.

Definition with_environment (e : Environment.t) (d : t) : t :=
  mk (ready_timeout_ms d) (shutdown_timeout_ms d) e (executable_path d) (working_dir d) (activation_retry_attempts d)
    (activation_retry_delay_ms d) (recovery_action d) (sandbox d).

(** The move constructor and the move assignment of the struct: the new object, whose
    members are moved one by one; what is left of the other is not read again. *)
Definition move (other : t) : t := with_environment (Environment.move (environmental_variables other)).1 other.
Definition assign (other this : t) : t :=
  with_environment (Environment.assign (environmental_variables other) (environmental_variables this)).1 other.
End DeploymentConfig.

Module ComponentConfig.
Record t := mk {
  name : string;
  description : string;
  component_properties : ComponentProperties.t;
  deployment_config : DeploymentConfig.t
}.
Definition empty : t := mk "" "" ComponentProperties.empty DeploymentConfig.empty.

(** The move constructor of the struct. *)
Definition move (other : t) : t :=
  mk (name other) (description other) (component_properties other) (DeploymentConfig.move (deployment_config other)).
End ComponentConfig.

Module RunTargetConfig.
Record t := mk {
  name : string;
  description : string;
  depends_on : list string;
  transition_timeout_ms : Z;
  recovery_action : SwitchRunTargetAction.t
}.
Definition empty : t := mk "" "" [] 0 (SwitchRunTargetAction.mk "").
End RunTargetConfig.

Module FallbackRunTargetConfig.
Record t := mk {
  description : string;
  depends_on : list string;
  transition_timeout_ms : Z
}.
Definition empty : t := mk "" [] 0.
End FallbackRunTargetConfig.

Module AliveSupervisionConfig.
Record t := mk { evaluation_cycle_ms : Z }.
Definition empty : t := mk 0.
End AliveSupervisionConfig.

(** [Config]; the builder has the same members and hands them over in [build]. *)
Module Config.
Record t := mk {
  components_ : list ComponentConfig.t;
  run_targets_ : list RunTargetConfig.t;
  initial_run_target_ : string;
  fallback_run_target_ : FallbackRunTargetConfig.t;
  alive_supervision_ : AliveSupervisionConfig.t;
  watchdog_ : option Watchdog.WatchdogConfig
}.

(** The accessors that move a part out: the part and what is left.  A vector is
    left empty; what is left of a string is unspecified, here [left]. *)
Definition takeComponents (c : t) : list ComponentConfig.t * t :=
  (components_ c, mk [] (run_targets_ c) (initial_run_target_ c) (fallback_run_target_ c) (alive_supervision_ c) (watchdog_ c)).
Definition takeRunTargets (c : t) : list RunTargetConfig.t * t :=
  (run_targets_ c, mk (components_ c) [] (initial_run_target_ c) (fallback_run_target_ c) (alive_supervision_ c) (watchdog_ c)).
Definition takeInitialRunTarget (left : string) (c : t) : string * t :=
  (initial_run_target_ c, mk (components_ c) (run_targets_ c) left (fallback_run_target_ c) (alive_supervision_ c) (watchdog_ c)).
Definition takeFallbackRunTarget (left : string) (c : t) : FallbackRunTargetConfig.t * t :=
  (fallback_run_target_ c,
   mk (components_ c) (run_targets_ c) (initial_run_target_ c)
     (FallbackRunTargetConfig.mk left [] (FallbackRunTargetConfig.transition_timeout_ms (fallback_run_target_ c)))
     (alive_supervision_ c) (watchdog_ c)).
Definition takeAliveSupervision (c : t) : AliveSupervisionConfig.t * t := (alive_supervision_ c, c).
Definition takeWatchdog (left : string) (c : t) : option Watchdog.WatchdogConfig * t :=
  (watchdog_ c,
   mk (components_ c) (run_targets_ c) (initial_run_target_ c) (fallback_run_target_ c) (alive_supervision_ c)
     (option_map (fun w => Watchdog.mkWatchdogConfig left (Watchdog.max_timeout_ms w) (Watchdog.deactivate_on_shutdown w)
                             (Watchdog.require_magic_close w)) (watchdog_ c))).
End Config.

(** ** Conversion

    A converter can fail with an error, which is a value, or stop the daemon.  The
    converters build a struct in a local object and move it into the result; where an
    environment moves along, the moves are written out, since its own move
    operations rebuild the pointers.  The compiler may leave out the move when
    [convertEnvironmentalVariables] returns its local object. *)

Inductive Error :=
| FileNotFound
| InsufficientPermission
| InvalidFormat
| UnsupportedVersion
| GeneralError.

Definition load (A : Type) : Type := outcome (A + Error).

#[export] Instance load_ret : MRet load := fun A a => Ret (inl a).
#[export] Instance load_bind : MBind load := fun A B k m =>
  match m with
  | Ret (inl a) => k a
  | Ret (inr e) => Ret (inr e)
  | Abort f => Abort f
  end.

Definition make_unexpected {A} (e : Error) : load A := Ret (inr e).

(** A step that cannot report an error but can stop the daemon. *)
Definition step {A} (o : outcome A) : load A := a ← o; Ret (inl a).

(** [SCORE_LANGUAGE_FUTURECPP_UNREACHABLE] *)
Definition unreachable {A} : outcome A := Abort AssertionFailed.

(** The string or table behind a pointer. *)
Definition deref {A} (p : option A) : load A :=
  match p with Some a => Ret (inl a) | None => Abort NullPointer end.

Definition required {A} (p : option A) : load A :=
  match p with Some a => Ret (inl a) | None => Abort AssertionFailed end.

(** A loop that converts every element and leaves at the first error. *)
Fixpoint convert_all {A B} (f : A -> load B) (l : list A) : load (list B) :=
  match l with
  | [] => mret []
  | a :: l' => b ← f a; bs ← convert_all f l'; mret (b :: bs)
  end.

(** [for (const auto* p : *vec) if (p != nullptr)] *)
Definition non_null {A} (l : list (option A)) : list A := omap id l.

Module Converters.

Section Convert.
Context `{Platform}.

Definition requireScalarValue {T} (field : option T) : load T :=
  match field with Some v => mret v | None => make_unexpected InvalidFormat end.

(** [validateRange<TargetT>]; the limits are those of [TargetT]. *)
Definition validateRange (min max value : Z) : load Z :=
  if (value <? min)%Z || (max <? value)%Z then make_unexpected InvalidFormat else mret value.

Definition requireScalarInRange (min max : Z) (field : option Z) : load Z :=
  value ← requireScalarValue field;
  validateRange min max value.

Definition kRlimitUnlimitedSentinel : Z := 0xFFFFFFFFFFFFFFFF.

Definition resolveRlimitBound (bound : Z) : Z :=
  if (bound =? kRlimitUnlimitedSentinel)%Z then RLIM_INFINITY else bound.

Definition convertApplicationType (fb_type : Z) : ProcessInfoNode.ApplicationType :=
  if (fb_type =? fb.Reporting)%Z then ProcessInfoNode.Reporting
  else if (fb_type =? fb.Reporting_And_Supervised)%Z then ProcessInfoNode.ReportingAndSupervised
  else if (fb_type =? fb.State_Manager)%Z then ProcessInfoNode.ReportingAndSupervised
  else ProcessInfoNode.Native.

Definition convertProcessState (fb_state : Z) : ProcessState :=
  if (fb_state =? fb.Terminated)%Z then Terminated else Running.

Definition convertFileExistenceState (fb_state : Z) : outcome FileExistenceState :=
  if (fb_state =? fb.NotExisting)%Z then Ret NotExisting
  else if (fb_state =? fb.Exists)%Z then Ret Exists
  else unreachable.

Definition convertSchedulingPolicy (policy : Z) : load Z :=
  if (policy =? fb.OTHER)%Z then mret SCHED_OTHER
  else if (policy =? fb.FIFO)%Z then mret SCHED_FIFO
  else if (policy =? fb.RR)%Z then mret SCHED_RR
  else make_unexpected InvalidFormat.

Definition requireSchedulingPolicy (field : option Z) : load Z :=
  policy ← requireScalarValue field;
  convertSchedulingPolicy policy.

Definition toPlatformResource (fb_resource : Z) : outcome Z :=
  if (fb_resource =? fb.POSIX_RLIMIT_AS)%Z then Ret RLIMIT_AS
  else if (fb_resource =? fb.POSIX_RLIMIT_CORE)%Z then Ret RLIMIT_CORE
  else if (fb_resource =? fb.POSIX_RLIMIT_CPU)%Z then Ret RLIMIT_CPU
  else if (fb_resource =? fb.POSIX_RLIMIT_DATA)%Z then Ret RLIMIT_DATA
  else if (fb_resource =? fb.POSIX_RLIMIT_FSIZE)%Z then Ret RLIMIT_FSIZE
  else if (fb_resource =? fb.POSIX_RLIMIT_NOFILE)%Z then Ret RLIMIT_NOFILE
  else if (fb_resource =? fb.POSIX_RLIMIT_STACK)%Z then Ret RLIMIT_STACK
  else unreachable.

(** The body of the loop of [convertRlimits]. *)
Definition convertRlimit (rl : fb.Rlimit.t) : load ResourceLimit.t :=
  resource ← requireScalarValue (fb.Rlimit.resource rl);
  soft_limit ← requireScalarValue (fb.Rlimit.soft rl);
  hard_limit ← requireScalarValue (fb.Rlimit.hard rl);
  platform_resource ← step (toPlatformResource resource);
  mret (ResourceLimit.mk platform_resource (resolveRlimitBound soft_limit) (resolveRlimitBound hard_limit)).

Definition convertRlimits (vec : option (list (option fb.Rlimit.t))) : load (list ResourceLimit.t) :=
  match vec with Some v => convert_all convertRlimit (non_null v) | None => mret [] end.

Definition safeString (s : option string) : string := default "" s.

Definition convertStringVector (vec : option (list (option string))) : list string :=
  match vec with Some v => fmap safeString v | None => [] end.

Definition convertGidVector (vec : option (list Z)) : load (list Z) :=
  match vec with Some v => convert_all (validateRange gid_min gid_max) v | None => mret [] end.

Definition convertEnvironmentalVariable (ev : fb.EnvironmentalVariable.t) : load EnvironmentVariable.t :=
  key ← required (fb.EnvironmentalVariable.key ev);
  value ← required (fb.EnvironmentalVariable.value ev);
  step (EnvironmentVariable.make key value).

Definition convertEnvironmentalVariables (vec : option (list (option fb.EnvironmentalVariable.t))) : load Environment.t :=
  match vec with
  | Some v =>
      entries ← convert_all convertEnvironmentalVariable (non_null v);
      mret (Environment.set entries Environment.make)
  | None => mret Environment.make
  end.

Definition convertSwitchRunTargetAction (sa : option fb.SwitchRunTargetAction.t) : load (option SwitchRunTargetAction.t) :=
  match sa with
  | None => mret None
  | Some a =>
      run_target ← required (fb.SwitchRunTargetAction.run_target a);
      mret (Some (SwitchRunTargetAction.mk run_target))
  end.

Definition convertRequiredSwitchRunTargetAction (sa : option fb.SwitchRunTargetAction.t) : load SwitchRunTargetAction.t :=
  _ ← required sa;
  action ← convertSwitchRunTargetAction sa;
  step (value_of action).

Definition convertComponentAliveSupervision (fb_cas : option fb.ComponentAliveSupervision.t) : load ComponentAliveSupervision.t :=
  match fb_cas with
  | None => mret ComponentAliveSupervision.empty
  | Some cas =>
      reporting_cycle ← requireScalarValue (fb.ComponentAliveSupervision.reporting_cycle_ms cas);
      failed_cycles_tolerance ← requireScalarValue (fb.ComponentAliveSupervision.failed_cycles_tolerance cas);
      match fb.ComponentAliveSupervision.min_indications cas, fb.ComponentAliveSupervision.max_indications cas with
      | None, None => make_unexpected InvalidFormat
      | min_indications, max_indications =>
          mret (ComponentAliveSupervision.mk reporting_cycle failed_cycles_tolerance min_indications max_indications)
      end
  end.

Definition convertApplicationProfile (fb_ap : option fb.ApplicationProfile.t) : load ApplicationProfile.t :=
  match fb_ap with
  | None => mret ApplicationProfile.empty
  | Some ap =>
      application_type ← requireScalarValue (fb.ApplicationProfile.application_type ap);
      is_self_terminating ← requireScalarValue (fb.ApplicationProfile.is_self_terminating ap);
      alive_supervision ←
        match fb.ApplicationProfile.alive_supervision ap with
        | Some cas => alive_sup ← convertComponentAliveSupervision (Some cas); mret (Some alive_sup)
        | None => mret None
        end;
      mret (ApplicationProfile.mk (convertApplicationType application_type) is_self_terminating alive_supervision)
  end.

Definition convertFileState (fb_fs : fb.FileState.t) : load FileState.t :=
  file_path ← required (fb.FileState.file_path fb_fs);
  polling_interval_ms ← requireScalarValue (fb.FileState.polling_interval_ms fb_fs);
  state ← step (convertFileExistenceState (fb.FileState.state fb_fs));
  mret (FileState.mk file_path state polling_interval_ms).

Definition convertReadyCondition (fb_rc : option fb.ReadyCondition.t) : load ReadyCondition :=
  rc ← required fb_rc;
  match fb.ReadyCondition.process_state rc, fb.ReadyCondition.file_state rc with
  | Some _, Some _ => make_unexpected InvalidFormat
  | Some process_state, None => mret (OnProcessState (convertProcessState process_state))
  | None, Some fs => file_state ← convertFileState fs; mret (OnFileState file_state)
  | None, None => unreachable
  end.

Definition convertComponentProperties (fb_cp : option fb.ComponentProperties.t) : load ComponentProperties.t :=
  match fb_cp with
  | None => mret ComponentProperties.empty
  | Some cp =>
      binary_name ← required (fb.ComponentProperties.binary_name cp);
      _ ← required (fb.ComponentProperties.application_profile cp);
      app_profile ← convertApplicationProfile (fb.ComponentProperties.application_profile cp);
      ready_condition ←
        match fb.ComponentProperties.ready_condition cp with
        | Some rc => convertReadyCondition (Some rc)
        | None => mret (ComponentProperties.ready_condition ComponentProperties.empty)
        end;
      mret (ComponentProperties.mk binary_name app_profile
              (convertStringVector (fb.ComponentProperties.depends_on cp))
              (convertStringVector (fb.ComponentProperties.process_arguments cp)) ready_condition)
  end.

Definition convertSandbox (fb_sb : option fb.Sandbox.t) : load Sandbox.t :=
  sb ← required fb_sb;
  uid ← requireScalarInRange uid_min uid_max (fb.Sandbox.uid sb);
  gid ← requireScalarInRange gid_min gid_max (fb.Sandbox.gid sb);
  scheduling_policy ← requireSchedulingPolicy (fb.Sandbox.scheduling_policy sb);
  scheduling_priority ← requireScalarValue (fb.Sandbox.scheduling_priority sb);
  supplementary_gids ← convertGidVector (fb.Sandbox.supplementary_group_ids sb);
  rlimits ← convertRlimits (fb.Sandbox.rlimits sb);
  mret (Sandbox.mk uid gid supplementary_gids (fb.Sandbox.security_policy sb) scheduling_policy scheduling_priority
          rlimits (fb.Sandbox.affinity_mask sb)).

Definition convertDeploymentConfig (fb_dc : option fb.DeploymentConfig.t) (binary_name : string) : load DeploymentConfig.t :=
  match fb_dc with
  | None => mret (DeploymentConfig.move DeploymentConfig.empty)
  | Some dc =>
      bin_dir ← required (fb.DeploymentConfig.bin_dir dc);
      working_dir ← required (fb.DeploymentConfig.working_dir dc);
      _ ← required (fb.DeploymentConfig.sandbox dc);
      ready_timeout ← requireScalarValue (fb.DeploymentConfig.ready_timeout_ms dc);
      shutdown_timeout ← requireScalarValue (fb.DeploymentConfig.shutdown_timeout_ms dc);
      activation_retry_attempts ← requireScalarValue (fb.DeploymentConfig.activation_retry_attempts dc);
      activation_retry_delay_ms ← requireScalarValue (fb.DeploymentConfig.activation_retry_delay_ms dc);
      environmental_variables ← convertEnvironmentalVariables (fb.DeploymentConfig.environmental_variables dc);
      recovery_action ← convertSwitchRunTargetAction (fb.DeploymentConfig.recovery_action dc);
      sandbox ← convertSandbox (fb.DeploymentConfig.sandbox dc);
      let result_variables :=
        (Environment.assign environmental_variables (DeploymentConfig.environmental_variables DeploymentConfig.empty)).1 in
      mret (DeploymentConfig.move
              (DeploymentConfig.mk ready_timeout shutdown_timeout result_variables
                 (bin_dir +:+ "/" +:+ binary_name) working_dir activation_retry_attempts activation_retry_delay_ms
                 recovery_action sandbox))
  end.

Definition convertComponent (fb_comp : option fb.Component.t) : load ComponentConfig.t :=
  match fb_comp with
  | None => mret (ComponentConfig.move ComponentConfig.empty)
  | Some comp =>
      name ← required (fb.Component.name comp);
      _ ← required (fb.Component.component_properties comp);
      _ ← required (fb.Component.deployment_config comp);
      component_properties ← convertComponentProperties (fb.Component.component_properties comp);
      deployment_config ← convertDeploymentConfig (fb.Component.deployment_config comp)
                            (ComponentProperties.binary_name component_properties);
      let result_deployment :=
        DeploymentConfig.assign deployment_config (ComponentConfig.deployment_config ComponentConfig.empty) in
      mret (ComponentConfig.move
              (ComponentConfig.mk name (safeString (fb.Component.description comp)) component_properties result_deployment))
  end.

Definition convertRunTarget (fb_rt : option fb.RunTarget.t) : load RunTargetConfig.t :=
  match fb_rt with
  | None => mret RunTargetConfig.empty
  | Some rt =>
      name ← required (fb.RunTarget.name rt);
      _ ← required (fb.RunTarget.recovery_action rt);
      transition_timeout ← requireScalarValue (fb.RunTarget.transition_timeout_ms rt);
      recovery_action ← convertRequiredSwitchRunTargetAction (fb.RunTarget.recovery_action rt);
      mret (RunTargetConfig.mk name (safeString (fb.RunTarget.description rt))
              (convertStringVector (fb.RunTarget.depends_on rt)) transition_timeout recovery_action)
  end.

Definition convertFallbackRunTarget (fb_frt : option fb.FallbackRunTarget.t) : load FallbackRunTargetConfig.t :=
  match fb_frt with
  | None => mret FallbackRunTargetConfig.empty
  | Some frt =>
      transition_timeout ← requireScalarValue (fb.FallbackRunTarget.transition_timeout_ms frt);
      mret (FallbackRunTargetConfig.mk (safeString (fb.FallbackRunTarget.description frt))
              (convertStringVector (fb.FallbackRunTarget.depends_on frt)) transition_timeout)
  end.

Definition convertAliveSupervision (fb_as : option fb.AliveSupervision.t) : load AliveSupervisionConfig.t :=
  match fb_as with
  | None => mret AliveSupervisionConfig.empty
  | Some a =>
      evaluation_cycle ← requireScalarValue (fb.AliveSupervision.evaluation_cycle_ms a);
      mret (AliveSupervisionConfig.mk evaluation_cycle)
  end.

Definition convertWatchdog (fb_wd : option fb.Watchdog.t) : load (option Watchdog.WatchdogConfig) :=
  match fb_wd with
  | None => mret None
  | Some wd =>
      device_file_path ← required (fb.Watchdog.device_file_path wd);
      max_timeout ← requireScalarValue (fb.Watchdog.max_timeout_ms wd);
      deactivate_on_shutdown ← requireScalarValue (fb.Watchdog.deactivate_on_shutdown wd);
      require_magic_close ← requireScalarValue (fb.Watchdog.require_magic_close wd);
      mret (Some (Watchdog.mkWatchdogConfig device_file_path max_timeout deactivate_on_shutdown require_magic_close))
  end.

Definition convertComponents (fb_components : option (list (option fb.Component.t))) : load (list ComponentConfig.t) :=
  v ← deref fb_components;
  convert_all (fun comp => component ← convertComponent (Some comp); mret (ComponentConfig.move component)) (non_null v).

Definition convertRunTargets (fb_run_targets : option (list (option fb.RunTarget.t))) : load (list RunTargetConfig.t) :=
  v ← deref fb_run_targets;
  convert_all (fun rt => convertRunTarget (Some rt)) (non_null v).

End Convert.
End Converters.

(** ** Building and loading *)

Module ConfigBuilder.
Record t := mk {
  initial_run_target_ : string;
  components_ : list ComponentConfig.t;
  run_targets_ : list RunTargetConfig.t;
  fallback_run_target_ : FallbackRunTargetConfig.t;
  alive_supervision_ : AliveSupervisionConfig.t;
  watchdog_ : option Watchdog.WatchdogConfig
}.

Definition make : t := mk "" [] [] FallbackRunTargetConfig.empty AliveSupervisionConfig.empty None.

Definition setInitialRunTarget (initial_run_target : string) (b : t) : t :=
  mk initial_run_target (components_ b) (run_targets_ b) (fallback_run_target_ b) (alive_supervision_ b) (watchdog_ b).
Definition setComponents (components : list ComponentConfig.t) (b : t) : t :=
  mk (initial_run_target_ b) components (run_targets_ b) (fallback_run_target_ b) (alive_supervision_ b) (watchdog_ b).
Definition setRunTargets (run_targets : list RunTargetConfig.t) (b : t) : t :=
  mk (initial_run_target_ b) (components_ b) run_targets (fallback_run_target_ b) (alive_supervision_ b) (watchdog_ b).
Definition setFallbackRunTarget (fallback : FallbackRunTargetConfig.t) (b : t) : t :=
  mk (initial_run_target_ b) (components_ b) (run_targets_ b) fallback (alive_supervision_ b) (watchdog_ b).
Definition setAliveSupervision (alive_supervision : AliveSupervisionConfig.t) (b : t) : t :=
  mk (initial_run_target_ b) (components_ b) (run_targets_ b) (fallback_run_target_ b) alive_supervision (watchdog_ b).
Definition setWatchdog (watchdog : Watchdog.WatchdogConfig) (b : t) : t :=
  mk (initial_run_target_ b) (components_ b) (run_targets_ b) (fallback_run_target_ b) (alive_supervision_ b) (Some watchdog).

Definition build (b : t) : Config.t :=
  Config.mk (components_ b) (run_targets_ b) (initial_run_target_ b) (fallback_run_target_ b) (alive_supervision_ b)
    (watchdog_ b).

End ConfigBuilder.

Module ConfigLoader.

(** [score::os::Error], as far as the loader tells the codes apart. *)
Inductive OsError := kNoSuchFileOrDirectory | kPermissionDenied | OtherError (code : Z).

Definition mapOsError (error : OsError) : Error :=
  match error with
  | kNoSuchFileOrDirectory => FileNotFound
  | kPermissionDenied => InsufficientPermission
  | OtherError _ => GeneralError
  end.

Definition kExpectedSchemaVersion : Z := 1.

Definition validateSchemaVersion (config : fb.LaunchManagerConfig.t) : option Error :=
  match fb.LaunchManagerConfig.schema_version config with
  | None => Some InvalidFormat
  | Some v => if negb (v =? kExpectedSchemaVersion)%Z then Some UnsupportedVersion else None
  end.

Definition validateRequiredFields (config : fb.LaunchManagerConfig.t) : load unit :=
  _ ← required (fb.LaunchManagerConfig.initial_run_target config);
  _ ← required (fb.LaunchManagerConfig.components config);
  _ ← required (fb.LaunchManagerConfig.run_targets config);
  _ ← required (fb.LaunchManagerConfig.fallback_run_target config);
  _ ← required (fb.LaunchManagerConfig.alive_supervision config);
  mret tt.

Section Load.
Context `{Platform}.

(** The part of [parseFlatbuffer] after the buffer was verified. *)
Definition convertConfig (config : fb.LaunchManagerConfig.t) : load Config.t :=
  match validateSchemaVersion config with
  | Some error => make_unexpected error
  | None =>
      _ ← validateRequiredFields config;
      initial ← deref (fb.LaunchManagerConfig.initial_run_target config);
      let builder := ConfigBuilder.setInitialRunTarget initial ConfigBuilder.make in
      components ← Converters.convertComponents (fb.LaunchManagerConfig.components config);
      let builder := ConfigBuilder.setComponents components builder in
      run_targets ← Converters.convertRunTargets (fb.LaunchManagerConfig.run_targets config);
      let builder := ConfigBuilder.setRunTargets run_targets builder in
      fallback ← Converters.convertFallbackRunTarget (fb.LaunchManagerConfig.fallback_run_target config);
      let builder := ConfigBuilder.setFallbackRunTarget fallback builder in
      alive_sup ← Converters.convertAliveSupervision (fb.LaunchManagerConfig.alive_supervision config);
      let builder := ConfigBuilder.setAliveSupervision alive_sup builder in
      wd ← Converters.convertWatchdog (fb.LaunchManagerConfig.watchdog config);
      let builder := match wd with Some w => ConfigBuilder.setWatchdog w builder | None => builder end in
      mret (ConfigBuilder.build builder)
  end.

(** [Verify] and [Get]: what the build generates from the schema. *)
Context {Buffer Path : Type}.
Context (VerifyLaunchManagerConfigBuffer : Buffer -> bool).
Context (GetLaunchManagerConfig : Buffer -> option fb.LaunchManagerConfig.t).

Definition parseFlatbuffer (buffer : Buffer) : load Config.t :=
  if negb (VerifyLaunchManagerConfigBuffer buffer) then make_unexpected InvalidFormat
  else
    match GetLaunchManagerConfig buffer with
    | None => make_unexpected InvalidFormat
    | Some config => convertConfig config
    end.

(** [FlatbufferConfigLoaderImpl::load] with the buffer loader of its template. *)
Context (LoadBuffer : Path -> Buffer + OsError).

Definition loadConfig (path : Path) : load Config.t :=
  match LoadBuffer path with
  | inr error => make_unexpected (mapOsError error)
  | inl buffer => parseFlatbuffer buffer
  end.

End Load.
End ConfigLoader.
