(* ===== verification/ConfigurationProofs.v ===== *)
(** * The configuration loader: proofs

    What a verified buffer is ([verified]), which buffers do not run into a check
    that the code takes for impossible ([sane]), which configurations the daemon can
    get ([valid]), and a writer of configurations ([encode]).  The lemmas have a
    parameter [stop]: whether the daemon may stop.  If it may, every buffer is sane,
    and the lemmas speak of the configurations that come out only.  Each converter is an
    instance of the class [Conversion]; the theorem about the whole loader is
    the instance for the root table. *)

From stdpp Require Import prelude fin_maps gmap strings.
From S2P Require Import Prelude Queues Depgraph Components Transitions Graphs ProcessNodes Watchdog Configuration.

Module ConfigurationProofs.

Section Stop.
Context (stop : Prop).

(** ** Computations that end with a value or with [InvalidFormat], or stop the daemon if they may *)

Definition sound {A} (m : load A) (P : A -> Prop) : Prop :=
  match m with
  | Ret (inl a) => P a
  | Ret (inr e) => e = InvalidFormat
  | Abort _ => stop
  end.

Lemma sound_bind {A B} (m : load A) (k : A -> load B) (P : A -> Prop) (Q : B -> Prop) :
  sound m P -> (forall a, P a -> sound (k a) Q) -> sound (m ≫= k) Q.
Proof. destruct m as [[a|e]|]; cbn; auto. Qed.

Lemma bind_ok {A B} (m : load A) (k : A -> load B) a r : m = Ret (inl a) -> k a = r -> (m ≫= k) = r.
Proof. by intros -> <-. Qed.

Lemma sound_ret {A} (a : A) (P : A -> Prop) : P a -> sound (mret a) P.
Proof. done. Qed.

Lemma sound_error {A} (P : A -> Prop) : sound (make_unexpected InvalidFormat) P.
Proof. reflexivity. Qed.

(** An optional field has the property if it is there; a required pointer is there
    and what it points to has the property. *)
Definition on {A} (P : A -> Prop) (o : option A) : Prop := forall a, o = Some a -> P a.
Definition req {A} (P : A -> Prop) (o : option A) : Prop := exists a, o = Some a /\ P a.

Lemma on_Some {A} (P : A -> Prop) a : P a -> on P (Some a).
Proof. by intros ? ? [= <-]. Qed.
Lemma on_None {A} (P : A -> Prop) : on P None.
Proof. by intros ? ?. Qed.
Lemma req_Some {A} (P : A -> Prop) a : P a -> req P (Some a).
Proof. by exists a. Qed.

Lemma sound_required {A} (o : option A) P : req P o -> sound (required o) P.
Proof. by intros (a & -> & ?). Qed.
Lemma sound_deref {A} (o : option A) P : req P o -> sound (deref o) P.
Proof. by intros (a & -> & ?). Qed.
Lemma sound_scalar {A} (o : option A) P : on P o -> sound (Converters.requireScalarValue o) P.
Proof. destruct o; cbn; auto. Qed.

(** A vector of pointers: the tables in it have the property. *)
Definition each {A} (P : A -> Prop) (v : option (list (option A))) : Prop :=
  on (Forall (on P)) v.

Lemma non_null_Forall {A} (P : A -> Prop) l : Forall (on P) l -> Forall P (non_null l).
Proof. induction 1 as [|[a|] l Ha Hl IH]; cbn; auto. Qed.

Lemma non_null_Some {A} (l : list A) : non_null (Some <$> l) = l.
Proof. unfold non_null. induction l as [|a l IH]; [done|]. cbn in *. by rewrite IH. Qed.

Lemma sound_all {A B} (f : A -> load B) (P : A -> Prop) (Q : B -> Prop) l :
  (forall a, P a -> sound (f a) Q) -> Forall P l -> sound (convert_all f l) (Forall Q).
Proof.
  intros Hf. induction 1 as [|a l Ha Hl IH]; [by constructor|].
  eapply sound_bind; [by apply Hf|]. intros b Hb.
  eapply sound_bind; [exact IH|]. intros bs Hbs. by constructor.
Qed.

Lemma all_roundtrip {A B} (f : A -> load B) (g : B -> A) l :
  Forall (fun b => f (g b) = Ret (inl b)) l -> convert_all f (g <$> l) = Ret (inl l).
Proof. induction 1 as [|b l Hb Hl IH]; [done|]. cbn. by rewrite Hb, IH. Qed.

(** The next step of a converter. *)
Ltac next := eapply sound_bind; [first [apply sound_required | apply sound_deref | apply sound_scalar]; eassumption | intros ? ?].

(** ** The ranges of the machine integers *)

Definition u8 (z : Z) : Prop := (0 <= z < 2 ^ 8)%Z.
Definition u32 (z : Z) : Prop := (0 <= z < 2 ^ 32)%Z.
Definition u64 (z : Z) : Prop := (0 <= z < 2 ^ 64)%Z.
Definition i32 (z : Z) : Prop := (- 2 ^ 31 <= z < 2 ^ 31)%Z.
Definition i64 (z : Z) : Prop := (- 2 ^ 63 <= z < 2 ^ 63)%Z.
Definition any {A} (_ : A) : Prop := True.

(** [static_assert] in [validateRange]: the limits fit into [int64_t]. *)
Class PlatformLaws `{Platform} := {
  uid_limits : i64 uid_min /\ i64 uid_max;
  gid_limits : i64 gid_min /\ i64 gid_max
}.

(** ** Tables of constants: the key of a value *)

Definition key_in (table : list (Z * Z)) (z : Z) : Z :=
  match filter (fun r => r.2 = z) table with r :: _ => r.1 | [] => 0%Z end.

Lemma key_in_spec table z : z ∈ table.*2 -> (key_in table z, z) ∈ table.
Proof.
  intros ((k & z') & -> & Hin)%list_elem_of_fmap. unfold key_in. simpl.
  destruct (filter _ _) as [|[k' z''] l] eqn:E.
  - assert ((k, z') ∈ filter (fun r : Z * Z => r.2 = z') table) as Hn by by apply list_elem_of_filter.
    rewrite E in Hn. by apply elem_of_nil in Hn.
  - assert ((k', z'') ∈ filter (fun r : Z * Z => r.2 = z') table) as [Hz Hi]%list_elem_of_filter by (rewrite E; left).
    simpl in Hz. by subst.
Qed.

(** ** What a converter promises *)

Class Conversion {F C} (convert : F -> load C) (encode : C -> F) (fits : F -> Prop) (valid : C -> Prop) := {
  conv_sound : forall f, fits f -> sound (convert f) valid;
  conv_fits : forall c, valid c -> fits (encode c);
  conv_roundtrip : forall c, valid c -> convert (encode c) = Ret (inl c)
}.

Definition vector {A} (l : list A) : option (list (option A)) := Some (Some <$> l).

Lemma vector_each {F C} (encode : C -> F) (fits : F -> Prop) (valid : C -> Prop) l :
  (forall c, valid c -> fits (encode c)) -> Forall valid l -> each fits (vector (encode <$> l)).
Proof.
  intros Hf Hl. apply on_Some. rewrite !Forall_fmap. eapply Forall_impl; [exact Hl|].
  intros c Hc. by apply on_Some, Hf.
Qed.

Lemma vector_roundtrip {F C} (convert : F -> load C) (encode : C -> F) (valid : C -> Prop) l :
  (forall c, valid c -> convert (encode c) = Ret (inl c)) -> Forall valid l ->
  convert_all convert (non_null (Some <$> (encode <$> l))) = Ret (inl l).
Proof.
  intros Hf Hl. rewrite non_null_Some. apply all_roundtrip. eapply Forall_impl; [exact Hl|]. auto.
Qed.

Lemma strings_roundtrip l : Converters.convertStringVector (vector l) = l.
Proof. induction l as [|s l IH]; cbn in *; [done|]. by f_equal. Qed.

(** ** Strings *)

Lemma app_cons c s t : String c s +:+ t = String c (s +:+ t).
Proof. reflexivity. Qed.

Lemma app_nil_r (s : string) : s +:+ "" = s.
Proof. induction s as [|c s IH]; [done|]. by rewrite app_cons, IH. Qed.

Lemma length_string_app s t : String.length (s +:+ t) = String.length s + String.length t.
Proof. induction s as [|c s IH]; [done|]. by cbn; rewrite <- IH. Qed.

Lemma substring_prefix s t : String.substring 0 (String.length s) (s +:+ t) = s.
Proof. induction s as [|c s IH]; [by destruct t|]. rewrite app_cons. cbn. by rewrite IH. Qed.

Lemma substring_all s : String.substring 0 (String.length s) s = s.
Proof. rewrite <- (app_nil_r s) at 2. apply substring_prefix. Qed.

Lemma substring_skip s t n : String.substring (String.length s) n (s +:+ t) = String.substring 0 n t.
Proof. induction s as [|c s IH]; [done|]. rewrite app_cons. cbn. apply IH. Qed.

Lemma substring_suffix s c t :
  String.substring (String.length s + 1) (String.length (s +:+ String c t) - String.length s - 1) (s +:+ String c t) = t.
Proof.
  replace (s +:+ String c t) with ((s +:+ String c "") +:+ t)
    by (induction s as [|d s IH]; [done | by rewrite !app_cons, IH]).
  replace (String.length s + 1) with (String.length (s +:+ String c "")) by (by rewrite length_string_app).
  rewrite substring_skip, !length_string_app. cbn [String.length].
  replace (String.length s + 1 + String.length t - String.length s - 1) with (String.length t) by lia.
  apply substring_all.
Qed.

Lemma make_variable k x :
  k <> "" -> EnvironmentVariable.make k x = Ret (EnvironmentVariable.mk (k +:+ "=" +:+ x) (String.length k)).
Proof. intros Hk. unfold EnvironmentVariable.make. by rewrite bool_decide_eq_true_2. Qed.

Lemma variable_key k x : EnvironmentVariable.key (EnvironmentVariable.mk (k +:+ "=" +:+ x) (String.length k)) = k.
Proof. apply substring_prefix. Qed.

Lemma variable_value k x : EnvironmentVariable.value (EnvironmentVariable.mk (k +:+ "=" +:+ x) (String.length k)) = x.
Proof. apply (substring_suffix k). Qed.

(** The converters are used through their instances, the moves through their lemmas. *)
#[local] Arguments Environment.move : simpl never.
#[local] Arguments Environment.assign : simpl never.
#[local] Arguments Converters.convertFileState : simpl never.
#[local] Arguments Converters.convertReadyCondition : simpl never.
#[local] Arguments Converters.convertComponentAliveSupervision : simpl never.
#[local] Arguments Converters.convertApplicationProfile : simpl never.
#[local] Arguments Converters.convertComponentProperties : simpl never.
#[local] Arguments Converters.convertSandbox : simpl never.
#[local] Arguments Converters.convertDeploymentConfig : simpl never.
#[local] Arguments Converters.convertStringVector : simpl never.
#[local] Arguments Converters.convertComponents : simpl never.
#[local] Arguments Converters.convertRunTargets : simpl never.
#[local] Arguments Converters.convertFallbackRunTarget : simpl never.
#[local] Arguments Converters.convertWatchdog : simpl never.
#[local] Arguments vector : simpl never.

Section Tables.
Context `{Platform, !PlatformLaws}.

(** ** Alive supervision of a component *)

Definition verified_alive (f : fb.ComponentAliveSupervision.t) : Prop :=
  on u32 (fb.ComponentAliveSupervision.reporting_cycle_ms f) /\
  on u32 (fb.ComponentAliveSupervision.failed_cycles_tolerance f) /\
  on u32 (fb.ComponentAliveSupervision.min_indications f) /\
  on u32 (fb.ComponentAliveSupervision.max_indications f).

Definition valid_alive (c : ComponentAliveSupervision.t) : Prop :=
  u32 (ComponentAliveSupervision.reporting_cycle_ms c) /\
  u32 (ComponentAliveSupervision.failed_cycles_tolerance c) /\
  on u32 (ComponentAliveSupervision.min_indications c) /\
  on u32 (ComponentAliveSupervision.max_indications c) /\
  (is_Some (ComponentAliveSupervision.min_indications c) \/ is_Some (ComponentAliveSupervision.max_indications c)).

Definition encode_alive (c : ComponentAliveSupervision.t) : fb.ComponentAliveSupervision.t :=
  fb.ComponentAliveSupervision.mk (Some (ComponentAliveSupervision.reporting_cycle_ms c))
    (Some (ComponentAliveSupervision.failed_cycles_tolerance c))
    (ComponentAliveSupervision.min_indications c) (ComponentAliveSupervision.max_indications c).

#[export] Instance alive_conversion :
  Conversion (fun f => Converters.convertComponentAliveSupervision (Some f)) encode_alive verified_alive valid_alive.
Proof.
  split.
  - intros f (Hr & Hf & Hmin & Hmax). cbn [Converters.convertComponentAliveSupervision]. do 2 next.
    revert Hmin Hmax.
    destruct (fb.ComponentAliveSupervision.min_indications f), (fb.ComponentAliveSupervision.max_indications f); intros ? ?;
      [..| apply sound_error]; apply sound_ret; unfold valid_alive; cbn; eauto 10 using mk_is_Some.
  - intros c (? & ? & ? & ? & ?). unfold verified_alive; simpl; split_and!; auto using on_Some.
  - by intros [r f [m|] [x|]] (? & ? & ? & ? & [[? [=]]|[? [=]]]).
Qed.

(** ** Application profile *)

Definition verified_profile (f : fb.ApplicationProfile.t) : Prop :=
  on verified_alive (fb.ApplicationProfile.alive_supervision f).

Definition valid_profile (c : ApplicationProfile.t) : Prop :=
  ApplicationProfile.application_type c <> ProcessInfoNode.StateManager /\
  on valid_alive (ApplicationProfile.alive_supervision c).

Definition encode_type (t : ProcessInfoNode.ApplicationType) : Z :=
  match t with
  | ProcessInfoNode.Native => fb.Native
  | ProcessInfoNode.Reporting => fb.Reporting
  | ProcessInfoNode.ReportingAndSupervised => fb.Reporting_And_Supervised
  | ProcessInfoNode.StateManager => fb.State_Manager
  end.

Definition encode_profile (c : ApplicationProfile.t) : fb.ApplicationProfile.t :=
  fb.ApplicationProfile.mk (Some (encode_type (ApplicationProfile.application_type c)))
    (Some (ApplicationProfile.is_self_terminating c)) (encode_alive <$> ApplicationProfile.alive_supervision c).

Lemma convertApplicationType_spec z : Converters.convertApplicationType z <> ProcessInfoNode.StateManager.
Proof. unfold Converters.convertApplicationType. by repeat case_match. Qed.

#[export] Instance profile_conversion :
  Conversion (fun f => Converters.convertApplicationProfile (Some f)) encode_profile verified_profile valid_profile.
Proof.
  split.
  - intros f Hf. cbn [Converters.convertApplicationProfile].
    eapply sound_bind; [by apply (sound_scalar _ any)|]. intros ty _.
    eapply sound_bind; [by apply (sound_scalar _ any)|]. intros st _.
    eapply (sound_bind _ _ (on valid_alive)).
    + unfold verified_profile in Hf. destruct (fb.ApplicationProfile.alive_supervision f) as [a|]; [|apply sound_ret, on_None].
      eapply sound_bind; [apply (conv_sound (Conversion := alive_conversion)); by apply Hf|]. intros s Hs. by apply sound_ret, on_Some.
    + intros o Ho. apply sound_ret. split; [apply convertApplicationType_spec | exact Ho].
  - intros c (_ & Ha) f. cbn. destruct (ApplicationProfile.alive_supervision c) as [a|]; cbn; [|done].
    intros [= <-]. apply (conv_fits (Conversion := alive_conversion)). by apply Ha.
  - intros [ty st [a|]] (Ht & Ha); cbn in *; [|by destruct ty].
    unfold Converters.convertApplicationProfile. cbn.
    rewrite (conv_roundtrip (Conversion := alive_conversion) a (Ha a eq_refl)). cbn. by destruct ty.
Qed.

(** ** Ready condition *)

Definition verified_file (f : fb.FileState.t) : Prop :=
  req any (fb.FileState.file_path f) /\ on u32 (fb.FileState.polling_interval_ms f).
Definition sane_file (f : fb.FileState.t) : Prop :=
  stop \/ fb.FileState.state f = fb.Exists \/ fb.FileState.state f = fb.NotExisting.
Definition valid_file (c : FileState.t) : Prop := u32 (FileState.polling_interval c).
Definition encode_file (c : FileState.t) : fb.FileState.t :=
  fb.FileState.mk (Some (FileState.file_path c))
    (match FileState.state c with Exists => fb.Exists | NotExisting => fb.NotExisting end) (Some (FileState.polling_interval c)).

#[export] Instance file_conversion :
  Conversion Converters.convertFileState encode_file (fun f => verified_file f /\ sane_file f) valid_file.
Proof.
  split.
  - intros f ((Hp & Hi) & Hs). unfold Converters.convertFileState. do 2 next.
    destruct Hs as [Hs|[-> | ->]]; [|done..]. unfold Converters.convertFileExistenceState. by repeat case_match.
  - intros c Hc. unfold verified_file, sane_file. simpl. split_and!; [by apply req_Some | by apply on_Some|].
    destruct (FileState.state c); auto.
  - by intros [p [] i] Hc.
Qed.

Definition verified_ready (f : fb.ReadyCondition.t) : Prop := on verified_file (fb.ReadyCondition.file_state f).
Definition sane_ready (f : fb.ReadyCondition.t) : Prop :=
  (stop \/ is_Some (fb.ReadyCondition.process_state f) \/ is_Some (fb.ReadyCondition.file_state f)) /\
  on sane_file (fb.ReadyCondition.file_state f).
Definition valid_ready (c : ReadyCondition) : Prop :=
  match c with OnProcessState _ => True | OnFileState f => valid_file f end.
Definition encode_ready (c : ReadyCondition) : fb.ReadyCondition.t :=
  match c with
  | OnProcessState Running => fb.ReadyCondition.mk (Some fb.Running) None
  | OnProcessState Terminated => fb.ReadyCondition.mk (Some fb.Terminated) None
  | OnFileState f => fb.ReadyCondition.mk None (Some (encode_file f))
  end.

#[export] Instance ready_conversion :
  Conversion (fun f => Converters.convertReadyCondition (Some f)) encode_ready
    (fun f => verified_ready f /\ sane_ready f) valid_ready.
Proof.
  split.
  - intros f (Hv & Hs & Hf). unfold Converters.convertReadyCondition.
    eapply sound_bind; [by apply (sound_required _ (eq f)), req_Some|]. intros ? <-.
    destruct f as [[z|] [fs|]]; cbn [fb.ReadyCondition.process_state fb.ReadyCondition.file_state] in *; [apply sound_error | done | | by destruct Hs as [? | [[? [=]] | [? [=]]]]].
    eapply sound_bind; [apply (conv_sound (Conversion := file_conversion)); split; [by apply Hv | by apply Hf]|].
    intros c Hc. exact Hc.
  - intros [[]|f] Hc; unfold verified_ready, sane_ready; simpl; [by eauto 10 using mk_is_Some, on_None..|].
    destruct (conv_fits (Conversion := file_conversion) f Hc) as [? ?]. eauto 10 using mk_is_Some, on_Some.
  - intros [[]|f] Hc; [done..|]. unfold Converters.convertReadyCondition. cbn. by rewrite (conv_roundtrip (Conversion := file_conversion) f Hc).
Qed.

(** ** Component properties *)

Definition verified_properties (f : fb.ComponentProperties.t) : Prop :=
  req any (fb.ComponentProperties.binary_name f) /\
  req verified_profile (fb.ComponentProperties.application_profile f) /\
  on verified_ready (fb.ComponentProperties.ready_condition f).
Definition sane_properties (f : fb.ComponentProperties.t) : Prop := on sane_ready (fb.ComponentProperties.ready_condition f).
Definition valid_properties (c : ComponentProperties.t) : Prop :=
  valid_profile (ComponentProperties.application_profile c) /\ valid_ready (ComponentProperties.ready_condition c).
Definition encode_properties (c : ComponentProperties.t) : fb.ComponentProperties.t :=
  fb.ComponentProperties.mk (Some (ComponentProperties.binary_name c))
    (Some (encode_profile (ComponentProperties.application_profile c)))
    (vector (ComponentProperties.depends_on c)) (vector (ComponentProperties.process_arguments c))
    (Some (encode_ready (ComponentProperties.ready_condition c))).

#[export] Instance properties_conversion :
  Conversion (fun f => Converters.convertComponentProperties (Some f)) encode_properties
    (fun f => verified_properties f /\ sane_properties f) valid_properties.
Proof.
  split.
  - intros f ((Hb & (p & Ep & Hp) & Hr) & Hs). cbn [Converters.convertComponentProperties]. next. rewrite Ep.
    eapply sound_bind; [by apply (sound_required _ any), req_Some|]. intros _ _.
    eapply sound_bind; [by apply (conv_sound (Conversion := profile_conversion))|]. intros ap Hap.
    eapply (sound_bind _ _ valid_ready).
    + unfold sane_properties in Hs. destruct (fb.ComponentProperties.ready_condition f) as [rc|]; [|done].
      apply (conv_sound (Conversion := ready_conversion)). split; [by apply Hr | by apply Hs].
    + intros rc Hrc. by apply sound_ret.
  - intros c (Hp & Hr). destruct (conv_fits (Conversion := ready_conversion) _ Hr) as [? ?].
    unfold verified_properties, sane_properties. simpl.
    split_and!; [by apply req_Some | | by apply on_Some | by apply on_Some].
    by apply req_Some, (conv_fits (Conversion := profile_conversion)).
  - intros [b p d a r] (Hp & Hr); cbn in *. unfold Converters.convertComponentProperties. cbn.
    rewrite (conv_roundtrip (Conversion := profile_conversion) p Hp). cbn.
    rewrite (conv_roundtrip (Conversion := ready_conversion) r Hr). cbn. by rewrite !strings_roundtrip.
Qed.

(** ** Environment variables *)

Definition verified_variable (f : fb.EnvironmentalVariable.t) : Prop :=
  req any (fb.EnvironmentalVariable.key f) /\ req any (fb.EnvironmentalVariable.value f).
Definition sane_variable (f : fb.EnvironmentalVariable.t) : Prop := stop \/ fb.EnvironmentalVariable.key f <> Some "".
Definition valid_variable (c : EnvironmentVariable.t) : Prop :=
  exists k x, k <> "" /\ c = EnvironmentVariable.mk (k +:+ "=" +:+ x) (String.length k).
Definition encode_variable (c : EnvironmentVariable.t) : fb.EnvironmentalVariable.t :=
  fb.EnvironmentalVariable.mk (Some (EnvironmentVariable.key c)) (Some (EnvironmentVariable.value c)).

#[export] Instance variable_conversion :
  Conversion Converters.convertEnvironmentalVariable encode_variable
    (fun f => verified_variable f /\ sane_variable f) valid_variable.
Proof.
  split.
  - intros [[k|] [x|]] (((? & [=] & _) & (? & [=] & _)) & Hs). unfold Converters.convertEnvironmentalVariable. simpl.
    destruct (decide (k = "")) as [->|Hk]; [by destruct Hs|]. rewrite make_variable by done. by exists k, x.
  - intros c (k & x & Hk & ->). unfold encode_variable, verified_variable, sane_variable. simpl.
    rewrite variable_key, variable_value. split_and!; [by apply req_Some.. | right; congruence].
  - intros c (k & x & Hk & ->). unfold encode_variable. rewrite variable_key, variable_value.
    unfold Converters.convertEnvironmentalVariable. cbn -[EnvironmentVariable.make]. by rewrite make_variable.
Qed.

(** The pointers lead to the entries, in order, and end with the null pointer. *)
Definition valid_environment (c : Environment.t) : Prop :=
  Forall valid_variable (Environment.entries_ c) /\
  Environment.pointers_ c = (Some <$> seq 0 (length (Environment.entries_ c))) ++ [None].
Definition encode_environment (c : Environment.t) : option (list (option fb.EnvironmentalVariable.t)) :=
  vector (encode_variable <$> Environment.entries_ c).

#[export] Instance environment_conversion :
  Conversion Converters.convertEnvironmentalVariables encode_environment
    (fun v => each verified_variable v /\ each sane_variable v) valid_environment.
Proof.
  split.
  - intros [v|] (Hv & Hs); [|by repeat constructor]. unfold Converters.convertEnvironmentalVariables.
    eapply sound_bind; [|by intros l Hl].
    apply (sound_all _ (fun f => verified_variable f /\ sane_variable f)); [apply (conv_sound (Conversion := variable_conversion))|].
    apply Forall_and. split; apply non_null_Forall; [by apply Hv | by apply Hs].
  - intros c (Hc & _). split; (eapply vector_each; [|exact Hc]); intros v Hv;
      by destruct (conv_fits (Conversion := variable_conversion) v Hv).
  - intros [l p] (Hl & Ep). cbn in *. subst p. unfold Converters.convertEnvironmentalVariables, encode_environment, vector.
    by rewrite (vector_roundtrip _ _ valid_variable); [| apply (conv_roundtrip (Conversion := variable_conversion)) |].
Qed.

(** Moving a valid environment leaves it as it was. *)
Lemma move_valid e : valid_environment e -> (Environment.move e).1 = e.
Proof. destruct e as [l p]. intros (_ & Ep). simpl in Ep. subst p. reflexivity. Qed.

Lemma assign_valid e this : valid_environment e -> (Environment.assign e this).1 = e.
Proof. destruct e as [l p]. intros (_ & Ep). simpl in Ep. subst p. reflexivity. Qed.

(** ** Resource limits and sandbox *)

Definition verified_rlimit (f : fb.Rlimit.t) : Prop := on u64 (fb.Rlimit.soft f) /\ on u64 (fb.Rlimit.hard f).
Definition sane_rlimit (f : fb.Rlimit.t) : Prop :=
  on (fun r => stop \/ fb.POSIX_RLIMIT_AS <= r <= fb.POSIX_RLIMIT_STACK)%Z (fb.Rlimit.resource f).

Definition resources : list (Z * Z) :=
  [(fb.POSIX_RLIMIT_AS, RLIMIT_AS); (fb.POSIX_RLIMIT_CORE, RLIMIT_CORE); (fb.POSIX_RLIMIT_CPU, RLIMIT_CPU);
   (fb.POSIX_RLIMIT_DATA, RLIMIT_DATA); (fb.POSIX_RLIMIT_FSIZE, RLIMIT_FSIZE); (fb.POSIX_RLIMIT_NOFILE, RLIMIT_NOFILE);
   (fb.POSIX_RLIMIT_STACK, RLIMIT_STACK)].

(** A bound is the platform's infinity or a number that the sentinel does not take. *)
Definition valid_bound (z : Z) : Prop := z = RLIM_INFINITY \/ u64 z /\ z <> Converters.kRlimitUnlimitedSentinel.
Definition encode_bound (z : Z) : Z := if (z =? RLIM_INFINITY)%Z then Converters.kRlimitUnlimitedSentinel else z.

Definition valid_rlimit (c : ResourceLimit.t) : Prop :=
  ResourceLimit.resource c ∈ resources.*2 /\ valid_bound (ResourceLimit.rlim_cur c) /\ valid_bound (ResourceLimit.rlim_max c).
Lemma resources_spec k z :
  (k, z) ∈ resources -> (fb.POSIX_RLIMIT_AS <= k <= fb.POSIX_RLIMIT_STACK)%Z /\ Converters.toPlatformResource k = Ret z.
Proof.
  unfold resources. rewrite !elem_of_cons, elem_of_nil.
  intros [E|[E|[E|[E|[E|[E|[E|[]]]]]]]]; injection E as -> ->; by split; [vm_compute|].
Qed.

Lemma toPlatformResource_spec k :
  (fb.POSIX_RLIMIT_AS <= k <= fb.POSIX_RLIMIT_STACK)%Z -> exists z, Converters.toPlatformResource k = Ret z /\ z ∈ resources.*2.
Proof.
  intros Hk. assert (k = 0 \/ k = 1 \/ k = 2 \/ k = 3 \/ k = 4 \/ k = 5 \/ k = 6)%Z as Hc
    by (unfold fb.POSIX_RLIMIT_AS, fb.POSIX_RLIMIT_STACK in Hk; lia).
  destruct Hc as [->|[->|[->|[->|[->|[->| ->]]]]]]; (eexists; split; [reflexivity|]); set_solver.
Qed.

Lemma toPlatformResource_unknown k :
  ~ (fb.POSIX_RLIMIT_AS <= k <= fb.POSIX_RLIMIT_STACK)%Z -> Converters.toPlatformResource k = unreachable.
Proof.
  intros Hk. unfold Converters.toPlatformResource. unfold fb.POSIX_RLIMIT_AS, fb.POSIX_RLIMIT_STACK in Hk.
  repeat (case_match; [exfalso; match goal with E : _ = true |- _ => apply Z.eqb_eq in E; vm_compute in E; subst; apply Hk; by split end|]). done.
Qed.

Lemma resolve_valid z : u64 z -> valid_bound (Converters.resolveRlimitBound z).
Proof. intros Hz. unfold Converters.resolveRlimitBound, valid_bound. destruct (Z.eqb_spec z Converters.kRlimitUnlimitedSentinel); auto. Qed.

Lemma encode_bound_spec z :
  valid_bound z -> u64 (encode_bound z) /\ Converters.resolveRlimitBound (encode_bound z) = z.
Proof.
  intros Hz. unfold encode_bound, Converters.resolveRlimitBound. destruct (Z.eqb_spec z RLIM_INFINITY) as [->|Hn].
  - by split; [vm_compute|].
  - destruct Hz as [?|[Hu Hs]]; [done|]. split; [done|]. by destruct (Z.eqb_spec z Converters.kRlimitUnlimitedSentinel).
Qed.

Definition encode_rlimit (c : ResourceLimit.t) : fb.Rlimit.t :=
  fb.Rlimit.mk (Some (key_in resources (ResourceLimit.resource c))) (Some (encode_bound (ResourceLimit.rlim_cur c)))
    (Some (encode_bound (ResourceLimit.rlim_max c))).

#[export] Instance rlimit_conversion :
  Conversion Converters.convertRlimit encode_rlimit (fun f => verified_rlimit f /\ sane_rlimit f) valid_rlimit.
Proof.
  split.
  - intros f ((Hs & Hh) & Hr). unfold sane_rlimit in Hr. unfold Converters.convertRlimit. do 3 next.
    destruct (decide (fb.POSIX_RLIMIT_AS <= a <= fb.POSIX_RLIMIT_STACK)%Z) as [Ha|Ha].
    + destruct (toPlatformResource_spec a Ha) as (z & -> & Hz). split; [done|]. split; by apply resolve_valid.
    + rewrite toPlatformResource_unknown by done. by destruct H1.
  - intros c (Hr & Hc & Hm). unfold verified_rlimit, sane_rlimit. simpl.
    split_and!; apply on_Some; [by apply encode_bound_spec..|]. right. by apply (resources_spec _ _ (key_in_spec resources _ Hr)).
  - intros [r c m] (Hr & Hc & Hm). simpl in *. unfold Converters.convertRlimit. cbn -[encode_bound key_in].
    destruct (resources_spec _ _ (key_in_spec resources _ Hr)) as [_ ->]. cbn -[encode_bound].
    destruct (encode_bound_spec _ Hc) as [_ ->], (encode_bound_spec _ Hm) as [_ ->]. done.
Qed.

Definition policies : list (Z * Z) := [(fb.OTHER, SCHED_OTHER); (fb.FIFO, SCHED_FIFO); (fb.RR, SCHED_RR)].

Lemma policies_spec k z : (k, z) ∈ policies -> Converters.convertSchedulingPolicy k = Ret (inl z).
Proof.
  unfold policies. rewrite !elem_of_cons, elem_of_nil. intros [E|[E|[E|[]]]]; by injection E as -> ->.
Qed.

Lemma sound_policy k : sound (Converters.convertSchedulingPolicy k) (fun z => z ∈ policies.*2).
Proof. unfold Converters.convertSchedulingPolicy. repeat case_match; [set_solver.. | apply sound_error]. Qed.

Definition in_range (lo hi z : Z) : Prop := (lo <= z <= hi)%Z.

Lemma sound_range lo hi z : sound (Converters.validateRange lo hi z) (in_range lo hi).
Proof.
  unfold Converters.validateRange. destruct (_ || _) eqn:E; [apply sound_error|]. apply sound_ret. unfold in_range.
  apply orb_false_iff in E as [?%Z.ltb_ge ?%Z.ltb_ge]. lia.
Qed.

Lemma range_roundtrip lo hi z : in_range lo hi z -> Converters.validateRange lo hi z = Ret (inl z).
Proof.
  unfold in_range, Converters.validateRange. intros Hz. rewrite (proj2 (Z.ltb_ge z lo)), (proj2 (Z.ltb_ge hi z)) by lia. done.
Qed.

Lemma range_i64 lo hi z : i64 lo /\ i64 hi -> in_range lo hi z -> i64 z.
Proof. unfold i64, in_range. lia. Qed.

Lemma sound_required_range lo hi o : sound (Converters.requireScalarInRange lo hi o) (in_range lo hi).
Proof. eapply sound_bind; [by apply (sound_scalar _ any)|]. intros z _. apply sound_range. Qed.

Definition verified_sandbox (f : fb.Sandbox.t) : Prop :=
  on i64 (fb.Sandbox.uid f) /\ on i64 (fb.Sandbox.gid f) /\ on (Forall i64) (fb.Sandbox.supplementary_group_ids f) /\
  on i32 (fb.Sandbox.scheduling_priority f) /\ each verified_rlimit (fb.Sandbox.rlimits f) /\
  on u64 (fb.Sandbox.affinity_mask f).
Definition sane_sandbox (f : fb.Sandbox.t) : Prop := each sane_rlimit (fb.Sandbox.rlimits f).
Definition valid_sandbox (c : Sandbox.t) : Prop :=
  in_range uid_min uid_max (Sandbox.uid c) /\ in_range gid_min gid_max (Sandbox.gid c) /\
  Forall (in_range gid_min gid_max) (Sandbox.supplementary_group_ids c) /\
  Sandbox.scheduling_policy c ∈ policies.*2 /\ i32 (Sandbox.scheduling_priority c) /\
  Forall valid_rlimit (Sandbox.rlimits c) /\ on u64 (Sandbox.affinity_mask c).
Definition encode_sandbox (c : Sandbox.t) : fb.Sandbox.t :=
  fb.Sandbox.mk (Some (Sandbox.uid c)) (Some (Sandbox.gid c)) (Some (Sandbox.supplementary_group_ids c))
    (Sandbox.security_policy c) (Some (key_in policies (Sandbox.scheduling_policy c))) (Some (Sandbox.scheduling_priority c))
    (vector (encode_rlimit <$> Sandbox.rlimits c)) (Sandbox.affinity_mask c).

Lemma sound_gids v : sound (Converters.convertGidVector v) (Forall (in_range gid_min gid_max)).
Proof.
  destruct v as [v|]; [|by apply sound_ret]. apply (sound_all _ any); [by intros; apply sound_range|]. by apply Forall_true.
Qed.

Lemma sound_rlimits v :
  each verified_rlimit v -> each sane_rlimit v -> sound (Converters.convertRlimits v) (Forall valid_rlimit).
Proof.
  intros Hv Hs. destruct v as [v|]; [|by apply sound_ret].
  eapply sound_all; [apply (conv_sound (Conversion := rlimit_conversion))|].
  apply Forall_and. split; apply non_null_Forall; [by apply Hv | by apply Hs].
Qed.

Lemma gids_roundtrip l :
  Forall (in_range gid_min gid_max) l -> Converters.convertGidVector (Some l) = Ret (inl l).
Proof.
  intros Hl. unfold Converters.convertGidVector. rewrite <- (list_fmap_id l) at 1. apply all_roundtrip.
  eapply Forall_impl; [exact Hl|]. intros z. apply range_roundtrip.
Qed.

Lemma rlimits_roundtrip l :
  Forall valid_rlimit l -> Converters.convertRlimits (vector (encode_rlimit <$> l)) = Ret (inl l).
Proof. apply vector_roundtrip, (conv_roundtrip (Conversion := rlimit_conversion)). Qed.

#[export] Instance sandbox_conversion :
  Conversion (fun f => Converters.convertSandbox (Some f)) encode_sandbox
    (fun f => verified_sandbox f /\ sane_sandbox f) valid_sandbox.
Proof.
  split.
  - intros f ((Hu & Hg & Hgs & Hp & Hr & Ha) & Hs). unfold Converters.convertSandbox.
    eapply sound_bind; [by apply (sound_required _ (eq f)), req_Some|]. intros ? <-.
    eapply sound_bind; [apply sound_required_range|]. intros u ?.
    eapply sound_bind; [apply sound_required_range|]. intros g ?.
    eapply sound_bind.
    { eapply sound_bind; [by apply (sound_scalar _ any)|]. intros ? _. apply sound_policy. }
    intros pol ?. next. eapply sound_bind; [apply sound_gids|]. intros gs ?.
    eapply sound_bind; [by apply sound_rlimits|]. intros rl ?. by apply sound_ret.
  - intros c (Hu & Hg & Hgs & Hpol & Hp & Hr & Ha). unfold verified_sandbox, sane_sandbox. simpl.
    split_and!; [apply on_Some | apply on_Some | apply on_Some | by apply on_Some | | done |].
    + by eapply range_i64; [apply uid_limits|].
    + by eapply range_i64; [apply gid_limits|].
    + eapply Forall_impl; [exact Hgs|]. intros z. apply range_i64, gid_limits.
    + eapply vector_each; [|exact Hr]. intros r Hx. by apply (conv_fits (Conversion := rlimit_conversion)).
    + eapply vector_each; [|exact Hr]. intros r Hx. by apply (conv_fits (Conversion := rlimit_conversion)).
  - intros [u g gs sp pol pr rl am] (Hu & Hg & Hgs & Hpol & Hp & Hr & Ha). simpl in *.
    unfold Converters.convertSandbox, encode_sandbox.
    do 3 (eapply bind_ok; [by apply range_roundtrip || done|]).
    eapply bind_ok; [by apply policies_spec, (key_in_spec policies)|].
    do 2 (eapply bind_ok; [by apply gids_roundtrip || done|]).
    by eapply bind_ok; [by apply rlimits_roundtrip|].
Qed.

(** ** Deployment *)

Definition verified_action (f : fb.SwitchRunTargetAction.t) : Prop := req any (fb.SwitchRunTargetAction.run_target f).
Definition encode_action (c : SwitchRunTargetAction.t) : fb.SwitchRunTargetAction.t :=
  fb.SwitchRunTargetAction.mk (Some (SwitchRunTargetAction.run_target c)).

Lemma sound_action o : on verified_action o -> sound (Converters.convertSwitchRunTargetAction o) any.
Proof.
  intros Ho. destruct o as [a|]; [|done]. cbn. eapply sound_bind; [by apply sound_required, Ho|]. by intros r _.
Qed.

Lemma action_roundtrip o : Converters.convertSwitchRunTargetAction (encode_action <$> o) = Ret (inl o).
Proof. by destruct o as [[r]|]. Qed.

Definition verified_deployment (f : fb.DeploymentConfig.t) : Prop :=
  req any (fb.DeploymentConfig.bin_dir f) /\ req any (fb.DeploymentConfig.working_dir f) /\
  req verified_sandbox (fb.DeploymentConfig.sandbox f) /\
  on u32 (fb.DeploymentConfig.ready_timeout_ms f) /\ on u32 (fb.DeploymentConfig.shutdown_timeout_ms f) /\
  on u8 (fb.DeploymentConfig.activation_retry_attempts f) /\ on u32 (fb.DeploymentConfig.activation_retry_delay_ms f) /\
  each verified_variable (fb.DeploymentConfig.environmental_variables f) /\
  on verified_action (fb.DeploymentConfig.recovery_action f).
Definition sane_deployment (f : fb.DeploymentConfig.t) : Prop :=
  each sane_variable (fb.DeploymentConfig.environmental_variables f) /\ on sane_sandbox (fb.DeploymentConfig.sandbox f).

(** The executable is the configured binary below some directory. *)
Definition valid_deployment (binary_name : string) (c : DeploymentConfig.t) : Prop :=
  u32 (DeploymentConfig.ready_timeout_ms c) /\ u32 (DeploymentConfig.shutdown_timeout_ms c) /\
  u8 (DeploymentConfig.activation_retry_attempts c) /\ u32 (DeploymentConfig.activation_retry_delay_ms c) /\
  valid_environment (DeploymentConfig.environmental_variables c) /\
  (exists dir, DeploymentConfig.executable_path c = dir +:+ "/" +:+ binary_name) /\
  valid_sandbox (DeploymentConfig.sandbox c).

Definition directory (binary_name path : string) : string :=
  String.substring 0 (String.length path - String.length binary_name - 1) path.

Lemma directory_spec dir binary_name : directory binary_name (dir +:+ "/" +:+ binary_name) = dir.
Proof.
  unfold directory. rewrite !length_string_app. cbn [String.length].
  replace (_ - _ - _) with (String.length dir) by lia. apply substring_prefix.
Qed.

Definition encode_deployment (binary_name : string) (c : DeploymentConfig.t) : fb.DeploymentConfig.t :=
  fb.DeploymentConfig.mk (Some (DeploymentConfig.ready_timeout_ms c)) (Some (DeploymentConfig.shutdown_timeout_ms c))
    (encode_environment (DeploymentConfig.environmental_variables c))
    (Some (directory binary_name (DeploymentConfig.executable_path c))) (Some (DeploymentConfig.working_dir c))
    (Some (DeploymentConfig.activation_retry_attempts c)) (Some (DeploymentConfig.activation_retry_delay_ms c))
    (encode_action <$> DeploymentConfig.recovery_action c) (Some (encode_sandbox (DeploymentConfig.sandbox c))).

#[export] Instance deployment_conversion binary_name :
  Conversion (fun f => Converters.convertDeploymentConfig (Some f) binary_name) (encode_deployment binary_name)
    (fun f => verified_deployment f /\ sane_deployment f) (valid_deployment binary_name).
Proof.
  split.
  - intros f ((Hb & Hw & (sb & Es & Hsb) & Hr & Hd & Ha & Hy & He & Hra) & Hse & Hss).
    unfold Converters.convertDeploymentConfig. do 2 next. rewrite Es in Hss |- *.
    eapply sound_bind; [by apply (sound_required _ any), req_Some|]. intros _ _. do 4 next.
    eapply sound_bind; [by apply (conv_sound (Conversion := environment_conversion))|]. intros env ?.
    eapply sound_bind; [by apply sound_action|]. intros ra _.
    eapply sound_bind; [apply (conv_sound (Conversion := sandbox_conversion)); split; [done | by apply Hss]|].
    intros sb' ?. apply sound_ret. unfold valid_deployment, DeploymentConfig.move, DeploymentConfig.with_environment. cbn.
    rewrite assign_valid, move_valid by done. eauto 10.
  - intros c (Hr & Hd & Ha & Hy & He & (dir & Ee) & Hs). unfold verified_deployment, sane_deployment. simpl.
    destruct (conv_fits (Conversion := sandbox_conversion) _ Hs), (conv_fits (Conversion := environment_conversion) _ He).
    split_and!; auto using on_Some, req_Some; [by apply req_Some.. |].
    intros a. destruct (DeploymentConfig.recovery_action c); [|done]. intros [= <-]. by apply req_Some.
  - intros [rt st env path wd at_ de ra sb] (Hr & Hd & Ha & Hy & He & (dir & Ee) & Hs). simpl in *. subst path.
    unfold Converters.convertDeploymentConfig, encode_deployment. simpl. rewrite directory_spec.
    eapply bind_ok; [by apply (conv_roundtrip (Conversion := environment_conversion))|].
    eapply bind_ok; [apply action_roundtrip|].
    eapply bind_ok; [by apply (conv_roundtrip (Conversion := sandbox_conversion))|].
    destruct env as [l p], He as [_ Ep]. simpl in Ep. by subst p.
Qed.

Lemma move_deployment b d : valid_deployment b d -> DeploymentConfig.move d = d.
Proof. intros (_ & _ & _ & _ & He & _). unfold DeploymentConfig.move. rewrite move_valid by done. by destruct d. Qed.

Lemma assign_deployment b d this : valid_deployment b d -> DeploymentConfig.assign d this = d.
Proof. intros (_ & _ & _ & _ & He & _). unfold DeploymentConfig.assign. rewrite assign_valid by done. by destruct d. Qed.

(** ** Components *)

Definition verified_component (f : fb.Component.t) : Prop :=
  req any (fb.Component.name f) /\ req verified_properties (fb.Component.component_properties f) /\
  req verified_deployment (fb.Component.deployment_config f).
Definition sane_component (f : fb.Component.t) : Prop :=
  on sane_properties (fb.Component.component_properties f) /\ on sane_deployment (fb.Component.deployment_config f).
Definition valid_component (c : ComponentConfig.t) : Prop :=
  valid_properties (ComponentConfig.component_properties c) /\
  valid_deployment (ComponentProperties.binary_name (ComponentConfig.component_properties c)) (ComponentConfig.deployment_config c).
Definition encode_component (c : ComponentConfig.t) : fb.Component.t :=
  fb.Component.mk (Some (ComponentConfig.name c)) (Some (ComponentConfig.description c))
    (Some (encode_properties (ComponentConfig.component_properties c)))
    (Some (encode_deployment (ComponentProperties.binary_name (ComponentConfig.component_properties c))
             (ComponentConfig.deployment_config c))).

#[export] Instance component_conversion :
  Conversion (fun f => Converters.convertComponent (Some f)) encode_component
    (fun f => verified_component f /\ sane_component f) valid_component.
Proof.
  split.
  - intros f ((Hn & (p & Ep & Hp) & (d & Ed & Hd)) & Hsp & Hsd). unfold Converters.convertComponent. next.
    rewrite Ep in Hsp |- *. rewrite Ed in Hsd |- *.
    do 2 (eapply sound_bind; [by apply (sound_required _ any), req_Some|]; intros _ _).
    eapply sound_bind; [apply (conv_sound (Conversion := properties_conversion)); split; [done | by apply Hsp]|]. intros cp ?.
    eapply sound_bind; [apply (conv_sound (Conversion := deployment_conversion _)); split; [done | by apply Hsd]|].
    intros dc Hdc. apply sound_ret. unfold ComponentConfig.move. cbn [ComponentConfig.deployment_config].
    by rewrite (assign_deployment _ _ _ Hdc), (move_deployment _ _ Hdc).
  - intros c (Hp & Hd). destruct (conv_fits (Conversion := properties_conversion) _ Hp), (conv_fits (Conversion := deployment_conversion _) _ Hd).
    unfold verified_component, sane_component. simpl. split_and!; auto using on_Some, req_Some. by apply req_Some.
  - intros [n d p dc] (Hp & Hd). simpl in *. unfold Converters.convertComponent, encode_component. simpl.
    eapply bind_ok; [by apply (conv_roundtrip (Conversion := properties_conversion))|].
    eapply bind_ok; [by apply (conv_roundtrip (Conversion := deployment_conversion _))|].
    transitivity (Ret (inl (A := ComponentConfig.t) (B := Error) (ComponentConfig.mk n d p (DeploymentConfig.move (DeploymentConfig.assign dc DeploymentConfig.empty))))); [done|].
    by rewrite (assign_deployment _ dc DeploymentConfig.empty Hd), (move_deployment _ _ Hd).
Qed.

Lemma move_component c : valid_component c -> ComponentConfig.move c = c.
Proof. intros (_ & Hd). unfold ComponentConfig.move. rewrite (move_deployment _ _ Hd). by destruct c. Qed.

(** The step of [convertComponents]: the component is moved into the vector. *)
#[export] Instance stored_component_conversion :
  Conversion (fun f => component ← Converters.convertComponent (Some f); mret (ComponentConfig.move component)) encode_component
    (fun f => verified_component f /\ sane_component f) valid_component.
Proof.
  split.
  - intros f Hf. eapply sound_bind; [by apply (conv_sound (Conversion := component_conversion))|]. intros c Hc. apply sound_ret. by rewrite move_component.
  - apply (conv_fits (Conversion := component_conversion)).
  - intros c Hc. eapply bind_ok; [by apply (conv_roundtrip (Conversion := component_conversion))|]. by rewrite move_component.
Qed.

(** ** Run Targets *)

Definition verified_run_target (f : fb.RunTarget.t) : Prop :=
  req any (fb.RunTarget.name f) /\ on u32 (fb.RunTarget.transition_timeout_ms f) /\
  req verified_action (fb.RunTarget.recovery_action f).
Definition valid_run_target (c : RunTargetConfig.t) : Prop := u32 (RunTargetConfig.transition_timeout_ms c).
Definition encode_run_target (c : RunTargetConfig.t) : fb.RunTarget.t :=
  fb.RunTarget.mk (Some (RunTargetConfig.name c)) (Some (RunTargetConfig.description c)) (vector (RunTargetConfig.depends_on c))
    (Some (RunTargetConfig.transition_timeout_ms c)) (Some (encode_action (RunTargetConfig.recovery_action c))).

#[export] Instance run_target_conversion :
  Conversion (fun f => Converters.convertRunTarget (Some f)) encode_run_target verified_run_target valid_run_target.
Proof.
  split.
  - intros f (Hn & Ht & (a & Ea & (r & Er & _))). unfold Converters.convertRunTarget. next. rewrite Ea.
    eapply sound_bind; [by apply (sound_required _ any), req_Some|]. intros _ _. next.
    unfold Converters.convertRequiredSwitchRunTargetAction. simpl. by rewrite Er.
  - intros c Hc. unfold verified_run_target. simpl. split_and!; [by apply req_Some | by apply on_Some |]. by repeat apply req_Some.
  - intros [n d dep t [r]] Ht. unfold Converters.convertRunTarget. simpl. by rewrite strings_roundtrip.
Qed.

Definition verified_fallback (f : fb.FallbackRunTarget.t) : Prop := on u32 (fb.FallbackRunTarget.transition_timeout_ms f).
Definition valid_fallback (c : FallbackRunTargetConfig.t) : Prop := u32 (FallbackRunTargetConfig.transition_timeout_ms c).
Definition encode_fallback (c : FallbackRunTargetConfig.t) : fb.FallbackRunTarget.t :=
  fb.FallbackRunTarget.mk (Some (FallbackRunTargetConfig.description c)) (vector (FallbackRunTargetConfig.depends_on c))
    (Some (FallbackRunTargetConfig.transition_timeout_ms c)).

#[export] Instance fallback_conversion :
  Conversion (fun f => Converters.convertFallbackRunTarget (Some f)) encode_fallback verified_fallback valid_fallback.
Proof.
  split.
  - intros f Hf. unfold verified_fallback in Hf. unfold Converters.convertFallbackRunTarget. next. by apply sound_ret.
  - intros c Hc. by apply on_Some.
  - intros [d dep t] Ht. unfold Converters.convertFallbackRunTarget. simpl. by rewrite strings_roundtrip.
Qed.

Definition verified_watchdog (f : fb.Watchdog.t) : Prop :=
  req any (fb.Watchdog.device_file_path f) /\ on u32 (fb.Watchdog.max_timeout_ms f).
Definition valid_watchdog (c : Watchdog.WatchdogConfig) : Prop := u32 (Watchdog.max_timeout_ms c).
Definition encode_watchdog (c : Watchdog.WatchdogConfig) : fb.Watchdog.t :=
  fb.Watchdog.mk (Some (Watchdog.device_file_path c)) (Some (Watchdog.max_timeout_ms c))
    (Some (Watchdog.deactivate_on_shutdown c)) (Some (Watchdog.require_magic_close c)).

Lemma sound_watchdog o : on verified_watchdog o -> sound (Converters.convertWatchdog o) (on valid_watchdog).
Proof.
  intros Ho. destruct o as [f|]; [|by apply sound_ret, on_None]. destruct (Ho f eq_refl) as [Hp Ht].
  unfold Converters.convertWatchdog. do 2 next.
  do 2 (eapply sound_bind; [by apply (sound_scalar _ any)|]; intros ? _). by apply sound_ret, on_Some.
Qed.

Lemma watchdog_roundtrip o : Converters.convertWatchdog (encode_watchdog <$> o) = Ret (inl o).
Proof. by destruct o as [[p t d m]|]. Qed.

(** ** The whole configuration *)

(** What the verifier that is generated from the schema guarantees: pointers
    that the schema calls required are there, numbers are of their types. *)
Definition verified_config (f : fb.LaunchManagerConfig.t) : Prop :=
  req (Forall (on verified_component)) (fb.LaunchManagerConfig.components f) /\
  req (Forall (on verified_run_target)) (fb.LaunchManagerConfig.run_targets f) /\
  req any (fb.LaunchManagerConfig.initial_run_target f) /\
  req verified_fallback (fb.LaunchManagerConfig.fallback_run_target f) /\
  req (fun a => on u32 (fb.AliveSupervision.evaluation_cycle_ms a)) (fb.LaunchManagerConfig.alive_supervision f) /\
  on verified_watchdog (fb.LaunchManagerConfig.watchdog f).

(** What nothing guarantees, if the daemon may not stop: no ready condition is empty, no
    environment variable has an empty name, and the enumerations of files and limits are in range. *)
Definition sane_config (f : fb.LaunchManagerConfig.t) : Prop :=
  on (Forall (on sane_component)) (fb.LaunchManagerConfig.components f).

Definition valid_config (c : Config.t) : Prop :=
  Forall valid_component (Config.components_ c) /\ Forall valid_run_target (Config.run_targets_ c) /\
  valid_fallback (Config.fallback_run_target_ c) /\
  u32 (AliveSupervisionConfig.evaluation_cycle_ms (Config.alive_supervision_ c)) /\
  on valid_watchdog (Config.watchdog_ c).

Definition encode_config (c : Config.t) : fb.LaunchManagerConfig.t :=
  fb.LaunchManagerConfig.mk (Some ConfigLoader.kExpectedSchemaVersion)
    (vector (encode_component <$> Config.components_ c)) (vector (encode_run_target <$> Config.run_targets_ c))
    (Some (Config.initial_run_target_ c)) (Some (encode_fallback (Config.fallback_run_target_ c)))
    (Some (fb.AliveSupervision.mk (Some (AliveSupervisionConfig.evaluation_cycle_ms (Config.alive_supervision_ c)))))
    (encode_watchdog <$> Config.watchdog_ c).

Lemma sound_components v :
  req (Forall (on verified_component)) v -> on (Forall (on sane_component)) v ->
  sound (Converters.convertComponents v) (Forall valid_component).
Proof.
  intros (l & -> & Hv) Hs. unfold Converters.convertComponents. eapply sound_bind; [by apply (sound_deref _ (eq l)), req_Some|].
  intros ? <-. eapply sound_all; [apply (conv_sound (Conversion := stored_component_conversion))|].
  apply Forall_and. split; apply non_null_Forall; [done | by apply Hs].
Qed.

Lemma sound_run_targets v :
  req (Forall (on verified_run_target)) v -> sound (Converters.convertRunTargets v) (Forall valid_run_target).
Proof.
  intros (l & -> & Hv). unfold Converters.convertRunTargets. eapply sound_bind; [by apply (sound_deref _ (eq l)), req_Some|].
  intros ? <-. eapply sound_all; [apply (conv_sound (Conversion := run_target_conversion)) | by apply non_null_Forall].
Qed.

Lemma sound_required_fields f : verified_config f -> sound (ConfigLoader.validateRequiredFields f) any.
Proof. intros ((?&E1&_) & (?&E2&_) & (?&E3&_) & (?&E4&_) & (?&E5&_) & _). unfold ConfigLoader.validateRequiredFields. by rewrite E1, E2, E3, E4, E5. Qed.

(** The converted configuration of a buffer with the expected version. *)
Lemma config_sound f :
  verified_config f -> sane_config f -> fb.LaunchManagerConfig.schema_version f = Some ConfigLoader.kExpectedSchemaVersion ->
  sound (ConfigLoader.convertConfig f) valid_config.
Proof.
  intros Hf Hs Ev. unfold ConfigLoader.convertConfig, ConfigLoader.validateSchemaVersion. rewrite Ev, Z.eqb_refl. simpl.
  eapply sound_bind; [by apply sound_required_fields|]. intros _ _.
  destruct Hf as (Hc & Hr & Hi & (fr & -> & Hfr) & (sv & -> & Hsv) & Hw). next.
  eapply sound_bind; [by apply sound_components|]. intros cs ?.
  eapply sound_bind; [by apply sound_run_targets|]. intros rts ?.
  eapply sound_bind; [by apply (conv_sound (Conversion := fallback_conversion))|]. intros fallback ?.
  eapply (sound_bind _ _ (fun c => u32 (AliveSupervisionConfig.evaluation_cycle_ms c))).
  { unfold Converters.convertAliveSupervision. next. by apply sound_ret. }
  intros alive ?. eapply sound_bind; [by apply sound_watchdog|]. intros wd Hwd. apply sound_ret.
  unfold valid_config. by destruct wd.
Qed.

Lemma converted_version f c :
  ConfigLoader.convertConfig f = Ret (inl c) ->
  fb.LaunchManagerConfig.schema_version f = Some ConfigLoader.kExpectedSchemaVersion.
Proof.
  unfold ConfigLoader.convertConfig, ConfigLoader.validateSchemaVersion.
  destruct (fb.LaunchManagerConfig.schema_version f) as [v|]; [|done].
  by destruct (Z.eqb_spec v ConfigLoader.kExpectedSchemaVersion) as [->|].
Qed.

Lemma encode_config_fits c : valid_config c -> verified_config (encode_config c) /\ sane_config (encode_config c).
Proof.
  intros (Hc & Hr & Hf & Ha & Hw). unfold verified_config, sane_config. simpl.
  split_and!; [| | by apply req_Some | by apply req_Some, on_Some | by apply req_Some, on_Some | |].
  - eexists. split; [reflexivity|]. eapply vector_each; [|exact Hc|reflexivity].
    intros x Hx. by apply (conv_fits (Conversion := component_conversion)).
  - eexists. split; [reflexivity|]. eapply vector_each; [|exact Hr|reflexivity].
    intros x Hx. by apply (conv_fits (Conversion := run_target_conversion)).
  - intros f. destruct (Config.watchdog_ c) as [w|]; [|done]. intros [= <-].
    split; [by apply req_Some | apply on_Some; by apply Hw].
  - eapply vector_each; [|exact Hc]. intros x Hx. by apply (conv_fits (Conversion := component_conversion)).
Qed.

Lemma config_roundtrip c : valid_config c -> ConfigLoader.convertConfig (encode_config c) = Ret (inl c).
Proof.
  destruct c as [cs rts ini fr [al] wd]. intros (Hc & Hr & Hf & Ha & Hw). simpl in *.
  unfold ConfigLoader.convertConfig. simpl.
  eapply bind_ok; [by apply (vector_roundtrip _ _ valid_component), Hc; apply (conv_roundtrip (Conversion := stored_component_conversion))|].
  eapply bind_ok; [by apply (vector_roundtrip _ _ valid_run_target), Hr; apply (conv_roundtrip (Conversion := run_target_conversion))|].
  eapply bind_ok; [apply watchdog_roundtrip|]. rewrite strings_roundtrip. by destruct fr, wd.
Qed.

(** If the daemon may stop, everything is sane. *)
Lemma sane_if_stop f : stop -> sane_config f.
Proof.
  intros Hstop. assert (Hcomp : forall x, sane_component x).
  { intros x. split; intros y _.
    - intros r _. split; [by left|]. intros z _. by left.
    - split.
      + intros l _. apply Forall_true. intros o v _. by left.
      + intros sb _ l _. apply Forall_true. intros o v _ r _. by left. }
  intros l _. apply Forall_true. intros o x _. apply Hcomp.
Qed.

(** ** Environment and process component *)

Lemma read_pointers_seq l entries n :
  drop n entries = l ->
  Environment.read_pointers entries ((Some <$> seq n (length l)) ++ [None]) = Some (EnvironmentVariable.c_str <$> l).
Proof.
  revert n. induction l as [|v l IH]; intros n Hd; [done|]. simpl.
  assert (entries !! n = Some v) as -> by (rewrite <- (Nat.add_0_r n), <- lookup_drop, Hd; done).
  cbn [mbind option_bind]. rewrite IH; [done|].
  rewrite <- Nat.add_1_r, <- drop_drop, Hd. done.
Qed.

(** [execve] gets the variables, in order and with the terminating null. *)
Lemma envp_valid e :
  valid_environment e -> Environment.envp e = Some (EnvironmentVariable.c_str <$> Environment.entries_ e).
Proof. intros (_ & Ep). unfold Environment.envp. rewrite Ep. by apply read_pointers_seq. Qed.

(** The variable that the process component adds keeps the environment valid. *)
Lemma add_valid k x e :
  k <> "" -> valid_environment e ->
  returns (Environment.add k x e) (fun e' => valid_environment e' /\
    exists v, Environment.entries_ e' = Environment.entries_ e ++ [v] /\
      EnvironmentVariable.key v = k /\ EnvironmentVariable.value v = x).
Proof.
  intros Hk (He & _). unfold Environment.add. rewrite (make_variable k x Hk). simpl. split.
  - split; [|done]. apply Forall_app. split; [exact He|]. repeat constructor. by exists k, x.
  - eexists. split; [reflexivity|]. by rewrite variable_key, variable_value.
Qed.

(** What a moved environment hands to [execve]; the source keeps its pointers
    but owns no entry any more. *)
Lemma move_environment e :
  valid_environment e ->
  Environment.envp (Environment.move e).1 = Environment.envp e /\ Environment.size (Environment.move e).2 = 0.
Proof.
  intros He. rewrite (envp_valid e He). split; [|done].
  change (Environment.entries_ e) with (Environment.entries_ (Environment.move e).1). apply envp_valid. by split; [apply He|].
Qed.

End Tables.
End Stop.

(** ** The loader *)

Section Loading.
Context `{Platform, !PlatformLaws}.

(** A buffer that is verified and sane never stops the daemon. *)
Lemma config_converts f :
  verified_config f -> sane_config False f -> fb.LaunchManagerConfig.schema_version f = Some ConfigLoader.kExpectedSchemaVersion ->
  returns (ConfigLoader.convertConfig f) (fun r => match r with inl c => valid_config c | inr e => e = InvalidFormat end).
Proof. intros Hv Hs Ev. pose proof (config_sound False f Hv Hs Ev) as Hc. unfold sound in Hc. by destruct (ConfigLoader.convertConfig f) as [[]|]. Qed.

Section Loader.
Context {Buffer Path : Type}.
Context (VerifyLaunchManagerConfigBuffer : Buffer -> bool).
Context (GetLaunchManagerConfig : Buffer -> option fb.LaunchManagerConfig.t).
Context (LoadBuffer : Path -> Buffer + ConfigLoader.OsError).

(** The generated verifier accepts only buffers with the schema's required parts. *)
Definition VerifierLaw : Prop :=
  forall b, VerifyLaunchManagerConfigBuffer b = true ->
    exists f, GetLaunchManagerConfig b = Some f /\ verified_config f.

Definition buffer_sane (b : Buffer) : Prop := on (sane_config False) (GetLaunchManagerConfig b).

Definition ready_to_run (c : Config.t) : Prop :=
  valid_config c /\
  Forall (fun comp => let env := DeploymentConfig.environmental_variables (ComponentConfig.deployment_config comp) in
            Environment.envp env = Some (EnvironmentVariable.c_str <$> Environment.entries_ env)) (Config.components_ c).

Lemma valid_ready_to_run c : valid_config c -> ready_to_run c.
Proof.
  intros Hc. split; [done|]. eapply Forall_impl; [apply Hc|].
  intros comp (_ & _ & _ & _ & _ & He & _). by apply envp_valid.
Qed.

Lemma parse_spec b :
  VerifierLaw -> buffer_sane b ->
  returns (ConfigLoader.parseFlatbuffer VerifyLaunchManagerConfigBuffer GetLaunchManagerConfig b) (fun r => match r with
    | inl c => ready_to_run c
    | inr e => e = InvalidFormat \/ e = UnsupportedVersion /\
        exists f v, GetLaunchManagerConfig b = Some f /\ fb.LaunchManagerConfig.schema_version f = Some v /\
          v <> ConfigLoader.kExpectedSchemaVersion
    end).
Proof.
  intros Hl Hs. unfold ConfigLoader.parseFlatbuffer.
  destruct (VerifyLaunchManagerConfigBuffer b) eqn:Ev; simpl; [|by left].
  destruct (Hl b Ev) as (f & Ef & Hf). unfold buffer_sane in Hs. rewrite Ef in Hs |- *. specialize (Hs f eq_refl).
  destruct (fb.LaunchManagerConfig.schema_version f) as [v|] eqn:Es.
  2:{ unfold ConfigLoader.convertConfig, ConfigLoader.validateSchemaVersion. rewrite Es. by left. }
  destruct (decide (v = ConfigLoader.kExpectedSchemaVersion)) as [->|Hn].
  - eapply returns_mono; [by apply config_converts|]. intros [c|e]; [apply valid_ready_to_run | by left].
  - unfold ConfigLoader.convertConfig, ConfigLoader.validateSchemaVersion. rewrite Es.
    apply Z.eqb_neq in Hn as Hb. rewrite Hb. right. split; [done|]. by exists f, v.
Qed.

(** C39: A verified file in which the ready conditions, the names of environment variables
    and the enumerations are sensible never stops the daemon: loading returns a
    configuration whose numbers are in range, whose limits, policies and user and
    group ids are values of the platform and whose environments [execve] can
    read, or the documented error for the file, the format or the version. *)
Theorem loading_returns_valid_or_error (path : Path) :
  VerifierLaw -> (forall b, LoadBuffer path = inl b -> buffer_sane b) ->
  returns (ConfigLoader.loadConfig VerifyLaunchManagerConfigBuffer GetLaunchManagerConfig LoadBuffer path) (fun r => match r with
    | inl c => ready_to_run c
    | inr e =>
        match LoadBuffer path with
        | inr os => e = ConfigLoader.mapOsError os
        | inl b => e = InvalidFormat \/ e = UnsupportedVersion /\
            exists f v, GetLaunchManagerConfig b = Some f /\ fb.LaunchManagerConfig.schema_version f = Some v /\
              v <> ConfigLoader.kExpectedSchemaVersion
        end
    end).
Proof.
  intros Hl Hs. unfold ConfigLoader.loadConfig. destruct (LoadBuffer path) as [b|os]; [|done].
  by apply parse_spec; [|apply Hs].
Qed.

End Loader.

(** C40: The configurations that come out of verified buffers are exactly the valid
    ones.  Writing a valid configuration gives a verified and sane buffer, and converting it back gives the same
    configuration.  Conversely, whatever is converted from a verified buffer, sane or not, is valid: in particular every
    environment variable has a name, and the pointers for [execve] lead to the variables. *)
Theorem configuration_roundtrip (c : Config.t) :
  (valid_config c ->
   verified_config (encode_config c) /\ sane_config False (encode_config c) /\
   ConfigLoader.convertConfig (encode_config c) = Ret (inl c)) /\
  (forall f, verified_config f -> ConfigLoader.convertConfig f = Ret (inl c) -> ready_to_run c).
Proof.
  split.
  - intros Hc. destruct (encode_config_fits False c Hc). split_and!; [done..|]. by apply (config_roundtrip False).
  - intros f Hv E. apply valid_ready_to_run. assert (Hs : sane_config True f) by exact (sane_if_stop True f I).
    pose proof (config_sound True f Hv Hs (converted_version f c E)) as Hr. by rewrite E in Hr.
Qed.

End Loading.

(** ** A small configuration, on Linux *)

Module Example.

#[local] Instance linux : Platform := {|
  SCHED_OTHER := 0; SCHED_FIFO := 1; SCHED_RR := 2;
  RLIMIT_AS := 9; RLIMIT_CORE := 4; RLIMIT_CPU := 0; RLIMIT_DATA := 2;
  RLIMIT_FSIZE := 1; RLIMIT_NOFILE := 7; RLIMIT_STACK := 3;
  RLIM_INFINITY := 0xFFFFFFFFFFFFFFFF;
  uid_min := 0; uid_max := 2 ^ 32 - 1; gid_min := 0; gid_max := 2 ^ 32 - 1
|}.

#[local] Instance linux_laws : PlatformLaws.
Proof. by repeat split. Qed.

Definition profile (ty : ProcessInfoNode.ApplicationType) : ApplicationProfile.t :=
  ApplicationProfile.mk ty false (Some (ComponentAliveSupervision.mk 100 2 (Some 1%Z) None)).
Definition sandbox : Sandbox.t :=
  Sandbox.mk 1000 1000 [27%Z] None 1 20 [ResourceLimit.mk 7 1024 0xFFFFFFFFFFFFFFFF] None.
Definition env : Environment.t :=
  Environment.set [EnvironmentVariable.mk "LANG=C" 4] Environment.make.
Definition app : ComponentConfig.t :=
  ComponentConfig.mk "app" "" (ComponentProperties.mk "app" (profile ProcessInfoNode.ReportingAndSupervised) [] ["-v"]
      (OnProcessState Running))
    (DeploymentConfig.mk 500 500 env "/opt/app" "/tmp" 1 0 (Some (SwitchRunTargetAction.mk "Safe")) sandbox).
Definition config : Config.t :=
  Config.mk [app] [RunTargetConfig.mk "Startup" "" ["app"] 5000 (SwitchRunTargetAction.mk "Safe")] "Startup"
    (FallbackRunTargetConfig.mk "" [] 5000) (AliveSupervisionConfig.mk 50)
    (Some (Watchdog.mkWatchdogConfig "/dev/watchdog" 10000 true true)).

Lemma config_valid : valid_config config.
Proof.
  assert (valid_variable (EnvironmentVariable.mk "LANG=C" 4)) by (by exists "LANG", "C").
  assert (forall z, (0 <= z < 2 ^ 32)%Z -> on u32 (Some z)) by (intros; by apply on_Some).
  unfold valid_config, valid_component, valid_properties, valid_profile, valid_deployment, valid_environment, valid_sandbox,
    valid_rlimit, valid_bound. simpl.
  repeat match goal with
  | |- _ /\ _ => split
  | |- Forall _ _ => constructor
  | |- on _ None => apply on_None
  | |- on _ (Some _) => apply on_Some
  | |- exists _, _ => exists "/opt"; reflexivity
  | |- valid_alive _ => unfold valid_alive; simpl
  | |- _ ∈ _ => set_solver
  | |- _ \/ _ => first [left; reflexivity | left; by eexists | right; split; [by split | done]]
  | _ => first [done | by split]
  end.
  apply on_Some. unfold valid_alive. simpl. split_and!; [by split | by split | by apply on_Some; split | apply on_None | left; by eexists].
Qed.

Lemma configuration_roundtrip_witness :
  verified_config (encode_config config) /\ sane_config False (encode_config config) /\
  ConfigLoader.convertConfig (encode_config config) = Ret (inl config).
Proof. apply (configuration_roundtrip config). exact config_valid. Defined.

(** A file system with one file, and the buffer [true], which holds the table. *)
Definition get (b : bool) : option fb.LaunchManagerConfig.t := if b then Some (encode_config config) else None.
Definition load_buffer (path : string) : bool + ConfigLoader.OsError :=
  if bool_decide (path = "etc/lm.bin") then inl true else inr ConfigLoader.kNoSuchFileOrDirectory.

Lemma loading_returns_valid_or_error_witness :
  ConfigLoader.loadConfig id get load_buffer "etc/lm.bin" = Ret (inl config) /\
  returns (ConfigLoader.loadConfig id get load_buffer "etc/lm.bin") (fun r => match r with
    | inl c => ready_to_run c
    | inr e => e = InvalidFormat \/ e = UnsupportedVersion /\
            exists f v, get true = Some f /\ fb.LaunchManagerConfig.schema_version f = Some v /\
              v <> ConfigLoader.kExpectedSchemaVersion
    end).
Proof.
  destruct (encode_config_fits False config config_valid) as [Hv Hs].
  split; [vm_compute; reflexivity|].
  apply (loading_returns_valid_or_error id get load_buffer "etc/lm.bin").
  - intros b Hb. destruct b; [|discriminate Hb]. exists (encode_config config). split; [reflexivity | exact Hv].
  - intros b Hb. destruct b; [|discriminate Hb]. apply on_Some. exact Hs.
Defined.

(** Verified tables that stop the daemon: a ready condition without a state, a
    variable without a name, an unknown file state, an unknown limit. *)
Lemma empty_ready_condition_stops :
  Converters.convertReadyCondition (Some (fb.ReadyCondition.mk None None)) = Abort AssertionFailed.
Proof. reflexivity. Qed.

Lemma nameless_variable_stops :
  Converters.convertEnvironmentalVariables (Some [Some (fb.EnvironmentalVariable.mk (Some "") (Some "1"))]) = Abort AssertionFailed.
Proof. reflexivity. Qed.

Lemma unknown_file_state_stops :
  Converters.convertFileState (fb.FileState.mk (Some "/tmp/f") 2 (Some 10%Z)) = Abort AssertionFailed.
Proof. reflexivity. Qed.

Lemma unknown_limit_stops :
  Converters.convertRlimits (Some [Some (fb.Rlimit.mk (Some 7%Z) (Some 1%Z) (Some 1%Z))]) = Abort AssertionFailed.
Proof. reflexivity. Qed.

(** What the process component reads of the configuration. *)
Definition node_config (hash : string -> IdentifierHash) (c : ComponentConfig.t) : ProcessInfoNode.ComponentConfig :=
  let p := ComponentConfig.component_properties c in
  let a := ComponentProperties.application_profile p in
  ProcessInfoNode.mkConfig (hash (ComponentConfig.name c)) (ApplicationProfile.application_type a)
    (ApplicationProfile.is_self_terminating a) (bool_decide (is_Some (ApplicationProfile.alive_supervision a)))
    (match ComponentProperties.ready_condition p with
     | OnProcessState Running => ProcessInfoNode.ReadyRunning
     | OnProcessState Terminated => ProcessInfoNode.ReadyTerminated
     | OnFileState _ => ProcessInfoNode.ReadyFile
     end)
    (Z.to_nat (DeploymentConfig.activation_retry_attempts (ComponentConfig.deployment_config c))).

(** A state manager without alive supervision is accepted by the loader, and
    the constructor of its process component then reads the empty optional. *)
Definition manager_table : fb.Component.t :=
  fb.Component.mk (Some "sm") None
    (Some (fb.ComponentProperties.mk (Some "sm")
      (Some (fb.ApplicationProfile.mk (Some fb.State_Manager) (Some false) None)) None None None))
    (Some (encode_deployment "sm" (DeploymentConfig.mk 500 500 Environment.make "/opt/sm" "/tmp" 1 0 None sandbox))).

Lemma unsupervised_manager_accepted :
  exists c, Converters.convertComponent (Some manager_table) = Ret (inl c) /\
    ProcessInfoNode.make (H := release_build) (node_config (fun _ => 1%Z) c) (Some []) = Abort OutOfRange.
Proof. eexists. split; vm_compute; reflexivity. Qed.

End Example.
End ConfigurationProofs.
