(* ===== verification/Osal.v ===== *)
(** * The operating-system layer

    Module [Semaphore] (osal/details/posix/semaphore.cpp): the timed wait, whose
    deadline is computed once.  Module [FileWaiter]
    (osal/details/posix/wait_for_file.cpp): the loop that polls for a file.  Module
    [OsHandler] (process_group_manager/details/os_handler.cpp): the thread that
    collects the children that ended and hands them to the process map.  The
    answers of the operating system are inputs. *)

From stdpp Require Import prelude.
From S2P Require Import Prelude Timers ProcessMap ProcessMapProofs Configuration.

Module osal.

Inductive OsalReturnType := kSuccess | kFail | kTimeout.

#[global] Instance OsalReturnType_eq_dec : EqDecision OsalReturnType.
Proof. solve_decision. Defined.

End osal.

(** ** Semaphores *)

Module Semaphore.
Local Open Scope Z_scope.

Definition kNanosecondsPerSecond : Z := 1000000000.

(** What [sem_timedwait_monotonic] answers. *)
Inductive SemResult := Locked | OperationWasInterruptedBySignal | KernelTimeout | OtherError.

(** The deadline for a delay in milliseconds: [duration_cast] truncates. *)
Definition deadline (now : timespec) (delay : Z) : timespec :=
  let secs := Z.quot delay 1000 in
  let nsecs := (delay - secs * 1000) * 1000000 in
  let ts := mkTimespec (tv_sec now + secs) (tv_nsec now + nsecs) in
  if kNanosecondsPerSecond <=? tv_nsec ts then mkTimespec (tv_sec ts + 1) (tv_nsec ts - kNanosecondsPerSecond) else ts.

(** The loop: the deadlines that were passed on, and the result; [answers] are the
    answers to its calls. *)
Fixpoint wait_loop (d : timespec) (answers : list SemResult) : outcome (osal.OsalReturnType * list timespec) :=
  match answers with
  | [] => Abort OutOfFuel
  | Locked :: _ => Ret (osal.kSuccess, [d])
  | OperationWasInterruptedBySignal :: answers' => '(r, l) ← wait_loop d answers'; Ret (r, d :: l)
  | KernelTimeout :: _ => Ret (osal.kTimeout, [d])
  | OtherError :: _ => Ret (osal.kFail, [d])
  end.

Definition timedWait (clock : option timespec) (delay : Z) (answers : list SemResult) :
    outcome (osal.OsalReturnType * list timespec) :=
  match clock with
  | None => Ret (osal.kFail, [])
  | Some now => wait_loop (deadline now delay) answers
  end.

(** [init], [deinit], [post] and [wait]: whether the call succeeded. *)
Definition one_call (ok : bool) : osal.OsalReturnType := if ok then osal.kSuccess else osal.kFail.

Definition nanoseconds (ts : timespec) : Z := tv_sec ts * kNanosecondsPerSecond + tv_nsec ts.
Definition normal (ts : timespec) : Prop := 0 <= tv_nsec ts < kNanosecondsPerSecond.

(** The deadline is a valid time, and exactly the delay after the reading. *)
Lemma deadline_exact now delay : normal now -> 0 <= delay ->
  normal (deadline now delay) /\ nanoseconds (deadline now delay) = nanoseconds now + delay * 1000000.
Proof.
  unfold normal, nanoseconds, deadline, kNanosecondsPerSecond. intros Hn Hd.
  pose proof (Z.quot_rem' delay 1000). pose proof (Z.rem_bound_pos delay 1000 ltac:(lia) ltac:(lia)).
  case_match eqn:E; simpl in *; [apply Z.leb_le in E | apply Z.leb_gt in E]; nia.
Qed.

(** Signals neither end the wait nor move its deadline. *)
Lemma wait_loop_interrupted d n answers :
  wait_loop d (replicate n OperationWasInterruptedBySignal ++ answers) =
  '(r, l) ← wait_loop d answers; Ret (r, replicate n d ++ l).
Proof.
  induction n as [|n IH]; simpl; [by destruct (wait_loop d answers) as [[]|]|].
  rewrite IH. by destruct (wait_loop d answers) as [[]|].
Qed.

(** A negative delay would give an invalid time. *)
Example negative_delay : deadline (mkTimespec 5 0) (-1) = mkTimespec 5 (-1000000).
Proof. reflexivity. Qed.

End Semaphore.

(** ** Waiting for a file *)

Module FileWaiter.
Local Open Scope Z_scope.

(** What [stat] answers: the file exists, or the error number. *)
Inductive StatResult := Present | Errno (e : Z).

Definition EINTR : Z := 4.
Definition ENOENT : Z := 2.
Definition ENOTDIR : Z := 20.

(** What one round of the loop sees: whether a stop was requested, the answer of
    [stat] and the time after it, in nanoseconds. *)
Record round := mkRound { stop_requested : bool; stat : StatResult; now : Z }.

(** What the answer of [stat] means: an end of the loop, or another round. *)
Definition judge (wait_for_existence : bool) (r : StatResult) : option osal.OsalReturnType :=
  match r with
  | Present => if wait_for_existence then Some osal.kSuccess else None
  | Errno e =>
      if (e =? ENOENT) || (e =? ENOTDIR) then (if wait_for_existence then None else Some osal.kSuccess)
      else if e =? EINTR then None
      else Some osal.kFail
  end.

Definition sleep (poll_interval deadline t : Z) : Z := Z.min poll_interval (deadline - t).

(** The loop; [rounds i] is what the round [i] sees.  The result, and how often the
    loop slept. *)
Fixpoint poll (fuel : nat) (wait_for_existence : bool) (deadline : Z) (rounds : nat -> round) (i : nat) :
    outcome (osal.OsalReturnType * nat) :=
  match fuel with
  | O => Abort OutOfFuel
  | S fuel' =>
      let r := rounds i in
      if stop_requested r then Ret (osal.kFail, i)
      else
        match judge wait_for_existence (stat r) with
        | Some result => Ret (result, i)
        | None =>
            if deadline <=? now r then Ret (osal.kTimeout, i)
            else poll fuel' wait_for_existence deadline rounds (S i)
        end
  end.

Definition MS : Z := 1000000.

Definition waitForFile (fuel : nat) (condition : FileExistenceState) (timeout : Z) (start : Z) (rounds : nat -> round) :
    outcome (osal.OsalReturnType * nat) :=
  poll fuel (match condition with Exists => true | NotExisting => false end) (start + timeout * MS) rounds 0.

End FileWaiter.

Module FileWaiterProofs.
Import FileWaiter.
Local Open Scope Z_scope.

Section Proofs.
Context (existence : bool) (timeout poll_interval start : Z) (rounds : nat -> round).
Notation deadline := (start + timeout * MS).
Notation interval := (poll_interval * MS).

(** [std::this_thread::sleep_for] sleeps at least as long as it was asked to, and the
    steady clock does not run backwards. *)
Definition clock_law : Prop :=
  start <= now (rounds 0%nat) /\
  forall i, now (rounds i) < deadline -> now (rounds i) + sleep interval deadline (now (rounds i)) <= now (rounds (S i)).

(** The round in which the loop ends, seen alone. *)
Definition goes_on (i : nat) : Prop :=
  stop_requested (rounds i) = false /\ judge existence (stat (rounds i)) = None /\ now (rounds i) < deadline.

Lemma poll_spec fuel i r n :
  poll fuel existence deadline rounds i = Ret (r, n) ->
  (i <= n)%nat /\ (forall j, (i <= j < n)%nat -> goes_on j) /\
  ((stop_requested (rounds n) = true /\ r = osal.kFail) \/
   (stop_requested (rounds n) = false /\ judge existence (stat (rounds n)) = Some r) \/
   (stop_requested (rounds n) = false /\ judge existence (stat (rounds n)) = None /\ deadline <= now (rounds n) /\ r = osal.kTimeout)).
Proof.
  revert i. induction fuel as [|fuel IH]; intros i; cbn [poll]; [done|].
  destruct (stop_requested (rounds i)) eqn:Es; [intros [= <- <-]; split; [lia|split; [lia|by left]]|].
  destruct (judge existence (stat (rounds i))) eqn:Ej; [intros [= -> <-]; split; [lia|split; [lia|auto]]|].
  case_match eqn:Ed; [apply Z.leb_le in Ed; intros [= <- <-]; split; [lia|split; [lia|naive_solver]]|].
  apply Z.leb_gt in Ed. intros (Hi & Hg & Hr)%IH. split; [lia|]. split; [|done].
  intros j Hj. destruct (decide (j = i)) as [->|]; [done|]. apply Hg. lia.
Qed.

(** Before the deadline every round is later by at least the interval. *)
Lemma time_passes i :
  clock_law -> 0 < poll_interval -> (forall j, (j < i)%nat -> now (rounds j) < deadline) ->
  Z.min deadline (start + Z.of_nat i * interval) <= now (rounds i).
Proof.
  intros [H0 Hc] Hp. induction i as [|i IH]; intros Hb; [lia|].
  specialize (IH ltac:(intros; apply Hb; lia)). specialize (Hc i (Hb i ltac:(lia))). unfold sleep, MS in *. lia.
Qed.

Lemma poll_total fuel i :
  clock_law -> 0 < poll_interval -> (forall j, (j < i)%nat -> now (rounds j) < deadline) ->
  timeout <= (Z.of_nat fuel + Z.of_nat i - 1) * poll_interval -> (0 < fuel)%nat ->
  exists r n, poll fuel existence deadline rounds i = Ret (r, n) /\ (n < fuel + i)%nat.
Proof.
  intros Hc Hp. revert i. induction fuel as [|fuel IH]; intros i Hb Hf Hpos; [lia|]. cbn [poll].
  destruct (stop_requested (rounds i)); [eexists _, _; split; [done|lia]|].
  destruct (judge existence _); [eexists _, _; split; [done|lia]|].
  case_match eqn:Ed; [eexists _, _; split; [done|lia]|]. apply Z.leb_gt in Ed.
  pose proof (time_passes i Hc Hp Hb) as Ht. unfold MS in *.
  destruct (IH (S i)) as (r & n & Hn & Hl).
  - intros j Hj. destruct (decide (j = i)) as [->|]; [done|]. apply Hb. lia.
  - lia.
  - destruct fuel; [|lia]. nia.
  - exists r, n. split; [done|lia].
Qed.

End Proofs.

Lemma judge_success existence r :
  judge existence r = Some osal.kSuccess <->
  (if existence then r = Present else r = Errno ENOENT \/ r = Errno ENOTDIR).
Proof.
  unfold judge. destruct r as [|e], existence; simpl; try naive_solver;
    destruct (Z.eqb_spec e ENOENT), (Z.eqb_spec e ENOTDIR), (Z.eqb_spec e EINTR); subst; simpl; try naive_solver; naive_solver congruence.
Qed.

Lemma judge_not_timeout existence r : judge existence r <> Some osal.kTimeout.
Proof. unfold judge. repeat case_match; done. Qed.

Lemma poll_fuel fuel fuel' existence deadline rounds i x :
  (fuel <= fuel')%nat -> poll fuel existence deadline rounds i = Ret x -> poll fuel' existence deadline rounds i = Ret x.
Proof.
  revert fuel' i. induction fuel as [|fuel IH]; intros [|fuel'] i Hf; cbn [poll]; try done; [lia|].
  repeat case_match; try done. apply IH. lia.
Qed.

(** What the caller waits for. *)
Definition met (condition : FileExistenceState) (r : round) : Prop :=
  match condition with
  | Exists => stat r = Present
  | NotExisting => stat r = Errno ENOENT \/ stat r = Errno ENOTDIR
  end.

Lemma judge_met condition r :
  judge (match condition with Exists => true | NotExisting => false end) (stat r) = Some osal.kSuccess <-> met condition r.
Proof. rewrite judge_success. by destruct condition. Qed.

(** Waiting for a file ends, after at most one round per polling interval and one
    more: with success exactly when the last round saw what was waited for and no
    stop request, with a time-out only at the deadline or later.  No earlier round
    saw it, and no sleep goes past the deadline. *)
Theorem file_wait_ends condition timeout poll_interval start rounds fuel :
  clock_law timeout poll_interval start rounds -> 0 < poll_interval -> (Z.to_nat (timeout / poll_interval) + 2 <= fuel)%nat ->
  exists r n, waitForFile fuel condition timeout start rounds = Ret (r, n) /\
    (n <= Z.to_nat (timeout / poll_interval) + 1)%nat /\
    (r = osal.kSuccess <-> stop_requested (rounds n) = false /\ met condition (rounds n)) /\
    (r = osal.kTimeout -> start + timeout * MS <= now (rounds n) /\ ~ met condition (rounds n)) /\
    (forall j, (j < n)%nat -> ~ met condition (rounds j) /\ stop_requested (rounds j) = false /\
       now (rounds j) + sleep (poll_interval * MS) (start + timeout * MS) (now (rounds j)) <= start + timeout * MS).
Proof.
  intros Hc Hp Hf. unfold waitForFile. set (existence := match condition with Exists => true | NotExisting => false end).
  set (bound := (Z.to_nat (timeout / poll_interval) + 2)%nat) in *.
  destruct (poll_total existence timeout poll_interval start rounds bound 0 Hc Hp ltac:(lia)) as (r & n & Hr & Hn).
  { subst bound. pose proof (Z.mul_succ_div_gt timeout poll_interval Hp).
    destruct (Z.lt_ge_cases timeout 0); [|pose proof (Z.div_pos timeout poll_interval ltac:(lia) Hp)]; nia. }
  { lia. }
  exists r, n. split; [by eapply poll_fuel|]. split; [lia|].
  apply poll_spec in Hr as (_ & Hg & Hr). pose proof (judge_met condition (rounds n)) as Hm. fold existence in Hm.
  split; [|split].
  - destruct Hr as [[Hs ->]|[[Hs Hj]|(Hs & Hj & _ & ->)]]; rewrite Hs, <- Hm; naive_solver.
  - intros ->. destruct Hr as [[_ ?]|[[_ Hj]|(_ & Hj & Hd & _)]]; [done|by apply judge_not_timeout in Hj|].
    split; [done|]. rewrite <- Hm. by rewrite Hj.
  - intros j Hj. destruct (Hg j ltac:(lia)) as (Hs & Hj' & Hd). split; [|split; [done|unfold sleep; lia]].
    pose proof (judge_met condition (rounds j)) as Hmj. fold existence in Hmj. rewrite <- Hmj. by rewrite Hj'.
Qed.

Module Example.

(** The file appears in the third round. *)
Definition rounds (i : nat) : round := mkRound false (if (2 <=? i)%nat then Present else Errno ENOENT) (Z.of_nat i * 10 * MS).

Lemma file_wait_ends_witness :
  clock_law 25 10 0 rounds /\
  exists r n, waitForFile 4 Exists 25 0 rounds = Ret (r, n) /\ (n <= 3)%nat /\
    (r = osal.kSuccess <-> stop_requested (rounds n) = false /\ met Exists (rounds n)).
Proof.
  assert (Hc : clock_law 25 10 0 rounds) by (split; [done|]; intros i; unfold sleep, rounds, MS; simpl; lia).
  split; [exact Hc|].
  destruct (file_wait_ends Exists 25 10 0 rounds 4 Hc ltac:(lia) ltac:(vm_compute; lia)) as (r & n & H1 & H2 & H3 & _).
  exists r, n. split; [exact H1|]. split; [exact H2|exact H3].
Defined.

Example found : waitForFile 4 Exists 25 0 rounds = Ret (osal.kSuccess, 2%nat).
Proof. reflexivity. Qed.

Example not_gone : waitForFile 5 NotExisting 25 0 (fun i => mkRound false Present (Z.of_nat i * 10 * MS)) = Ret (osal.kTimeout, 3%nat).
Proof. reflexivity. Qed.

End Example.

End FileWaiterProofs.

(** ** The thread that waits for children *)

Module OsHandler.

(** The macros of <sys/wait.h> on the status. *)
Definition WIFSTOPPED (status : Z) : bool := (Z.land status 255 =? 127)%Z.
Definition WIFCONTINUED (status : Z) : bool := (status =? 65535)%Z.

(** The loop of [run] while [is_running_]: each event is an answer of [wait], with
    [None] for an error, and the status. *)
Fixpoint run {C} (events : list (option Z * Z)) (m : SafeProcessMap.t C) :
    outcome (list (option (Z * option (C * Z))) * SafeProcessMap.t C) :=
  match events with
  | [] => Ret ([], m)
  | (result, wait_status) :: events' =>
      match result with
      | None => run events' m
      | Some pid =>
          if (pid <=? 0)%Z then run events' m
          else if WIFSTOPPED wait_status || WIFCONTINUED wait_status then run events' m
          else
            '(a, m1) ← SafeProcessMap.findTerminated pid wait_status m;
            '(l, m2) ← run events' m1;
            Ret (a :: l, m2)
      end
  end.

(** The children that ended. *)
Definition ended {C} (events : list (option Z * Z)) : list (@SafeProcessMapProofs.call C) :=
  omap (fun e => match e.1 with
                 | Some pid => if (0 <? pid)%Z && negb (WIFSTOPPED e.2 || WIFCONTINUED e.2)
                               then Some (SafeProcessMapProofs.Ended pid e.2) else None
                 | None => None
                 end) events.

(** The thread hands every child that ended to the map, in the order of their
    ends, and nothing else. *)
Lemma run_reports_ends {C} events (m : SafeProcessMap.t C) :
  run events m = SafeProcessMapProofs.schedule (ended events) m.
Proof.
  revert m. induction events as [|[[pid|] status] events IH]; intros m; simpl; try done.
  rewrite Z.ltb_antisym. destruct (pid <=? 0)%Z; simpl; [done|].
  destruct (WIFSTOPPED status || WIFCONTINUED status); simpl; [done|].
  destruct (SafeProcessMap.findTerminated pid status m) as [[a m1]|]; simpl; [|done]. by rewrite IH.
Qed.

End OsHandler.

(** ** The wrappers that differ between the operating systems

    osal/details/linux and osal/details/qnx.  The answers of the calls are arguments. *)

Module Wrappers.
Local Open Scope Z_scope.

Definition kDefaultNumCores : Z := 64.

Definition getNumCores_linux (sysconf : Z) : Z := if (sysconf <? 1) || (kDefaultNumCores <? sysconf) then kDefaultNumCores else wrap 32 sysconf.
Definition getNumCores_qnx (num_cpu : Z) : Z :=
  let num_cores := wrap 32 num_cpu in
  if (num_cores =? 0) || (kDefaultNumCores <? num_cores) then kDefaultNumCores else num_cores.

(** The arguments of the system's [setgroups]: the number and the array, null for an empty list. *)
Definition setgroups_linux (n : Z) (groups : list Z) : Z * option (list Z) := (n, if n =? 0 then None else Some groups).
Definition setgroups_qnx (n : Z) (groups : list Z) : Z * option (list Z) := (Z.land n 2147483647, if n =? 0 then None else Some groups).

Definition setSecurityPolicy_linux : Z := 0.
Definition ENOTSUP : Z := 95.
Definition setSecurityPolicy_qnx (res errno : Z) : Z := if (res =? 0) || ((res =? -1) && (errno =? ENOTSUP)) then 0 else res.

(** [setaffinity] on QNX: two words of 32 bits, filled bit by bit ([RMSK_SET]). *)
Definition rmsk_set (i : Z) (mask : Z * Z) : Z * Z :=
  if i <? 32 then (Z.lor mask.1 (Z.shiftl 1 i), mask.2) else (mask.1, Z.lor mask.2 (Z.shiftl 1 (i - 32))).
Fixpoint runmask (cpumask : Z) (n : nat) : Z * Z :=
  match n with
  | O => (0, 0)
  | S n' => let mask := runmask cpumask n' in if Z.testbit cpumask (Z.of_nat n') then rmsk_set (Z.of_nat n') mask else mask
  end.
Definition setaffinity_qnx (cpumask ThreadCtl : Z) : Z * (Z * Z) := (if ThreadCtl =? 0 then 0 else -1, runmask cpumask 64).

(** Both systems report between 1 and 64 cores. *)
Lemma getNumCores_range n : 1 <= getNumCores_linux n <= kDefaultNumCores /\ 1 <= getNumCores_qnx n <= kDefaultNumCores.
Proof.
  unfold getNumCores_linux, getNumCores_qnx, kDefaultNumCores. split.
  - destruct (Z.ltb_spec n 1); simpl; [lia|]. destruct (Z.ltb_spec 64 n); simpl; [lia|]. rewrite wrap_small by lia. lia.
  - pose proof (wrap_range 32 n ltac:(lia)). destruct (Z.eqb_spec (wrap 32 n) 0); simpl; [lia|]. destruct (Z.ltb_spec 64 (wrap 32 n)); simpl; lia.
Qed.

(** The number of supplementary groups that QNX passes on is the given one below 2^31. *)
Lemma setgroups_qnx_exact n groups : 0 <= n < 2 ^ 31 -> setgroups_qnx n groups = setgroups_linux n groups.
Proof. intros Hn. unfold setgroups_qnx, setgroups_linux. change 2147483647 with (Z.ones 31). by rewrite Z.land_ones, Z.mod_small by lia. Qed.

Lemma runmask_bits cpumask n i : (n <= 64)%nat -> 0 <= i < 32 ->
  Z.testbit (runmask cpumask n).1 i = Z.testbit cpumask i && (i <? Z.of_nat n) /\
  Z.testbit (runmask cpumask n).2 i = Z.testbit cpumask (i + 32) && (i + 32 <? Z.of_nat n).
Proof.
  intros Hn Hi. induction n as [|n IH].
  { simpl. rewrite Z.testbit_0_l, !andb_false_intro2 by (apply Z.ltb_ge; lia). done. }
  destruct (IH ltac:(lia)) as [IH1 IH2]. cbn [runmask].
  assert (forall k, Z.testbit cpumask k && (k <? Z.of_nat (S n)) =
    Z.testbit cpumask k && (k <? Z.of_nat n) || (if k =? Z.of_nat n then Z.testbit cpumask (Z.of_nat n) else false)) as Hk.
  { intros k. destruct (Z.eqb_spec k (Z.of_nat n)) as [->|].
    - by rewrite (proj2 (Z.ltb_lt _ _)), (proj2 (Z.ltb_ge _ _)), andb_true_r, andb_false_r by lia.
    - rewrite orb_false_r. f_equal. destruct (Z.ltb_spec k (Z.of_nat (S n))), (Z.ltb_spec k (Z.of_nat n)); lia || done. }
  rewrite !Hk. destruct (Z.testbit cpumask (Z.of_nat n)).
  - unfold rmsk_set. destruct (Z.ltb_spec (Z.of_nat n) 32); simpl fst; simpl snd.
    + rewrite Z.lor_spec, Z.shiftl_1_l, Z.pow2_bits_eqb, IH1, IH2, (Z.eqb_sym (Z.of_nat n)) by lia.
      rewrite (proj2 (Z.eqb_neq (i + 32) _)), orb_false_r by lia. split; [|done]. by destruct (i =? Z.of_nat n).
    + rewrite Z.lor_spec, Z.shiftl_1_l, Z.pow2_bits_eqb, IH1, IH2 by lia.
      rewrite (proj2 (Z.eqb_neq i _)), orb_false_r by lia. split; [done|]. f_equal.
      destruct (Z.eqb_spec (Z.of_nat n - 32) i), (Z.eqb_spec (i + 32) (Z.of_nat n)); lia || done.
  - rewrite IH1, IH2. split; by case_match; rewrite orb_false_r.
Qed.

(** The two words are the low and the high half of the mask. *)
Lemma setaffinity_qnx_exact cpumask answer i : 0 <= i < 32 ->
  Z.testbit (setaffinity_qnx cpumask answer).2.1 i = Z.testbit cpumask i /\ Z.testbit (setaffinity_qnx cpumask answer).2.2 i = Z.testbit cpumask (i + 32).
Proof.
  intros Hi. destruct (runmask_bits cpumask 64 i ltac:(lia) Hi) as [H1 H2]. unfold setaffinity_qnx. cbn [snd fst].
  rewrite H1, H2, !(proj2 (Z.ltb_lt _ _)), !andb_true_r by lia. done.
Qed.

End Wrappers.
