(* ===== verification/Launcher.v ===== *)
(** * Starting and stopping processes

    [ProcessLauncher] (process_group_manager/details/process_launcher.cpp): the
    preparation of the communication block, the fork, what the child does until it
    executes the configured binary, and the signals that end a process.  System
    calls are values of [call]; an operating system answers each of them, knowing
    all calls before.  The wait for the running report is in [Running].
    Claim C27. *)

From stdpp Require Import prelude strings.
From S2P Require Import Prelude Components ProcessNodes Configuration Osal.

Module ProcessLauncher.
Local Open Scope Z_scope.

(** [kMaxArg], [kArgvArraySize] (constants.hpp), [sync_fd] (ipc_comms.hpp) *)
Definition kMaxArg : nat := 20.
Definition kArgvArraySize : nat := kMaxArg + 2.
Definition sync_fd : Z := 111.

Inductive CommsType := kNoComms | kReporting.

#[global] Instance CommsType_eq_dec : EqDecision CommsType.
Proof. solve_decision. Defined.

(** [IpcCommsSync]: the values of the two semaphores after their initialisation, the
    process that may report, and the type. *)
Record IpcCommsSync := mkComms { reply_sync_ : option nat; send_sync_ : option nat; pid_ : Z; comms_type_ : CommsType }.

(** What the child does to the world: its system calls, and the store into the
    shared block. *)
Inductive call :=
| Dup2 (fd target : Z)
| StorePid (pid : Z)
| ClearCloexec (fd : Z)
| SetRLimit (limit : ResourceLimit.t)
| SetPGid
| SetScheduler (policy priority : Z)
| SetAffinity (cpus : list Z)
| SetGid (gid : Z)
| SetGroups (gids : list Z)
| SetUid (uid : Z)
| ChDir (dir : string)
| SetSecurityPolicy (policy : string)
| Execve (path : string) (argv : list (option string)) (envp : option (list string)).

(** The operating system of the child. *)
Class OS := {
  answer : list (call * bool) -> call -> bool;
  getpid : Z;
  sched_get_priority_min : Z -> Z;
  sched_get_priority_max : Z -> Z
}.

(** ** The child

    A computation of the child gets the calls that were made and returns with a
    value, ends the process, or is replaced by the executed binary. *)

Inductive fate (A : Type) := Value (a : A) | Exited | Died | Executed.
Arguments Value {A} a.
Arguments Exited {A}.
Arguments Died {A}.
Arguments Executed {A}.

Definition child (A : Type) : Type := list (call * bool) -> fate A * list (call * bool).

#[export] Instance child_ret : MRet child := fun A a h => (Value a, h).
#[export] Instance child_bind : MBind child := fun A B k m h =>
  match m h with
  | (Value a, h') => k a h'
  | (Exited, h') => (Exited, h')
  | (Died, h') => (Died, h')
  | (Executed, h') => (Executed, h')
  end.

Definition sysexit {A} : child A := fun h => (Exited, h).

(** [assert] of <cassert>, which a release build leaves out. *)
Definition c_assert `{BuildMode} (b : bool) : child unit :=
  fun h => if dbg_checks && negb b then (Died, h) else (Value tt, h).

Section Child.
Context `{OS} `{BuildMode}.

Definition system (c : call) : child bool := fun h => let b := answer h c in (Value b, h ++ [(c, b)]).

(** A store into shared memory. *)
Definition store (c : call) : child unit := fun h => (Value tt, h ++ [(c, true)]).

(** [if (-1 == call) { log; sysexit(EXIT_FAILURE); }] *)
Definition or_die (c : call) : child unit := ok ← system c; if (ok : bool) then mret tt else sysexit.

(** [if (-1 == call) { log; retval = kFail; }] *)
Definition or_fail (c : call) (retval : osal.OsalReturnType) : child osal.OsalReturnType :=
  ok ← system c; mret (if (ok : bool) then retval else osal.kFail).

(** A call for each element. *)
Fixpoint for_each {A} (f : A -> child unit) (l : list A) : child unit :=
  match l with [] => mret tt | a :: l' => _ ← f a; for_each f l' end.

(** [handleComms]; the answer of [dup2] is not looked at. *)
Definition handleComms (fd : Z) (shared_block : option IpcCommsSync) : child unit :=
  match shared_block with
  | None => mret tt
  | Some block =>
      _ ← system (Dup2 fd sync_fd);
      _ ← store (StorePid getpid);
      _ ← c_assert (bool_decide (comms_type_ block <> kNoComms));
      _ ← c_assert (bool_decide (comms_type_ block = kReporting));
      or_die (ClearCloexec sync_fd)
  end.

Definition applyResourceLimits (config : Sandbox.t) : child unit :=
  for_each (fun l => or_die (SetRLimit l)) (Sandbox.rlimits config).

(** [setaffinity] (osal/details/linux): the set of processors of the mask. *)
Definition affinity (cpumask : Z) : list Z :=
  filter (fun i => Z.land cpumask (Z.shiftl 1 i) <> 0) (Z.of_nat <$> seq 0 64).

Definition clamp (policy priority : Z) : Z :=
  if priority <? sched_get_priority_min policy then sched_get_priority_min policy
  else if sched_get_priority_max policy <? priority then sched_get_priority_max policy
  else priority.

Definition setSchedulingAndSecurity (config : Sandbox.t) : child osal.OsalReturnType :=
  retval ← or_fail SetPGid osal.kSuccess;
  retval ← or_fail (SetScheduler (Sandbox.scheduling_policy config)
                      (clamp (Sandbox.scheduling_policy config) (Sandbox.scheduling_priority config))) retval;
  retval ← match Sandbox.affinity_mask config with
           | Some mask => or_fail (SetAffinity (affinity mask)) retval
           | None => mret retval
           end;
  retval ← or_fail (SetGid (Sandbox.gid config)) retval;
  retval ← or_fail (SetGroups (Sandbox.supplementary_group_ids config)) retval;
  or_fail (SetUid (Sandbox.uid config)) retval.

Definition changeCurrentWorkingDirectory (config : DeploymentConfig.t) : child unit :=
  or_die (ChDir (DeploymentConfig.working_dir config)).

Definition changeSecurityPolicy (config : Sandbox.t) : child unit :=
  match Sandbox.security_policy config with
  | Some p => if bool_decide (p <> "") then or_die (SetSecurityPolicy p) else mret tt
  | None => mret tt
  end.

(** The loop that fills [argv]; [argv[i] = p] of [std::array] *)
Fixpoint fill_argv (arg_idx : nat) (args : list string) (argv : list (option string)) : nat * list (option string) :=
  match args with
  | [] => (arg_idx, argv)
  | arg :: args' =>
      if (arg_idx <? kArgvArraySize - 1)%nat then fill_argv (S arg_idx) args' (<[arg_idx := Some arg]> argv)
      else fill_argv arg_idx args' argv
  end.

Definition build_argv (path : string) (args : list string) : list (option string) :=
  let argv := <[0%nat := Some path]> (replicate kArgvArraySize None) in
  let '(arg_idx, argv) := fill_argv 1 args argv in
  <[arg_idx := None]> argv.

Definition execve (path : string) (argv : list (option string)) (envp : option (list string)) : child unit := fun h =>
  let b := answer h (Execve path argv envp) in
  let h' := h ++ [(Execve path argv envp, b)] in
  if (b : bool) then (Executed, h') else (Exited, h').

Definition handleChildProcess (config : ComponentConfig.t) (fd : Z) (shared_block : option IpcCommsSync) : child unit :=
  let deployment := ComponentConfig.deployment_config config in
  _ ← handleComms fd shared_block;
  _ ← applyResourceLimits (DeploymentConfig.sandbox deployment);
  retval ← setSchedulingAndSecurity (DeploymentConfig.sandbox deployment);
  _ ← (if bool_decide (retval <> osal.kSuccess) then sysexit else mret tt);
  _ ← changeCurrentWorkingDirectory deployment;
  _ ← changeSecurityPolicy (DeploymentConfig.sandbox deployment);
  let argv := build_argv (DeploymentConfig.executable_path deployment)
                (ComponentProperties.process_arguments (ComponentConfig.component_properties config)) in
  execve (DeploymentConfig.executable_path deployment) argv (Environment.envp (DeploymentConfig.environmental_variables deployment)).

End Child.

(** ** The parent *)

(** The answers of the calls that the parent makes: [shm_open_anon] and [fork] return
    their numbers. *)
Record parent_answers := mkAnswers {
  access_ok : bool;
  shm_fd : Z;
  ftruncate_ok : bool;
  mmap_ok : bool;
  send_init_ok : bool;
  reply_init_ok : bool;
  fork_pid : Z
}.

(** [IpcCommsSync::initializeSemaphores] leaves at the first failure; the memory of a
    new block is zero, so its type is [kNoComms] until it is set. *)
Definition initializeSemaphores (a : parent_answers) (b : IpcCommsSync) : bool * IpcCommsSync :=
  if negb (send_init_ok a) then (false, b)
  else
    let b1 := mkComms (reply_sync_ b) (Some 0%nat) (pid_ b) (comms_type_ b) in
    if negb (reply_init_ok a) then (false, b1)
    else (true, mkComms (Some 0%nat) (send_sync_ b1) (pid_ b1) (comms_type_ b1)).

(** [setupComms]: whether it succeeded, the block and the file descriptor. *)
Definition setupComms (a : parent_answers) : bool * option IpcCommsSync * Z :=
  if shm_fd a <? 0 then (false, None, shm_fd a)
  else if negb (ftruncate_ok a) then (false, None, shm_fd a)
  else if negb (mmap_ok a) then (false, None, shm_fd a)
  else
    let '(ok, b) := initializeSemaphores a (mkComms None None 0 kReporting) in
    (ok, Some b, shm_fd a).

(** What [startProcess] did: the result with the two output parameters, whether it
    is the child that runs on, and the descriptors that were opened and closed. *)
Record start_result := mkStart {
  result : osal.OsalReturnType;
  pid : Z;
  block : option IpcCommsSync;
  child_of : option (Z * option IpcCommsSync);
  opened : list Z;
  closed : list Z
}.

Definition startProcess (a : parent_answers) (pid0 : Z) (block0 : option IpcCommsSync) (config : ComponentConfig.t) : start_result :=
  let properties := ComponentConfig.component_properties config in
  if bool_decide (ComponentProperties.binary_name properties = "") then mkStart osal.kFail pid0 block0 None [] []
  else if negb (access_ok a) then mkStart osal.kFail pid0 block0 None [] []
  else
    let '(comms_result, b, fd) :=
      match ApplicationProfile.application_type (ComponentProperties.application_profile properties) with
      | ProcessInfoNode.Native => (true, None, -1)
      | _ => setupComms a
      end in
    let fds := if 0 <=? fd then [fd] else [] in
    if (comms_result : bool) then
      if fork_pid a =? 0 then mkStart osal.kSuccess 0 b (Some (fd, b)) fds []
      else if 0 <? fork_pid a then mkStart osal.kSuccess (fork_pid a) b None fds fds
      else mkStart osal.kFail (fork_pid a) b None fds fds
    else mkStart osal.kFail (-1) b None fds fds.

Inductive signal := SIGTERM | SIGKILL.

(** [requestTermination] and [forceTermination]: the result, and the signal that was
    sent; [ok] is the answer of [kill]. *)
Definition requestTermination (ok : bool) (pid : Z) : osal.OsalReturnType * option (Z * signal) :=
  if 0 <? pid then (if ok then osal.kSuccess else osal.kFail, Some (pid, SIGTERM)) else (osal.kFail, None).
Definition forceTermination (ok : bool) (pid : Z) : osal.OsalReturnType * option (Z * signal) :=
  if 0 <? pid then (if ok then osal.kSuccess else osal.kFail, Some (pid, SIGKILL)) else (osal.kFail, None).

(** [waitForTermination] with the answer of [wait]: the new values of the parameters. *)
Definition waitForTermination (terminated_pid wait_status pid status : Z) : osal.OsalReturnType * Z * Z :=
  if 0 <? terminated_pid then (osal.kSuccess, terminated_pid, wait_status) else (osal.kFail, pid, status).

End ProcessLauncher.

Module ProcessLauncherProofs.
Import ProcessLauncher.
Local Open Scope Z_scope.

(** ** What the child must have done before it runs the binary *)

Section Plan.
Context `{OS}.

Definition comms_plan (fd : Z) (shared_block : option IpcCommsSync) : list call :=
  match shared_block with
  | Some _ => [Dup2 fd sync_fd; StorePid getpid; ClearCloexec sync_fd]
  | None => []
  end.

(** Limits first, then scheduling, then the groups, and the user last: the calls
    before need the privileges that [setuid] gives up. *)
Definition sandbox_plan (s : Sandbox.t) : list call :=
  (SetRLimit <$> Sandbox.rlimits s) ++
  [SetPGid; SetScheduler (Sandbox.scheduling_policy s) (clamp (Sandbox.scheduling_policy s) (Sandbox.scheduling_priority s))] ++
  match Sandbox.affinity_mask s with Some m => [SetAffinity (affinity m)] | None => [] end ++
  [SetGid (Sandbox.gid s); SetGroups (Sandbox.supplementary_group_ids s); SetUid (Sandbox.uid s)].

Definition policy_plan (s : Sandbox.t) : list call :=
  match Sandbox.security_policy s with
  | Some p => if bool_decide (p <> "") then [SetSecurityPolicy p] else []
  | None => []
  end.

Definition plan (config : ComponentConfig.t) (fd : Z) (shared_block : option IpcCommsSync) : list call :=
  let d := ComponentConfig.deployment_config config in
  comms_plan fd shared_block ++ sandbox_plan (DeploymentConfig.sandbox d) ++ [ChDir (DeploymentConfig.working_dir d)] ++
  policy_plan (DeploymentConfig.sandbox d).

Definition expected_argv (path : string) (args : list string) : list (option string) :=
  (Some <$> path :: take kMaxArg args) ++ replicate (kArgvArraySize - length (path :: take kMaxArg args)) None.

Definition expected_exec (config : ComponentConfig.t) : call :=
  let d := ComponentConfig.deployment_config config in
  Execve (DeploymentConfig.executable_path d)
    (expected_argv (DeploymentConfig.executable_path d) (ComponentProperties.process_arguments (ComponentConfig.component_properties config)))
    (Environment.envp (DeploymentConfig.environmental_variables d)).

End Plan.

Definition is_exec (c : call) : bool := match c with Execve _ _ _ => true | _ => false end.

(** Every call succeeded; the answer of [dup2] does not count. *)
Definition all_ok (t : list (call * bool)) : Prop :=
  Forall (fun x => match x.1 with Dup2 _ _ => True | _ => x.2 = true end) t.
Definition no_exec (t : list (call * bool)) : Prop := Forall (fun x => is_exec x.1 = false) t.

(** [does pre m cs P]: if [m] returns a value that satisfies [P], then [pre] holds and
    it made exactly the calls [cs], with success.  It never executes a binary. *)
Definition does {A} (pre : Prop) (m : child A) (cs : list call) (P : A -> Prop) : Prop :=
  forall h, exists t, (m h).2 = h ++ t /\ no_exec t /\
    match (m h).1 with
    | Value a => P a -> pre /\ t.*1 = cs /\ all_ok t
    | Executed => False
    | Exited | Died => True
    end.

(** [ends pre m cs e]: [m] returns no value, and tries to execute only after the calls
    [cs] with success, and then [e]. *)
Definition ends {A} (pre : Prop) (m : child A) (cs : list call) (e : call) : Prop :=
  forall h, exists t, (m h).2 = h ++ t /\ (forall a, (m h).1 <> Value a) /\
    ((no_exec t /\ (m h).1 <> Executed) \/
     (pre /\ exists t' b, t = t' ++ [(e, b)] /\ no_exec t' /\ t'.*1 = cs /\ all_ok t' /\ ((m h).1 = Executed <-> b = true))).

Lemma does_ret {A} (pre : Prop) (a : A) (P : A -> Prop) : (P a -> pre) -> does pre (mret a) [] P.
Proof. intros Hp h. exists []. rewrite app_nil_r. repeat split; [by constructor|auto|constructor]. Qed.

Lemma does_bind {A B} pre (m : child A) (k : A -> child B) cs cs' P Q :
  does pre m cs P -> (forall a, does (P a) (k a) cs' Q) -> does pre (m ≫= k) (cs ++ cs') Q.
Proof.
  intros Hm Hk h. unfold mbind, child_bind. destruct (Hm h) as (t & Ht & Hn & Hv). destruct (m h) as [r h1].
  simpl in *. subst h1. destruct r as [a| | |]; try (by exists t). destruct (Hk a (h ++ t)) as (t' & Ht' & Hn' & Hv').
  exists (t ++ t'). rewrite Ht', <- app_assoc. split; [done|]. split; [by apply Forall_app|].
  destruct (k a (h ++ t)) as [[b| | |] h2]; try done. simpl in *. intros (Ha & <- & Hok')%Hv'. destruct (Hv Ha) as (Hp & <- & Hok).
  split; [done|]. split; [by rewrite fmap_app|by apply Forall_app].
Qed.

Lemma ends_bind {A B} pre (m : child A) (k : A -> child B) cs cs' P e :
  does pre m cs P -> (forall a, ends (P a) (k a) cs' e) -> ends pre (m ≫= k) (cs ++ cs') e.
Proof.
  intros Hm Hk h. unfold mbind, child_bind. destruct (Hm h) as (t & Ht & Hn & Hv). destruct (m h) as [r h1].
  simpl in *. subst h1. destruct r as [a| | |]; simpl; try (by exists t; split; [|split; [|left]]).
  destruct (Hk a (h ++ t)) as (t' & Ht' & Hne & Hv'). exists (t ++ t'). rewrite Ht', <- app_assoc.
  split; [done|]. split; [done|]. destruct Hv' as [[Hn' Hx]|(Ha & t1 & b & -> & Hn1 & <- & Hok1 & Hx)].
  - left. split; [by apply Forall_app|done].
  - right. destruct (Hv Ha) as (Hp & <- & Hok). split; [done|]. exists (t ++ t1), b.
    rewrite app_assoc, fmap_app. repeat split; try done; try (by apply Forall_app); apply Hx.
Qed.

Section Child.
Context `{OS} `{BuildMode}.

Lemma does_system c : is_exec c = false -> does True (system c) [c] (fun b => match c with Dup2 _ _ => True | _ => b = true end).
Proof.
  intros He h. exists [(c, answer h c)]. simpl. split; [done|]. split; [by repeat constructor|].
  intros Hb. repeat split. repeat constructor. done.
Qed.

Lemma does_store c : is_exec c = false -> does True (store c) [c] (fun _ => True).
Proof. intros He h. exists [(c, true)]. simpl. repeat split; repeat constructor; [done|]. simpl. by destruct c. Qed.

Lemma does_or_die c : is_exec c = false -> does True (or_die c) [c] (fun _ => True).
Proof.
  intros He. apply (does_bind _ _ _ [c] [] _ _ (does_system c He)). intros b. destruct b.
  - apply does_ret. by destruct c.
  - intros h. exists []. rewrite app_nil_r. split; [done|]. by split; [constructor|].
Qed.

Lemma does_or_fail c r : is_exec c = false -> match c with Dup2 _ _ => False | _ => True end ->
  does (r = osal.kSuccess) (or_fail c r) [c] (fun r' => r' = osal.kSuccess).
Proof.
  intros He Hd h. exists [(c, answer h c)]. simpl. split; [done|]. split; [by repeat constructor|].
  destruct (answer h c) eqn:E; simpl; [intros ->|done]. repeat split. repeat constructor. by destruct c.
Qed.

Lemma does_assert b : does True (c_assert b) [] (fun _ => True).
Proof. intros h. unfold c_assert. case_match; exists []; rewrite app_nil_r; repeat split; constructor. Qed.

Lemma does_for_each {A} (f : A -> child unit) (c : A -> call) l :
  (forall a, does True (f a) [c a] (fun _ => True)) -> does True (for_each f l) (c <$> l) (fun _ => True).
Proof.
  intros Hf. induction l as [|a l IH]; simpl; [by apply does_ret|].
  apply (does_bind _ _ _ [c a] _ (fun _ => True)); [apply Hf|done].
Qed.

Lemma does_conseq {A} (pre pre' : Prop) (m : child A) cs (P P' : A -> Prop) :
  does pre m cs P -> (forall a, P' a -> P a) -> (forall a, P' a -> pre -> pre') -> does pre' m cs P'.
Proof.
  intros Hm HP Hp h. destruct (Hm h) as (t & Ht & Hn & Hv). exists t. split; [done|]. split; [done|].
  case_match; naive_solver.
Qed.

Lemma handleComms_does fd b : does True (handleComms fd b) (comms_plan fd b) (fun _ => True).
Proof.
  destruct b as [b|]; simpl; [|by apply does_ret].
  apply (does_bind _ _ _ [Dup2 fd sync_fd] [StorePid getpid; ClearCloexec sync_fd] (fun _ => True));
    [by apply does_system|intros _].
  apply (does_bind _ _ _ [StorePid getpid] [ClearCloexec sync_fd] (fun _ => True)); [by apply does_store|intros _].
  apply (does_bind _ _ _ [] [ClearCloexec sync_fd] (fun _ => True)); [apply does_assert|intros _].
  apply (does_bind _ _ _ [] [ClearCloexec sync_fd] (fun _ => True)); [apply does_assert|intros _].
  by apply does_or_die.
Qed.

Lemma setSchedulingAndSecurity_does s :
  does True (setSchedulingAndSecurity s)
    ([SetPGid; SetScheduler (Sandbox.scheduling_policy s) (clamp (Sandbox.scheduling_policy s) (Sandbox.scheduling_priority s))] ++
     match Sandbox.affinity_mask s with Some m => [SetAffinity (affinity m)] | None => [] end ++
     [SetGid (Sandbox.gid s); SetGroups (Sandbox.supplementary_group_ids s); SetUid (Sandbox.uid s)])
    (fun r => r = osal.kSuccess).
Proof.
  unfold setSchedulingAndSecurity. set (policy := SetScheduler _ _).
  apply (does_bind _ _ _ [SetPGid] (policy :: _) (fun r => r = osal.kSuccess));
    [by eapply does_conseq; [by apply does_or_fail| |]|intros r1].
  apply (does_bind _ _ _ [policy] _ (fun r => r = osal.kSuccess)); [by apply does_or_fail|intros r2].
  apply (does_bind _ _ _ _ _ (fun r => r = osal.kSuccess)); [case_match; [by apply does_or_fail|by apply does_ret]|intros r3].
  apply (does_bind _ _ _ [SetGid _] [_; _] (fun r => r = osal.kSuccess)); [by apply does_or_fail|intros r4].
  apply (does_bind _ _ _ [SetGroups _] [_] (fun r => r = osal.kSuccess)); [by apply does_or_fail|intros r5].
  by apply does_or_fail.
Qed.

Lemma changeSecurityPolicy_does s : does True (changeSecurityPolicy s) (policy_plan s) (fun _ => True).
Proof. unfold changeSecurityPolicy, policy_plan. repeat case_match; by (apply does_or_die || apply does_ret). Qed.

Lemma ends_execve path argv envp : ends True (execve path argv envp) [] (Execve path argv envp).
Proof.
  intros h. exists [(Execve path argv envp, answer h (Execve path argv envp))]. unfold execve.
  destruct (answer h (Execve path argv envp)); simpl; (split; [done|split; [done|]]); right; (split; [done|]);
    eexists [], _; (split; [done|]); repeat split; try constructor; done.
Qed.

Lemma fill_argv_spec i args l :
  length l = i -> (i <= kArgvArraySize - 1)%nat ->
  fill_argv i args ((Some <$> l) ++ replicate (kArgvArraySize - i) None) =
  (length (l ++ take (kArgvArraySize - 1 - i) args),
   (Some <$> l ++ take (kArgvArraySize - 1 - i) args) ++
   replicate (kArgvArraySize - length (l ++ take (kArgvArraySize - 1 - i) args)) None).
Proof.
  revert i l. induction args as [|a args IH]; intros i l Hl Hi; cbn [fill_argv].
  - by rewrite take_nil, app_nil_r, Hl.
  - destruct (Nat.ltb_spec i (kArgvArraySize - 1)) as [Hlt|Hge].
    + replace (kArgvArraySize - i)%nat with (S (kArgvArraySize - S i)) by lia. cbn [replicate].
      rewrite insert_app_r_alt by (rewrite length_fmap; lia). rewrite length_fmap, Hl, Nat.sub_diag. cbn [list_insert insert].
      change (Some a :: replicate (kArgvArraySize - S i) None) with ((Some <$> [a]) ++ replicate (kArgvArraySize - S i) None).
      rewrite app_assoc, <- fmap_app. rewrite (IH (S i) (l ++ [a])); [|rewrite length_app; cbn; lia|lia].
      replace (kArgvArraySize - 1 - i)%nat with (S (kArgvArraySize - 1 - S i)) by lia. cbn [take]. by rewrite <- !app_assoc.
    + rewrite IH by lia. by replace (kArgvArraySize - 1 - i)%nat with 0%nat by lia.
Qed.

Lemma build_argv_spec path args : build_argv path args = expected_argv path args.
Proof.
  unfold build_argv, expected_argv.
  change (<[0%nat:=Some path]> (replicate kArgvArraySize None)) with ((Some <$> [path]) ++ replicate (kArgvArraySize - 1) None).
  rewrite fill_argv_spec by (simpl; unfold kArgvArraySize, kMaxArg; lia).
  change (kArgvArraySize - 1 - 1)%nat with kMaxArg. change ([path] ++ take kMaxArg args) with (path :: take kMaxArg args).
  set (l := path :: take kMaxArg args).
  assert (Hl : (length l <= 21)%nat) by (subst l; simpl; rewrite length_take; unfold kMaxArg; lia).
  assert (Hr : exists n, (kArgvArraySize - length l)%nat = S n) by (exists (21 - length l)%nat; unfold kArgvArraySize, kMaxArg; lia).
  destruct Hr as [n ->]. rewrite insert_app_r_alt by (rewrite length_fmap; lia). by rewrite length_fmap, Nat.sub_diag.
Qed.

Lemma handleChildProcess_ends config fd b : ends True (handleChildProcess config fd b) (plan config fd b) (expected_exec config).
Proof.
  unfold handleChildProcess, plan, sandbox_plan. set (d := ComponentConfig.deployment_config config).
  apply (ends_bind _ _ _ _ _ (fun _ => True)); [apply handleComms_does|intros _]. rewrite <- app_assoc.
  apply (ends_bind _ _ _ _ _ (fun _ => True)); [apply does_for_each; intros; by apply does_or_die|intros _].
  apply (ends_bind _ _ _ _ _ (fun r => r = osal.kSuccess)); [apply setSchedulingAndSecurity_does|intros r].
  apply (ends_bind _ _ _ [] _ (fun _ => True)).
  { case_bool_decide as Hr; [|apply does_ret; intros _; by destruct (decide (r = osal.kSuccess))].
    intros h. exists []. rewrite app_nil_r. by split; [|split; [constructor|]]. }
  intros _. apply (ends_bind _ _ _ [ChDir _] _ (fun _ => True)); [by apply does_or_die|intros _].
  rewrite <- (app_nil_r (policy_plan _)).
  apply (ends_bind _ _ _ _ _ (fun _ => True)); [apply changeSecurityPolicy_does|intros _].
  unfold expected_exec. rewrite <- build_argv_spec. apply ends_execve.
Qed.

(** ** A system that refuses nothing *)

Definition proceeds {A} (m : child A) (a : A) : Prop := forall h, exists h', m h = (Value a, h').

Lemma proceeds_bind {A B} (m : child A) (k : A -> child B) a b : proceeds m a -> proceeds (k a) b -> proceeds (m ≫= k) b.
Proof. intros Hm Hk h. destruct (Hm h) as [h1 E]. unfold mbind, child_bind. rewrite E. apply Hk. Qed.

Lemma proceeds_ret {A} (a : A) : proceeds (mret a) a.
Proof. intros h. by exists h. Qed.

Lemma proceeds_assert : proceeds (c_assert true) tt.
Proof. intros h. exists h. unfold c_assert. by rewrite andb_false_r. Qed.

Section Willing.
Hypothesis willing : forall h c, answer h c = true.

Lemma system_proceeds c : proceeds (system c) true.
Proof. intros h. eexists. unfold system. by rewrite willing. Qed.

Lemma or_die_proceeds c : proceeds (or_die c) tt.
Proof. intros h. eexists. unfold or_die, system, mbind, child_bind. by rewrite willing. Qed.

Lemma or_fail_proceeds c r : proceeds (or_fail c r) r.
Proof. intros h. eexists. unfold or_fail, system, mbind, child_bind. by rewrite willing. Qed.

Lemma handleComms_proceeds fd b :
  match b with Some b' => comms_type_ b' = kReporting | None => True end -> proceeds (handleComms fd b) tt.
Proof.
  destruct b as [b|]; simpl; intros Hb; [|apply proceeds_ret].
  eapply proceeds_bind; [apply system_proceeds|]. eapply proceeds_bind; [intros h; by eexists|]. rewrite Hb.
  eapply proceeds_bind; [apply proceeds_assert|]. eapply proceeds_bind; [apply proceeds_assert|]. apply or_die_proceeds.
Qed.

Lemma setSchedulingAndSecurity_proceeds s : proceeds (setSchedulingAndSecurity s) osal.kSuccess.
Proof.
  unfold setSchedulingAndSecurity.
  do 2 (eapply proceeds_bind; [apply or_fail_proceeds|]).
  eapply proceeds_bind; [case_match; [apply or_fail_proceeds|apply proceeds_ret]|].
  do 2 (eapply proceeds_bind; [apply or_fail_proceeds|]). apply or_fail_proceeds.
Qed.

Lemma handleChildProcess_executes config fd b h :
  match b with Some b' => comms_type_ b' = kReporting | None => True end -> (handleChildProcess config fd b h).1 = Executed.
Proof.
  intros Hb. set (d := ComponentConfig.deployment_config config).
  assert (Hl : proceeds (applyResourceLimits (DeploymentConfig.sandbox d)) tt).
  { unfold applyResourceLimits. induction (Sandbox.rlimits _); [apply proceeds_ret|].
    eapply proceeds_bind; [apply or_die_proceeds|done]. }
  assert (Hp : proceeds (changeSecurityPolicy (DeploymentConfig.sandbox d)) tt).
  { unfold changeSecurityPolicy. destruct (Sandbox.security_policy _) as [p|]; [destruct (bool_decide _)|]; (apply or_die_proceeds || apply proceeds_ret). }
  unfold handleChildProcess, mbind, child_bind. fold d.
  destruct (handleComms_proceeds fd b Hb h) as [h1 ->]. destruct (Hl h1) as [h2 ->].
  destruct (setSchedulingAndSecurity_proceeds (DeploymentConfig.sandbox d) h2) as [h3 ->]. simpl.
  destruct (or_die_proceeds (ChDir (DeploymentConfig.working_dir d)) h3) as [h4 E]. unfold changeCurrentWorkingDirectory. rewrite E.
  destruct (Hp h4) as [h5 ->]. unfold execve. by rewrite willing.
Qed.

End Willing.

(** The processors of the mask are those whose bit is set. *)
Lemma affinity_spec mask i : i ∈ affinity mask <-> 0 <= i < 64 /\ Z.testbit mask i = true.
Proof.
  unfold affinity. rewrite list_elem_of_filter, list_elem_of_fmap.
  assert (Hbit : 0 <= i -> (Z.land mask (Z.shiftl 1 i) <> 0 <-> Z.testbit mask i = true)).
  { intros Hi. split.
    - intros Hn. destruct (Z.testbit mask i) eqn:E; [done|]. destruct Hn. apply Z.bits_inj'. intros n Hn.
      rewrite Z.land_spec, Z.bits_0, Z.shiftl_spec by lia. destruct (decide (n = i)) as [->|]; [by rewrite E|].
      destruct (Z.lt_ge_cases n i); [rewrite (Z.testbit_neg_r 1) by lia|rewrite (Z.bits_above_log2 1) by (simpl; lia)]; apply andb_false_r.
    - intros Ht Hz. apply (f_equal (fun z => Z.testbit z i)) in Hz.
      by rewrite Z.land_spec, Z.bits_0, Z.shiftl_spec, Z.sub_diag, Ht in Hz by lia. }
  split.
  - intros [Hn (k & -> & Hk%elem_of_seq)]. split; [lia|]. by apply Hbit; [lia|].
  - intros [Hi Ht]. split; [by apply Hbit; [lia|]|]. exists (Z.to_nat i). split; [lia|]. apply elem_of_seq. lia.
Qed.

(** The priority is the allowed one that is nearest to the configured one. *)
Lemma clamp_spec policy priority :
  sched_get_priority_min policy <= sched_get_priority_max policy ->
  sched_get_priority_min policy <= clamp policy priority <= sched_get_priority_max policy /\
  (sched_get_priority_min policy <= priority <= sched_get_priority_max policy -> clamp policy priority = priority).
Proof. unfold clamp. intros. destruct (Z.ltb_spec priority (sched_get_priority_min policy)), (Z.ltb_spec (sched_get_priority_max policy) priority); lia. Qed.

End Child.

(** C27: between the fork and the execution of the binary the child never
    returns into the code of the daemon.  Whatever the operating system answers, it
    tries to execute nothing but the configured binary with the configured
    arguments (the first twenty) and environment, and only after every configured
    restriction was applied with success, in the order of the plan: resource
    limits, process group, scheduling, processors, groups, user, working directory
    and security policy.  If the system refuses nothing, the binary is executed. *)
Theorem child_runs_confined `{OS} `{BuildMode} config fd b :
  let r := (handleChildProcess config fd b []).1 in
  let h := (handleChildProcess config fd b []).2 in
  (forall a, r <> Value a) /\
  (forall c ok, (c, ok) ∈ h -> is_exec c = true ->
     c = expected_exec config /\ (r = Executed <-> ok = true) /\
     exists before, h = before ++ [(c, ok)] /\ before.*1 = plan config fd b /\ all_ok before) /\
  ((forall h' c, answer h' c = true) -> match b with Some b' => comms_type_ b' = kReporting | None => True end -> r = Executed).
Proof.
  destruct (handleChildProcess_ends config fd b []) as (t & Ht & Hv & Hx). simpl in *. split; [done|]. split.
  - intros c ok Hin Hc. rewrite Ht in *. destruct Hx as [[Hn _]|(_ & t' & ok' & -> & Hn & Hp & Hok & Hiff)].
    + apply (proj1 (Forall_forall _ _)) with (x := (c, ok)) in Hn; [|done]. simpl in Hn. congruence.
    + apply elem_of_app in Hin as [Hin|Hin].
      * apply (proj1 (Forall_forall _ _)) with (x := (c, ok)) in Hn; [|done]. simpl in Hn. congruence.
      * apply list_elem_of_singleton in Hin. simplify_eq. split; [done|]. split; [done|]. by exists t'.
  - intros Hw Hb. by apply handleChildProcess_executes.
Qed.

(** The type of the application asks for a communication block. *)
Definition reporting (config : ComponentConfig.t) : bool :=
  match ApplicationProfile.application_type (ComponentProperties.application_profile (ComponentConfig.component_properties config)) with
  | ProcessInfoNode.Native => false
  | _ => true
  end.

Lemma setupComms_spec a ok b fd :
  setupComms a = (ok, b, fd) -> fd = shm_fd a /\
  match b with Some b' => comms_type_ b' = kReporting | None => True end /\
  (ok = true -> b = Some (mkComms (Some 0%nat) (Some 0%nat) 0 kReporting)).
Proof. unfold setupComms, initializeSemaphores. repeat case_match; naive_solver. Qed.

(** What [startProcess] got from [setupComms], or did without. *)
Lemma launcher_start_spec a pid0 block0 config :
  (startProcess a pid0 block0 config = mkStart osal.kFail pid0 block0 None [] []) \/
  exists ok b fd fds,
    startProcess a pid0 block0 config =
      (if (ok : bool) then
         if fork_pid a =? 0 then mkStart osal.kSuccess 0 b (Some (fd, b)) fds []
         else if 0 <? fork_pid a then mkStart osal.kSuccess (fork_pid a) b None fds fds
         else mkStart osal.kFail (fork_pid a) b None fds fds
       else mkStart osal.kFail (-1) b None fds fds) /\
    (ok = true -> b = if reporting config then Some (mkComms (Some 0%nat) (Some 0%nat) 0 kReporting) else None).
Proof.
  unfold startProcess, reporting. case_bool_decide; [by left|]. destruct (access_ok a); simpl; [right|by left].
  destruct (setupComms a) as [[ok b] fd] eqn:E. apply setupComms_spec in E as (-> & _ & Hok).
  destruct (ApplicationProfile.application_type _).
  1: by exists true, None, (-1), [].
  all: by eexists ok, b, (shm_fd a), _.
Qed.

(** Starting a process.  In the daemon: success means a new process and, exactly
    for reporting applications, a communication block with both semaphores at zero;
    every descriptor that was opened is closed again.  In the child: it gets the
    descriptor and the block, and never returns.  Signals go to single processes
    only, never to a group. *)
Theorem process_start_contract a pid0 block0 config :
  let s := startProcess a pid0 block0 config in
  result s <> osal.kTimeout /\
  (child_of s = None -> closed s = opened s /\
     (result s = osal.kSuccess -> 0 < pid s /\ pid s = fork_pid a /\
        block s = if reporting config then Some (mkComms (Some 0%nat) (Some 0%nat) 0 kReporting) else None)) /\
  (forall fd b, child_of s = Some (fd, b) -> fork_pid a = 0 /\
     b = (if reporting config then Some (mkComms (Some 0%nat) (Some 0%nat) 0 kReporting) else None) /\
     forall `(OS) `(BuildMode) x, (handleChildProcess config fd b []).1 <> Value x) /\
  (forall ok p q sig, (requestTermination ok p).2 = Some (q, sig) -> q = p /\ 0 < p /\ sig = SIGTERM) /\
  (forall ok p q sig, (forceTermination ok p).2 = Some (q, sig) -> q = p /\ 0 < p /\ sig = SIGKILL).
Proof.
  cbn zeta. split; [|split; [|split; [|split]]].
  - unfold startProcess. repeat case_match; done.
  - destruct (launcher_start_spec a pid0 block0 config) as [->|(ok & b & fd & fds & -> & Hb)]; [done|].
    destruct ok; [|done]. specialize (Hb eq_refl). destruct (fork_pid a =? 0); simpl; [done|]. destruct (0 <? fork_pid a) eqn:E; simpl; [|done]. apply Z.ltb_lt in E. done.
  - intros fd b Hc. split; [|split].
    + revert Hc. unfold startProcess. repeat case_match; try done; intros _; by apply Z.eqb_eq.
    + revert Hc. destruct (launcher_start_spec a pid0 block0 config) as [->|(ok & b' & fd' & fds & -> & Hb)]; [done|].
      destruct ok; [|done]. specialize (Hb eq_refl). destruct (fork_pid a =? 0); [|by destruct (0 <? fork_pid a)]. by intros [= <- <-].
    + intros ? ? x. destruct (handleChildProcess_ends config fd b []) as (t & _ & Hv & _). apply Hv.
  - intros ok p q sig. unfold requestTermination. case_match eqn:E; [|done]. apply Z.ltb_lt in E. naive_solver.
  - intros ok p q sig. unfold forceTermination. case_match eqn:E; [|done]. apply Z.ltb_lt in E. naive_solver.
Qed.

Module Example.

#[local] Instance linux : OS :=
  {| answer h c := match c with SetAffinity [] => false | _ => true end; getpid := 17;
     sched_get_priority_min _ := 1; sched_get_priority_max _ := 99 |}.
#[local] Instance mode : BuildMode := debug_build.

Definition sandbox : Sandbox.t := Sandbox.mk 1000 100 [4; 5] (Some "app_t") 1 120 [ResourceLimit.mk 7 64 64] (Some 5).
Definition app (sb : Sandbox.t) : ComponentConfig.t :=
  ComponentConfig.mk "app" ""
    (ComponentProperties.mk "app" (ApplicationProfile.mk ProcessInfoNode.Reporting false None) [] ["-v"] (OnProcessState Running))
    (DeploymentConfig.mk 500 500 Environment.make "/opt/app" "/tmp" 0 0 None sb).
Definition answers (pid : Z) : parent_answers := mkAnswers true 8 true true true true pid.

Example child_run :
  let s := startProcess (answers 0) 0 None (app sandbox) in
  match child_of s with
  | Some (fd, b) =>
      handleChildProcess (app sandbox) fd b [] =
      (Executed,
       (fun c => (c, true)) <$>
       [Dup2 8 111; StorePid 17; ClearCloexec 111; SetRLimit (ResourceLimit.mk 7 64 64); SetPGid; SetScheduler 1 99;
        SetAffinity [0; 2]; SetGid 100; SetGroups [4; 5]; SetUid 1000; ChDir "/tmp"; SetSecurityPolicy "app_t";
        Execve "/opt/app" (Some "/opt/app" :: Some "-v" :: replicate 20 None) (Some [])])
  | None => False
  end.
Proof. vm_compute. reflexivity. Qed.

(** A restriction that fails: the binary is not executed. *)
Example child_refused :
  (handleChildProcess (app (Sandbox.mk 0 0 [] None 1 10 [] (Some 0))) 8 None []).1 = Exited.
Proof. vm_compute. reflexivity. Qed.

Example parent_run :
  let s := startProcess (answers 33) 0 None (app sandbox) in
  result s = osal.kSuccess /\ pid s = 33 /\ opened s = [8] /\ closed s = [8].
Proof. vm_compute. auto. Qed.

(** More than twenty arguments: the others are dropped. *)
Example arguments_dropped :
  build_argv "/opt/app" (replicate 21 "x") = (Some "/opt/app" :: replicate 20 (Some "x")) ++ [None].
Proof. vm_compute. reflexivity. Qed.

End Example.

End ProcessLauncherProofs.
