(* ===== verification/Running.v ===== *)
(** * The running report

    A reporting process tells the daemon that it is running through a block of shared
    memory with two semaphores: [ReportRunningImpl] in the process
    (lifecycle_client/src/details/report_running_impl.cpp),
    [ProcessLauncher::waitForkRunning] in the worker of the daemon
    (process_group_manager/details/process_launcher.cpp), and the thread that saw the
    end of the process, which wakes the worker
    ([ProcessInfoNode::unblockSync], process_info_node.cpp).  Each of them is a program
    of single steps on the block; every interleaving is a run.  Claim C28. *)

From stdpp Require Import prelude.
From S2P Require Import Prelude Queues Depgraph Components Transitions Graphs Manager Osal Launcher.

Module Running.
Import osal.

(** ** Semaphores

    A wait that succeeds takes a token; it does not time out while there is one; any
    call may fail. *)

Definition timedWait (o : OsalReturnType) (value : nat) : option nat :=
  match o, value with
  | kSuccess, S n => Some n
  | kSuccess, O => None
  | kTimeout, O => Some 0
  | kTimeout, S _ => None
  | kFail, n => Some n
  end.

Definition post (o : OsalReturnType) (value : nat) : option nat :=
  match o with kSuccess => Some (S value) | kFail => Some value | kTimeout => None end.

(** [IpcCommsSync], after its initialisation. *)
Record shared := mkShared { reply_sync_ : nat; send_sync_ : nat; destroyed : bool }.

(** ** The daemon *)

Inductive lm_pc :=
| LWait
| LPost (result : OsalReturnType)
| LWaitAgain
| LDeinit (result : OsalReturnType)
| LDone (result : OsalReturnType).

(** [waitForkRunning] up to its first access to the block. *)
Definition waitForkRunning (sync timeout : bool) : lm_pc :=
  if negb sync then LDone kFail else if timeout then LWait else LPost kSuccess.

(** Its steps; [o] is the answer of the operating system to the step. *)
Definition lm_step (timeout : bool) (o : OsalReturnType) (p : lm_pc) (b : shared) : option (lm_pc * shared) :=
  match p with
  | LWait => n ← timedWait o (send_sync_ b); Some (LPost o, mkShared (reply_sync_ b) n (destroyed b))
  | LPost result =>
      n ← post o (reply_sync_ b);
      let result := match o with kFail => kFail | _ => result end in
      Some (if bool_decide (result = kFail) then LDeinit kFail
            else if timeout then LWaitAgain else LDeinit result,
            mkShared n (send_sync_ b) (destroyed b))
  | LWaitAgain => n ← timedWait o (send_sync_ b); Some (LDeinit o, mkShared (reply_sync_ b) n (destroyed b))
  | LDeinit result =>
      match o with
      | kTimeout => None
      | kSuccess => Some (LDone result, mkShared (reply_sync_ b) (send_sync_ b) true)
      | kFail => Some (LDone result, b)
      end
  | LDone _ => None
  end.

(** ** The process *)

Inductive client_pc :=
| CStart
| CPost
| CWait
| CPostAgain
| CDone (error : option ExecErrc).

(** What [reportKRunningtoDaemon] looks at before it uses the semaphores. *)
Record client_env := mkEnv {
  fstat_ok : bool;
  mmap_ok : bool;
  comms : ProcessLauncher.IpcCommsSync;
  own_pid : Z;
  close_ok : bool
}.

Definition checks (e : client_env) : bool :=
  fstat_ok e && mmap_ok e && bool_decide (ProcessLauncher.comms_type_ (comms e) = ProcessLauncher.kReporting) &&
  (ProcessLauncher.pid_ (comms e) =? own_pid e)%Z && close_ok e.

(** [ReportRunningState] with [reportKRunningtoDaemon]. *)
Definition client_step (e : client_env) (reported : bool) (o : OsalReturnType) (p : client_pc) (b : shared) :
    option (client_pc * bool * shared) :=
  match p with
  | CStart =>
      Some (if reported then CDone (Some kInvalidTransition)
            else if checks e then CPost else CDone (Some kCommunicationError), reported, b)
  | CPost =>
      n ← post o (send_sync_ b);
      Some (match o with kFail => CDone (Some kCommunicationError) | _ => CWait end, reported, mkShared (reply_sync_ b) n (destroyed b))
  | CWait =>
      n ← timedWait o (reply_sync_ b);
      Some (match o with kFail => CDone (Some kCommunicationError) | _ => CPostAgain end, reported, mkShared n (send_sync_ b) (destroyed b))
  | CPostAgain =>
      n ← post o (send_sync_ b);
      Some (match o with kFail => (CDone (Some kCommunicationError), reported) | _ => (CDone None, true) end,
            mkShared (reply_sync_ b) n (destroyed b))
  | CDone _ => None
  end.

(** ** Together

    [first], [taken], [client_posts] record the answer of the first wait, the tokens
    that the daemon took and the posts of the process; [unblocked] whether
    [unblockSync] was called and could post. *)

Record world := mkWorld {
  lm : lm_pc;
  client : client_pc;
  alive : bool;
  reported : bool;
  unblocked : option bool;
  block : shared;
  first : option OsalReturnType;
  taken : nat;
  client_posts : nat
}.

Definition initial (timeout : bool) : world :=
  mkWorld (waitForkRunning true timeout) CStart true false None (mkShared 0 0 false) None 0 0.

(** A step of the daemon, a step of the process, the end of the process, and
    [unblockSync] after it. *)
Inductive action := Daemon (o : OsalReturnType) | Client (o : OsalReturnType) | Dies | Unblocks (o : OsalReturnType).

Definition is_wait (p : lm_pc) : bool := match p with LWait | LWaitAgain => true | _ => false end.
Definition is_post (p : client_pc) : bool := match p with CPost | CPostAgain => true | _ => false end.
Definition one (b : bool) : nat := if b then 1 else 0.
Definition succeeded (o : OsalReturnType) : bool := match o with kSuccess => true | _ => false end.

Definition act (timeout : bool) (e : client_env) (a : action) (w : world) : option world :=
  match a with
  | Daemon o =>
      '(p, b) ← lm_step timeout o (lm w) (block w);
      Some (mkWorld p (client w) (alive w) (reported w) (unblocked w) b
              (match lm w with LWait => Some o | _ => first w end)
              (taken w + one (is_wait (lm w) && succeeded o)) (client_posts w))
  | Client o =>
      if alive w then
        '(p, r, b) ← client_step e (reported w) o (client w) (block w);
        Some (mkWorld (lm w) p true r (unblocked w) b (first w) (taken w) (client_posts w + one (is_post (client w) && succeeded o)))
      else None
  | Dies => if alive w then Some (mkWorld (lm w) (client w) false (reported w) (unblocked w) (block w) (first w) (taken w) (client_posts w)) else None
  | Unblocks o =>
      if negb (alive w) && bool_decide (unblocked w = None) then
        n ← post o (send_sync_ (block w));
        Some (mkWorld (lm w) (client w) false (reported w) (Some (succeeded o)) (mkShared (reply_sync_ (block w)) n (destroyed (block w)))
                (first w) (taken w) (client_posts w))
      else None
  end.

Fixpoint run (timeout : bool) (e : client_env) (l : list action) (w : world) : option world :=
  match l with [] => Some w | a :: l' => w' ← act timeout e a w; run timeout e l' w' end.

End Running.

Module RunningProofs.
Import osal Running.

Section Proofs.
Context (timeout : bool) (e : client_env).

(** ** Tokens *)

Definition unblock_tokens (w : world) : nat := match unblocked w with Some true => 1 | _ => 0 end.

(** What the place of the daemon says about its first wait and its tokens. *)
Definition lm_inv (p : lm_pc) (first : option OsalReturnType) (taken : nat) : Prop :=
  let got := match first with Some kSuccess => 1 | _ => 0 end in
  match p with
  | LWait => timeout = true /\ first = None /\ taken = 0
  | LPost r => taken = got /\ if timeout then first = Some r else first = None /\ r = kSuccess
  | LWaitAgain => timeout = true /\ taken = got /\ (first = Some kSuccess \/ first = Some kTimeout)
  | LDeinit r | LDone r =>
      r = kSuccess -> if timeout then taken = 1 + got /\ (first = Some kSuccess \/ first = Some kTimeout)
                      else taken = 0 /\ first = None
  end.

(** What the place of the process says about its posts. *)
Definition client_inv (p : client_pc) (reported : bool) (posts : nat) : Prop :=
  match p with
  | CStart => posts = 0 /\ reported = false
  | CPost => posts = 0 /\ reported = false /\ checks e = true
  | CWait | CPostAgain => posts = 1 /\ reported = false /\ checks e = true
  | CDone None => posts = 2 /\ reported = true /\ checks e = true
  | CDone (Some _) => posts <= 1 /\ reported = false /\ (posts = 1 -> checks e = true)
  end.

Record Inv (w : world) : Prop := {
  inv_tokens : send_sync_ (block w) + taken w = client_posts w + unblock_tokens w;
  inv_lm : lm_inv (lm w) (first w) (taken w);
  inv_client : client_inv (client w) (reported w) (client_posts w);
  inv_unblocked : unblocked w <> None -> alive w = false;
  inv_destroyed : destroyed (block w) = true -> exists r, lm w = LDone r
}.

Lemma report_Inv_initial : Inv (initial timeout).
Proof. constructor; unfold initial, waitForkRunning, unblock_tokens, lm_inv; destruct timeout; simpl; naive_solver lia. Qed.

(** One step of the daemon or of the process, in each of its places. *)
Ltac step_lm := unfold lm_inv in *; destruct timeout; repeat match goal with f : option OsalReturnType |- _ => destruct f as [[]|] end; simpl in *; intuition (try discriminate; try lia).
Ltac step_client := repeat case_match; simpl; intuition (try discriminate; try congruence; try lia).

Lemma act_Inv a w w' : Inv w -> act timeout e a w = Some w' -> Inv w'.
Proof.
  intros [It Il Ic Iu Id]. destruct w as [p c al rep ub [rp sd ds] f tk cp]. unfold unblock_tokens in *. simpl in *.
  destruct a as [o|o| |o]; simpl.
  - destruct p as [|r| |r|r]; [| destruct r | | |done]; destruct o; simpl; try done;
      try (destruct sd as [|sd]; simpl; [try done|try done]); (intros [= <-]; constructor; unfold unblock_tokens; simpl in *;
      [lia | clear -Il; step_lm | exact Ic | exact Iu | (intros H; destruct (Id H); done) || eauto]).
  - destruct al; [|done]. assert (Hu : ub = None) by (destruct ub; [by specialize (Iu ltac:(done))|done]). subst ub.
    destruct c as [| | | |r]; [| | | |done]; destruct o; simpl; try done;
      try (destruct rp as [|rp]; simpl; [try done|try done]); (intros [= <-]; constructor; unfold unblock_tokens; simpl in *;
      [lia | exact Il | clear -Ic; step_client | done | exact Id]).
  - destruct al; [|done]. intros [= <-]. constructor; done.
  - destruct al; [done|]. case_bool_decide; [|done]. subst ub. destruct o; simpl; intros [= <-];
      (constructor; [unfold unblock_tokens; simpl in *; lia | done ..]).
Qed.

Lemma report_run_Inv l w w' : Inv w -> run timeout e l w = Some w' -> Inv w'.
Proof.
  revert w. induction l as [|a l IH]; intros w I; simpl; [by intros [= <-]|].
  destruct (act timeout e a w) as [w1|] eqn:E; [simpl|done]. apply IH. by eapply act_Inv.
Qed.

(** ** Every run ends *)

Definition rank (w : world) : nat :=
  match lm w with LWait => 4 | LPost _ => 3 | LWaitAgain => 2 | LDeinit _ => 1 | LDone _ => 0 end +
  match client w with CStart => 4 | CPost => 3 | CWait => 2 | CPostAgain => 1 | CDone _ => 0 end +
  one (alive w) + one (bool_decide (unblocked w = None)).

Lemma act_rank a w w' : act timeout e a w = Some w' -> rank w' < rank w.
Proof.
  destruct w as [p c al rep ub [rp sd ds] f tk cp]. unfold rank. destruct a as [o|o| |o]; simpl.
  - destruct p as [|r| |r|r]; [|destruct r| | |done]; destruct o, rp, sd; simpl; intros [= <-]; simpl; destruct timeout; simpl; lia.
  - destruct al; [|done]. destruct c, o, rp, sd; simpl; try done; intros [= <-]; simpl; try destruct rep; try destruct (checks e); simpl; lia.
  - destruct al; [|done]. intros [= <-]. simpl. lia.
  - destruct al; [done|]. case_bool_decide; [|done]. destruct o; simpl; intros [= <-]; simpl; lia.
Qed.

Lemma run_rank l w w' : run timeout e l w = Some w' -> length l + rank w' <= rank w.
Proof.
  revert w. induction l as [|a l IH]; intros w; simpl; [intros [= <-]; lia|].
  destruct (act timeout e a w) as [w1|] eqn:E; [simpl|done]. intros H%IH. apply act_rank in E. lia.
Qed.

(** Nobody waits forever: a wait takes a token or times out. *)
Lemma daemon_can_step w : (forall r, lm w <> LDone r) -> exists o, is_Some (act timeout e (Daemon o) w).
Proof.
  destruct w as [p c al rep ub [rp sd ds] f tk cp]. intros Hd. simpl in *.
  destruct p as [|r| |r|r]; [| | | |by destruct (Hd r)].
  - destruct sd; [exists kTimeout|exists kSuccess]; by eexists.
  - exists kSuccess. by eexists.
  - destruct sd; [exists kTimeout|exists kSuccess]; by eexists.
  - exists kSuccess. by eexists.
Qed.

Lemma client_can_step w : alive w = true -> (forall r, client w <> CDone r) -> exists o, is_Some (act timeout e (Client o) w).
Proof.
  destruct w as [p c al rep ub [rp sd ds] f tk cp]. simpl. intros -> Hd.
  destruct c as [| | | |r]; [| | | |by destruct (Hd r)].
  - exists kSuccess. by eexists.
  - exists kSuccess. by eexists.
  - destruct rp; [exists kTimeout|exists kSuccess]; by eexists.
  - exists kSuccess. by eexists.
Qed.

(** ** Runs in which nothing fails *)

Definition smooth (a : action) : bool := match a with Daemon kSuccess | Client kSuccess => true | _ => false end.

Record Smooth (w : world) : Prop := {
  smooth_alive : alive w = true /\ unblocked w = None;
  smooth_lm : match lm w with LWait | LWaitAgain => True | LPost r | LDeinit r | LDone r => r = kSuccess end;
  smooth_first : lm w = LWait \/ first w = Some kSuccess;
  smooth_client : match client w with CDone r => r = None | _ => True end;
  smooth_reply : reply_sync_ (block w) + match client w with CPostAgain | CDone _ => 1 | _ => 0 end =
                 match lm w with LWait | LPost _ => 0 | _ => 1 end
}.

Lemma act_Smooth a w w' :
  timeout = true -> checks e = true -> Inv w -> Smooth w -> smooth a = true -> act timeout e a w = Some w' -> Smooth w'.
Proof.
  intros Ht Hc [_ _ Ic _ _] [[Sa Su] Sl Sf Sc Sr] Hs. destruct w as [p c al rep ub [rp sd ds] f tk cp]. simpl in *.
  subst al ub. rewrite Ht. destruct a as [[]|[]| |]; try done; simpl.
  - destruct p as [|r| |r|r]; try done; simpl in *; subst; simpl; try (destruct sd; simpl; [done|]);
      intros [= <-]; constructor; simpl in *; try done; try lia; by destruct Sf; auto.
  - destruct c as [| | | |r]; simpl in *; try done; try (destruct rp; simpl; [done|]); try (destruct Ic as [_ ->]; rewrite Hc);
      intros [= <-]; constructor; simpl in *; done || lia.
Qed.

Lemma run_Smooth l w w' :
  timeout = true -> checks e = true -> Inv w -> Smooth w -> Forall (fun a => smooth a = true) l ->
  run timeout e l w = Some w' -> Smooth w'.
Proof.
  intros Ht Hc I S Hl. revert w I S. induction Hl as [|a l Ha _ IH]; intros w I S; simpl; [by intros [= <-]|].
  destruct (act timeout e a w) as [w1|] eqn:E; [simpl|done]. apply IH; [by eapply act_Inv|by eapply act_Smooth].
Qed.

(** As long as one of the two is not done, one of them can go on without a failure. *)
Lemma smooth_progress w :
  Inv w -> Smooth w ->
  (lm w = LDone kSuccess /\ client w = CDone None) \/ exists a, smooth a = true /\ is_Some (act timeout e a w).
Proof.
  intros [It Il Ic _ _] [[Sa Su] Sl Sf Sc Sr]. destruct w as [p c al rep ub [rp sd ds] f tk cp]. unfold unblock_tokens in *. simpl in *. subst al ub.
  assert (Hdaemon : forall x, lm_step timeout kSuccess p (mkShared rp sd ds) = Some x ->
            exists a, smooth a = true /\ is_Some (act timeout e a (mkWorld p c true rep None (mkShared rp sd ds) f tk cp))).
  { intros [p' b'] E. exists (Daemon kSuccess). split; [done|]. simpl. rewrite E. by eexists. }
  assert (Hclient : forall x, client_step e rep kSuccess c (mkShared rp sd ds) = Some x ->
            exists a, smooth a = true /\ is_Some (act timeout e a (mkWorld p c true rep None (mkShared rp sd ds) f tk cp))).
  { intros [[p' r'] b'] E. exists (Client kSuccess). split; [done|]. simpl. rewrite E. by eexists. }
  destruct c as [| | | |r]; try (right; eapply Hclient; reflexivity).
  - destruct rp as [|rp]; [|right; eapply Hclient; reflexivity].
    destruct p as [|r| |r|r]; simpl in *; try lia; try (right; eapply Hdaemon; reflexivity).
    destruct sd as [|sd]; [lia|]. right. eapply Hdaemon. reflexivity.
  - subst r. simpl in Ic. destruct p as [|r| |r|r]; simpl in *; try lia; try (right; eapply Hdaemon; reflexivity); [|subst r; by left].
    destruct sd as [|sd]; [|right; eapply Hdaemon; reflexivity]. destruct f as [[]|]; lia.
Qed.

End Proofs.

Lemma Smooth_initial : Smooth (initial true).
Proof. constructor; simpl; auto. Qed.

(** C28: the report of a process that it is running, in every interleaving of the
    process, the worker that waits with a time-out and the thread that sees the end
    of the process.  It ends after at most ten steps, and nobody waits in vain.  If
    the wait succeeds and the process lives, it has reported, through the block of
    its own start; unless the report came after the time-out, the process
    has also finished with the block when the worker destroys it.  A wait that
    succeeds without a report was past its time-out and woken by the end of the
    process.  A report that succeeded was made exactly once.  If nothing fails or
    times out, both end with success. *)
Theorem running_report_handshake e l w :
  run true e l (initial true) = Some w ->
  length l <= 10 /\
  ((forall r, lm w <> LDone r) -> exists o, is_Some (act true e (Daemon o) w)) /\
  (alive w = true -> (forall r, client w <> CDone r) -> exists o, is_Some (act true e (Client o) w)) /\
  (lm w = LDone kSuccess -> alive w = true ->
     1 <= client_posts w /\ checks e = true /\ (first w = Some kSuccess -> client w = CDone None)) /\
  (lm w = LDone kSuccess -> client_posts w = 0 -> first w = Some kTimeout /\ unblocked w = Some true) /\
  (client w = CDone None -> checks e = true /\ client_posts w = 2 /\ reported w = true) /\
  (checks e = true -> Forall (fun a => smooth a = true) l -> (forall a, smooth a = true -> act true e a w = None) ->
     lm w = LDone kSuccess /\ client w = CDone None).
Proof.
  intros Hr. pose proof (report_run_Inv true e l _ w (report_Inv_initial true e) Hr) as I. pose proof (run_rank true e _ _ _ Hr) as Hk.
  split; [change (rank (initial true)) with 10 in Hk; lia|]. split; [apply daemon_can_step|]. split; [apply client_can_step|].
  pose proof I as [It Il Ic Iu Id]. split; [|split; [|split]].
  - intros Hl Ha. rewrite Hl in Il. destruct (Il eq_refl) as [Htk Hf].
    assert (Hub : unblocked w = None) by (destruct (unblocked w); [rewrite Iu in Ha; done|done]).
    unfold unblock_tokens in It. rewrite Hub in It.
    assert (Hp : 1 <= client_posts w) by lia. split; [done|].
    assert (Hc : checks e = true) by (destruct (client w) as [| | | |[]]; simpl in Ic; destruct Ic as [? [? ?]] || destruct Ic; try lia; auto with lia).
    split; [done|]. intros Hs. rewrite Hs in Htk. destruct (client w) as [| | | |[]]; simpl in Ic; destruct Ic; lia || done.
  - intros Hl Hp. rewrite Hl in Il. destruct (Il eq_refl) as [Htk Hf]. unfold unblock_tokens in It.
    destruct (unblocked w) as [[]|], Hf as [Hf|Hf]; rewrite Hf in *; try lia; done.
  - intros Hc. rewrite Hc in Ic. simpl in Ic. naive_solver.
  - intros Hc Hs Hn.
    pose proof (run_Smooth true e l _ w eq_refl Hc (report_Inv_initial true e) Smooth_initial Hs Hr) as S.
    destruct (smooth_progress true e w I S) as [?|(a & Ha & [w' E])]; [done|]. rewrite (Hn a Ha) in E. done.
Qed.

Module Example.

Definition env : client_env := mkEnv true true (ProcessLauncher.mkComms (Some 0) (Some 0) 17 ProcessLauncher.kReporting) 17 true.
Definition smooth_run : list action :=
  [Client kSuccess; Client kSuccess; Daemon kSuccess; Daemon kSuccess; Client kSuccess; Client kSuccess; Daemon kSuccess; Daemon kSuccess].

Definition smooth_end : world := mkWorld (LDone kSuccess) (CDone None) true true None (mkShared 0 0 true) (Some kSuccess) 2 2.

Lemma running_report_handshake_witness :
  run true env smooth_run (initial true) = Some smooth_end /\ lm smooth_end = LDone kSuccess /\ client smooth_end = CDone None.
Proof.
  assert (E : run true env smooth_run (initial true) = Some smooth_end) by (vm_compute; reflexivity).
  split; [exact E|].
  apply (running_report_handshake env smooth_run smooth_end E).
  - vm_compute. reflexivity.
  - repeat constructor.
  - intros [[]|[]| |]; done.
Defined.

(** A process that dies without a report, just after the time-out: the wait succeeds. *)
Example death_after_timeout : exists w,
  run true env [Daemon kTimeout; Daemon kSuccess; Dies; Unblocks kSuccess; Daemon kSuccess; Daemon kSuccess] (initial true) = Some w /\
  lm w = LDone kSuccess /\ client w = CStart.
Proof. eexists. split; [vm_compute; reflexivity|]. split; reflexivity. Qed.

(** A report in the hundred milliseconds after the time-out: the semaphores are
    destroyed while the process still uses them. *)
Example destroyed_in_use : exists w,
  run true env [Client kSuccess; Daemon kTimeout; Daemon kSuccess; Client kSuccess; Daemon kSuccess; Daemon kSuccess] (initial true) = Some w /\
  lm w = LDone kSuccess /\ destroyed (block w) = true /\ client w = CWait /\ alive w = true.
Proof. eexists. split; [vm_compute; reflexivity|]. repeat split. Qed.

(** A daemon that never answers: the process reports success all the same. *)
Example unacknowledged : exists w,
  run true env [Client kSuccess; Client kSuccess; Client kTimeout; Client kSuccess] (initial true) = Some w /\
  client w = CDone None /\ lm w = LWait.
Proof. eexists. split; [vm_compute; reflexivity|]. split; reflexivity. Qed.

End Example.

End RunningProofs.
