(* ===== verification/ManagedComponent.v ===== *)
(** * The component that manages a resource

    [Component] (process_group_manager/details/component.cpp) with the actions and
    ready conditions it is built from (details/start_action, stop_action,
    force_stop_action and ready_condition) and its [Handle].  The state is guarded by
    a mutex, which [activate] gives up while it waits for the ready condition: an
    activation is two steps, and deactivations, terminations and further
    activations may come between them.  Claim C9. *)

From stdpp Require Import prelude fin_maps gmap strings.
From S2P Require Import Prelude Queues Depgraph Components Transitions Graphs ProcessNodes Watchdog Configuration.

(** ** Handles and actions *)

(** [sync] tells whether there is a block of shared memory. *)
Inductive Handle := EmptyHandle | ProcessHandle (pid : Z) (sync : bool).

#[export] Instance Handle_eq_dec : EqDecision Handle.
Proof. solve_decision. Defined.

Definition invalidate (h : Handle) : Handle :=
  match h with EmptyHandle => EmptyHandle | ProcessHandle _ sync => ProcessHandle (-1) sync end.

(** [IStartAction]: the answer of the launcher is an argument, [None] is an error. *)
Definition StartAction : Type := option (Z * bool) -> option Handle.

Definition EmptyStartAction : StartAction := fun _ => Some EmptyHandle.
Definition ProcessStartAction : StartAction := fun started =>
  match started with Some (pid, sync) => Some (ProcessHandle pid sync) | None => None end.

(** [IStopAction] and [IForceStopAction]: the answer of the operating system is an
    argument; [None] is an error. *)
Definition StopAction : Type := bool -> Handle -> outcome (option RequestResult).

Definition EmptyStopAction : StopAction := fun _ _ => Ret (Some kSuccess).
Definition EmptyForceStopAction : StopAction := fun _ _ => Ret (Some kSuccess).

Definition ProcessStopAction : StopAction := fun terminated handle =>
  match handle with
  | EmptyHandle => Abort AssertionFailed
  | ProcessHandle pid _ =>
      if (pid =? -1)%Z then Ret (Some kSuccess)
      else Ret (if terminated then Some kSuccess else None)
  end.

Definition ProcessForceStopAction : StopAction := fun terminated handle =>
  match handle with
  | EmptyHandle => Abort AssertionFailed
  | ProcessHandle pid _ =>
      if (pid =? -1)%Z then Ret (Some kSuccess)
      else Ret (if terminated then Some kSuccess else None)
  end.

(** [IReadyCondition]: [wait] with the answer of the operating system, and for
    [tryHandleTermination] whether the termination is accepted and how often the
    semaphore of the handle is posted; the default of the interface accepts none. *)
Record ReadyCondition := mkReadyCondition {
  wait : bool -> Handle -> outcome bool;
  acceptTermination : Handle -> Z -> outcome (bool * nat)
}.

Definition defaultTermination : Handle -> Z -> outcome (bool * nat) := fun _ _ => Ret (false, 0).

Definition FileReadyCondition : ReadyCondition :=
  mkReadyCondition (fun found _ => Ret found) defaultTermination.

Definition process_with_sync (h : Handle) : outcome Z :=
  match h with
  | ProcessHandle pid true => Ret pid
  | ProcessHandle _ false | EmptyHandle => Abort AssertionFailed
  end.

(** A termination posts the semaphore that [wait] waits for. *)
Definition ReportRunningReadyCondition : ReadyCondition :=
  mkReadyCondition
    (fun reported h => pid ← process_with_sync h; Ret (reported && (0 <? pid)%Z))
    (fun h _ => _ ← process_with_sync h; Ret (true, 1)).

(** ** The component *)

Module ManagedComponent.

(** A stop source is its number; the sources that were asked to stop are in the world. *)
Inductive State :=
| TerminatedState
| StartingState (handle_ : Handle) (stop_activation_ : nat)
| ReadyState (handle_ : Handle)
| TerminatingState (handle_ : Handle)
| FaultState (handle_ : Handle).

(** [supervision_handle_]: the calls that it answered with success, or a null
    pointer.  [force_stop_action_] is kept and not used. *)
Record t := mk {
  application_type : ProcessInfoNode.ApplicationType;
  is_self_terminating : bool;
  start_action_ : StartAction;
  stop_action_ : StopAction;
  force_stop_action_ : StopAction;
  ready_condition_ : ReadyCondition;
  supervision_handle_ : option (list ProcessInfoNode.SupervisionCall);
  state_ : State
}.

Definition set_state (s : State) (c : t) : t :=
  mk (application_type c) (is_self_terminating c) (start_action_ c) (stop_action_ c) (force_stop_action_ c) (ready_condition_ c) (supervision_handle_ c) s.
Definition set_supervision (h : option (list ProcessInfoNode.SupervisionCall)) (c : t) : t :=
  mk (application_type c) (is_self_terminating c) (start_action_ c) (stop_action_ c) (force_stop_action_ c) (ready_condition_ c) h (state_ c).

Definition isSupervised (ty : ProcessInfoNode.ApplicationType) : bool :=
  match ty with
  | ProcessInfoNode.Native | ProcessInfoNode.Reporting => false
  | ProcessInfoNode.ReportingAndSupervised | ProcessInfoNode.StateManager => true
  end.

(** [constructSupervision]: [has_alive_supervision] tells whether the configuration
    has that part, which is read with [optional::value]; the factory answers with the
    connection of the new handle or with a null pointer. *)
Definition constructSupervision (ty : ProcessInfoNode.ApplicationType) (has_alive_supervision : bool) (factory : option string)
    (env : Environment.t) : outcome (option (list ProcessInfoNode.SupervisionCall) * Environment.t) :=
  if negb (isSupervised ty) then Ret (None, env)
  else
    _ ← (if has_alive_supervision then Ret tt else Abort OutOfRange);
    match factory with
    | None => Ret (None, env)
    | Some connection =>
        env' ← Environment.add "LCM_ALIVE_INTERFACE_PATH" connection env;
        Ret (Some [], env')
    end.

Definition make (ty : ProcessInfoNode.ApplicationType) (self has_alive_supervision : bool) (factory : option string)
    (start : StartAction) (stop force_stop : StopAction) (ready : ReadyCondition) (env : Environment.t) :
    outcome (t * Environment.t) :=
  '(h, env') ← constructSupervision ty has_alive_supervision factory env;
  Ret (mk ty self start stop force_stop ready h TerminatedState, env').

(** [ok]: the clock could be read and the handle answered with success. *)
Definition supervise (call : ProcessInfoNode.SupervisionCall) (ok : bool) (c : t) : bool * t :=
  match supervision_handle_ c with
  | None => (true, c)
  | Some calls => if ok then (true, set_supervision (Some (calls ++ [call])) c) else (false, c)
  end.

Definition activateSupervision (ok : bool) (c : t) : bool * t := supervise ProcessInfoNode.ActivateSupervision ok c.
Definition deactivateSupervision (ok : bool) (c : t) : bool * t := supervise ProcessInfoNode.DeactivateSupervision ok c.

Definition active (c : t) : bool := match state_ c with ReadyState _ => true | _ => false end.

(** The component, the stop sources, the activations that wait, each with its own
    copy of the handle, and the posts on the semaphore of the process. *)
Record world := mkWorld {
  component : t;
  sources : nat;
  stop_requested : gset nat;
  waiting : list (Handle * nat);
  posts : nat
}.

Definition initial (c : t) : world := mkWorld c 0 ∅ [] 0.

Definition set_component (c : t) (w : world) : world := mkWorld c (sources w) (stop_requested w) (waiting w) (posts w).
Definition post (n : nat) (w : world) : world :=
  mkWorld (component w) (sources w) (stop_requested w) (waiting w) (posts w + n).
Definition request_stop (src : nat) (w : world) : world :=
  mkWorld (component w) (sources w) ({[src]} ∪ stop_requested w) (waiting w) (posts w).

(** [activate] up to the wait: [None] when the activation waits. *)
Definition activate_begin (started : option (Z * bool)) (w : world) : outcome (option RequestResult * world) :=
  let c := component w in
  match state_ c with
  | TerminatedState =>
      if isSupervised (application_type c) && negb (bool_decide (is_Some (supervision_handle_ c))) then
        Ret (Some kFailure, set_component (set_state (FaultState EmptyHandle) c) w)
      else
        match start_action_ c started with
        | None => Ret (Some kFailure, set_component (set_state (FaultState EmptyHandle) c) w)
        | Some handle =>
            let src := sources w in
            Ret (None, mkWorld (set_state (StartingState handle src) c) (S src) (stop_requested w)
                         (waiting w ++ [(handle, src)]) (posts w))
        end
  | _ => Abort AssertionFailed
  end.

(** The rest of [activate], for the activation that waits with [handle] and [src]. *)
Definition activate_end (handle : Handle) (src : nat) (answer supervision_ok : bool) (w : world) :
    outcome (RequestResult * world) :=
  let c := component w in
  let w1 := mkWorld c (sources w) (stop_requested w) (filter (fun x => x.2 <> src) (waiting w)) (posts w) in
  ready ← wait (ready_condition_ c) answer handle;
  if negb ready then Ret (kFailure, w1)
  else if bool_decide (src ∈ stop_requested w) then Ret (kFailure, w1)
  else
    match state_ c with
    | StartingState h _ =>
        let '(ok, c1) := activateSupervision supervision_ok c in
        if (ok : bool) then Ret (kSuccess, set_component (set_state (ReadyState h) c1) w1)
        else Ret (kFailure, set_component (set_state (FaultState h) c1) w1)
    | _ => Abort AssertionFailed
    end.

Definition deactivate (supervision_ok terminated : bool) (w : world) : outcome (RequestResult * world) :=
  let c := component w in
  match match state_ c with
        | StartingState h src => Some (h, Some src)
        | ReadyState h => Some (h, None)
        | _ => None
        end with
  | None => Abort AssertionFailed
  | Some (handle, starting) =>
      let '(ok, c1) := deactivateSupervision supervision_ok c in
      if negb ok then Ret (kFailure, set_component (set_state (FaultState handle) c1) w)
      else
        let w1 := match starting with Some src => request_stop src w | None => w end in
        result ← stop_action_ c terminated handle;
        match result with
        | Some kSuccess => Ret (kSuccess, set_component (set_state (TerminatingState handle) c1) w1)
        | _ => Ret (kFailure, set_component (set_state (FaultState handle) c1) w1)
        end
  end.

Definition tryHandleTermination (supervision_ok : bool) (status : Z) (w : world) : outcome (TerminationResult * world) :=
  let c := component w in
  match state_ c with
  | TerminatingState _ => Ret (kIgnore, set_component (set_state TerminatedState c) w)
  | ReadyState handle =>
      let h := invalidate handle in
      let '(ok, c1) := deactivateSupervision supervision_ok (set_state (ReadyState h) c) in
      if negb ok then Ret (kTerminationFailure, set_component (set_state (FaultState h) c1) w)
      else if is_self_terminating c && (status =? 0)%Z then Ret (kIgnore, set_component c1 w)
      else Ret (kTerminationFailure, set_component (set_state (FaultState EmptyHandle) c1) w)
  | StartingState handle src =>
      let h := invalidate handle in
      let c1 := set_state (StartingState h src) c in
      '(accepted, n) ← acceptTermination (ready_condition_ c) h status;
      if (accepted : bool) then Ret (kIgnore, post n (set_component c1 w))
      else if is_self_terminating c && (status =? 0)%Z then Ret (kIgnore, post n (set_component c1 w))
      else Ret (kTerminationFailure, request_stop src (post n (set_component (set_state (FaultState EmptyHandle) c1) w)))
  | TerminatedState | FaultState _ => Abort AssertionFailed
  end.

(** What can happen to a component: the calls of the threads, one activation after
    the other reaching the end of its wait, and the callback that forwards a stop
    request to an activation that waits. *)
Inductive op :=
| Activate (started : option (Z * bool))
| EndActivation (i : nat) (answer supervision_ok : bool)
| Deactivate (supervision_ok terminated : bool)
| Terminate (supervision_ok : bool) (status : Z)
| ForwardStop (i : nat).

Definition perform (o : op) (w : world) : outcome world :=
  match o with
  | Activate started => '(_, w') ← activate_begin started w; Ret w'
  | EndActivation i answer ok =>
      match waiting w !! i with
      | Some (h, src) => '(_, w') ← activate_end h src answer ok w; Ret w'
      | None => Ret w
      end
  | Deactivate ok terminated => '(_, w') ← deactivate ok terminated w; Ret w'
  | Terminate ok status => '(_, w') ← tryHandleTermination ok status w; Ret w'
  | ForwardStop i =>
      match waiting w !! i with Some (_, src) => Ret (request_stop src w) | None => Ret w end
  end.

Definition run (ops : list op) (w : world) : outcome world := foldM (fun w o => perform o w) w ops.

(** The supervision could be switched off whenever it was asked to. *)
Definition reliable (o : op) : bool :=
  match o with Deactivate ok _ | Terminate ok _ => ok | _ => true end.

End ManagedComponent.

(** ** What holds between the calls *)

Module ManagedComponentProofs.
Import ManagedComponent.
Local Notation ActivateSupervision := ProcessInfoNode.ActivateSupervision.

Definition supervision_on (c : t) : Prop :=
  exists calls, supervision_handle_ c = Some calls /\ last calls = Some ActivateSupervision.

(** A process whose termination was not seen. *)
Definition running (h : Handle) : Prop :=
  match h with ProcessHandle pid _ => pid <> (-1)%Z | EmptyHandle => False end.

Definition same_resource (h h' : Handle) : Prop := h' = h \/ h' = invalidate h.

(** The activation [x] is the one the component is starting for. *)
Definition starting_for (s : State) (x : Handle * nat) : Prop :=
  match s with StartingState h src => src = x.2 /\ same_resource x.1 h | _ => False end.

Record Inv (w : world) : Prop := {
  inv_unique : NoDup (waiting w).*2;
  inv_fresh x : x ∈ waiting w -> x.2 < sources w;
  inv_stops src : src ∈ stop_requested w -> src < sources w;
  inv_source h src : state_ (component w) = StartingState h src -> src < sources w;
  inv_starting x : x ∈ waiting w -> x.2 ∉ stop_requested w -> starting_for (state_ (component w)) x;
  inv_supervised : supervision_on (component w) -> active (component w) = true;
  inv_running h calls : state_ (component w) = ReadyState h -> running h ->
    supervision_handle_ (component w) = Some calls -> last calls = Some ActivateSupervision
}.

Lemma invalidate_idem h : invalidate (invalidate h) = invalidate h.
Proof. by destruct h. Qed.

Lemma invalidate_not_running h : ~ running (invalidate h).
Proof. destruct h; simpl; auto. Qed.

Lemma same_resource_invalidate h h' : same_resource h h' -> same_resource h (invalidate h').
Proof. intros [-> | ->]; right; [done | apply invalidate_idem]. Qed.

(** A successful call is the last one of the handle, if there is a handle. *)
Lemma supervise_spec call ok c r c' :
  supervise call ok c = (r, c') ->
  (r = true <-> supervision_handle_ c = None \/ ok = true) /\ state_ c' = state_ c /\
  (r = false -> c' = c) /\
  (r = true -> forall calls, supervision_handle_ c' = Some calls -> last calls = Some call).
Proof.
  unfold supervise. destruct (supervision_handle_ c) as [calls|] eqn:E; [destruct ok|]; intros [= <- <-]; simpl;
    repeat split; try naive_solver; try (by intros _ ? [= <-]; rewrite last_snoc).
Qed.

(** Replacing the state of the component outside of [ReadyState] keeps the
    invariant when no unstopped activation loses its [StartingState]. *)
Lemma Inv_state c' w :
  Inv w ->
  (forall h src, state_ c' = StartingState h src -> src < sources w) ->
  (forall x, x ∈ waiting w -> x.2 ∉ stop_requested w -> starting_for (state_ c') x) ->
  (supervision_on c' -> active c' = true) ->
  (forall h calls, state_ c' = ReadyState h -> running h -> supervision_handle_ c' = Some calls ->
     last calls = Some ActivateSupervision) ->
  Inv (set_component c' w).
Proof. intros [] ? ? ? ?; constructor; simpl; auto. Qed.

Lemma Inv_request_stop src w : Inv w -> src < sources w -> Inv (request_stop src w).
Proof. intros [] ?; constructor; simpl; auto; set_solver. Qed.

Lemma Inv_post n w : Inv w -> Inv (post n w).
Proof. intros []; constructor; auto. Qed.

Lemma component_Inv_initial c : state_ c = TerminatedState -> supervision_handle_ c ∈ [None; Some []] -> Inv (initial c).
Proof.
  intros Hs Hh. constructor; simpl; try set_solver; rewrite ?Hs; try done; [constructor|].
  intros (calls & Hc & Hl). rewrite Hc in Hh. assert (calls = []) as -> by set_solver. done.
Qed.

Lemma make_Inv ty self has f start stop force ready env c env' :
  make ty self has f start stop force ready env = Ret (c, env') -> Inv (initial c).
Proof.
  unfold make, constructSupervision. intros H. apply component_Inv_initial;
    destruct (isSupervised ty), has, f; simplify_eq/=; set_solver.
Qed.


(** The component leaves its state for one that is not [StartingState]: the activation
    it was starting for, if any, was asked to stop before. *)
Lemma Inv_leave c' w :
  Inv w ->
  (forall h src, state_ (component w) = StartingState h src -> src ∈ stop_requested w) ->
  (forall h src, state_ c' <> StartingState h src) ->
  (supervision_on c' -> active c' = true) ->
  (forall h calls, state_ c' = ReadyState h -> running h -> supervision_handle_ c' = Some calls ->
     last calls = Some ActivateSupervision) ->
  Inv (set_component c' w).
Proof.
  intros I Hl Hn ? ?. apply Inv_state; auto; [naive_solver|].
  intros x Hx Hs. pose proof (inv_starting w I x Hx Hs) as H'. unfold starting_for in H'.
  case_match; try done. destruct H' as [-> _]. exfalso. eauto.
Qed.

(** Without supervision nothing is left to check in a state that is not [ReadyState]. *)
Lemma Inv_leave_off c' w :
  Inv w ->
  (forall h src, state_ (component w) = StartingState h src -> src ∈ stop_requested w) ->
  ~ supervision_on c' ->
  match state_ c' with StartingState _ _ | ReadyState _ => False | _ => True end ->
  Inv (set_component c' w).
Proof.
  intros I ? Hoff Hc. apply Inv_leave; auto; destruct (state_ c'); naive_solver.
Qed.

Lemma inactive_off w : Inv w -> active (component w) = false -> ~ supervision_on (component w).
Proof. intros I Ha Hs. apply (inv_supervised w I) in Hs. congruence. Qed.

Lemma supervision_on_handle c c' :
  supervision_handle_ c = supervision_handle_ c' -> supervision_on c -> supervision_on c'.
Proof. unfold supervision_on. intros ->. done. Qed.

(** After a deactivation that succeeded the supervision is off. *)
Lemma deactivated_off ok c c' : deactivateSupervision ok c = (true, c') -> ~ supervision_on c'.
Proof.
  intros (_ & _ & _ & Hl)%supervise_spec (calls & Hc & He). rewrite (Hl eq_refl _ Hc) in He. done.
Qed.

Lemma Inv_remove h src w :
  Inv w -> Inv (mkWorld (component w) (sources w) (stop_requested w) (filter (fun x : Handle * nat => x.2 <> src) (waiting w)) h).
Proof.
  intros []; constructor; simpl; auto.
  - eapply sublist_NoDup; [done|]. apply fmap_sublist, sublist_filter.
  - intros x [_ ?]%list_elem_of_filter. auto.
  - intros x [_ ?]%list_elem_of_filter. auto.
Qed.

Lemma activate_begin_Inv started w r w' : Inv w -> activate_begin started w = Ret (r, w') -> Inv w'.
Proof.
  intros I. unfold activate_begin. destruct (state_ (component w)) eqn:Es; try done.
  assert (Hoff : ~ supervision_on (component w)) by (apply inactive_off; [done|]; unfold active; by rewrite Es).
  case_match; [|case_match]; intros [= <- <-]; try (apply Inv_leave_off; [done | by rewrite Es | exact Hoff | exact Logic.I]).
  assert (Hall : forall x, x ∈ waiting w -> x.2 ∈ stop_requested w).
  { intros x Hx. destruct (decide (x.2 ∈ stop_requested w)) as [|Hn]; [done|].
    pose proof (inv_starting w I x Hx Hn) as H'. by rewrite Es in H'. }
  pose proof (inv_fresh w I) as Hf. destruct I as [I1 _ I3 _ _ _ _]. constructor; cbn [waiting sources stop_requested component].
  - rewrite fmap_app. apply NoDup_app. split; [done|]. split; [|apply NoDup_singleton].
    intros y (x & -> & Hx)%list_elem_of_fmap. apply Hf in Hx. simpl. rewrite list_elem_of_singleton. lia.
  - intros x [Hx%Hf | ->%list_elem_of_singleton]%elem_of_app; simpl; lia.
  - intros src' Hs%I3. lia.
  - intros ? ? [= _ <-]. lia.
  - intros x [Hx%Hall | ->%list_elem_of_singleton]%elem_of_app; [done|]. intros _. by split; [|left].
  - intros Hs. destruct Hoff. by eapply supervision_on_handle.
  - done.
Qed.

Lemma activate_end_Inv h src answer ok w r w' :
  Inv w -> (h, src) ∈ waiting w -> activate_end h src answer ok w = Ret (r, w') -> Inv w'.
Proof.
  intros I Hx. unfold activate_end. destruct (wait _ _ _) as [rd|]; [simpl | done].
  pose proof (Inv_remove (posts w) src w I) as I1.
  destruct rd; simpl; [|by intros [= <- <-]]. case_bool_decide as Hs; [by intros [= <- <-]|].
  pose proof (inv_starting w I _ Hx Hs) as H'. simpl in H'. destruct (state_ (component w)) as [|h0 src0| | |] eqn:Es; try done.
  destruct H' as [-> _]. simpl in *. destruct (activateSupervision ok (component w)) as [a c1] eqn:Ea.
  apply supervise_spec in Ea as (_ & Est & Hf & Ht).
  assert (Hall : forall x, x ∈ filter (fun x : Handle * nat => x.2 <> src) (waiting w) -> x.2 ∉ stop_requested w -> False).
  { intros x [Hne Hin]%list_elem_of_filter Hn. pose proof (inv_starting w I x Hin Hn) as H'. rewrite Es in H'. by destruct H'. }
  destruct a; intros [= <- <-]; (apply Inv_state; [exact I1 | done | by intros x ? ?; destruct (Hall x) | |]); try done.
  - intros h' calls [= <-] _. by apply Ht.
  - rewrite (Hf eq_refl). intros Hon. destruct (inactive_off w I); [unfold active; by rewrite Es | exact Hon].
Qed.

Lemma deactivate_Inv terminated w r w' : Inv w -> deactivate true terminated w = Ret (r, w') -> Inv w'.
Proof.
  intros I. unfold deactivate.
  destruct (deactivateSupervision true (component w)) as [a c1] eqn:Ea.
  assert (a = true) as -> by (apply supervise_spec in Ea as [H' _]; apply H'; by right).
  apply deactivated_off in Ea. destruct (state_ (component w)) as [|h src|h| |] eqn:Es; try done; simpl.
  - pose proof (Inv_request_stop src w I (inv_source w I _ _ Es)) as I1.
    destruct (stop_action_ _ _ _) as [res|]; [simpl|done]. intros H. repeat (case_match; simplify_eq/=);
      apply Inv_leave_off; simpl; auto; rewrite Es; intros ? ? [= _ <-]; set_solver.
  - destruct (stop_action_ _ _ _) as [res|]; [simpl|done]. intros H. repeat (case_match; simplify_eq/=);
      apply Inv_leave_off; simpl; auto; by rewrite Es.
Qed.

Lemma tryHandleTermination_Inv status w r w' : Inv w -> tryHandleTermination true status w = Ret (r, w') -> Inv w'.
Proof.
  intros I. unfold tryHandleTermination.
  destruct (state_ (component w)) as [|h src|h|h|h] eqn:Es; try done.
  - destruct (acceptTermination _ _ _) as [[a n]|]; [simpl|done].
    assert (Hoff : ~ supervision_on (component w)) by (apply inactive_off; [done|]; unfold active; by rewrite Es).
    assert (I1 : Inv (set_component (set_state (StartingState (invalidate h) src) (component w)) w)).
    { apply Inv_state; simpl; try done; [intros ? ? [= _ <-]; by eapply inv_source | ].
      intros x Hx Hs. pose proof (inv_starting w I x Hx Hs) as H'. rewrite Es in H'. destruct H'.
      by split; [|apply same_resource_invalidate]. }
    repeat case_match; intros [= <- <-]; try (by apply Inv_post). 
    change (Inv (set_component (set_state (FaultState EmptyHandle) (component w)) (post n (request_stop src w)))).
    apply Inv_leave_off; simpl; auto; [apply Inv_post, Inv_request_stop; [done|by eapply inv_source]|].
    rewrite Es. intros ? ? [= _ <-]. set_solver.
  - destruct (deactivateSupervision _ _) as [a c1] eqn:Ea.
    assert (a = true) as -> by (apply supervise_spec in Ea as [H' _]; apply H'; by right). simpl.
    pose proof (deactivated_off _ _ _ Ea) as Hoff. apply supervise_spec in Ea as (_ & Ec & _). simpl in Ec.
    case_match; intros [= <- <-].
    + apply Inv_leave; auto; rewrite ?Es, ?Ec; try done.
      intros h' calls [= <-] Hr. by destruct (invalidate_not_running h).
    + apply Inv_leave_off; simpl; auto. by rewrite Es.
  - intros [= <- <-]. apply Inv_leave_off; simpl; auto; [by rewrite Es|].
    eapply inactive_off in I; [done|]. unfold active. by rewrite Es.
Qed.

Lemma perform_Inv o w w' : Inv w -> reliable o = true -> perform o w = Ret w' -> Inv w'.
Proof.
  intros I Hr. destruct o as [started|i answer ok|ok terminated|ok status|i]; simpl in *.
  - destruct (activate_begin started w) as [[r w1]|] eqn:E; [|done]. intros [= <-]. by eapply activate_begin_Inv.
  - destruct (waiting w !! i) as [[h src]|] eqn:Ei; [|by intros [= <-]].
    destruct (activate_end h src answer ok w) as [[r w1]|] eqn:E; [|done]. intros [= <-].
    eapply activate_end_Inv; [done| |done]. by eapply list_elem_of_lookup_2.
  - subst. destruct (deactivate true terminated w) as [[r w1]|] eqn:E; [|done]. intros [= <-]. by eapply deactivate_Inv.
  - subst. destruct (tryHandleTermination true status w) as [[r w1]|] eqn:E; [|done]. intros [= <-].
    by eapply tryHandleTermination_Inv.
  - destruct (waiting w !! i) as [[h src]|] eqn:Ei; intros [= <-]; [|done].
    apply Inv_request_stop; [done|]. by eapply (inv_fresh w I (h, src)), list_elem_of_lookup_2.
Qed.

Lemma component_run_Inv ops w w' : Inv w -> Forall (fun o => reliable o = true) ops -> run ops w = Ret w' -> Inv w'.
Proof.
  intros I Ho. revert w I. unfold run. induction Ho as [|o ops Hr _ IH]; intros w I; simpl; [by intros [= <-]|].
  destruct (perform o w) as [w1|] eqn:E; [simpl|done]. intros H. eapply IH; [|done]. by eapply perform_Inv.
Qed.


Lemma activate_end_outcome h src answer ok rd w :
  Inv w -> (h, src) ∈ waiting w -> wait (ready_condition_ (component w)) answer h = Ret rd ->
  returns (activate_end h src answer ok w) (fun '(r, w') =>
    (r = kSuccess <-> rd = true /\ src ∉ stop_requested w /\ (supervision_handle_ (component w) = None \/ ok = true)) /\
    (r = kSuccess -> active (component w') = true) /\
    (r <> kSuccess -> component w' = component w \/ exists h', state_ (component w') = FaultState h')).
Proof.
  intros I Hx Hw. unfold activate_end. rewrite Hw. simpl.
  destruct rd; simpl; [|naive_solver]. case_bool_decide as Hs; [simpl; naive_solver|].
  pose proof (inv_starting w I _ Hx Hs) as H'. destruct (state_ (component w)) as [|h0 src0| | |] eqn:Es; try done.
  destruct (activateSupervision ok (component w)) as [a c1] eqn:Ea.
  apply supervise_spec in Ea as (Hiff & _). destruct a; simpl; naive_solver.
Qed.

(** C9: [Component::activate] gives up its lock while it waits for the ready
    condition.  Whatever other activations, deactivations, terminations and stop
    requests come between, as long as the supervision could be switched off when
    asked to: the activation never reaches the place that the code calls
    unreachable; it succeeds exactly when the condition became true, nobody asked it
    to stop and the supervision (if there is one) could be switched on, and then the
    component is active; a failed one leaves the component alone or in
    [FaultState].  At most one waiting activation is not asked to stop, and it is the
    one the component is starting for.  The supervision is on only while the
    component is active, and is on while an active component has a running process. *)
Theorem activation_outcome ty self has f start stop force ready env c env' ops w h src answer ok rd :
  make ty self has f start stop force ready env = Ret (c, env') ->
  Forall (fun o => reliable o = true) ops -> run ops (initial c) = Ret w ->
  (h, src) ∈ waiting w -> wait (ready_condition_ (component w)) answer h = Ret rd ->
  returns (activate_end h src answer ok w) (fun '(r, w') =>
    ((r = kSuccess <-> rd = true /\ src ∉ stop_requested w /\ (supervision_handle_ (component w) = None \/ ok = true)) /\
     (r = kSuccess -> active (component w') = true) /\
     (r <> kSuccess -> component w' = component w \/ exists h', state_ (component w') = FaultState h')) /\
    (supervision_on (component w') -> active (component w') = true) /\
    (forall h' calls, state_ (component w') = ReadyState h' -> running h' ->
       supervision_handle_ (component w') = Some calls -> supervision_on (component w'))) /\
  (forall x, x ∈ waiting w -> x.2 ∉ stop_requested w -> starting_for (state_ (component w)) x).
Proof.
  intros Hm Hops Hrun Hx Hw. apply make_Inv in Hm.
  pose proof (component_run_Inv _ _ _ Hm Hops Hrun) as I. split; [|apply (inv_starting w I)].
  pose proof (activate_end_outcome h src answer ok rd w I Hx Hw) as Ho.
  destruct (activate_end h src answer ok w) as [[r w']|] eqn:E; [simpl in *|done].
  apply activate_end_Inv in E as I'; [|done..]. split; [done|]. split; [apply I'|].
  intros h' calls Hs Hr Hc. exists calls. split; [done|]. by eapply inv_running.
Qed.

Module Example.

Definition process (ty : ProcessInfoNode.ApplicationType) (ready : ReadyCondition) : outcome (t * Environment.t) :=
  make ty false true (Some "/alive") ProcessStartAction ProcessStopAction ProcessForceStopAction ready Environment.make.

Definition after (ready : ReadyCondition) (ops : list op) : outcome world :=
  '(c, _) ← process ProcessInfoNode.ReportingAndSupervised ready; run ops (initial c).

(** An activation is cancelled, the process is stopped and started again: the first
    activation and the second one wait at the same time. *)
Definition restart : list op := [Activate (Some (10%Z, true)); Deactivate true true; Terminate true 15; Activate (Some (11%Z, true))].

Lemma activation_outcome_witness :
  exists c env w, process ProcessInfoNode.ReportingAndSupervised FileReadyCondition = Ret (c, env) /\
    run restart (initial c) = Ret w /\ waiting w = [(ProcessHandle 10 true, 0); (ProcessHandle 11 true, 1)] /\
    returns (activate_end (ProcessHandle 11 true) 1 true true w) (fun '(r, w') => r = kSuccess).
Proof.
  eexists _, _, _. split; [reflexivity|]. split; [reflexivity|]. split; [reflexivity|].
  epose proof (activation_outcome ProcessInfoNode.ReportingAndSupervised false true (Some "/alive") ProcessStartAction
    ProcessStopAction ProcessForceStopAction FileReadyCondition Environment.make _ _ restart _ (ProcessHandle 11 true) 1
    true true true ltac:(reflexivity) ltac:(repeat constructor) ltac:(reflexivity) ltac:(simpl; right; left)
    ltac:(reflexivity)) as [H _].
  eapply returns_mono; [exact H|]. intros [r w'] [[[_ Hr] _] _]. apply Hr.
  split; [done|]. split; [by vm_compute | by right].
Defined.

(** The start of a component succeeds, it becomes active, and it can be started again. *)
Example cycle : exists w,
  after FileReadyCondition [Activate (Some (10%Z, true)); EndActivation 0 true true; Deactivate true true; Terminate true 0;
                            Activate (Some (11%Z, true)); EndActivation 0 true true] = Ret w /\
  state_ (component w) = ReadyState (ProcessHandle 11 true).
Proof. eexists. split; reflexivity. Qed.

(** When the supervision cannot be switched off, a deactivation leaves a starting
    component in [FaultState] and does not stop the activation, which then reaches
    the unreachable place. *)
Example failed_deactivation_aborts_activation :
  after FileReadyCondition [Activate (Some (10%Z, true)); Deactivate false true; EndActivation 0 true true] = Abort AssertionFailed.
Proof. reflexivity. Qed.

(** [FaultState] is not left: also the termination of the process that is still
    running then is an assertion failure. *)
Example fault_state_is_final h w o :
  state_ (component w) = FaultState h ->
  match o with Activate _ | Deactivate _ _ | Terminate _ _ => perform o w = Abort AssertionFailed | _ => True end.
Proof.
  intros Hs. destruct o; simpl; try done; unfold activate_begin, deactivate, tryHandleTermination; by rewrite Hs.
Qed.

(** After a ready condition that failed the component is still starting, and cannot be
    activated before it was deactivated. *)
Example failed_wait_needs_deactivation :
  after FileReadyCondition [Activate (Some (10%Z, true)); EndActivation 0 false true; Activate (Some (11%Z, true))] = Abort AssertionFailed.
Proof. reflexivity. Qed.

(** A process that dies while it is starting is reported as started: [activate] waits
    with its own copy of the handle, in which the process is still valid. *)
Example dead_process_becomes_ready : exists w,
  after ReportRunningReadyCondition [Activate (Some (10%Z, true)); Terminate true 1; EndActivation 0 true true] = Ret w /\
  posts w = 1 /\ state_ (component w) = ReadyState (ProcessHandle (-1) true).
Proof. eexists. split; [|split]; reflexivity. Qed.

(** A component whose process is gone waits in [TerminatingState] for a termination
    that does not come, and cannot be activated again. *)
Example deactivated_after_exit : exists w,
  after ReportRunningReadyCondition [Activate (Some (10%Z, true)); Terminate true 1; EndActivation 0 true true; Deactivate true true] = Ret w /\
  state_ (component w) = TerminatingState (ProcessHandle (-1) true) /\
  perform (Activate (Some (11%Z, true))) w = Abort AssertionFailed.
Proof. eexists. split; [|split]; reflexivity. Qed.

End Example.

End ManagedComponentProofs.
