(* ===== verification/Control.v ===== *)
(** * The control interface

    How a state manager talks to the Launch Manager: the messages of
    lm_control/src/details/lm_control_service.h, the service side
    [BasicControlProvider] (control/control_provider.hpp) and the client side
    [BasicLmControlImpl] (lm_control/src/details/lm_control_impl.hpp).  The
    communication middleware between them is not part of the repository: its
    answers are parameters.  The proofs are in [ControlProofs]. *)

From Stdlib Require Import Ascii.
From stdpp Require Import prelude fin_maps gmap strings.
From S2P Require Import Prelude Queues Depgraph Components Transitions Graphs Manager Names.

(** ** Messages *)

Definition kMaxRunTargetNameLength : nat := 128.

Inductive ActivationMode := kQueued | kForced.

#[export] Instance ActivationMode_eq_dec : EqDecision ActivationMode.
Proof. solve_decision. Defined.

Record ActivateRunTargetRequest := mkActivateRequest {
  run_target_name : FixedString.t;
  mode : ActivationMode
}.

Inductive RequestStatus := kAccepted | kRejected.

Record ActivateRunTargetResponse := mkActivateResponse {
  status : RequestStatus;
  rejection_reason : ExecErrc
}.

Inductive QueryStatus := kAvailable | kNotAvailable.

Record GetActiveRunTargetResponse := mkActiveResponse {
  query_status : QueryStatus;
  response_run_target : FixedString.t
}.

Record ActivationResult := mkActivationResult {
  activated_run_target : FixedString.t;
  activation_source : RunTargetActivationSource
}.

(** [RunTargetName(view)]; the memory it is built in is [junk]. *)
Definition RunTargetName (junk : chars) (s : chars) : FixedString.t :=
  FixedString.of_view kMaxRunTargetNameLength s junk.

(** [std::string_view] from the pointer that [data()] returns. *)
Definition view_of (f : FixedString.t) : outcome chars := value_of (FixedString.as_string_view f).

(** ** What the provider asks of the manager *)

Class IRunTargetControl (G : Type) := {
  rtc_getActiveRunTarget : G -> outcome ((IdentifierHash + ExecErrc) * G);
  rtc_setRequestedRunTarget : IdentifierHash -> G -> outcome ((unit + ExecErrc) * G)
}.

Module ControlProvider.

(** The result of a call of the middleware. *)
Notation com_result := bool.

(** [Create]: the results of its steps, in order; the provider exists when all of
    them succeed.  A failed step ends the construction. *)
Definition Create (specifier skeleton register_activate register_active offer : com_result) : unit + ExecErrc :=
  if negb specifier then inr kCommunicationError
  else if negb skeleton then inr kCommunicationError
  else if negb register_activate then inr kCommunicationError
  else if negb register_active then inr kCommunicationError
  else if negb offer then inr kCommunicationError
  else inl tt.

(** The loop of [offerService] over the first file descriptors: [flags] are the
    answers of [F_GETFD], [None] for a descriptor that is not open; [set_ok] says
    where [F_SETFD] succeeds. *)
Definition FD_CLOEXEC : Z := 1.

Definition offer_fd (set_ok : nat -> bool) (flags : nat -> option Z) (fd : nat) : option Z :=
  if bool_decide (fd < 3) then flags fd
  else
    match flags fd with
    | Some f => if set_ok fd then Some (Z.lor f FD_CLOEXEC) else Some f
    | None => None
    end.

Definition offerService (set_ok : nat -> bool) (flags : nat -> option Z) : nat -> option Z :=
  fun fd => if bool_decide (fd < 16) then offer_fd set_ok flags fd else flags fd.

Section Provider.
Context (fnv1a : chars -> IdentifierHash) {G : Type} `{IRunTargetControl G}.

Definition handleActivateRunTarget (request : ActivateRunTargetRequest) (registry : gmap IdentifierHash chars) (graph : G) :
    outcome (ActivateRunTargetResponse * G) :=
  if bool_decide (mode request <> kForced) then Ret (mkActivateResponse kRejected kNotImplemented, graph)
  else
    name ← view_of (run_target_name request);
    match Identifier.if_exists fnv1a name registry with
    | None => Ret (mkActivateResponse kRejected kRunTargetDoesntExist, graph)
    | Some new_state =>
        '(result, graph') ← rtc_setRequestedRunTarget new_state graph;
        match result with
        | inr e => Ret (mkActivateResponse kRejected e, graph')
        | inl _ => Ret (mkActivateResponse kAccepted kGeneralError, graph')
        end
    end.

Definition handleGetActiveRunTarget (junk : chars) (registry : gmap IdentifierHash chars) (graph : G) :
    outcome (GetActiveRunTargetResponse * gmap IdentifierHash chars * G) :=
  '(result, graph') ← rtc_getActiveRunTarget graph;
  match result with
  | inr e =>
      _ ← assert (bool_decide (e = kActivationInProgress));
      Ret (mkActiveResponse kNotAvailable (RunTargetName junk []), registry, graph')
  | inl h =>
      let '(name, registry') := Identifier.get_name h registry in
      Ret (mkActiveResponse kAvailable (RunTargetName junk name), registry', graph')
  end.

(** [handleActivationResult]: the event that is sent, if [Allocate] and [Send] succeed. *)
Definition handleActivationResult (junk : chars) (allocated sent : com_result) (state : IdentifierHash)
    (source : RunTargetActivationSource) (registry : gmap IdentifierHash chars) :
    option ActivationResult * gmap IdentifierHash chars :=
  if negb allocated then (None, registry)
  else
    let '(name, registry') := Identifier.get_name state registry in
    let event := mkActivationResult (RunTargetName junk name) source in
    (if (sent : bool) then Some event else None, registry').

End Provider.
End ControlProvider.

(** ** The client *)

(** A proxy of the service: what its calls answer, [None] or [false] for an error
    of the middleware. *)
Class Proxy (X : Type) := {
  proxy_activate : ActivateRunTargetRequest -> X -> option ActivateRunTargetResponse * X;
  proxy_get_active : X -> option GetActiveRunTargetResponse * X;
  Subscribe : nat -> X -> bool * X;
  SetReceiveHandler : X -> bool * X;
  GetNewSamples : nat -> X -> option (list ActivationResult) * X;
  Unsubscribe : X -> X
}.

Module LmControl.

Definition kActivationResultSampleCount : nat := 4.

Section Client.
Context {X : Type} `{Proxy X} `{BuildMode}.

(** [forwarded_] records the calls of user callbacks, by the number of the callback. *)
Record t := mk {
  proxy_ : option X;
  find_handle_ : option nat;
  callback_ : option nat;
  forwarded_ : list (nat * ActivationResult)
}.

Definition set_proxy (p : option X) (c : t) : t := mk p (find_handle_ c) (callback_ c) (forwarded_ c).
Definition set_forwarded (l : list (nat * ActivationResult)) (c : t) : t := mk (proxy_ c) (find_handle_ c) (callback_ c) l.

Definition make : t := mk None None None [].

(** What setting up the discovery comes to. *)
Inductive Setup := InvalidSpecifier | StartFailed | Started (handle : nat) | Thrown.

Definition init (setup : Setup) (c : t) : outcome ((unit + ExecErrc) * t) :=
  _ ← assert (bool_decide (find_handle_ c = None));
  Ret match setup with
      | InvalidSpecifier => (inr kInvalidArguments, c)
      | StartFailed => (inr kCommunicationError, c)
      | Started h => (inl tt, mk (proxy_ c) (Some h) (callback_ c) (forwarded_ c))
      | Thrown => (inr kGeneralError, c)
      end.

(** [CreateLmControl] *)
Definition create (setup : Setup) : outcome (t + ExecErrc) :=
  '(r, c) ← init setup make;
  Ret (match r with inl _ => inl c | inr e => inr e end).

Definition connectedProxy (c : t) : option X := proxy_ c.

Definition createProxy (created : option X) (c : t) : outcome (bool * t) :=
  _ ← assert_dbg (bool_decide (proxy_ c = None));
  Ret match created with
      | None => (false, c)
      | Some x => (true, set_proxy (Some x) c)
      end.

Definition subscribeToActivationResults (c : t) : outcome (bool * t) :=
  match proxy_ c with
  | None => if dbg_checks then Abort AssertionFailed else Abort NullPointer
  | Some x =>
      let '(subscribed, x1) := Subscribe kActivationResultSampleCount x in
      if negb subscribed then Ret (false, set_proxy None c)
      else
        let '(installed, x2) := SetReceiveHandler x1 in
        if negb installed then Ret (false, set_proxy None c)
        else Ret (true, set_proxy (Some x2) c)
  end.

(** [created]: what [Traits::Create] answers for the first handle. *)
Definition onServiceFound (handles : nat) (created : option X) (c : t) : outcome t :=
  if bool_decide (handles = 0) || bool_decide (is_Some (proxy_ c)) then Ret c
  else
    '(ok, c1) ← createProxy created c;
    if (ok : bool) then '(_, c2) ← subscribeToActivationResults c1; Ret c2 else Ret c1.

Definition activate_run_target (runTargetName : FixedString.t) (force : bool) (c : t) : (unit + ExecErrc) * t :=
  match connectedProxy c with
  | None => (inr kCommunicationError, c)
  | Some x =>
      let request := mkActivateRequest runTargetName (if force then kForced else kQueued) in
      let '(result, x') := proxy_activate request x in
      let c' := set_proxy (Some x') c in
      match result with
      | None => (inr kCommunicationError, c')
      | Some response =>
          match status response with
          | kRejected => (inr (rejection_reason response), c')
          | kAccepted => (inl tt, c')
          end
      end
  end.

Definition get_active_run_target (c : t) : (FixedString.t + ExecErrc) * t :=
  match connectedProxy c with
  | None => (inr kCommunicationError, c)
  | Some x =>
      let '(result, x') := proxy_get_active x in
      let c' := set_proxy (Some x') c in
      match result with
      | None => (inr kCommunicationError, c')
      | Some response =>
          match query_status response with
          | kNotAvailable => (inr kActivationInProgress, c')
          | kAvailable => (inl (response_run_target response), c')
          end
      end
  end.

(** [forwardSample]; exceptions of the callback are caught. *)
Definition forwardSample (callback : option nat) (log : list (nat * ActivationResult)) (sample : ActivationResult) :
    list (nat * ActivationResult) :=
  match callback with None => log | Some f => log ++ [(f, sample)] end.

(** The loop of [readActivationEvents]; [fuel] counts the batches. *)
Fixpoint read_loop (fuel : nat) (callback : option nat) (x : X) (log : list (nat * ActivationResult)) :
    outcome (X * list (nat * ActivationResult)) :=
  match fuel with
  | 0 => Abort OutOfFuel
  | S fuel' =>
      let '(get_result, x') := GetNewSamples kActivationResultSampleCount x in
      match get_result with
      | None => Ret (x', log)
      | Some batch =>
          let log' := foldl (forwardSample callback) log batch in
          if length batch <? kActivationResultSampleCount then Ret (x', log')
          else read_loop fuel' callback x' log'
      end
  end.

Definition readActivationEvents (fuel : nat) (c : t) : outcome t :=
  match proxy_ c with
  | None => Abort AssertionFailed
  | Some x =>
      '(x', log) ← read_loop fuel (callback_ c) x (forwarded_ c);
      Ret (mk (Some x') (find_handle_ c) (callback_ c) log)
  end.

Definition onActivationResult (fuel : nat) (c : t) : outcome t := readActivationEvents fuel c.

(** An empty callback is [None]. *)
Definition register_run_target_activation_callback (fuel : nat) (callback : option nat) (c : t) :
    outcome ((unit + ExecErrc) * t) :=
  match callback with
  | None => Ret (inr kInvalidArguments, c)
  | Some f =>
      let c1 := mk (proxy_ c) (find_handle_ c) (Some f) (forwarded_ c) in
      match connectedProxy c1 with
      | Some _ => c2 ← onActivationResult fuel c1; Ret (inl tt, c2)
      | None => Ret (inl tt, c1)
      end
  end.

Definition awaitNotificationRegistration (c : t) : outcome t :=
  match connectedProxy c with
  | None => Abort AssertionFailed
  | Some x => Ret (set_proxy (Some (proxy_get_active x).2) c)
  end.

(** The state when the wait ends: connected, or timed out or stopped. *)
Definition wait_for_connection (c : t) : outcome ((unit + ExecErrc) * t) :=
  match proxy_ c with
  | None => Ret (inr kCommunicationError, c)
  | Some _ => c' ← awaitNotificationRegistration c; Ret (inl tt, c')
  end.

(** The destructor: whether the discovery was stopped, and what is left of the proxy. *)
Definition destroy (c : t) : option nat * option X :=
  (find_handle_ c, option_map Unsubscribe (proxy_ c)).

End Client.
Arguments t : clear implicits.
End LmControl.
