(* ===== verification/ControlProofs.v ===== *)
(** * The control interface: proofs

    A request of the client goes through the provider and the event queue to the
    main loop and comes back as the answer of the call.  The theorems follow it
    through all of them, for activation requests and for the query of the
    active Run Target; and the delivery of activation results to the client's callback. *)

From Stdlib Require Import Ascii.
From stdpp Require Import prelude fin_maps gmap relations strings.
From S2P Require Import Prelude Queues Depgraph Components Transitions TransitionProofs.
From S2P Require Import TransitionSystem Graphs GraphProofs Manager ManagerProofs Names Control.
Import DependencyGraph TransitionProofs TransitionSystem GraphProofs ManagerProofs.

Module ControlProofs.

Section Service.
Context `{!IterOrder IdentifierHash} {P : Type} `{ProcessNode P} {Q : Type} `{WorkerQueue Q} `{BuildMode}.
Context (fnv1a : chars -> IdentifierHash).

(** The manager hashes its own names with the same function. *)
Definition hash (s : string) : IdentifierHash := fnv1a (String.list_ascii_of_string s).

Notation pgraph := (Graph.t P Q).
Notation manager := (ProcessGroupManager.t P Q).

Implicit Types (g : pgraph) (m : manager) (E : list ComponentEvent).

Context (push_only_times_out : forall task (q q' : Q) e, wq_push task q = (inr e, q') -> e = kErrTimeout).

(** ** The manager as the provider sees it

    A call pushes its event and waits on its slot while the main loop does its
    next round. *)

Definition completion (slot : nat) m : option response :=
  snd <$> head (filter (fun c => c.1 = slot) (ProcessGroupManager.completions_ m)).

Definition wait (slot : nat) m : outcome response :=
  match completion slot m with Some r => Ret r | None => Abort OutOfFuel end.

Definition call {A} (now : Z) (slot : nat) (answer : response -> option A) (pushed : option A * manager) : outcome (A * manager) :=
  match pushed with
  | (Some a, m1) => Ret (a, m1)
  | (None, m1) =>
      m2 ← ProcessGroupManager.run_cycle hash now m1;
      r ← wait slot m2;
      match answer r with Some a => Ret (a, m2) | None => Abort OutOfRange end
  end.

#[local] Instance manager_control (now : Z) (slot : nat) : IRunTargetControl manager := {|
  rtc_getActiveRunTarget m :=
    call now slot (fun r => match r with ActiveRunTarget a => Some a | SetRequested _ => None end)
      (ProcessGroupManager.getActiveRunTarget slot m);
  rtc_setRequestedRunTarget target m :=
    call now slot (fun r => match r with SetRequested a => Some a | ActiveRunTarget _ => None end)
      (ProcessGroupManager.setRequestedRunTarget target slot m)
|}.

(** ** One round with a request at the end of the queue *)

Definition stopped m : bool := MpscBoundedQueue.stopped_ (ComponentEventQueue.queue_ (ProcessGroupManager.event_queue_ m)).
Definition room m E : Prop :=
  length E < MpscBoundedQueue.capacity (ComponentEventQueue.queue_ (ProcessGroupManager.event_queue_ m)).

Definition request_event (e : ComponentEvent) : Prop :=
  match e with GetActiveRunTarget _ | SetRequestedRunTarget _ _ => True | _ => False end.

Lemma sys_of_request g i E e : request_event e -> sys_of g i (E ++ [e]) = sys_of g i E.
Proof.
  intros He. unfold sys_of, failed_of, skipped_of, finished_of. rewrite !omap_app.
  destruct e; try done; simpl; by rewrite !app_nil_r.
Qed.

Lemma push_request e m i E :
  mgr_inv hash m i E -> stopped m = false -> room m E -> request_event e ->
  exists q, ComponentEventQueue.push e (ProcessGroupManager.event_queue_ m) = (true, q) /\
    mgr_inv hash (ProcessGroupManager.set_queue q m) i (E ++ [e]) /\ stopped (ProcessGroupManager.set_queue q m) = false.
Proof.
  intros [] Hst Hr He. unfold stopped, room in *. unfold ComponentEventQueue.push.
  pose proof (MpscBoundedQueue.push_spec _ _ _ e mi_queue0) as Hp.
  destruct (MpscBoundedQueue.push e _) as [r q]. destruct Hp as (_ & Hs & Hp).
  rewrite Hst, bool_decide_eq_false_2 in Hp by lia. destruct Hp as [-> Hq].
  eexists. split; [reflexivity|]. split; [|by simpl; rewrite Hs, Hst].
  split; simpl; [done | by rewrite sys_of_request | | done].
  apply Forall_app. split; [done|]. repeat constructor. by destruct e.
Qed.

(** The state in which the request is handled. *)
Record handled_in (now : Z) m i E (mp : manager) (new : list ComponentTask) : Prop := {
  hi_graph : graph_inv (sys_of (ProcessGroupManager.graph_ mp) (i ++ new) []);
  hi_static : static_ok hash (ProcessGroupManager.graph_ mp);
  hi_slots : completed_slots mp = completed_slots m ++ slots_of E;
  hi_kind k : is_target (Graph.nodes_ (ProcessGroupManager.graph_ mp)) k = is_target (Graph.nodes_ (ProcessGroupManager.graph_ m)) k;
  hi_events : exists me, handle_all hash now m E = Ret me /\ ProcessGroupManager.graph_ mp = ProcessGroupManager.graph_ me
}.

Lemma request_round now m i E e :
  mgr_inv hash m i (E ++ [e]) -> stopped m = false -> request_event e ->
  exists mp new m2 mf new', handled_in now m i E mp new /\
    ProcessGroupManager.process_event hash now e mp = Ret m2 /\
    ProcessGroupManager.run_cycle hash now m = Ret mf /\
    ProcessGroupManager.completions_ mf = ProcessGroupManager.completions_ m2 /\
    ProcessGroupManager.processGroupHandler hash now (ProcessGroupManager.graph_ m2) = Ret (ProcessGroupManager.graph_ mf) /\
    mgr_inv hash mf (i ++ new') [] /\
    exists j, graph_inv (sys_of (ProcessGroupManager.graph_ m2) j []) /\ static_ok hash (ProcessGroupManager.graph_ m2).
Proof.
  intros Hm Hst He. pose proof Hm as []. unfold ProcessGroupManager.run_cycle.
  destruct (waitForEvents_spec _ _ mi_queue0) as (q & -> & Hq & _ & _). unfold stopped in Hst. rewrite Hst.
  rewrite bool_decide_eq_false_2 by (by destruct E). cbn [negb andb mbind outcome_bind].
  assert (Hm0 : mgr_inv hash (ProcessGroupManager.set_queue q m) i (E ++ [e])) by (by split).
  unfold ProcessGroupManager.processComponentEvents. rewrite (queue_length_rep _ (E ++ [e])) by apply Hm0.
  destruct (process_loop_prefix hash push_only_times_out now E [e] (length (E ++ [e])) _ i Hm0)
    as (m1 & new & -> & [] & Hsl & [Hk _] & mf & Hmf & Eqf); [rewrite length_app; lia|].
  replace (length (E ++ [e]) - length E) with 1 by (rewrite length_app; simpl; lia).
  destruct (getNextEvent_spec _ _ mi_queue1) as (q1 & Hrun1 & Hq1 & _ & _).
  cbn [ProcessGroupManager.process_loop]. rewrite Hrun1. cbn [mbind outcome_bind head].
  set (mp := ProcessGroupManager.set_queue q1 m1).
  destruct (process_event_spec hash push_only_times_out now e mp [] (i ++ new)) as (m2 & new2 & Hev & []); [done| |done|].
  { apply Forall_cons in mi_legit1 as [? _]. done. }
  rewrite Hev. cbn [mbind outcome_bind].
  destruct (getNextEvent_spec (ProcessGroupManager.event_queue_ m2) []) as (q2 & -> & Hq2 & _ & _); [by rewrite eh_queue0|].
  cbn [mbind outcome_bind head]. cbv zeta.
  set (m3 := if ComponentEventQueue.getOverflow _ && _ then _ else _).
  assert (E3 : ProcessGroupManager.graph_ m3 = ProcessGroupManager.graph_ m2 /\ ProcessGroupManager.event_queue_ m3 = q2 /\
    ProcessGroupManager.completions_ m3 = ProcessGroupManager.completions_ m2) by (unfold m3; by case_match).
  destruct E3 as (E31 & E32 & E33). clearbody m3. rewrite E31.
  destruct (processGroupHandler_spec hash push_only_times_out now _ _ _ eh_graph0 eh_static0) as (g' & new' & Hh & Hg' & Hs' & _ & _ & _).
  rewrite Hh. cbn [mbind outcome_bind].
  exists mp, new, m2. eexists _, (new ++ new2 ++ new'). split_and!; [|done|reflexivity|done|done| |eauto].
  - split; [|done|done|done|]; [rewrite <- (sys_of_request _ _ [] e He); done|].
    rewrite handle_all_queue in Hmf. destruct (handle_all hash now m E) as [me|]; [|done]. injection Hmf as <-.
    exists me. split; [done|]. unfold mp. simpl. by rewrite <- Eqf.
  - split; simpl; [by rewrite E32| |by apply Forall_nil|done]. by rewrite !app_assoc.
Qed.

(** ** Activation requests *)

(** The answer to a request for [target] when the graph is [g]. *)
Definition answer g (target : IdentifierHash) : unit + ExecErrc :=
  let requested := Graph.requested_state_ g in
  if negb (bool_decide (valid_target g target)) then inr kRunTargetDoesntExist
  else
    match Graph.state_ g with
    | kInTransition => if bool_decide (requested = target) then inr kInTransitionToSameState else inl tt
    | kGraphSuccess => if bool_decide (requested = target) then inr kAlreadyInState else inl tt
    | kAborting | kUndefinedState => inl tt
    end.

(** An accepted request is being served: its transition is the current one, or it
    is pending and the previous transition is being aborted. *)
Definition in_force g (target : IdentifierHash) : Prop :=
  Graph.requested_state_ g = target \/ Graph.state_ g = kAborting /\ run_target (Graph.pending_ g) = target.

Lemma cancel_running g :
  Graph.state_ g = kInTransition -> Graph.state_ (Graph.cancel g) = kAborting \/ Graph.state_ (Graph.cancel g) = kUndefinedState.
Proof.
  intros Hg. unfold Graph.cancel. destruct (setState_abort g) as (_ & Hs & _). rewrite Hg in Hs.
  set (g1 := (Graph.setState kAborting g).2) in *. clearbody g1.
  case_match; [by left|]. right. unfold Graph.setState. by rewrite Hs.
Qed.

Lemma set_requested_effect now target slot m :
  let m' := ProcessGroupManager.handleSetRequestedRunTarget now target (Some slot) m in
  let g := ProcessGroupManager.graph_ m in
  ProcessGroupManager.completions_ m' = ProcessGroupManager.completions_ m ++ [(slot, SetRequested (answer g target))] /\
  (answer g target = inl tt ->
   run_target (Graph.pending_ (ProcessGroupManager.graph_ m')) = target /\
   Graph.state_ (ProcessGroupManager.graph_ m') <> kInTransition /\
   (Graph.state_ (ProcessGroupManager.graph_ m') = kGraphSuccess ->
    Graph.requested_state_ (ProcessGroupManager.graph_ m') <> target)).
Proof.
  unfold ProcessGroupManager.handleSetRequestedRunTarget, answer, Graph.getState, Graph.getRequestedRunTarget.
  rewrite isValidRunTarget_spec. cbv zeta. set (g := ProcessGroupManager.graph_ m).
  destruct (bool_decide (valid_target g target)); [cbn [negb]|done].
  assert (Hc : run_target (Graph.pending_ (Graph.cancel (pend now target kStateManagerRequest g))) = target)
    by by rewrite (sf_pending _ _ (cancel_face _)).
  destruct (Graph.state_ g) eqn:Es; repeat (case_bool_decide; try done); cbn; split_and!; try done.
  all: intros _.
  all: try (split_and!; [done | congruence | congruence]).
  - split_and!; [exact Hc | apply cancel_not_running|]. intros Hx.
    by destruct (cancel_running (pend now target kStateManagerRequest g) Es) as [E1|E1]; discriminate (eq_trans (eq_sym Hx) E1).
Qed.

Lemma handler_in_force now g g' j target :
  graph_inv (sys_of g j []) -> static_ok hash g -> run_target (Graph.pending_ g) = target -> target <> hash "" ->
  Graph.state_ g <> kInTransition -> (Graph.state_ g = kGraphSuccess -> Graph.requested_state_ g <> target) ->
  ProcessGroupManager.processGroupHandler hash now g = Ret g' -> in_force g' target.
Proof.
  intros Hg Hs Hp Hn Ht Hr Hrun.
  destruct (processGroupHandler_spec hash push_only_times_out now _ _ _ Hg Hs) as (g1 & new & Hrun1 & _ & _ & _ & _ & Hreq).
  rewrite Hrun1 in Hrun. injection Hrun as ->. unfold next_target in Hreq. rewrite Hp in Hreq.
  rewrite (bool_decide_eq_true_2 (target <> hash "")) in Hreq by done.
  destruct (Graph.state_ g) eqn:Es; [left | done | right | left].
  - rewrite Hreq by by left. rewrite bool_decide_eq_true_2 by naive_solver. done.
  - unfold ProcessGroupManager.processGroupHandler, Graph.getState in Hrun1. rewrite Es in Hrun1. by injection Hrun1 as <-.
  - rewrite Hreq by by right. by rewrite orb_true_r.
Qed.

Lemma completion_last slot m1 m2 r :
  slot ∉ completed_slots m1 -> ProcessGroupManager.completions_ m2 = ProcessGroupManager.completions_ m1 ++ [(slot, r)] ->
  completion slot m2 = Some r.
Proof.
  intros Hs Hc. unfold completion. rewrite Hc, filter_app. unfold completed_slots in Hs.
  destruct (filter _ (ProcessGroupManager.completions_ m1)) as [|c l] eqn:E.
  - simpl. by rewrite filter_cons_True.
  - assert (c ∈ filter (fun c => c.1 = slot) (ProcessGroupManager.completions_ m1)) as [Hc1 Hin]%list_elem_of_filter by (rewrite E; left).
    destruct Hs. rewrite <- Hc1. by apply list_elem_of_fmap_2.
Qed.

(** A call of the manager while the main loop runs: it is answered by what the
    events before it have made of the graph. *)
Lemma set_call now slot target m i E :
  mgr_inv hash m i E -> stopped m = false -> room m E -> slot ∉ completed_slots m ++ slots_of E -> target <> hash "" ->
  exists me m' new, handle_all hash now m E = Ret me /\
    rtc_setRequestedRunTarget (IRunTargetControl := manager_control now slot) target m =
      Ret (answer (ProcessGroupManager.graph_ me) target, m') /\
    mgr_inv hash m' (i ++ new) [] /\
    (forall k, is_target (Graph.nodes_ (ProcessGroupManager.graph_ me)) k = is_target (Graph.nodes_ (ProcessGroupManager.graph_ m)) k) /\
    (answer (ProcessGroupManager.graph_ me) target = inl tt -> in_force (ProcessGroupManager.graph_ m') target).
Proof.
  intros Hm Hst Hr Hsl Hn.
  destruct (push_request (SetRequestedRunTarget target (Some slot)) m i E Hm Hst Hr) as (q & Hpush & Hm1 & Hst1); [done|].
  destruct (request_round now _ i E _ Hm1 Hst1) as (mp & new & m2 & mf & new' & [] & Hev & Hrun & Hc & Hh & Hmf & j & Hg2 & Hs2); [done|].
  injection Hev as <-. destruct (set_requested_effect now target slot mp) as [Hc2 Hf].
  destruct hi_events0 as (mq & Hall & Eg). rewrite handle_all_queue in Hall.
  destruct (handle_all hash now m E) as [me|]; [|done]. injection Hall as <-. simpl in Eg.
  exists me, mf, new'. rewrite <- Eg. split_and!; [done| |done|done|].
  - cbn [rtc_setRequestedRunTarget manager_control]. unfold ProcessGroupManager.setRequestedRunTarget. rewrite Hpush. cbn [call].
    rewrite Hrun. cbn [mbind outcome_bind]. unfold wait.
    rewrite (completion_last slot mp mf (SetRequested (answer (ProcessGroupManager.graph_ mp) target))); [done| |by rewrite Hc].
    by rewrite hi_slots0.
  - intros Ha. destruct (Hf Ha) as (? & ? & ?). by eapply handler_in_force.
Qed.

Lemma get_call now slot m i E :
  mgr_inv hash m i E -> stopped m = false -> room m E -> slot ∉ completed_slots m ++ slots_of E ->
  exists me j m' new, handle_all hash now m E = Ret me /\
    let g := ProcessGroupManager.graph_ me in
    rtc_getActiveRunTarget (IRunTargetControl := manager_control now slot) m =
      Ret (if bool_decide (Graph.state_ g = kGraphSuccess) then inl (Graph.requested_state_ g) else inr kActivationInProgress, m') /\
    mgr_inv hash m' (i ++ new) [] /\ graph_inv (sys_of g j []).
Proof.
  intros Hm Hst Hr Hsl.
  destruct (push_request (GetActiveRunTarget (Some slot)) m i E Hm Hst Hr) as (q & Hpush & Hm1 & Hst1); [done|].
  destruct (request_round now _ i E _ Hm1 Hst1) as (mp & new & m2 & mf & new' & [] & Hev & Hrun & Hc & _ & Hmf & _); [done|].
  injection Hev as <-. unfold ProcessGroupManager.handleGetActiveRunTarget, Graph.getState in Hc. simpl in Hc.
  destruct hi_events0 as (mq & Hall & Eg). rewrite handle_all_queue in Hall.
  destruct (handle_all hash now m E) as [me|]; [|done]. injection Hall as <-. simpl in Eg.
  exists me, (i ++ new), mf, new'. cbv zeta. rewrite <- Eg. split_and!; [done| |done|done].
  cbn [rtc_getActiveRunTarget manager_control]. unfold ProcessGroupManager.getActiveRunTarget. rewrite Hpush. cbn [call].
  rewrite Hrun. cbn [mbind outcome_bind]. unfold wait. rewrite (completion_last slot mp mf _ ltac:(by rewrite hi_slots0) Hc).
  by destruct (Graph.state_ (ProcessGroupManager.graph_ mp)).
Qed.

(** ** From the client to the main loop and back *)

Section EndToEnd.
Context {X : Type} `{Proxy X}.

(** The answer of the provider to a request that the client sent for the name [s]. *)
Lemma provider_answers now slot registry names s junk force m i E :
  mgr_inv hash m i E -> stopped m = false -> room m E -> slot ∉ completed_slots m ++ slots_of E ->
  IdentifierProofs.reachable fnv1a registry names ->
  length junk = S kMaxRunTargetNameLength -> length s <= kMaxRunTargetNameLength -> NUL ∉ s -> fnv1a s <> hash "" ->
  exists response m',
    ControlProvider.handleActivateRunTarget fnv1a (H := manager_control now slot)
      (mkActivateRequest (RunTargetName junk s) (if (force : bool) then kForced else kQueued)) registry m = Ret (response, m') /\
    let result := match status response with kAccepted => inl tt | kRejected => inr (rejection_reason response) end in
    if force && bool_decide (fnv1a s ∈ fnv1a <$> names) then
      (exists new, mgr_inv hash m' (i ++ new) []) /\
      exists me, handle_all hash now m E = Ret me /\
        (forall k, is_target (Graph.nodes_ (ProcessGroupManager.graph_ me)) k = is_target (Graph.nodes_ (ProcessGroupManager.graph_ m)) k) /\
        result = answer (ProcessGroupManager.graph_ me) (fnv1a s) /\ (result = inl tt -> in_force (ProcessGroupManager.graph_ m') (fnv1a s))
    else m' = m /\ result = inr (if force then kRunTargetDoesntExist else kNotImplemented).
Proof.
  intros Hm Hst Hr Hsl Hreg Hj Hs Hnul Hne. unfold ControlProvider.handleActivateRunTarget. cbn [mode run_target_name].
  destruct force; cbn [andb].
  2:{ rewrite bool_decide_eq_true_2 by done. eexists _, _. split; [reflexivity|]. done. }
  rewrite bool_decide_eq_false_2 by naive_solver. unfold view_of, RunTargetName.
  rewrite FixedStringProofs.fixed_string_roundtrip by done. cbn [value_of mbind outcome_bind].
  rewrite (IdentifierProofs.if_exists_spec _ _ _ s Hreg). case_bool_decide as Hin.
  2:{ eexists _, _. split; [reflexivity|]. done. }
  destruct (set_call now slot (fnv1a s) m i E Hm Hst Hr Hsl Hne) as (me & m' & new & Hall & -> & Hm' & Hk & Hf). cbn [mbind outcome_bind].
  destruct (answer (ProcessGroupManager.graph_ me) (fnv1a s)) as [[]|e] eqn:Ea; eexists _, m'; (split; [reflexivity|]); cbn; (split; [by exists new|]);
    exists me; rewrite Ea; auto.
Qed.

(** What the client makes of the provider's response. *)
Lemma client_result (c : LmControl.t X) x name force response x' :
  LmControl.proxy_ c = Some x ->
  proxy_activate (mkActivateRequest name (if (force : bool) then kForced else kQueued)) x = (Some response, x') ->
  (LmControl.activate_run_target name force c).1 =
  match status response with kAccepted => inl tt | kRejected => inr (rejection_reason response) end.
Proof.
  intros Hp Hx. unfold LmControl.activate_run_target, LmControl.connectedProxy. rewrite Hp, Hx. by destruct (status response).
Qed.

(** C10: An activation request of a connected client, whatever events [E] are queued
    before it: without force it is refused as not implemented, an unknown name does not
    reach the manager.  Otherwise the client gets exactly the answer that the
    manager's graph calls for at that moment, which is the graph after the events [E]
    have been handled one after the other: doesn't-exist for what is no Run
    Target, in-transition for the target of the running transition, already-in-state
    for the one that is reached, and acceptance in every other case.
    The main loop keeps its invariant, and when the client is told that
    the request is accepted, its name is a configured Run Target and the
    manager is serving the request. *)
Theorem activation_request_end_to_end now slot (c : LmControl.t X) x registry names s junk force m i E :
  mgr_inv hash m i E -> stopped m = false -> room m E -> slot ∉ completed_slots m ++ slots_of E ->
  IdentifierProofs.reachable fnv1a registry names ->
  length junk = S kMaxRunTargetNameLength -> length s <= kMaxRunTargetNameLength -> NUL ∉ s -> fnv1a s <> hash "" ->
  LmControl.proxy_ c = Some x ->
  let name := RunTargetName junk s in
  let request := mkActivateRequest name (if (force : bool) then kForced else kQueued) in
  exists response m',
    ControlProvider.handleActivateRunTarget fnv1a (H := manager_control now slot) request registry m = Ret (response, m') /\
    forall x', proxy_activate request x = (Some response, x') ->
      let result := (LmControl.activate_run_target name force c).1 in
      if negb force then result = inr kNotImplemented /\ m' = m
      else if bool_decide (fnv1a s ∈ fnv1a <$> names) then
        (exists new, mgr_inv hash m' (i ++ new) []) /\
        (exists me, handle_all hash now m E = Ret me /\
           let g := ProcessGroupManager.graph_ me in
           result =
             if negb (bool_decide (valid_target (ProcessGroupManager.graph_ m) (fnv1a s))) then inr kRunTargetDoesntExist
             else if bool_decide (Graph.requested_state_ g = fnv1a s) then
               match Graph.state_ g with
               | kInTransition => inr kInTransitionToSameState
               | kGraphSuccess => inr kAlreadyInState
               | kAborting | kUndefinedState => inl tt
               end
             else inl tt) /\
        (result = inl tt ->
         valid_target (ProcessGroupManager.graph_ m) (fnv1a s) /\ in_force (ProcessGroupManager.graph_ m') (fnv1a s))
      else result = inr kRunTargetDoesntExist /\ m' = m.
Proof.
  intros Hm Hst Hr Hsl Hreg Hj Hs Hnul Hne Hp name request.
  destruct (provider_answers now slot registry names s junk force m i E) as (response & m' & Hrun & Ha); [done..|].
  exists response, m'. split; [exact Hrun|]. intros x' Hx'. cbv zeta in *.
  rewrite (client_result c x name force response x' Hp Hx').
  destruct force; cbn [negb andb] in *; [|by destruct Ha]. case_bool_decide as Hin; [|by destruct Ha].
  destruct Ha as (Hnew & me & Hall & Hk & Hans & Hf).
  assert (Hv : valid_target (ProcessGroupManager.graph_ me) (fnv1a s) <-> valid_target (ProcessGroupManager.graph_ m) (fnv1a s))
    by (unfold valid_target; by rewrite Hk).
  split_and!; [done | |].
  - exists me. split; [done|]. cbv zeta. rewrite Hans. unfold answer. rewrite (bool_decide_ext _ _ Hv).
    destruct (bool_decide (valid_target _ _)); cbn [negb]; [|done].
    by destruct (Graph.state_ _); repeat case_bool_decide.
  - intros Hok. split; [|by apply Hf]. apply Hv. rewrite Hok in Hans. unfold answer in Hans. by case_bool_decide.
Qed.

(** The query of a connected client is answered truthfully: either a
    transition is running or failed, or the client gets a Run Target that was
    active when its query was handled; the name it reads is the configured name
    of that Run Target, if that fits into the message and names do not collide. *)
Theorem active_run_target_end_to_end now slot (c : LmControl.t X) x registry names junk m i E :
  mgr_inv hash m i E -> stopped m = false -> room m E -> slot ∉ completed_slots m ++ slots_of E ->
  IdentifierProofs.reachable fnv1a registry names ->
  (forall s t, s ∈ names -> t ∈ names -> fnv1a s = fnv1a t -> s = t) ->
  length junk = S kMaxRunTargetNameLength -> LmControl.proxy_ c = Some x ->
  exists response registry' m' new,
    ControlProvider.handleGetActiveRunTarget (H := manager_control now slot) junk registry m = Ret (response, registry', m') /\
    mgr_inv hash m' (i ++ new) [] /\
    forall x', proxy_get_active x = (Some response, x') ->
      match (LmControl.get_active_run_target c).1 with
      | inr e => e = kActivationInProgress
      | inl name => exists g target,
          (Graph.current_transition_ g = true -> forall k, act (Graph.nodes_ g) k = true <-> reach (Graph.nodes_ g) target k) /\
          forall id, id ∈ names -> fnv1a id = target -> length id <= kMaxRunTargetNameLength -> NUL ∉ id ->
            FixedString.as_string_view name = Some id
      end.
Proof.
  intros Hm Hst Hr Hsl Hreg Hinj Hj Hp. unfold ControlProvider.handleGetActiveRunTarget.
  destruct (get_call now slot m i E Hm Hst Hr Hsl) as (me & j & m' & new & Hall & -> & Hm' & Hg). cbn [mbind outcome_bind].
  set (g := ProcessGroupManager.graph_ me) in *.
  unfold LmControl.get_active_run_target, LmControl.connectedProxy. rewrite Hp.
  case_bool_decide as Hs.
  2:{ eexists _, _, m', new. split; [reflexivity|]. split; [done|]. by intros x' ->. }
  destruct (Identifier.get_name (Graph.requested_state_ g) registry) as [name registry'] eqn:En.
  eexists _, _, m', new. split; [reflexivity|]. split; [done|]. intros x' ->. cbn.
  exists g, (Graph.requested_state_ g). split.
  - pose proof (gv_state _ Hg) as Hi. unfold state_inv in Hi. cbn in Hi. rewrite Hs in Hi. apply Hi.
  - intros id Hid Ht Hl Hn. unfold Identifier.get_name in En. rewrite <- Ht in En.
    rewrite (IdentifierProofs.registered_name _ _ _ _ Hreg Hinj Hid) in En. injection En as <- <-.
    by apply FixedStringProofs.fixed_string_roundtrip.
Qed.

(** When the event queue refuses the query the provider's assertion fails. *)
Lemma refused_query_stops_daemon now slot registry junk m q :
  ComponentEventQueue.push (GetActiveRunTarget (Some slot)) (ProcessGroupManager.event_queue_ m) = (false, q) ->
  ControlProvider.handleGetActiveRunTarget (H := manager_control now slot) junk registry m = Abort AssertionFailed.
Proof.
  intros Hq. unfold ControlProvider.handleGetActiveRunTarget. cbn [rtc_getActiveRunTarget manager_control].
  unfold ProcessGroupManager.getActiveRunTarget. by rewrite Hq.
Qed.

End EndToEnd.
End Service.

(** ** The client *)

(** What the documentation of the middleware says of [GetNewSamples]: the oldest
    unread samples, at most as many as asked for, or an error. *)
Class ProxyLaws (X : Type) `{Proxy X} := {
  unread : X -> list ActivationResult;
  get_new_samples n x : match GetNewSamples n x with
    | (Some l, x') => l = take n (unread x) /\ unread x' = drop n (unread x)
    | (None, x') => unread x' = unread x
    end
}.

Section Client.
Context {X : Type} `{ProxyLaws X} `{BuildMode}.

Lemma forward_all f batch : forall log, foldl (LmControl.forwardSample (Some f)) log batch = log ++ ((fun b => (f, b)) <$> batch).
Proof.
  induction batch as [|b batch IH]; intros log; simpl; [by rewrite app_nil_r|]. rewrite IH, <- app_assoc. done.
Qed.

(** The samples that are read are forwarded once and in order, and what was not read
    is still there. *)
Lemma read_samples_spec f fuel : forall x log,
  length (unread x) < 4 * fuel ->
  exists x' l, LmControl.read_loop fuel (Some f) x log = Ret (x', log ++ ((fun b => (f, b)) <$> l)) /\ unread x = l ++ unread x'.
Proof.
  induction fuel as [|fuel IH]; intros x log Hf; [lia|]. cbn [LmControl.read_loop].
  pose proof (get_new_samples LmControl.kActivationResultSampleCount x) as Hg.
  destruct (GetNewSamples _ x) as [[l|] x1].
  - destruct Hg as [Hl Hu]. rewrite forward_all.
    destruct (Nat.ltb_spec (length l) LmControl.kActivationResultSampleCount) as [Hlt|Hge].
    + exists x1, l. split; [done|]. by rewrite Hu, Hl, take_drop.
    + assert (length (unread x1) < 4 * fuel) as Hf1.
      { rewrite Hu, length_drop. rewrite Hl, length_take in Hge. unfold LmControl.kActivationResultSampleCount in *. lia. }
      destruct (IH x1 (log ++ ((fun b => (f, b)) <$> l)) Hf1) as (x2 & l2 & -> & Hu2). exists x2, (l ++ l2).
      rewrite fmap_app, app_assoc. split; [done|]. by rewrite <- app_assoc, <- Hu2, Hu, Hl, take_drop.
  - exists x1, []. rewrite app_nil_r. by rewrite Hg.
Qed.

(** Registering a callback on a connected client hands it the samples that have
    come before; on a client that is not connected it only stores the callback. *)
Lemma register_delivers f fuel (c : LmControl.t X) :
  (forall x, LmControl.proxy_ c = Some x -> length (unread x) < 4 * fuel) ->
  returns (LmControl.register_run_target_activation_callback fuel (Some f) c) (fun '(r, c') =>
    r = inl tt /\ LmControl.callback_ c' = Some f /\
    match LmControl.proxy_ c, LmControl.proxy_ c' with
    | Some x, Some x' => exists l, unread x = l ++ unread x' /\
        LmControl.forwarded_ c' = LmControl.forwarded_ c ++ ((fun b => (f, b)) <$> l)
    | None, None => LmControl.forwarded_ c' = LmControl.forwarded_ c
    | _, _ => False
    end).
Proof.
  intros Hf. unfold LmControl.register_run_target_activation_callback, LmControl.connectedProxy. cbn [LmControl.proxy_].
  destruct (LmControl.proxy_ c) as [x|] eqn:Ep; [|done].
  unfold LmControl.onActivationResult, LmControl.readActivationEvents. cbn [LmControl.proxy_ LmControl.callback_ LmControl.forwarded_].
  destruct (read_samples_spec f fuel x (LmControl.forwarded_ c)) as (x' & l & -> & Hu); [by apply Hf|]. cbn. eauto.
Qed.

(** Setting up and connecting never stops the client, and the proxy is there only
    after both subscriptions succeeded. *)
Lemma service_found_returns handles created (c : LmControl.t X) :
  returns (LmControl.onServiceFound handles created c) (fun c' =>
    LmControl.callback_ c' = LmControl.callback_ c /\ LmControl.forwarded_ c' = LmControl.forwarded_ c /\
    (LmControl.proxy_ c' = LmControl.proxy_ c \/ LmControl.proxy_ c = None /\ is_Some created)).
Proof.
  unfold LmControl.onServiceFound. case_bool_decide; [cbn; by auto|]. cbn [orb]. destruct (LmControl.proxy_ c) as [x|] eqn:Ep.
  { rewrite bool_decide_eq_true_2 by by eexists. simpl. rewrite Ep. auto. }
  rewrite bool_decide_eq_false_2 by by intros []. unfold LmControl.createProxy. rewrite Ep, bool_decide_eq_true_2 by done.
  rewrite assert_dbg_true. cbn. destruct created as [x|]; cbn; [|rewrite Ep; auto].
  unfold LmControl.subscribeToActivationResults. cbn.
  destruct (Subscribe _ x) as [[] x1]; cbn; [|eauto]. destruct (SetReceiveHandler x1) as [[] x2]; cbn; eauto.
Qed.

End Client.

(** Offering the service leaves no descriptor from 3 to 15 open across [exec]. *)
Lemma offered_descriptors_close flags fd f :
  3 <= fd < 16 -> ControlProvider.offerService (fun _ => true) flags fd = Some f -> Z.testbit f 0 = true.
Proof.
  intros Hfd. unfold ControlProvider.offerService, ControlProvider.offer_fd.
  rewrite bool_decide_eq_true_2, bool_decide_eq_false_2 by lia. destruct (flags fd); [|done]. intros [= <-].
  rewrite Z.lor_spec. apply orb_true_r.
Qed.

(** ** The manager of the example, asked through its service *)

Module Example.
Import GraphProofs.Example ManagerProofs.Example.

#[local] Instance order : IterOrder IdentifierHash := map_order.
#[local] Instance build : BuildMode := debug_build.

Definition fnv1a (s : chars) : IdentifierHash := GraphProofs.Example.hash (String.string_of_list_ascii s).
Definition startup : chars := String.list_ascii_of_string "Startup".
Definition off : chars := String.list_ascii_of_string "Off".
Definition junk : chars := replicate 129 NUL.
Definition names : list chars := [startup; off].
Definition registry : gmap IdentifierHash chars := (Identifier.make fnv1a off (Identifier.make fnv1a startup ∅).2).2.

(** A proxy that carries the two responses of the provider. *)
Definition accepted : ActivateRunTargetResponse := mkActivateResponse kAccepted kGeneralError.
Definition active_startup : GetActiveRunTargetResponse := mkActiveResponse kAvailable (RunTargetName junk startup).

#[local] Instance wire : Proxy unit := {|
  proxy_activate _ x := (Some accepted, x);
  proxy_get_active x := (Some active_startup, x);
  Subscribe _ x := (true, x);
  SetReceiveHandler x := (true, x);
  GetNewSamples _ x := (Some [], x);
  Unsubscribe x := x
|}.

Definition client : LmControl.t unit := LmControl.mk (Some tt) (Some 1) None [].

Lemma registry_reachable : IdentifierProofs.reachable fnv1a registry names.
Proof. change names with (([] ++ [startup]) ++ [off]). apply IdentifierProofs.reach_make, IdentifierProofs.reach_make, IdentifierProofs.reach_start. Qed.

Lemma m_success_ok : mgr_inv (ControlProofs.hash fnv1a) m_success [] [].
Proof.
  split; [exact empty_rep | exact (g_reachable_inv list_queue_accepts _ reach_success) | constructor |].
  split; [left|]; vm_compute; reflexivity.
Qed.

Lemma startup_no_nul : NUL ∉ startup.
Proof. vm_compute. set_solver. Qed.

Lemma off_no_nul : NUL ∉ off.
Proof. vm_compute. set_solver. Qed.

Lemma no_slot : 5 ∉ completed_slots m_success ++ slots_of [].
Proof. vm_compute. set_solver. Qed.

Lemma activation_request_end_to_end_witness :
  exists response m',
    ControlProvider.handleActivateRunTarget fnv1a (H := manager_control fnv1a 7%Z 5) (mkActivateRequest (RunTargetName junk off) kForced)
      registry m_success = Ret (response, m') /\
    (response = accepted -> in_force (ProcessGroupManager.graph_ m') 1%Z).
Proof.
  destruct (activation_request_end_to_end fnv1a list_queue_accepts 7%Z 5 client tt registry names off junk true m_success [] [])
    as (response & m' & Hrun & Hres);
    [exact m_success_ok | reflexivity | vm_compute; lia | exact no_slot | exact registry_reachable | reflexivity | vm_compute; lia
    | exact off_no_nul | vm_compute; discriminate | reflexivity |].
  exists response, m'. split; [exact Hrun|]. intros ->. specialize (Hres tt eq_refl). cbn [negb] in Hres.
  assert (fnv1a off ∈ fnv1a <$> names) as Hin by (apply list_elem_of_fmap_2; right; left).
  rewrite (bool_decide_eq_true_2 _ Hin) in Hres. destruct Hres as (_ & _ & Hf). exact (proj2 (Hf eq_refl)).
Defined.

(** The response is the one that the proxy carries. *)
Lemma off_request_accepted :
  match ControlProvider.handleActivateRunTarget fnv1a (H := manager_control fnv1a 7%Z 5)
      (mkActivateRequest (RunTargetName junk off) kForced) registry m_success with
  | Ret (r, _) => r = accepted | Abort _ => False end.
Proof. vm_compute. reflexivity. Qed.

Lemma names_distinct s t : s ∈ names -> t ∈ names -> fnv1a s = fnv1a t -> s = t.
Proof.
  intros Hs Ht E. assert (forall x, x ∈ names -> x = startup \/ x = off) as Hc by (unfold names; set_solver).
  destruct (Hc s Hs) as [->| ->], (Hc t Ht) as [->| ->]; try reflexivity; discriminate E.
Qed.

Lemma active_run_target_end_to_end_witness :
  exists response registry' m',
    ControlProvider.handleGetActiveRunTarget (H := manager_control fnv1a 7%Z 5) junk registry m_success =
      Ret (response, registry', m').
Proof.
  destruct (active_run_target_end_to_end fnv1a list_queue_accepts 7%Z 5 client tt registry names junk m_success [] [])
    as (response & registry' & m' & new & Hrun & _);
    [exact m_success_ok | reflexivity | vm_compute; lia | exact no_slot | exact registry_reachable | exact names_distinct
    | reflexivity | reflexivity |].
  exists response, registry', m'. exact Hrun.
Defined.

(** An activation result that arrives before a callback is registered is dropped when
    the receive handler runs; one that the middleware did not announce stays unread
    after [wait_for_connection]. *)
Record inbox := mkInbox { waiting : list ActivationResult }.

#[local] Instance inbox_proxy : Proxy inbox := {|
  proxy_activate _ x := (None, x);
  proxy_get_active x := (None, x);
  Subscribe _ x := (true, x);
  SetReceiveHandler x := (true, x);
  GetNewSamples n x := (Some (take n (waiting x)), mkInbox (drop n (waiting x)));
  Unsubscribe x := x
|}.

#[local] Instance inbox_laws : ProxyLaws inbox := {| unread := waiting; get_new_samples n x := conj eq_refl eq_refl |}.

Definition settled : ActivationResult := mkActivationResult (RunTargetName junk startup) kInitialActivation.

Lemma wait_does_not_read :
  match LmControl.wait_for_connection (LmControl.mk (Some (mkInbox [settled])) (Some 1) (Some 7) []) with
  | Ret (r, c) => r = inl tt /\ LmControl.forwarded_ c = [] /\ (waiting <$> LmControl.proxy_ c) = Some [settled]
  | Abort _ => False
  end.
Proof. vm_compute. done. Qed.

End Example.

End ControlProofs.
