(* ===== verification/HealthMonitor.v ===== *)
(** * The C++ interface of the health monitor

    The health monitor is a Rust library; score/health_monitor/src/cpp wraps it.  Every Rust object is
    a box on the heap that C++ knows by an opaque handle.  Module [FFI]: the boxes and what the
    functions of the C interface do to them (rust/ffi.rs, thread_ffi.rs, deadline/ffi.rs, heartbeat/ffi.rs, logic/ffi.rs):
    which box they create, borrow or take over; what the library answers is an input (the library itself is in [HealthLibrary]).  Module
    [DroppableFFIHandle] (common.cpp), then the wrappers: [ThreadParameters] (details/thread.cpp), the builders and
    monitors (deadline, heartbeat, logic), [Deadline] and [DeadlineHandle], [HealthMonitorBuilder] and
    [HealthMonitor] (health_monitor.cpp).  Module [Client]: programs that use them, as steps on named objects. *)

From stdpp Require Import prelude fin_maps gmap strings.
From S2P Require Import Prelude.

(** ** Boxes *)

Inductive monitor_kind := MDeadline | MHeartbeat | MLogic.
Inductive kind := KBuilder (m : monitor_kind) | KMonitor (m : monitor_kind) | KDeadline | KThreadParameters | KHealthBuilder | KHealthMonitor.

#[global] Instance monitor_kind_eq_dec : EqDecision monitor_kind.
Proof. solve_decision. Defined.
#[global] Instance kind_eq_dec : EqDecision kind.
Proof. solve_decision. Defined.

(** [Error]: the codes after [kSuccess]. *)
Definition kSuccess : Z := 0.
Definition NullParameter : Z := 1.
Definition WrongState : Z := 5.

(** What a borrowing call hands over. *)
Inductive use :=
| add_deadline (tag : string) (min_ms max_ms : Z)
| add_state (state : string) (allowed : list string)
| scheduler_parameters (policy priority : Z)
| affinity (cpus : list Z)
| stack_size (size : Z)
| health_start
| heartbeat
| transition (state : string)
| get_state
| deadline_start
| deadline_stop.

(** What a new box starts with: nothing, the range of heartbeats, the initial state. *)
Inductive create_args := no_args | range_args (min_ms max_ms : Z) | state_args (initial_state : string).

Inductive call :=
| c_create (k : kind) (args : create_args) (b : nat)
| c_destroy (k : kind) (b : nat)
| c_use (b : nat) (u : use)
| c_add_monitor (b : nat) (tag : string) (m : monitor_kind) (builder : nat)
| c_build (b : nat) (supervisor_cycle_ms internal_cycle_ms : option Z) (thread_parameters : option nat)
| c_get (b : nat) (k : kind) (tag : string).

Module FFI.

(** The live boxes with their types, and the calls so far, the latest first. *)
Record t := mk { boxes : gmap nat kind; calls : list call }.

Definition log (c : call) (w : t) : t := mk (boxes w) (c :: calls w).

(** [Box::into_raw(Box::new(...))] *)
Definition new_box (k : kind) (w : t) : nat * t :=
  let b := fresh (dom (boxes w)) in (b, mk (<[b := k]> (boxes w)) (calls w)).

(** [Box::from_raw]: the box must be there and have the type it is cast to. *)
Definition from_raw (k : kind) (b : nat) (w : t) : outcome unit :=
  match boxes w !! b with
  | Some k' => if bool_decide (k = k') then Ret tt else Abort NullPointer
  | None => Abort NullPointer
  end.

(** The box is dropped at the end of the function, or was only borrowed. *)
Definition drop_box (k : kind) (b : nat) (w : t) : outcome t :=
  _ ← from_raw k b w; Ret (mk (delete b (boxes w)) (calls w)).

Definition create (k : kind) (args : create_args) (w : t) : nat * t :=
  let '(b, w1) := new_box k w in (b, log (c_create k args b) w1).

Definition destroy (k : kind) (handle : option nat) (w : t) : outcome (Z * t) :=
  match handle with
  | None => Ret (NullParameter, w)
  | Some b => w1 ← drop_box k b w; Ret (kSuccess, log (c_destroy k b) w1)
  end.

Definition borrow (k : kind) (handle : option nat) (u : use) (answer : Z) (w : t) : outcome (Z * t) :=
  match handle with
  | None => Ret (NullParameter, w)
  | Some b => _ ← from_raw k b w; Ret (answer, log (c_use b u) w)
  end.

(** [health_monitor_get_*_monitor], [deadline_monitor_get_deadline]: borrow, and on success a new box. *)
Definition get (k : kind) (handle : option nat) (tag : string) (result : kind) (answer : Z) (w : t) : outcome (Z * option nat * t) :=
  match handle with
  | None => Ret (NullParameter, None, w)
  | Some b =>
      _ ← from_raw k b w;
      let w1 := log (c_get b result tag) w in
      Ret (if (answer =? kSuccess)%Z then let '(h, w2) := new_box result w1 in (answer, Some h, w2) else (answer, None, w1))
  end.

(** [health_monitor_builder_add_*_monitor]: takes the monitor's builder over. *)
Definition add_monitor (handle : option nat) (tag : string) (m : monitor_kind) (builder : option nat) (w : t) : outcome (Z * t) :=
  match handle, builder with
  | Some b, Some mb =>
      w1 ← drop_box (KBuilder m) mb w;
      _ ← from_raw KHealthBuilder b w1;
      Ret (kSuccess, log (c_add_monitor b tag m mb) w1)
  | _, _ => Ret (NullParameter, w)
  end.

(** [health_monitor_builder_build]: takes the builder and the thread parameters over, whatever comes of it. *)
Definition build (handle : option nat) (supervisor_cycle_ms internal_cycle_ms : option Z) (thread_parameters : option nat) (answer : Z) (w : t) :
    outcome (Z * option nat * t) :=
  match handle with
  | None => Ret (NullParameter, None, w)
  | Some b =>
      w1 ← drop_box KHealthBuilder b w;
      w2 ← match thread_parameters with Some tp => drop_box KThreadParameters tp w1 | None => Ret w1 end;
      let w3 := log (c_build b supervisor_cycle_ms internal_cycle_ms thread_parameters) w2 in
      Ret (if (answer =? kSuccess)%Z then let '(h, w4) := new_box KHealthMonitor w3 in (answer, Some h, w4) else (answer, None, w3))
  end.

End FFI.

(** ** [DroppableFFIHandle] *)

Module DroppableFFIHandle.

(** [drop_fn_] destroys a box of this type. *)
Record t := mk { handle_ : option nat; drop_fn_ : option kind }.

Definition make (handle : nat) (drop_fn : kind) : t := mk (Some handle) (Some drop_fn).
Definition null : t := mk None None.

(** The new object and what is left of [other]. *)
Definition move (other : t) : t * t := (mk (handle_ other) (drop_fn_ other), null).

(** [operator=] of another object: the answer of the drop function is not looked at. *)
Definition assign (this other : t) (w : FFI.t) : outcome (t * t * FFI.t) :=
  w1 ← match drop_fn_ this with Some k => '(_, w1) ← FFI.destroy k (handle_ this) w; Ret w1 | None => Ret w end;
  Ret (mk (handle_ other) (drop_fn_ other), null, w1).

Definition AsRustHandle (d : t) : option nat := handle_ d.

Definition DropByRust (d : t) : option nat * t :=
  match handle_ d with None => (None, d) | Some h => (Some h, null) end.

Definition destroy (d : t) (w : FFI.t) : outcome FFI.t :=
  match drop_fn_ d with
  | Some k => '(result, w1) ← FFI.destroy k (handle_ d) w; _ ← assert (result =? kSuccess)%Z; Ret w1
  | None => Ret w
  end.

End DroppableFFIHandle.
Import DroppableFFIHandle (null).

(** ** [TimeRange] *)

Module TimeRange.
Local Open Scope Z_scope.
Record t := mk { min_ms_ : Z; max_ms_ : Z }.
Definition MsToUnsigned (ms : Z) : outcome Z := _ ← assert (0 <=? ms); Ret (wrap 64 ms).
Definition make (min_ms max_ms : Z) : outcome t :=
  mn ← MsToUnsigned min_ms; mx ← MsToUnsigned max_ms; _ ← assert (mn <=? mx); Ret (mk mn mx).
(** The deprecated accessors cut the value to 32 bits. *)
Definition min_ms (r : t) : Z := wrap 32 (min_ms_ r).
Definition max_ms (r : t) : Z := wrap 32 (max_ms_ r).
End TimeRange.

(** ** The wrappers

    A method that ends in [return std::move( *this)] gives the new object and leaves the emptied one. *)

Module Wrappers.
Import DroppableFFIHandle.
Notation D := DroppableFFIHandle.t.

(** A method of a builder: borrow the box with an answer that must be success, then move. *)
Definition chain (k : kind) (u : use) (answer : Z) (d : D) (w : FFI.t) : outcome (D * D * FFI.t) :=
  h ← (match AsRustHandle d with Some h => Ret h | None => Abort AssertionFailed end);
  '(result, w1) ← FFI.borrow k (Some h) u answer w;
  _ ← assert (result =? kSuccess)%Z;
  let '(new, old) := move d in Ret (new, old, w1).

(** A method that answers with the code of the library. *)
Definition ask (k : kind) (u : use) (answer : Z) (d : D) (w : FFI.t) : outcome (Z * FFI.t) :=
  h ← (match AsRustHandle d with Some h => Ret h | None => Abort AssertionFailed end);
  FFI.borrow k (Some h) u answer w.

(** [SchedulerParameters]: the limits are those of the library. *)
Definition SchedulerParameters (priority_min priority_max policy priority : Z) : outcome (Z * Z) :=
  _ ← assert ((priority_min <=? priority) && (priority <=? priority_max))%Z; Ret (policy, priority).

Definition ThreadParameters (w : FFI.t) : D * FFI.t := let '(b, w1) := FFI.create KThreadParameters no_args w in (make b KThreadParameters, w1).
Definition WithSchedulerParameters (sp : Z * Z) : Z -> D -> FFI.t -> outcome (D * D * FFI.t) := chain KThreadParameters (scheduler_parameters sp.1 sp.2).
Definition Affinity (cpus : list Z) : Z -> D -> FFI.t -> outcome (D * D * FFI.t) := chain KThreadParameters (affinity cpus).
Definition StackSize (size : Z) : Z -> D -> FFI.t -> outcome (D * D * FFI.t) := chain KThreadParameters (stack_size size).

(** [DeadlineMonitorBuilder], [HeartbeatMonitorBuilder], [LogicMonitorBuilder] *)
Definition MonitorBuilder (m : monitor_kind) (args : create_args) (w : FFI.t) : D * FFI.t :=
  let '(b, w1) := FFI.create (KBuilder m) args w in (make b (KBuilder m), w1).
Definition DeadlineMonitorBuilder : FFI.t -> D * FFI.t := MonitorBuilder MDeadline no_args.
Definition HeartbeatMonitorBuilder (range : TimeRange.t) : FFI.t -> D * FFI.t :=
  MonitorBuilder MHeartbeat (range_args (TimeRange.min_ms_ range) (TimeRange.max_ms_ range)).
Definition LogicMonitorBuilder (initial_state : string) : FFI.t -> D * FFI.t := MonitorBuilder MLogic (state_args initial_state).
Definition AddDeadline (tag : string) (range : TimeRange.t) : Z -> D -> FFI.t -> outcome (D * D * FFI.t) :=
  chain (KBuilder MDeadline) (add_deadline tag (TimeRange.min_ms_ range) (TimeRange.max_ms_ range)).
Definition AddState (state : string) (allowed_states : list string) : Z -> D -> FFI.t -> outcome (D * D * FFI.t) :=
  chain (KBuilder MLogic) (add_state state allowed_states).

Definition Heartbeat (answer : Z) (d : D) (w : FFI.t) : outcome FFI.t :=
  '(r, w1) ← ask (KMonitor MHeartbeat) heartbeat answer d w; _ ← assert (r =? kSuccess)%Z; Ret w1.
Definition Transition (state : string) (answer : Z) (d : D) (w : FFI.t) : outcome ((string + Z) * FFI.t) :=
  '(r, w1) ← ask (KMonitor MLogic) (transition state) answer d w; Ret (if (r =? kSuccess)%Z then inl state else inr r, w1).
Definition State (answer : Z) (d : D) (w : FFI.t) : outcome (Z * FFI.t) := ask (KMonitor MLogic) get_state answer d w.

(** [Deadline] and the guard of a started deadline. *)
Record Deadline := mkDeadline { deadline_handle_ : D; has_handle_ : bool }.

Definition GetDeadline (tag : string) (answer : Z) (d : D) (w : FFI.t) : outcome ((Deadline + Z) * FFI.t) :=
  h ← (match AsRustHandle d with Some h => Ret h | None => Abort AssertionFailed end);
  '(result, ret, w1) ← FFI.get (KMonitor MDeadline) (Some h) tag KDeadline answer w;
  Ret (match ret with
       | Some b => if (result =? kSuccess)%Z then inl (mkDeadline (make b KDeadline) false) else inr result
       | None => inr result
       end, w1).

(** The defaulted move copies [has_handle_]. *)
Definition move_deadline (x : Deadline) : Deadline * Deadline :=
  let '(new, old) := move (deadline_handle_ x) in (mkDeadline new (has_handle_ x), mkDeadline old (has_handle_ x)).

Definition Start (answer : Z) (x : Deadline) (w : FFI.t) : outcome ((unit + Z) * Deadline * FFI.t) :=
  if has_handle_ x then Ret (inr WrongState, x, w)
  else
    '(result, w1) ← ask KDeadline deadline_start answer (deadline_handle_ x) w;
    Ret (if (result =? kSuccess)%Z then (inl tt, mkDeadline (deadline_handle_ x) true, w1) else (inr result, x, w1)).

Definition destroy_deadline (x : Deadline) (w : FFI.t) : outcome FFI.t :=
  _ ← assert (negb (has_handle_ x)); destroy (deadline_handle_ x) w.

(** [DeadlineHandle::Stop] with the deadline it refers to. *)
Definition Stop (was_stopped : bool) (x : Deadline) (w : FFI.t) : outcome FFI.t :=
  if was_stopped then Ret w
  else '(r, w1) ← ask KDeadline deadline_stop kSuccess (deadline_handle_ x) w; _ ← assert (r =? kSuccess)%Z; Ret w1.

(** [HealthMonitorBuilder] *)
Record HealthMonitorBuilder := mkHealthBuilder {
  health_monitor_builder_handle_ : D;
  supervisor_api_cycle_ms_ : option Z;
  internal_processing_cycle_ms_ : option Z;
  thread_parameters_ : option D
}.

Definition make_health_builder (w : FFI.t) : HealthMonitorBuilder * FFI.t :=
  let '(b, w1) := FFI.create KHealthBuilder no_args w in (mkHealthBuilder (make b KHealthBuilder) None None None, w1).

(** The moved optional keeps its (emptied) value. *)
Definition move_health_builder (x : HealthMonitorBuilder) : HealthMonitorBuilder * HealthMonitorBuilder :=
  (mkHealthBuilder (health_monitor_builder_handle_ x) (supervisor_api_cycle_ms_ x) (internal_processing_cycle_ms_ x) (thread_parameters_ x),
   mkHealthBuilder null (supervisor_api_cycle_ms_ x) (internal_processing_cycle_ms_ x) ((fun _ => null) <$> thread_parameters_ x)).

(** The common body of the three methods that add a monitor. *)
Definition AddMonitor (tag : string) (m : monitor_kind) (monitor : D) (x : HealthMonitorBuilder) (w : FFI.t) :
    outcome (HealthMonitorBuilder * HealthMonitorBuilder * D * FFI.t) :=
  let '(monitor_handle, monitor1) := DropByRust monitor in
  mh ← (match monitor_handle with Some h => Ret h | None => Abort AssertionFailed end);
  h ← (match AsRustHandle (health_monitor_builder_handle_ x) with Some h => Ret h | None => Abort AssertionFailed end);
  '(result, w1) ← FFI.add_monitor (Some h) tag m (Some mh) w;
  _ ← assert (result =? kSuccess)%Z;
  let '(new, old) := move_health_builder x in Ret (new, old, monitor1, w1).

Definition AddDeadlineMonitor (tag : string) : D -> HealthMonitorBuilder -> FFI.t -> outcome (HealthMonitorBuilder * HealthMonitorBuilder * D * FFI.t) :=
  AddMonitor tag MDeadline.
Definition AddHeartbeatMonitor (tag : string) : D -> HealthMonitorBuilder -> FFI.t -> outcome (HealthMonitorBuilder * HealthMonitorBuilder * D * FFI.t) :=
  AddMonitor tag MHeartbeat.
Definition AddLogicMonitor (tag : string) : D -> HealthMonitorBuilder -> FFI.t -> outcome (HealthMonitorBuilder * HealthMonitorBuilder * D * FFI.t) :=
  AddMonitor tag MLogic.

Definition WithInternalProcessingCycle (count : Z) (x : HealthMonitorBuilder) : outcome (HealthMonitorBuilder * HealthMonitorBuilder) :=
  _ ← assert (0 <=? count)%Z;
  Ret (move_health_builder (mkHealthBuilder (health_monitor_builder_handle_ x) (supervisor_api_cycle_ms_ x) (Some count) (thread_parameters_ x))).
Definition WithSupervisorApiCycle (count : Z) (x : HealthMonitorBuilder) : outcome (HealthMonitorBuilder * HealthMonitorBuilder) :=
  _ ← assert (0 <=? count)%Z;
  Ret (move_health_builder (mkHealthBuilder (health_monitor_builder_handle_ x) (Some count) (internal_processing_cycle_ms_ x) (thread_parameters_ x))).

(** Assigning to the optional: to its value, or a new one. *)
Definition WithThreadParameters (tp : D) (x : HealthMonitorBuilder) (w : FFI.t) : outcome (HealthMonitorBuilder * HealthMonitorBuilder * D * FFI.t) :=
  '(new_tp, old_tp, w1) ← match thread_parameters_ x with
    | Some cur => assign cur tp w
    | None => let '(n, o) := move tp in Ret (n, o, w)
    end;
  let '(new, old) := move_health_builder (mkHealthBuilder (health_monitor_builder_handle_ x) (supervisor_api_cycle_ms_ x) (internal_processing_cycle_ms_ x) (Some new_tp)) in
  Ret (new, old, old_tp, w1).

(** [HealthMonitor] is its handle. *)
Definition Build (answer : Z) (x : HealthMonitorBuilder) (w : FFI.t) : outcome ((option nat + Z) * HealthMonitorBuilder * FFI.t) :=
  let '(handle, d1) := DropByRust (health_monitor_builder_handle_ x) in
  h ← (match handle with Some h => Ret h | None => Abort AssertionFailed end);
  '(tp_handle, tp1) ← match thread_parameters_ x with
    | Some tp => let '(r, tp1) := DropByRust tp in match r with Some b => Ret (Some b, Some tp1) | None => Abort AssertionFailed end
    | None => Ret (None, None)
    end;
  '(result, hm, w1) ← FFI.build (Some h) (supervisor_api_cycle_ms_ x) (internal_processing_cycle_ms_ x) tp_handle answer w;
  Ret (if (result =? kSuccess)%Z then inl hm else inr result,
       mkHealthBuilder d1 (supervisor_api_cycle_ms_ x) (internal_processing_cycle_ms_ x) tp1, w1).

Definition destroy_health_builder (x : HealthMonitorBuilder) (w : FFI.t) : outcome FFI.t :=
  w1 ← match thread_parameters_ x with Some tp => destroy tp w | None => Ret w end;
  destroy (health_monitor_builder_handle_ x) w1.

Definition GetMonitor (m : monitor_kind) (tag : string) (answer : Z) (health_monitor_ : option nat) (w : FFI.t) : outcome ((D + Z) * FFI.t) :=
  '(result, ret, w1) ← FFI.get KHealthMonitor health_monitor_ tag (KMonitor m) answer w;
  Ret (match ret with
       | Some b => if (result =? kSuccess)%Z then inl (make b (KMonitor m)) else inr result
       | None => inr result
       end, w1).

Definition GetDeadlineMonitor : string -> Z -> option nat -> FFI.t -> outcome ((D + Z) * FFI.t) := GetMonitor MDeadline.
Definition GetHeartbeatMonitor : string -> Z -> option nat -> FFI.t -> outcome ((D + Z) * FFI.t) := GetMonitor MHeartbeat.
Definition GetLogicMonitor : string -> Z -> option nat -> FFI.t -> outcome ((D + Z) * FFI.t) := GetMonitor MLogic.

Definition StartHealth (answer : Z) (health_monitor_ : option nat) (w : FFI.t) : outcome FFI.t :=
  '(result, w1) ← FFI.borrow KHealthMonitor health_monitor_ health_start answer w; _ ← assert (result =? kSuccess)%Z; Ret w1.

Definition destroy_health (health_monitor_ : option nat) (w : FFI.t) : outcome FFI.t :=
  match health_monitor_ with Some h => '(_, w1) ← FFI.destroy KHealthMonitor (Some h) w; Ret w1 | None => Ret w end.

Definition assign_health (this other : option nat) (w : FFI.t) : outcome (option nat * option nat * FFI.t) :=
  w1 ← destroy_health this w; Ret (other, None, w1).

End Wrappers.

(** ** Programs that use the interface *)

Module Client.
Import DroppableFFIHandle Wrappers.

(** The objects of the program, by the name of the variable.  A guard refers to its deadline by name. *)
Inductive obj :=
| OBuilder (m : monitor_kind) (d : D)
| OThread (d : D)
| OHealthBuilder (x : HealthMonitorBuilder)
| OHealth (health_monitor_ : option nat)
| OMonitor (m : monitor_kind) (d : D)
| ODeadline (x : Deadline)
| OGuard (was_stopped_ : bool) (deadline_ : option nat).

Record t := mk { objs : gmap nat obj; ffi : FFI.t }.
Definition initial : t := mk ∅ (FFI.mk ∅ []).

Inductive op :=
| NewDeadlineBuilder | NewHeartbeatBuilder (range : TimeRange.t) | NewLogicBuilder (initial_state : string) | NewThreadParameters | NewHealthBuilder
| DoAddDeadline (v : nat) (tag : string) (range : TimeRange.t) (answer : Z)
| DoAddState (v : nat) (state : string) (allowed : list string) (answer : Z)
| DoScheduler (v : nat) (sp : Z * Z) (answer : Z) | DoAffinity (v : nat) (cpus : list Z) (answer : Z) | DoStackSize (v : nat) (size : Z) (answer : Z)
| DoAddMonitor (v : nat) (tag : string) (monitor : nat)
| DoInternalCycle (v : nat) (count : Z) | DoSupervisorCycle (v : nat) (count : Z) | DoThreadParameters (v thread_parameters : nat)
| DoBuild (v : nat) (answer : Z)
| DoGetMonitor (v : nat) (m : monitor_kind) (tag : string) (answer : Z) | DoStartHealth (v : nat) (answer : Z)
| DoGetDeadline (v : nat) (tag : string) (answer : Z) | DoStart (v : nat) (answer : Z) | DoStop (v : nat)
| DoHeartbeat (v : nat) (answer : Z) | DoTransition (v : nat) (state : string) (answer : Z) | DoState (v : nat) (answer : Z)
| Move (v : nat) | Assign (v other : nat) | Destroy (v : nat).

(** A new variable. *)
Definition put (o : obj) (m : gmap nat obj) : gmap nat obj := <[fresh (dom m) := o]> m.

(** The answer of a chaining method: the result in a new variable, the emptied object in its place. *)
Definition chained (v : nat) (o : D -> obj) (r : outcome (D * D * FFI.t)) (s : t) : outcome t :=
  '(new, old, w) ← r; Ret (mk (put (o new) (<[v := o old]> (objs s))) w).

Definition move_obj (o : obj) : obj * obj :=
  match o with
  | OBuilder m d => let '(n, x) := move d in (OBuilder m n, OBuilder m x)
  | OThread d => let '(n, x) := move d in (OThread n, OThread x)
  | OHealthBuilder b => let '(n, x) := move_health_builder b in (OHealthBuilder n, OHealthBuilder x)
  | OHealth h => (OHealth h, OHealth None)
  | OMonitor m d => let '(n, x) := move d in (OMonitor m n, OMonitor m x)
  | ODeadline d => let '(n, x) := move_deadline d in (ODeadline n, ODeadline x)
  | OGuard st d => (OGuard st d, OGuard true None)
  end.

(** The deadline that a guard refers to; a deadline that is gone cannot be reached. *)
Definition guarded (d : nat) (s : t) : outcome Deadline :=
  match objs s !! d with Some (ODeadline x) => Ret x | _ => Abort NullPointer end.

Definition destroy_obj (v : nat) (o : obj) (s : t) : outcome t :=
  let gone := delete v (objs s) in
  match o with
  | OBuilder _ d | OThread d | OMonitor _ d => w ← destroy d (ffi s); Ret (mk gone w)
  | OHealthBuilder b => w ← destroy_health_builder b (ffi s); Ret (mk gone w)
  | OHealth h => w ← destroy_health h (ffi s); Ret (mk gone w)
  | ODeadline x => w ← destroy_deadline x (ffi s); Ret (mk gone w)
  | OGuard _ None => Ret (mk gone (ffi s))
  | OGuard st (Some d) =>
      x ← guarded d s;
      w ← Stop st x (ffi s);
      Ret (mk (<[d := ODeadline (mkDeadline (deadline_handle_ x) false)]> gone) w)
  end.

(** One statement of the program.  A statement about a variable of another type cannot be written in C++: it is skipped. *)
Definition step (o : op) (s : t) : outcome t :=
  let w := ffi s in
  match o with
  | NewDeadlineBuilder => let '(d, w1) := DeadlineMonitorBuilder w in Ret (mk (put (OBuilder MDeadline d) (objs s)) w1)
  | NewHeartbeatBuilder r => let '(d, w1) := HeartbeatMonitorBuilder r w in Ret (mk (put (OBuilder MHeartbeat d) (objs s)) w1)
  | NewLogicBuilder i => let '(d, w1) := LogicMonitorBuilder i w in Ret (mk (put (OBuilder MLogic d) (objs s)) w1)
  | NewThreadParameters => let '(d, w1) := ThreadParameters w in Ret (mk (put (OThread d) (objs s)) w1)
  | NewHealthBuilder => let '(b, w1) := make_health_builder w in Ret (mk (put (OHealthBuilder b) (objs s)) w1)
  | DoAddDeadline v tag r ans =>
      match objs s !! v with Some (OBuilder MDeadline d) => chained v (OBuilder MDeadline) (AddDeadline tag r ans d w) s | _ => Ret s end
  | DoAddState v st l ans =>
      match objs s !! v with Some (OBuilder MLogic d) => chained v (OBuilder MLogic) (AddState st l ans d w) s | _ => Ret s end
  | DoScheduler v sp ans => match objs s !! v with Some (OThread d) => chained v OThread (WithSchedulerParameters sp ans d w) s | _ => Ret s end
  | DoAffinity v l ans => match objs s !! v with Some (OThread d) => chained v OThread (Affinity l ans d w) s | _ => Ret s end
  | DoStackSize v n ans => match objs s !! v with Some (OThread d) => chained v OThread (StackSize n ans d w) s | _ => Ret s end
  | DoAddMonitor v tag vm =>
      match objs s !! v, objs s !! vm with
      | Some (OHealthBuilder b), Some (OBuilder m d) =>
          '(new, old, d1, w1) ← match m with MDeadline => AddDeadlineMonitor | MHeartbeat => AddHeartbeatMonitor | MLogic => AddLogicMonitor end tag d b w;
          Ret (mk (put (OHealthBuilder new) (<[vm := OBuilder m d1]> (<[v := OHealthBuilder old]> (objs s)))) w1)
      | _, _ => Ret s
      end
  | DoInternalCycle v n =>
      match objs s !! v with
      | Some (OHealthBuilder b) => '(new, old) ← WithInternalProcessingCycle n b; Ret (mk (put (OHealthBuilder new) (<[v := OHealthBuilder old]> (objs s))) w)
      | _ => Ret s
      end
  | DoSupervisorCycle v n =>
      match objs s !! v with
      | Some (OHealthBuilder b) => '(new, old) ← WithSupervisorApiCycle n b; Ret (mk (put (OHealthBuilder new) (<[v := OHealthBuilder old]> (objs s))) w)
      | _ => Ret s
      end
  | DoThreadParameters v vt =>
      match objs s !! v, objs s !! vt with
      | Some (OHealthBuilder b), Some (OThread d) =>
          '(new, old, d1, w1) ← WithThreadParameters d b w;
          Ret (mk (put (OHealthBuilder new) (<[vt := OThread d1]> (<[v := OHealthBuilder old]> (objs s)))) w1)
      | _, _ => Ret s
      end
  | DoBuild v ans =>
      match objs s !! v with
      | Some (OHealthBuilder b) =>
          '(r, b1, w1) ← Build ans b w;
          let m := <[v := OHealthBuilder b1]> (objs s) in
          Ret (mk (match r with inl h => put (OHealth h) m | inr _ => m end) w1)
      | _ => Ret s
      end
  | DoGetMonitor v m tag ans =>
      match objs s !! v with
      | Some (OHealth h) =>
          '(r, w1) ← match m with MDeadline => GetDeadlineMonitor | MHeartbeat => GetHeartbeatMonitor | MLogic => GetLogicMonitor end tag ans h w;
          Ret (mk (match r with inl d => put (OMonitor m d) (objs s) | inr _ => objs s end) w1)
      | _ => Ret s
      end
  | DoStartHealth v ans => match objs s !! v with Some (OHealth h) => w1 ← StartHealth ans h w; Ret (mk (objs s) w1) | _ => Ret s end
  | DoGetDeadline v tag ans =>
      match objs s !! v with
      | Some (OMonitor MDeadline d) =>
          '(r, w1) ← GetDeadline tag ans d w; Ret (mk (match r with inl x => put (ODeadline x) (objs s) | inr _ => objs s end) w1)
      | _ => Ret s
      end
  | DoStart v ans =>
      match objs s !! v with
      | Some (ODeadline x) =>
          '(r, x1, w1) ← Start ans x w;
          let m := <[v := ODeadline x1]> (objs s) in
          Ret (mk (match r with inl _ => put (OGuard false (Some v)) m | inr _ => m end) w1)
      | _ => Ret s
      end
  | DoStop v =>
      match objs s !! v with
      | Some (OGuard st (Some d)) => x ← guarded d s; w1 ← Stop st x w; Ret (mk (<[v := OGuard true (Some d)]> (objs s)) w1)
      | Some (OGuard _ None) => Abort AssertionFailed
      | _ => Ret s
      end
  | DoHeartbeat v ans => match objs s !! v with Some (OMonitor MHeartbeat d) => w1 ← Heartbeat ans d w; Ret (mk (objs s) w1) | _ => Ret s end
  | DoTransition v st ans => match objs s !! v with Some (OMonitor MLogic d) => '(_, w1) ← Transition st ans d w; Ret (mk (objs s) w1) | _ => Ret s end
  | DoState v ans => match objs s !! v with Some (OMonitor MLogic d) => '(_, w1) ← State ans d w; Ret (mk (objs s) w1) | _ => Ret s end
  | Move v =>
      match objs s !! v with
      | Some o => let '(new, old) := move_obj o in Ret (mk (put new (<[v := old]> (objs s))) w)
      | None => Ret s
      end
  | Assign v other =>
      if decide (v = other) then Ret s
      else
        match objs s !! v, objs s !! other with
        | Some (OMonitor m d), Some (OMonitor m' d') =>
            if decide (m = m') then '(new, old, w1) ← assign d d' w; Ret (mk (<[other := OMonitor m old]> (<[v := OMonitor m new]> (objs s))) w1) else Ret s
        | Some (OThread d), Some (OThread d') =>
            '(new, old, w1) ← assign d d' w; Ret (mk (<[other := OThread old]> (<[v := OThread new]> (objs s))) w1)
        | Some (OHealth h), Some (OHealth h') =>
            '(new, old, w1) ← assign_health h h' w; Ret (mk (<[other := OHealth old]> (<[v := OHealth new]> (objs s))) w1)
        | _, _ => Ret s
        end
  | Destroy v => match objs s !! v with Some o => destroy_obj v o s | None => Ret s end
  end.

Definition run (program : list op) (s : t) : outcome t := foldM (fun s o => step o s) s program.

End Client.
