(* ===== verification/HealthMonitorProofs.v ===== *)
(** * The C++ interface of the health monitor: proofs

    Every box of the Rust library is owned by exactly one C++ object.  The specifications of the wrappers are framed:
    the boxes before are those that the arguments own beside any others, the boxes after are those
    that the results own beside the same others. *)

From stdpp Require Import prelude fin_maps gmap strings.
From S2P Require Import Prelude HealthMonitor.

Module HealthMonitorProofs.
Import DroppableFFIHandle Wrappers Client.

(** The computation returns with [Q], or stops at an assertion; it does not touch a box that is not there. *)
Definition safe {A} (o : outcome A) (Q : A -> Prop) : Prop :=
  match o with Ret a => Q a | Abort f => f = AssertionFailed end.

Lemma safe_bind {A B} (o : outcome A) (k : A -> outcome B) (P : A -> Prop) (Q : B -> Prop) :
  safe o P -> (forall a, P a -> safe (k a) Q) -> safe (o ≫= k) Q.
Proof. destruct o; simpl; auto. Qed.

Lemma safe_mono {A} (o : outcome A) (P Q : A -> Prop) : safe o P -> (forall a, P a -> Q a) -> safe o Q.
Proof. destruct o; simpl; auto. Qed.

Lemma safe_assert b (Q : unit -> Prop) : (b = true -> Q tt) -> safe (assert b) Q.
Proof. destruct b; simpl; auto. Qed.

(** ** Boxes as a list *)

Notation boxes_of w := (map_to_list (FFI.boxes w)).

Lemma new_box_spec k w : let '(b, w') := FFI.new_box k w in boxes_of w' ≡ₚ (b, k) :: boxes_of w.
Proof. simpl. apply map_to_list_insert, not_elem_of_dom, is_fresh. Qed.

Lemma from_raw_spec k b w L : boxes_of w ≡ₚ (b, k) :: L -> FFI.from_raw k b w = Ret tt.
Proof.
  intros Hp. assert ((b, k) ∈ boxes_of w) as Hin by (rewrite Hp; by left). apply elem_of_map_to_list in Hin.
  unfold FFI.from_raw. rewrite Hin. by rewrite bool_decide_eq_true_2.
Qed.

Lemma drop_box_spec k b w L : boxes_of w ≡ₚ (b, k) :: L -> exists w', FFI.drop_box k b w = Ret w' /\ boxes_of w' ≡ₚ L /\ FFI.calls w' = FFI.calls w.
Proof.
  intros Hp. unfold FFI.drop_box. rewrite (from_raw_spec k b w L Hp). simpl. eexists. split; [done|]. split; [|done]. simpl.
  assert (FFI.boxes w !! b = Some k) as Hl by (apply elem_of_map_to_list; rewrite Hp; by left).
  apply (Permutation_cons_inv (a := (b, k))). rewrite <- Hp. by rewrite (map_to_list_delete _ _ _ Hl).
Qed.

(** ** Ownership *)

Definition owned_d (d : D) : list (nat * kind) := match d with DroppableFFIHandle.mk (Some h) (Some k) => [(h, k)] | _ => [] end.
Definition wf_d (k : kind) (d : D) : Prop := d = null \/ exists h, d = make h k.

Lemma destroy_spec k d w L : wf_d k d -> boxes_of w ≡ₚ owned_d d ++ L -> exists w', destroy d w = Ret w' /\ boxes_of w' ≡ₚ L.
Proof.
  intros [->|(h & ->)] Hp; simpl in *; [by exists w|]. unfold destroy. simpl.
  destruct (drop_box_spec k h w L Hp) as (w' & -> & Hw & _). simpl. by eexists.
Qed.

Lemma ask_spec k u ans d w L : wf_d k d -> boxes_of w ≡ₚ owned_d d ++ L ->
  safe (ask k u ans d w) (fun r => r.1 = ans /\ boxes_of r.2 ≡ₚ owned_d d ++ L).
Proof.
  intros [->|(h & ->)] Hp; [done|]. unfold ask. simpl in *. rewrite (from_raw_spec k h w L Hp). by simpl.
Qed.

Lemma chain_spec k u ans d w L : wf_d k d -> boxes_of w ≡ₚ owned_d d ++ L ->
  safe (chain k u ans d w) (fun r => let '(new, old, w') := r in wf_d k new /\ wf_d k old /\ boxes_of w' ≡ₚ owned_d new ++ owned_d old ++ L).
Proof.
  intros [->|(h & ->)] Hp; [done|]. unfold chain. simpl in *. rewrite (from_raw_spec k h w L Hp). simpl.
  eapply safe_bind; [by apply (safe_assert _ (fun _ => True))|]. intros _ _. simpl. split_and!; [right; by exists h|by left|done].
Qed.

Lemma assign_spec k d d' w L : wf_d k d -> wf_d k d' -> boxes_of w ≡ₚ owned_d d ++ owned_d d' ++ L ->
  exists new old w', assign d d' w = Ret (new, old, w') /\ wf_d k new /\ wf_d k old /\ boxes_of w' ≡ₚ owned_d new ++ owned_d old ++ L.
Proof.
  intros Hd Hd' Hp. unfold assign.
  assert (exists w1, match drop_fn_ d with Some k0 => '(_, w1) ← FFI.destroy k0 (handle_ d) w; Ret w1 | None => Ret w end = Ret w1 /\
    boxes_of w1 ≡ₚ owned_d d' ++ L) as (w1 & -> & Hw).
  { destruct Hd as [->|(h & ->)]; simpl in *; [by exists w|]. destruct (drop_box_spec k h w _ Hp) as (w' & -> & Hw & _). by eexists. }
  simpl. eexists _, _, w1. split; [done|]. destruct Hd' as [->|(h & ->)]; simpl in *; (split_and!; [|by left|done]); [by left|right; by exists h].
Qed.

Lemma destroy_health_spec h w L : boxes_of w ≡ₚ (match h with Some b => [(b, KHealthMonitor)] | None => [] end) ++ L ->
  exists w', destroy_health h w = Ret w' /\ boxes_of w' ≡ₚ L.
Proof.
  destruct h as [b|]; simpl; intros Hp; [|by exists w]. destruct (drop_box_spec _ _ _ _ Hp) as (w' & -> & Hw & _). simpl. by eexists.
Qed.

(** Getting something: an error and the same boxes, or a new box. *)
Lemma get_spec k b tag res ans w L : boxes_of w ≡ₚ (b, k) :: L ->
  exists r w', FFI.get k (Some b) tag res ans w = Ret (ans, r, w') /\
    match r with
    | Some h => ans = kSuccess /\ boxes_of w' ≡ₚ (h, res) :: boxes_of w
    | None => ans <> kSuccess /\ boxes_of w' = boxes_of w
    end.
Proof.
  intros Hp. unfold FFI.get. rewrite (from_raw_spec k b w L Hp). cbn [mbind outcome_bind].
  destruct (Z.eqb_spec ans kSuccess) as [->|Hne].
  - pose proof (new_box_spec res (FFI.log (c_get b res tag) w)) as Hn. destruct (FFI.new_box _ _) as [h w2]. eexists (Some h), w2. by split.
  - by eexists None, _.
Qed.

(** ** The builder of the health monitor *)

Definition owned_tp (tp : option D) : list (nat * kind) := match tp with Some d => owned_d d | None => [] end.
Definition owned_hb (b : HealthMonitorBuilder) : list (nat * kind) := owned_d (health_monitor_builder_handle_ b) ++ owned_tp (thread_parameters_ b).
Definition wf_hb (b : HealthMonitorBuilder) : Prop :=
  wf_d KHealthBuilder (health_monitor_builder_handle_ b) /\ forall d, thread_parameters_ b = Some d -> wf_d KThreadParameters d.

Lemma move_hb_spec b : wf_hb b -> let '(new, old) := move_health_builder b in
  wf_hb new /\ wf_hb old /\ owned_hb new ++ owned_hb old = owned_hb b.
Proof.
  intros [H1 H2]. simpl. split_and!.
  - by split.
  - split; [by left|]. simpl. intros d Hd. apply fmap_Some in Hd as (x & _ & ->). by left.
  - unfold owned_hb. simpl. by destruct (thread_parameters_ b); simpl; rewrite ?app_nil_r.
Qed.

Lemma AddMonitor_dispatch m : match m with MDeadline => AddDeadlineMonitor | MHeartbeat => AddHeartbeatMonitor | MLogic => AddLogicMonitor end = fun tag => AddMonitor tag m.
Proof. by destruct m. Qed.

Lemma GetMonitor_dispatch m : match m with MDeadline => GetDeadlineMonitor | MHeartbeat => GetHeartbeatMonitor | MLogic => GetLogicMonitor end = GetMonitor m.
Proof. by destruct m. Qed.

Lemma AddMonitor_spec tag m d b w L : wf_d (KBuilder m) d -> wf_hb b -> boxes_of w ≡ₚ owned_hb b ++ owned_d d ++ L ->
  safe (AddMonitor tag m d b w) (fun r => let '(new, old, d1, w') := r in
    wf_hb new /\ wf_hb old /\ wf_d (KBuilder m) d1 /\ boxes_of w' ≡ₚ owned_hb new ++ owned_hb old ++ owned_d d1 ++ L).
Proof.
  intros [->|(h & ->)] Hb Hp; [done|]. unfold AddMonitor. cbn [DropByRust handle_ make mbind outcome_bind].
  pose proof (move_hb_spec b Hb) as Hm.
  destruct b as [[hd dr] sup int tp]. pose proof Hb as [[Hd|(hb & Hd)] _]; simpl in Hd; rewrite Hd in *; [done|]. unfold owned_hb in Hp. simpl in Hp.
  destruct (drop_box_spec (KBuilder m) h w ((hb, KHealthBuilder) :: owned_tp tp ++ L)) as (w1 & E1 & Hw1 & _); [rewrite Hp; solve_Permutation|].
  simpl. rewrite E1. simpl. rewrite (from_raw_spec KHealthBuilder hb w1 (owned_tp tp ++ L)) by done. simpl in Hm |- *.
  destruct Hm as (H1 & H2 & H3). split_and!; [done|done|by left|]. rewrite Hw1. unfold owned_hb. simpl. destruct tp; simpl; solve_Permutation.
Qed.

Lemma WithThreadParameters_spec d b w L : wf_d KThreadParameters d -> wf_hb b -> boxes_of w ≡ₚ owned_hb b ++ owned_d d ++ L ->
  exists new old d1 w', WithThreadParameters d b w = Ret (new, old, d1, w') /\
    wf_hb new /\ wf_hb old /\ wf_d KThreadParameters d1 /\ boxes_of w' ≡ₚ owned_hb new ++ owned_hb old ++ owned_d d1 ++ L.
Proof.
  intros Hd [Hb Htp] Hp. unfold WithThreadParameters. destruct b as [hd sup int tp]. unfold owned_hb in Hp. simpl in *.
  assert (exists n o w1, match tp with Some cur => assign cur d w | None => Ret (DroppableFFIHandle.mk (handle_ d) (drop_fn_ d), null, w) end = Ret (n, o, w1) /\
    wf_d KThreadParameters n /\ wf_d KThreadParameters o /\ boxes_of w1 ≡ₚ owned_d n ++ owned_d o ++ owned_d hd ++ L) as (n & o & w1 & -> & Hn & Ho & Hw).
  { destruct tp as [cur|].
    - destruct (assign_spec KThreadParameters cur d w (owned_d hd ++ L)) as (n & o & w1 & -> & ? & ? & ?); [by apply Htp|done|rewrite Hp; simpl; solve_Permutation|].
      by exists n, o, w1.
    - eexists _, _, w. split; [done|]. split_and!; [by destruct Hd as [->|(h & ->)]; [left|right; exists h]|by left|].
      rewrite Hp. simpl. destruct Hd as [->|(h & ->)]; simpl; solve_Permutation. }
  simpl. eexists _, _, _, _. split; [done|]. split_and!.
  - split; [done|]. simpl. by intros x [= <-].
  - split; [by left|]. simpl. intros x [= <-]. by left.
  - done.
  - rewrite Hw. unfold owned_hb. simpl. solve_Permutation.
Qed.

Lemma destroy_hb_spec b w L : wf_hb b -> boxes_of w ≡ₚ owned_hb b ++ L -> exists w', destroy_health_builder b w = Ret w' /\ boxes_of w' ≡ₚ L.
Proof.
  intros [Hb Htp] Hp. unfold destroy_health_builder, owned_hb in *.
  assert (exists w1, match thread_parameters_ b with Some tp => destroy tp w | None => Ret w end = Ret w1 /\
    boxes_of w1 ≡ₚ owned_d (health_monitor_builder_handle_ b) ++ L) as (w1 & -> & Hw1).
  { destruct (thread_parameters_ b) as [tp|]; simpl in *; [|exists w; by rewrite app_nil_r in Hp].
    apply (destroy_spec KThreadParameters); [by apply Htp|]. rewrite Hp. solve_Permutation. }
  simpl. by apply (destroy_spec KHealthBuilder).
Qed.

Lemma Build_spec ans b w L : wf_hb b -> boxes_of w ≡ₚ owned_hb b ++ L ->
  safe (Build ans b w) (fun r => let '(res, b1, w') := r in wf_hb b1 /\
    match res with
    | inl (Some h) => boxes_of w' ≡ₚ (h, KHealthMonitor) :: owned_hb b1 ++ L
    | inl None => False
    | inr _ => boxes_of w' ≡ₚ owned_hb b1 ++ L
    end).
Proof.
  destruct b as [hd sup int tp]. intros [Hb Htp] Hp. unfold Build, owned_hb in *. simpl in *.
  destruct Hb as [->|(hb & ->)]; [done|]. simpl in *.
  assert (exists r tp1 L', safe (match tp with Some x => let '(r, tp1) := DropByRust x in match r with Some b => Ret (Some b, Some tp1) | None => Abort AssertionFailed end | None => Ret (None, None) end)
      (fun x => x = (r, tp1)) /\ owned_tp tp ++ L ≡ₚ L' /\ L' = (match r with Some b => [(b, KThreadParameters)] | None => [] end) ++ L /\
      owned_tp tp1 = [] /\ (forall d, tp1 = Some d -> wf_d KThreadParameters d)) as (r & tp1 & L' & Hs & HL & -> & Ho1 & Hw1).
  { destruct tp as [x|]; [|by exists None, None, L]. destruct (Htp x eq_refl) as [->|(h & ->)].
    - exists None, None, L. by split_and!.
    - exists (Some h), (Some null), ((h, KThreadParameters) :: L). split_and!; try done. intros d [= <-]. by left. }
  eapply safe_bind; [exact Hs|]. intros ? ->.
  destruct (drop_box_spec KHealthBuilder hb w (owned_tp tp ++ L) Hp) as (w1 & -> & Hw & _). simpl. rewrite HL in Hw.
  assert (exists w2, match r with Some t0 => FFI.drop_box KThreadParameters t0 w1 | None => Ret w1 end = Ret w2 /\ boxes_of w2 ≡ₚ L) as (w2 & -> & Hw2).
  { destruct r as [h|]; [|by exists w1]. destruct (drop_box_spec KThreadParameters h w1 L Hw) as (w2 & -> & ? & _). by exists w2. }
  cbn [mbind outcome_bind]. destruct (Z.eqb_spec ans kSuccess) as [->|Hne].
  - simpl. split; [by split; [left|]|]. rewrite Ho1, map_to_list_insert by apply not_elem_of_dom, is_fresh. by rewrite Hw2.
  - simpl. rewrite (proj2 (Z.eqb_neq _ _)) by done. split; [by split; [left|]|]. by rewrite Ho1.
Qed.

(** ** All objects of a program *)

Definition owned_by (o : obj) : list (nat * kind) :=
  match o with
  | OBuilder _ d | OThread d | OMonitor _ d => owned_d d
  | OHealthBuilder b => owned_hb b
  | OHealth h => match h with Some b => [(b, KHealthMonitor)] | None => [] end
  | ODeadline x => owned_d (deadline_handle_ x)
  | OGuard _ _ => []
  end.

Definition wf_obj (o : obj) : Prop :=
  match o with
  | OBuilder m d => wf_d (KBuilder m) d
  | OThread d => wf_d KThreadParameters d
  | OMonitor m d => wf_d (KMonitor m) d
  | OHealthBuilder b => wf_hb b
  | OHealth _ => True
  | ODeadline x => wf_d KDeadline (deadline_handle_ x)
  | OGuard _ _ => True
  end.

Definition own (m : gmap nat obj) : list (nat * kind) := map_to_list m ≫= (fun p => owned_by p.2).

Lemma own_insert v o m : m !! v = None -> own (<[v := o]> m) ≡ₚ owned_by o ++ own m.
Proof. intros Hv. unfold own. by rewrite (map_to_list_insert _ _ _ Hv). Qed.

Lemma own_put o m : own (put o m) ≡ₚ owned_by o ++ own m.
Proof. apply own_insert, not_elem_of_dom, is_fresh. Qed.

Lemma own_set v o m : own (<[v := o]> m) ≡ₚ owned_by o ++ own (delete v m).
Proof. rewrite <- insert_delete_eq. apply own_insert, lookup_delete_eq. Qed.

Lemma own_get v o m : m !! v = Some o -> own m ≡ₚ owned_by o ++ own (delete v m).
Proof. intros Hv. rewrite <- own_set. by rewrite insert_id. Qed.

Lemma own_get2 v o v' o' m : v <> v' -> m !! v = Some o -> m !! v' = Some o' -> own m ≡ₚ owned_by o ++ owned_by o' ++ own (delete v' (delete v m)).
Proof. intros Hne Hv Hv'. rewrite (own_get v o m Hv), (own_get v' o' (delete v m)); [done|]. by rewrite lookup_delete_ne. Qed.

Lemma own_set2 v o v' o' m : v <> v' -> own (<[v' := o']> (<[v := o]> m)) ≡ₚ owned_by o ++ owned_by o' ++ own (delete v' (delete v m)).
Proof.
  intros Hne. rewrite own_set, delete_insert_ne by done. rewrite own_set, (delete_delete m v v'). solve_Permutation.
Qed.

(** A guard refers to a deadline that knows about it, and no two guards to the same. *)
Record guards_ok (m : gmap nat obj) : Prop := {
  go_deadline : forall v st d, m !! v = Some (OGuard st (Some d)) -> exists x, m !! d = Some (ODeadline x) /\ has_handle_ x = true;
  go_unique : forall v v' st st' d, m !! v = Some (OGuard st (Some d)) -> m !! v' = Some (OGuard st' (Some d)) -> v = v'
}.

(** The guards of [m'] are guards of [m], and their deadlines are still there. *)
Lemma guards_mono m m' : guards_ok m ->
  (forall v st d, m' !! v = Some (OGuard st (Some d)) -> exists st', m !! v = Some (OGuard st' (Some d))) ->
  (forall v st d x, m' !! v = Some (OGuard st (Some d)) -> m !! d = Some (ODeadline x) -> has_handle_ x = true ->
     exists x', m' !! d = Some (ODeadline x') /\ has_handle_ x' = true) -> guards_ok m'.
Proof.
  intros [G1 G2] Hg Hd. split.
  - intros v st d Hv. destruct (Hg _ _ _ Hv) as [st' Hm]. destruct (G1 _ _ _ Hm) as (x & Hx & Ht). by eapply Hd.
  - intros v v' st st' d Hv Hv'. destruct (Hg _ _ _ Hv) as [? Hm]. destruct (Hg _ _ _ Hv') as [? Hm']. by eapply G2.
Qed.

Definition is_guard (o : obj) : Prop := match o with OGuard _ (Some _) => True | _ => False end.
Definition is_started (o : obj) : Prop := match o with ODeadline x => has_handle_ x = true | _ => False end.

Lemma guards_set v o m : guards_ok m -> ~ is_guard o -> (forall o', m !! v = Some o' -> is_started o' -> is_started o) -> guards_ok (<[v := o]> m).
Proof.
  intros Hg Hno Hst. eapply guards_mono; [done| |].
  - intros v' st d Hv'. destruct (decide (v = v')) as [->|Hne]; [|rewrite lookup_insert_ne in Hv' by done; eauto].
    rewrite lookup_insert_eq in Hv'. injection Hv' as ->. by destruct Hno.
  - intros v' st d x _ Hx Ht. destruct (decide (v = d)) as [->|Hne]; [|rewrite lookup_insert_ne by done; eauto].
    rewrite lookup_insert_eq. specialize (Hst _ Hx Ht). destruct o; try done. by eexists.
Qed.

Lemma guards_put o m : guards_ok m -> ~ is_guard o -> guards_ok (put o m).
Proof.
  intros Hg Hno. apply guards_set; [done|done|]. intros o' Ho'. exfalso. revert Ho'.
  pose proof (is_fresh (dom m)) as Hf%not_elem_of_dom. by rewrite Hf.
Qed.

Lemma guards_delete v m : guards_ok m -> (forall o, m !! v = Some o -> ~ is_started o) -> guards_ok (delete v m).
Proof.
  intros Hg Hno. eapply guards_mono; [done| |].
  - intros v' st d Hv'. apply lookup_delete_Some in Hv' as [_ Hv']. eauto.
  - intros v' st d x _ Hx Ht. destruct (decide (v = d)) as [->|Hne]; [by destruct (Hno _ Hx)|]. rewrite lookup_delete_ne by done. eauto.
Qed.

Record Inv (s : Client.t) : Prop := {
  inv_wf : map_Forall (fun _ o => wf_obj o) (objs s);
  inv_own : own (objs s) ≡ₚ boxes_of (ffi s);
  inv_guards : guards_ok (objs s)
}.

Lemma wf_put o m : map_Forall (fun (_ : nat) o => wf_obj o) m -> wf_obj o -> map_Forall (fun _ o => wf_obj o) (put o m).
Proof. intros. by apply map_Forall_insert_2. Qed.

Lemma health_inv_initial : Inv initial.
Proof. split; [apply map_Forall_empty|done|by split]. Qed.

(** A new object with its new box. *)
Lemma created_ok k args s o : Inv s -> wf_obj o -> ~ is_guard o -> owned_by o = [((FFI.create k args (ffi s)).1, k)] ->
  Inv (Client.mk (put o (objs s)) (FFI.create k args (ffi s)).2).
Proof.
  intros [Hw Ho Hg] Hwf Hng Hown. split; simpl.
  - by apply wf_put.
  - rewrite own_put, Hown, Ho. simpl. by rewrite map_to_list_insert by apply not_elem_of_dom, is_fresh.
  - by apply guards_put.
Qed.

(** A chaining method on a plain object. *)
Lemma chained_ok k u ans v (c : D -> obj) d s : Inv s -> objs s !! v = Some (c d) ->
  (forall d, wf_obj (c d) <-> wf_d k d) -> (forall d, owned_by (c d) = owned_d d) -> (forall d, ~ is_guard (c d)) -> (forall d, ~ is_started (c d)) ->
  safe (chained v c (chain k u ans d (ffi s)) s) Inv.
Proof.
  intros [Hw Ho Hg] Hv Hwf Hown Hng Hns. unfold chained. pose proof (Hw _ _ Hv) as Hwd. apply Hwf in Hwd.
  eapply safe_bind; [apply (chain_spec k u ans d (ffi s) (own (delete v (objs s))) Hwd)|].
  { rewrite <- Ho, (own_get v _ _ Hv). by rewrite Hown. }
  intros [[new old] w'] (Hn & Hold & Hp). simpl. split; simpl.
  - apply wf_put; [|by apply Hwf]. apply map_Forall_insert_2; [by apply Hwf|done].
  - by rewrite own_put, own_set, !Hown, Hp.
  - apply guards_put; [|done]. apply guards_set; [done|done|]. intros o' Ho'. rewrite Hv in Ho'. injection Ho' as <-. by intros ?%Hns.
Qed.

(** What an object owns beside all others. *)
Lemma inv_frame v o s : Inv s -> objs s !! v = Some o -> boxes_of (ffi s) ≡ₚ owned_by o ++ own (delete v (objs s)).
Proof. intros [_ Ho _] Hv. by rewrite <- Ho, (own_get v o). Qed.

Lemma inv_same_boxes s w' : Inv s -> boxes_of w' ≡ₚ boxes_of (ffi s) -> Inv (Client.mk (objs s) w').
Proof. intros [Hw Ho Hg] Hp. split; simpl; [done|by rewrite Hp|done]. Qed.

(** Replacing a plain object by others that own what is there now. *)
Lemma replaced_ok v o o' s w' : Inv s -> objs s !! v = Some o -> ~ is_started o -> wf_obj o' -> ~ is_guard o' ->
  boxes_of w' ≡ₚ owned_by o' ++ own (delete v (objs s)) -> Inv (Client.mk (<[v := o']> (objs s)) w').
Proof.
  intros [Hw Ho Hg] Hv Hns Hwf Hng Hp. split; simpl.
  - by apply map_Forall_insert_2.
  - by rewrite own_set, Hp.
  - apply guards_set; [done|done|]. intros x Hx. rewrite Hv in Hx. by injection Hx as <-.
Qed.

Lemma put_ok o s w' : Inv s -> wf_obj o -> ~ is_guard o -> boxes_of w' ≡ₚ owned_by o ++ boxes_of (ffi s) -> Inv (Client.mk (put o (objs s)) w').
Proof.
  intros [Hw Ho Hg] Hwf Hng Hp. split; simpl; [by apply wf_put|by rewrite own_put, Ho, Hp|by apply guards_put].
Qed.

(** The same with two objects, and a third that is new. *)
Lemma replaced2_ok v o v' a b c s w' : Inv s -> v <> v' -> objs s !! v = Some a -> objs s !! v' = Some b -> ~ is_started a -> ~ is_started b ->
  wf_obj c -> ~ is_guard c -> forall o', wf_obj o -> ~ is_guard o -> wf_obj o' -> ~ is_guard o' ->
  boxes_of w' ≡ₚ owned_by c ++ owned_by o ++ owned_by o' ++ own (delete v' (delete v (objs s))) ->
  Inv (Client.mk (put c (<[v' := o']> (<[v := o]> (objs s)))) w').
Proof.
  intros [Hw Ho Hg] Hne Ha Hb Hsa Hsb Hc Hgc o' Hwo Hgo Hwo' Hgo' Hp. split; simpl.
  - apply wf_put; [|done]. by do 2 (apply map_Forall_insert_2; [done|]).
  - by rewrite own_put, own_set2, Hp.
  - apply guards_put; [|done]. apply guards_set; [|done|].
    + apply guards_set; [done|done|]. intros x Hx. rewrite Ha in Hx. by injection Hx as <-.
    + intros x Hx. rewrite lookup_insert_ne in Hx by done. rewrite Hb in Hx. by injection Hx as <-.
Qed.

Lemma borrowed_ok k u ans v o d s {A} (f : Z * FFI.t -> outcome (A * FFI.t)) : Inv s -> objs s !! v = Some o -> wf_d k d -> owned_by o = owned_d d ->
  (forall r, safe (f r) (fun x => x.2 = r.2)) ->
  safe ('(_, w1) ← (r ← ask k u ans d (ffi s); f r); Ret (Client.mk (objs s) w1)) Inv.
Proof.
  intros Hi Hv Hwf Hown Hf. eapply (safe_bind _ _ (fun x => boxes_of x.2 ≡ₚ boxes_of (ffi s))).
  - eapply safe_bind; [apply (ask_spec k u ans d (ffi s) (own (delete v (objs s))) Hwf)|].
    + rewrite <- Hown. by apply inv_frame.
    + intros r [_ Hp]. eapply safe_mono; [apply Hf|]. intros x ->. rewrite Hp, <- Hown. symmetry. by apply inv_frame.
  - intros [x w1] Hp. by apply inv_same_boxes.
Qed.

Lemma step_borrow_ok s : Inv s ->
  (forall v ans, safe (step (DoHeartbeat v ans) s) Inv) /\ (forall v st ans, safe (step (DoTransition v st ans) s) Inv) /\
  (forall v ans, safe (step (DoState v ans) s) Inv) /\ (forall v ans, safe (step (DoStartHealth v ans) s) Inv).
Proof.
  intros Hi. pose proof (inv_wf _ Hi) as Hw. split_and!.
  - intros v ans. simpl. destruct (objs s !! v) as [[| | | |[]| |]|] eqn:Hv; try done. unfold Heartbeat.
    eapply safe_bind; [eapply safe_bind; [apply (ask_spec (KMonitor MHeartbeat) heartbeat ans d (ffi s) (own (delete v (objs s))) (Hw _ _ Hv)), (inv_frame v _ s Hi Hv)|]|].
    + intros [r w1] [_ Hp]. eapply safe_bind; [by apply (safe_assert _ (fun _ => True))|]. intros _ _. simpl in *. exact Hp.
    + intros w1 Hp. apply inv_same_boxes; [done|]. rewrite Hp. symmetry. by apply (inv_frame v _ s Hi Hv).
  - intros v st ans. simpl. destruct (objs s !! v) as [[| | | |[]| |]|] eqn:Hv; try done. unfold Transition.
    apply (borrowed_ok (KMonitor MLogic) (transition st) ans v _ d s _ Hi Hv (Hw _ _ Hv) eq_refl). by intros [].
  - intros v ans. simpl. destruct (objs s !! v) as [[| | | |[]| |]|] eqn:Hv; try done. unfold State.
    eapply safe_bind; [apply (ask_spec (KMonitor MLogic) get_state ans d (ffi s) (own (delete v (objs s))) (Hw _ _ Hv)), (inv_frame v _ s Hi Hv)|].
    intros [r w1] [_ Hp]. apply inv_same_boxes; [done|]. simpl in Hp. rewrite Hp. symmetry. by apply (inv_frame v _ s Hi Hv).
  - intros v ans. simpl. destruct (objs s !! v) as [[| | |[h|]| | |]|] eqn:Hv; try done; unfold StartHealth; simpl.
    + rewrite (from_raw_spec _ _ _ _ (inv_frame v _ s Hi Hv)). simpl. destruct (ans =? kSuccess)%Z; simpl; [|done]. by apply inv_same_boxes.
Qed.

Lemma step_new_ok s : Inv s ->
  safe (step NewDeadlineBuilder s) Inv /\ (forall r, safe (step (NewHeartbeatBuilder r) s) Inv) /\ (forall i, safe (step (NewLogicBuilder i) s) Inv) /\
  safe (step NewThreadParameters s) Inv /\ safe (step NewHealthBuilder s) Inv.
Proof.
  intros Hi. split_and!; intros.
  - apply (created_ok (KBuilder MDeadline) no_args s); [done|right; by eexists|by intros []|done].
  - apply (created_ok (KBuilder MHeartbeat) (range_args _ _) s); [done|right; by eexists|by intros []|done].
  - apply (created_ok (KBuilder MLogic) (state_args _) s); [done|right; by eexists|by intros []|done].
  - apply (created_ok KThreadParameters no_args s); [done|right; by eexists|by intros []|done].
  - apply (created_ok KHealthBuilder no_args s); [done|split; [right; by eexists|done]|by intros []|done].
Qed.

Lemma step_chain_ok s : Inv s ->
  (forall v tag r ans, safe (step (DoAddDeadline v tag r ans) s) Inv) /\ (forall v st l ans, safe (step (DoAddState v st l ans) s) Inv) /\
  (forall v sp ans, safe (step (DoScheduler v sp ans) s) Inv) /\ (forall v l ans, safe (step (DoAffinity v l ans) s) Inv) /\
  (forall v n ans, safe (step (DoStackSize v n ans) s) Inv).
Proof.
  intros Hi. split_and!; intros; cbn [step].
  1-2: destruct (objs s !! v) as [[[] d| | | | | |]|] eqn:Hv; try done.
  3-5: destruct (objs s !! v) as [[|d| | | | |]|] eqn:Hv; try done.
  all: eapply chained_ok; [done|exact Hv|done|done|by intros ? []|by intros ? []].
Qed.

Lemma step_cycle_ok s : Inv s -> (forall v n, safe (step (DoInternalCycle v n) s) Inv) /\ (forall v n, safe (step (DoSupervisorCycle v n) s) Inv).
Proof.
  intros Hi. assert (forall v b b', objs s !! v = Some (OHealthBuilder b) -> wf_hb b' -> owned_hb b' = owned_hb b ->
    Inv (Client.mk (put (OHealthBuilder (move_health_builder b').1) (<[v := OHealthBuilder (move_health_builder b').2]> (objs s))) (ffi s))) as Hx.
  { intros v b b' Hv Hwf Ho. pose proof (move_hb_spec b' Hwf) as Hm. destruct (move_health_builder b') as [new old]. destruct Hm as (H1 & H2 & H3). simpl.
    pose proof (inv_frame v _ s Hi Hv) as Hp. simpl in Hp. destruct Hi as [Hw Hown Hg]. split; simpl.
    - apply wf_put; [|done]. by apply map_Forall_insert_2.
    - rewrite own_put, own_set. simpl. by rewrite (assoc (++)), H3, Ho, Hp.
    - apply guards_put; [|by intros []]. apply guards_set; [done|by intros []|]. intros x Ex. rewrite Hv in Ex. by injection Ex as <-. }
  split; intros v n; cbn [step]; destruct (objs s !! v) as [[| |b| | | |]|] eqn:Hv; try done.
  - unfold WithInternalProcessingCycle. destruct (0 <=? n)%Z; simpl; [|done].
    apply (Hx v b (mkHealthBuilder (health_monitor_builder_handle_ b) (supervisor_api_cycle_ms_ b) (Some n) (thread_parameters_ b)) Hv); [|done]. exact (inv_wf _ Hi _ _ Hv).
  - unfold WithSupervisorApiCycle. destruct (0 <=? n)%Z; simpl; [|done].
    apply (Hx v b (mkHealthBuilder (health_monitor_builder_handle_ b) (Some n) (internal_processing_cycle_ms_ b) (thread_parameters_ b)) Hv); [|done]. exact (inv_wf _ Hi _ _ Hv).
Qed.

Lemma step_two_ok s : Inv s -> (forall v tag vm, safe (step (DoAddMonitor v tag vm) s) Inv) /\ (forall v vt, safe (step (DoThreadParameters v vt) s) Inv).
Proof.
  intros Hi. pose proof (inv_wf _ Hi) as Hw. split; intros; cbn [step].
  - destruct (objs s !! v) as [[| |b| | | |]|] eqn:Hv; try done. destruct (objs s !! vm) as [[m d| | | | | |]|] eqn:Hm; try done.
    assert (v <> vm) as Hne by (intros ->; congruence).
    rewrite AddMonitor_dispatch. eapply safe_bind; [apply (AddMonitor_spec tag m d b (ffi s) (own (delete vm (delete v (objs s)))) (Hw _ _ Hm) (Hw _ _ Hv))|].
    { rewrite <- (inv_own _ Hi). by rewrite (own_get2 v _ vm _ _ Hne Hv Hm). }
    intros [[[new old] d1] w1] (H1 & H2 & H3 & Hp). simpl.
    eapply replaced2_ok; try done; by intros [].
  - destruct (objs s !! v) as [[| |b| | | |]|] eqn:Hv; try done. destruct (objs s !! vt) as [[|d| | | | |]|] eqn:Hm; try done.
    assert (v <> vt) as Hne by (intros ->; congruence).
    destruct (WithThreadParameters_spec d b (ffi s) (own (delete vt (delete v (objs s)))) (Hw _ _ Hm) (Hw _ _ Hv)) as (new & old & d1 & w1 & -> & H1 & H2 & H3 & Hp).
    { rewrite <- (inv_own _ Hi). by rewrite (own_get2 v _ vt _ _ Hne Hv Hm). }
    simpl. eapply replaced2_ok; try done; by intros [].
Qed.

Lemma step_get_ok s : Inv s ->
  (forall v ans, safe (step (DoBuild v ans) s) Inv) /\ (forall v m tag ans, safe (step (DoGetMonitor v m tag ans) s) Inv) /\
  (forall v tag ans, safe (step (DoGetDeadline v tag ans) s) Inv).
Proof.
  intros Hi. pose proof (inv_wf _ Hi) as Hw. split_and!; intros; cbn [step].
  - destruct (objs s !! v) as [[| |b| | | |]|] eqn:Hv; try done.
    eapply safe_bind; [apply (Build_spec ans b (ffi s) _ (Hw _ _ Hv) (inv_frame v _ s Hi Hv))|].
    intros [[r b1] w1] [Hb1 Hp]. simpl. destruct r as [[h|]|e]; [|done|].
    + destruct Hi as [Hw' Ho Hg]. split; simpl.
      * apply wf_put; [|done]. by apply map_Forall_insert_2.
      * by rewrite own_put, own_set, Hp.
      * apply guards_put; [|by intros []]. apply guards_set; [done|by intros []|]. intros x Ex. rewrite Hv in Ex. by injection Ex as <-.
    + eapply replaced_ok; try done; by intros [].
  - destruct (objs s !! v) as [[| | |[h|]| | |]|] eqn:Hv; try done; rewrite GetMonitor_dispatch; unfold GetMonitor.
    + destruct (get_spec KHealthMonitor h tag (KMonitor m) ans (ffi s) _ (inv_frame v _ s Hi Hv)) as (r & w1 & -> & Hr). simpl.
      destruct r as [b|]; [destruct Hr as [-> Hp]|destruct Hr as [_ Hp]]; simpl.
      * apply put_ok; [done|right; by eexists|by intros []|done].
      * apply inv_same_boxes; [done|]. by rewrite Hp.
    + simpl. by apply inv_same_boxes.
  - destruct (objs s !! v) as [[| | | |[] d| |]|] eqn:Hv; try done. unfold GetDeadline. pose proof (inv_frame v _ s Hi Hv) as Hf. simpl in Hf.
    destruct (Hw _ _ Hv) as [->|(h & ->)]; [done|]. simpl AsRustHandle. cbn [mbind outcome_bind].
    destruct (get_spec (KMonitor MDeadline) h tag KDeadline ans (ffi s) _ Hf) as (r & w1 & -> & Hr). simpl.
    destruct r as [b|]; [destruct Hr as [-> Hp]|destruct Hr as [_ Hp]]; simpl.
    + apply put_ok; [done|right; by eexists|by intros []|done].
    + apply inv_same_boxes; [done|]. by rewrite Hp.
Qed.

(** ** Deadlines and guards *)

Lemma fresh_not (m : gmap nat obj) v (o : obj) : m !! v = Some o -> fresh (dom m) <> v.
Proof. intros Hv <-. pose proof (is_fresh (dom m)) as Hf%not_elem_of_dom. congruence. Qed.

Lemma guards_start v x x' st m : guards_ok m -> m !! v = Some (ODeadline x) -> has_handle_ x = false -> has_handle_ x' = true ->
  guards_ok (put (OGuard st (Some v)) (<[v := ODeadline x']> m)).
Proof.
  intros [G1 G2] Hv Hx Hx'. set (m1 := <[v := ODeadline x']> m). unfold put. set (f := fresh (dom m1)).
  assert (f <> v) as Hf by (apply (fresh_not m1 v (ODeadline x')); apply lookup_insert_eq).
  assert (forall u st' d, <[f := OGuard st (Some v)]> m1 !! u = Some (OGuard st' (Some d)) ->
    (u = f /\ d = v) \/ (u <> f /\ d <> v /\ m !! u = Some (OGuard st' (Some d)))) as Hcase.
  { intros u st' d Hu. destruct (decide (u = f)) as [->|Hne]; [rewrite lookup_insert_eq in Hu; left; split; [done|congruence]|right].
    rewrite lookup_insert_ne in Hu by done. unfold m1 in Hu. destruct (decide (u = v)) as [->|Hnv]; [by rewrite lookup_insert_eq in Hu|].
    rewrite lookup_insert_ne in Hu by done. split_and!; try done. intros ->. destruct (G1 _ _ _ Hu) as (y & Hy & Hyt). congruence. }
  split.
  - intros u st' d Hu. destruct (Hcase _ _ _ Hu) as [[-> ->]|(Hne & Hd & Hm)].
    + exists x'. rewrite lookup_insert_ne by done. unfold m1. by rewrite lookup_insert_eq.
    + destruct (G1 _ _ _ Hm) as (y & Hy & Ht). exists y. split; [|done]. rewrite lookup_insert_ne; [unfold m1; by rewrite lookup_insert_ne|].
      intros <-. pose proof (is_fresh (dom m1)) as Hfr%not_elem_of_dom. fold f in Hfr. unfold m1 in Hfr. rewrite lookup_insert_ne in Hfr by done. congruence.
  - intros u u' st1 st2 d Hu Hu'. destruct (Hcase _ _ _ Hu) as [[-> ->]|(Hne & Hd & Hm)], (Hcase _ _ _ Hu') as [[-> ?]|(Hne' & Hd' & Hm')]; try done.
    by eapply G2.
Qed.

(** Giving a guard to a new variable. *)
Lemma guards_move v st st' d m : guards_ok m -> m !! v = Some (OGuard st (Some d)) -> guards_ok (put (OGuard st (Some d)) (<[v := OGuard st' None]> m)).
Proof.
  intros [G1 G2] Hv. set (m1 := <[v := OGuard st' None]> m). unfold put. set (f := fresh (dom m1)).
  assert (m1 !! f = None) as Hfr by (apply not_elem_of_dom, is_fresh).
  assert (forall u e y, u <> v -> m !! u = Some y -> <[f := OGuard st e]> m1 !! u = Some y) as Hkeep.
  { intros u e y Hu Hy. assert (m1 !! u = Some y) as Hm by (unfold m1; by rewrite lookup_insert_ne). rewrite lookup_insert_ne; [done|].
    intros <-. congruence. }
  assert (forall u st1 e, <[f := OGuard st (Some d)]> m1 !! u = Some (OGuard st1 (Some e)) ->
    (u = f /\ e = d) \/ (u <> f /\ u <> v /\ m !! u = Some (OGuard st1 (Some e)))) as Hcase.
  { intros u st1 e Hu. destruct (decide (u = f)) as [->|Hne]; [rewrite lookup_insert_eq in Hu; left; split; [done|congruence]|right].
    rewrite lookup_insert_ne in Hu by done. unfold m1 in Hu. destruct (decide (u = v)) as [->|Hnv]; [by rewrite lookup_insert_eq in Hu|].
    by rewrite lookup_insert_ne in Hu. }
  split.
  - intros u st1 e Hu. assert (exists w st2, m !! w = Some (OGuard st2 (Some e))) as (w & st2 & Hw).
    { destruct (Hcase _ _ _ Hu) as [[-> ->]|(_ & _ & Hm)]; eauto. }
    destruct (G1 _ _ _ Hw) as (x & Hx & Ht). exists x. split; [|done]. apply Hkeep; [|done]. intros ->. congruence.
  - intros u u' st1 st2 e Hu Hu'.
    destruct (Hcase _ _ _ Hu) as [[-> ->]|(Hne & Hnv & Hm)], (Hcase _ _ _ Hu') as [[-> Heq]|(Hne' & Hnv' & Hm')]; try done.
    + exfalso. by apply Hnv', (G2 _ _ _ _ _ Hm' Hv).
    + subst. exfalso. by apply Hnv, (G2 _ _ _ _ _ Hm Hv).
    + by eapply G2.
Qed.

(** A guard ends: its deadline may be used again. *)
Lemma guards_end v st d x m : guards_ok m -> m !! v = Some (OGuard st (Some d)) -> guards_ok (<[d := ODeadline x]> (delete v m)).
Proof.
  intros [G1 G2] Hv. assert (forall u st1 e, <[d := ODeadline x]> (delete v m) !! u = Some (OGuard st1 (Some e)) ->
    u <> v /\ m !! u = Some (OGuard st1 (Some e)) /\ e <> d) as Hcase.
  { intros u st1 e Hu. destruct (decide (u = d)) as [->|Hne]; [by rewrite lookup_insert_eq in Hu|]. rewrite lookup_insert_ne in Hu by done.
    apply lookup_delete_Some in Hu as [Hnv Hu]. split_and!; [done|done|]. intros ->. by destruct Hnv; apply (G2 _ _ _ _ _ Hv Hu). }
  split.
  - intros u st1 e Hu. destruct (Hcase _ _ _ Hu) as (Hnv & Hm & Hed). destruct (G1 _ _ _ Hm) as (y & Hy & Ht). exists y. split; [|done].
    rewrite lookup_insert_ne by done. rewrite lookup_delete_ne; [done|]. intros <-. congruence.
  - intros u u' st1 st2 e Hu Hu'. destruct (Hcase _ _ _ Hu) as (_ & Hm & _), (Hcase _ _ _ Hu') as (_ & Hm' & _). by eapply G2.
Qed.

Lemma Stop_spec st x d s : Inv s -> objs s !! d = Some (ODeadline x) -> safe (Stop st x (ffi s)) (fun w => boxes_of w ≡ₚ boxes_of (ffi s)).
Proof.
  intros Hi Hd. unfold Stop. destruct st; [simpl; reflexivity|]. pose proof (inv_frame d _ s Hi Hd) as Hf.
  eapply safe_bind; [apply (ask_spec KDeadline deadline_stop kSuccess _ _ _ (inv_wf _ Hi _ _ Hd) Hf)|].
  intros [r w1] [Hr Hp]. simpl in Hr. subst r. simpl in *. by rewrite Hp, Hf.
Qed.

Lemma step_deadline_ok s : Inv s -> (forall v ans, safe (step (DoStart v ans) s) Inv) /\ (forall v, safe (step (DoStop v) s) Inv).
Proof.
  intros Hi. pose proof (inv_wf _ Hi) as Hw. split; intros; cbn [step].
  - destruct (objs s !! v) as [[| | | | |x|]|] eqn:Hv; try done. unfold Start. destruct (has_handle_ x) eqn:Hx.
    { simpl. rewrite insert_id by done. by destruct s. }
    pose proof (inv_frame v _ s Hi Hv) as Hf. eapply (safe_bind _ _ (fun r => let '(res, x1, w1) := r in boxes_of w1 ≡ₚ boxes_of (ffi s) /\
      deadline_handle_ x1 = deadline_handle_ x /\ match res with inl _ => has_handle_ x1 = true | inr _ => x1 = x end)).
    + eapply safe_bind; [apply (ask_spec KDeadline deadline_start ans _ _ _ (Hw _ _ Hv) Hf)|]. intros [r w1] [Hr Hp]. simpl in Hr. subst r. simpl in *.
      destruct (ans =? kSuccess)%Z; simpl; by rewrite Hp, Hf.
    + intros [[res x1] w1] (Hp & Hd & Hr). simpl. pose proof Hi as [_ Ho Hg]. destruct res as [[]|e].
      * split; simpl; [apply wf_put; [|done]; apply map_Forall_insert_2; [simpl; rewrite Hd; exact (Hw _ _ Hv)|done]| |].
        -- rewrite own_put, own_set. simpl. by rewrite Hd, Hp, Hf.
        -- by apply (guards_start v x).
      * subst. rewrite insert_id by done. by apply inv_same_boxes.
  - destruct (objs s !! v) as [[| | | | | |st [d|]]|] eqn:Hv; try done. destruct (go_deadline _ (inv_guards _ Hi) _ _ _ Hv) as (x & Hd & Ht).
    unfold guarded. rewrite Hd. simpl. eapply safe_bind; [by apply (Stop_spec st x d)|]. intros w1 Hp. simpl.
    pose proof Hi as [_ Ho Hg]. split; simpl; [by apply map_Forall_insert_2|by rewrite own_set, Hp, <- Ho, (own_get v _ _ Hv)|].
    eapply guards_mono; [done| |].
    + intros u st1 e Hu. destruct (decide (v = u)) as [->|Hne]; [rewrite lookup_insert_eq in Hu; injection Hu as <- <-; eauto|].
      rewrite lookup_insert_ne in Hu by done. eauto.
    + intros u st1 e y _ Hy Hyt. exists y. split; [|done]. rewrite lookup_insert_ne; [done|]. intros <-. congruence.
Qed.

(** ** Moving, assigning, destroying *)

Lemma move_d_spec k d : wf_d k d -> wf_d k (move d).1 /\ wf_d k (move d).2 /\ owned_d (move d).1 ++ owned_d (move d).2 = owned_d d.
Proof. intros [->|(h & ->)]; simpl; (split_and!; [|by left|done]); [by left|right; by exists h]. Qed.

Lemma move_obj_spec o : wf_obj o -> let '(new, old) := move_obj o in
  wf_obj new /\ wf_obj old /\ owned_by new ++ owned_by old = owned_by o /\ ~ is_guard old /\ (is_started o -> is_started old) /\ (is_guard new <-> is_guard o).
Proof.
  destruct o as [m d|d|b|h|m d|x|st d]; simpl; intros Hwf.
  - destruct (move_d_spec _ d Hwf) as (H1 & H2 & H3). split_and!; try done; by intros [].
  - destruct (move_d_spec _ d Hwf) as (H1 & H2 & H3). split_and!; try done; by intros [].
  - pose proof (move_hb_spec b Hwf) as Hm. simpl in Hm. destruct Hm as (H1 & H2 & H3). split_and!; try done; by intros [].
  - split_and!; try done; [by rewrite app_nil_r|by intros []].
  - destruct (move_d_spec _ d Hwf) as (H1 & H2 & H3). split_and!; try done; by intros [].
  - destruct (move_d_spec _ (deadline_handle_ x) Hwf) as (H1 & H2 & H3). simpl in *. split_and!; try done; by intros [].
  - split_and!; try done; by intros [].
Qed.

Lemma step_move_ok v s : Inv s -> safe (step (Move v) s) Inv.
Proof.
  intros Hi. cbn [step]. destruct (objs s !! v) as [o|] eqn:Hv; [|done]. pose proof (inv_wf _ Hi _ _ Hv) as Hwf.
  pose proof (move_obj_spec o Hwf) as Hm. destruct (move_obj o) as [new old] eqn:Em. destruct Hm as (H1 & H2 & H3 & H4 & H5 & H6).
  pose proof (inv_frame v _ s Hi Hv) as Hf. destruct Hi as [Hw Ho Hg]. simpl. split; simpl.
  - apply wf_put; [|done]. by apply map_Forall_insert_2.
  - by rewrite own_put, own_set, (assoc (++)), H3, Hf.
  - assert ((exists st d, o = OGuard st (Some d)) \/ ~ is_guard o) as [(st & d & ->)|Hno] by (destruct o as [| | | | | |st [d|]]; try (by right; intros []); eauto).
    + simpl in Em. injection Em as <- <-. by apply guards_move.
    + apply guards_put; [|by rewrite H6].
      apply guards_set; [done|done|]. intros o' Ho'. rewrite Hv in Ho'. by injection Ho' as <-.
Qed.

Lemma assigned_ok v v' a b a' b' s w' : Inv s -> v <> v' -> objs s !! v = Some a -> objs s !! v' = Some b -> ~ is_started a -> ~ is_started b ->
  wf_obj a' -> ~ is_guard a' -> wf_obj b' -> ~ is_guard b' -> boxes_of w' ≡ₚ owned_by a' ++ owned_by b' ++ own (delete v' (delete v (objs s))) ->
  Inv (Client.mk (<[v' := b']> (<[v := a']> (objs s))) w').
Proof.
  intros [Hw Ho Hg] Hne Ha Hb Hsa Hsb Hwa Hga Hwb Hgb Hp. split; simpl.
  - by do 2 (apply map_Forall_insert_2; [done|]).
  - by rewrite own_set2, Hp.
  - apply guards_set; [|done|].
    + apply guards_set; [done|done|]. intros x Hx. rewrite Ha in Hx. by injection Hx as <-.
    + intros x Hx. rewrite lookup_insert_ne in Hx by done. rewrite Hb in Hx. by injection Hx as <-.
Qed.

Lemma step_assign_ok v v' s : Inv s -> safe (step (Assign v v') s) Inv.
Proof.
  intros Hi. pose proof (inv_wf _ Hi) as Hw. cbn [step]. case_decide as Hne; [done|].
  destruct (objs s !! v) as [o|] eqn:Hv; [|done]. destruct (objs s !! v') as [o'|] eqn:Hv'; [|by destruct o].
  pose proof (own_get2 v o v' o' _ Hne Hv Hv') as Hf. rewrite (inv_own _ Hi) in Hf.
  destruct o as [| d| |h|m d| |]; try done; destruct o' as [|d'| |h'|m' d'| |]; try done.
  - destruct (assign_spec _ d d' (ffi s) _ (Hw _ _ Hv) (Hw _ _ Hv') Hf) as (new & old & w1 & -> & H1 & H2 & Hp).
    simpl. eapply assigned_ok; try done; by intros [].
  - unfold assign_health. destruct (destroy_health_spec h (ffi s) _ Hf) as (w1 & -> & Hp). simpl.
    eapply assigned_ok; try done; by intros [].
  - case_decide as Hm; [|done]. subst m'.
    destruct (assign_spec _ d d' (ffi s) _ (Hw _ _ Hv) (Hw _ _ Hv') Hf) as (new & old & w1 & -> & H1 & H2 & Hp).
    simpl. eapply assigned_ok; try done; by intros [].
Qed.

(** A destructor does not stop the program unless a started deadline is destroyed or was moved under its guard. *)
Definition destructible (s : Client.t) (o : obj) : Prop :=
  match o with
  | ODeadline x => has_handle_ x = false
  | OGuard st (Some d) => st = true \/ forall x, objs s !! d = Some (ODeadline x) -> deadline_handle_ x <> null
  | _ => True
  end.

Lemma deleted_ok v o s w' : Inv s -> objs s !! v = Some o -> ~ is_started o -> boxes_of w' ≡ₚ own (delete v (objs s)) -> Inv (Client.mk (delete v (objs s)) w').
Proof.
  intros [Hw Ho Hg] Hv Hns Hp. split; simpl; [by apply map_Forall_delete|by rewrite Hp|]. apply guards_delete; [done|].
  intros x Hx. rewrite Hv in Hx. by injection Hx as <-.
Qed.

Lemma Stop_returns st x d s : Inv s -> objs s !! d = Some (ODeadline x) -> st = true \/ deadline_handle_ x <> null -> exists w, Stop st x (ffi s) = Ret w.
Proof.
  intros Hi Hd Hs. unfold Stop. destruct st; [by eexists|]. destruct Hs as [|Hs]; [done|].
  pose proof (inv_frame d _ s Hi Hd) as Hf. simpl in Hf. pose proof (inv_wf _ Hi _ _ Hd) as Hwf. simpl in Hwf.
  destruct Hwf as [Hwf|(h & Hwf)]; [done|]. rewrite Hwf in *. unfold ask. simpl in *. rewrite (from_raw_spec _ _ _ _ Hf). simpl. by eexists.
Qed.

Lemma destroy_obj_ok v o s : Inv s -> objs s !! v = Some o ->
  safe (destroy_obj v o s) Inv /\ (destructible s o -> exists s', destroy_obj v o s = Ret s').
Proof.
  intros Hi Hv. pose proof (inv_wf _ Hi _ _ Hv) as Hw. pose proof (inv_frame v _ s Hi Hv) as Hf.
  destruct o as [m d|d|b|h|m d|x|st [d|]]; simpl in Hw, Hf |- *.
  - destruct (destroy_spec _ d (ffi s) _ Hw Hf) as (w & -> & Hp). simpl. split; [|by eexists]. eapply deleted_ok; try done; by intros [].
  - destruct (destroy_spec _ d (ffi s) _ Hw Hf) as (w & -> & Hp). simpl. split; [|by eexists]. eapply deleted_ok; try done; by intros [].
  - destruct (destroy_hb_spec b (ffi s) _ Hw Hf) as (w & -> & Hp). simpl. split; [|by eexists]. eapply deleted_ok; try done; by intros [].
  - destruct (destroy_health_spec h (ffi s) _ Hf) as (w & -> & Hp). simpl. split; [|by eexists]. eapply deleted_ok; try done; by intros [].
  - destruct (destroy_spec _ d (ffi s) _ Hw Hf) as (w & -> & Hp). simpl. split; [|by eexists]. eapply deleted_ok; try done; by intros [].
  - unfold destroy_deadline. destruct (has_handle_ x) eqn:Hx; simpl; [by split|].
    destruct (destroy_spec _ (deadline_handle_ x) (ffi s) _ Hw Hf) as (w & -> & Hp). simpl. split; [|by eexists].
    eapply deleted_ok; try done. simpl. congruence.
  - destruct (go_deadline _ (inv_guards _ Hi) _ _ _ Hv) as (x & Hd & Ht). unfold guarded. rewrite Hd. simpl. split.
    + eapply safe_bind; [by apply (Stop_spec st x d)|]. intros w Hp. simpl. assert (v <> d) as Hne by (intros ->; congruence).
      pose proof Hi as [Hwf Ho Hg]. split; simpl.
      * apply map_Forall_insert_2; [exact (Hwf _ _ Hd)|by apply map_Forall_delete].
      * rewrite own_set, Hp, <- Ho, (own_get2 v _ d _ _ Hne Hv Hd). done.
      * by apply (guards_end v st).
    + intros Hs. destruct (Stop_returns st x d s Hi Hd) as [w ->]; [naive_solver|]. simpl. by eexists.
  - split; [|by eexists]. eapply deleted_ok; try done. by intros [].
Qed.

Lemma health_step_ok o s : Inv s -> safe (step o s) Inv.
Proof.
  intros Hi. pose proof (step_new_ok s Hi) as (N1 & N2 & N3 & N4 & N5). pose proof (step_chain_ok s Hi) as (C1 & C2 & C3 & C4 & C5).
  pose proof (step_cycle_ok s Hi) as (Y1 & Y2). pose proof (step_two_ok s Hi) as (T1 & T2). pose proof (step_get_ok s Hi) as (G1 & G2 & G3).
  pose proof (step_borrow_ok s Hi) as (B1 & B2 & B3 & B4). pose proof (step_deadline_ok s Hi) as (D1 & D2).
  destruct o; auto; [by apply step_move_ok|by apply step_assign_ok|]. cbn [step]. destruct (objs s !! v) as [o|] eqn:Hv; [|done].
  by apply destroy_obj_ok.
Qed.

Lemma health_run_ok program : forall s, Inv s -> safe (run program s) Inv.
Proof.
  induction program as [|o program IH]; intros s Hi; [done|]. unfold run. cbn [foldM].
  eapply safe_bind; [by apply health_step_ok|]. intros s' Hi'. by apply IH.
Qed.

(** C33: for every program that uses the C++ interface, and every answer of the library: no call is given a box that is gone or of
    another type; the only way a program stops is an assertion of the interface.  At every moment each box of the library is
    owned by exactly one C++ object, so none is left when all objects are destroyed; and a destructor never stops
    the program, except that of a started deadline or of the guard of a deadline that was moved while it ran. *)
Theorem boxes_have_one_owner (program : list op) :
  match run program initial with
  | Ret s =>
      own (objs s) ≡ₚ map_to_list (FFI.boxes (ffi s)) /\ (objs s = ∅ -> FFI.boxes (ffi s) = ∅) /\
      (forall v o, objs s !! v = Some o -> destructible s o -> exists s', step (Destroy v) s = Ret s')
  | Abort f => f = AssertionFailed
  end.
Proof.
  pose proof (health_run_ok program initial health_inv_initial) as Hr. destruct (run program initial) as [s|f]; [|done].
  pose proof Hr as [_ Ho _]. split_and!.
  - done.
  - intros He. rewrite He in Ho. unfold own in Ho. rewrite map_to_list_empty in Ho. simpl in Ho. apply map_to_list_empty_iff.
    by apply Permutation_nil.
  - intros v o Hv Hd. cbn [step]. rewrite Hv. by apply destroy_obj_ok.
Qed.

End HealthMonitorProofs.

Module HealthMonitorExample.
Import Wrappers Client.

(** A deadline is started through a health monitor and its guard is destroyed; then every object is destroyed. *)
Definition prologue : list op :=
  [NewHealthBuilder; NewDeadlineBuilder; DoAddDeadline 1 "d" (TimeRange.mk 10 20) 0; DoAddMonitor 0 "m" 2; DoBuild 3 0;
   DoGetMonitor 4 MDeadline "m" 0; DoStartHealth 4 0; DoGetDeadline 5 "d" 0; DoStart 6 0].

(** What the live boxes are. *)
Definition kinds (r : outcome t) : outcome (list kind) := s ← r; Ret (map_to_list (FFI.boxes (ffi s))).*2.

Example example_owners : kinds (run prologue initial) = Ret [KDeadline; KMonitor MDeadline; KHealthMonitor].
Proof. by vm_compute. Qed.

Example example_all_destroyed :
  kinds (run (prologue ++ [Destroy 7; Destroy 6; Destroy 5; Destroy 4; Destroy 3; Destroy 2; Destroy 1; Destroy 0]) initial) = Ret [].
Proof. by vm_compute. Qed.

(** Moving a started deadline: the guard reaches the emptied object and stops the program. *)
Example example_moved_while_running : run (prologue ++ [Move 6; Destroy 7]) initial = Abort AssertionFailed.
Proof. by vm_compute. Qed.

(** A deadline that is destroyed before its guard stops the program. *)
Example example_guard_outlives : run (prologue ++ [Destroy 6]) initial = Abort AssertionFailed.
Proof. by vm_compute. Qed.

End HealthMonitorExample.
