(* ===== verification/HealthState.v ===== *)
(** * The packed state words of the health monitor library

    Every monitor of the Rust library (score/health_monitor/src/rust) shares one atomic 64-bit word between the thread that is
    monitored and the thread that evaluates: modules [DeadlineStateSnapshot] (deadline/deadline_state.rs),
    [HeartbeatStateSnapshot] (heartbeat/heartbeat_state.rs) and [LogicStateSnapshot] (logic/logic_state.rs), with the masks and shifts of the
    source.  The laws of a packed word are proved once (module [Bits]); each snapshot then has a
    description of the words that occur, on which its accessors are plain functions. *)

From stdpp Require Import prelude.
From S2P Require Import Prelude.

Local Open Scope Z_scope.

(** ** Words of 64 bits with a low field *)
Module Bits.

(** [!x] on [u64] *)
Definition not64 (x : Z) : Z := Z.lxor x (Z.ones 64).

Definition u64 (v : Z) : Prop := 0 <= v < 2 ^ 64.

#[export] Hint Rewrite Z.land_spec Z.lor_spec Z.lxor_spec Z.shiftr_spec Z.shiftl_spec using lia : bits.

Lemma testbit_above v n : u64 v -> 64 <= n -> Z.testbit v n = false.
Proof.
  intros Hv Hn. destruct (decide (v = 0)) as [->|]; [apply Z.testbit_0_l|].
  apply Z.bits_above_log2; [unfold u64 in *; lia|]. apply Z.log2_lt_pow2; [unfold u64 in *; lia|].
  apply Z.lt_le_trans with (2 ^ 64); [apply Hv | apply Z.pow_le_mono_r; lia].
Qed.

(** The field above bit [j], read through a mask that clears [k <= j] bits. *)
Lemma high_field v k j : u64 v -> 0 <= k <= j -> Z.shiftr (Z.land v (not64 (Z.ones k))) j = v / 2 ^ j.
Proof.
  intros Hv Hk. rewrite <- Z.shiftr_div_pow2 by lia. apply Z.bits_inj'. intros n Hn. unfold not64.
  autorewrite with bits. rewrite (Z.ones_spec_high k) by lia. simpl.
  destruct (decide (n + j < 64)); [rewrite Z.ones_spec_low by lia; apply andb_true_r|].
  by rewrite testbit_above by (done || lia).
Qed.

Lemma low_field v k : 0 <= k -> Z.land v (Z.ones k) = v mod 2 ^ k.
Proof. apply Z.land_ones. Qed.

(** What a mask that clears the high field leaves. *)
Lemma not_high v k : u64 v -> 0 <= k -> Z.land v (not64 (not64 (Z.ones k))) = v mod 2 ^ k.
Proof. intros Hv Hk. unfold not64. by rewrite Z.lxor_assoc, Z.lxor_nilpotent, Z.lxor_0_r, Z.land_ones. Qed.

Lemma join a b k : 0 <= k -> 0 <= b < 2 ^ k -> Z.lor (Z.shiftl a k) b = a * 2 ^ k + b.
Proof.
  intros Hk Hb. rewrite Z.shiftl_mul_pow2 by done. rewrite <- Z.lxor_lor, <- Z.add_nocarry_lxor; try done;
    (apply Z.bits_inj'; intros n Hn; rewrite Z.land_spec, Z.testbit_0_l, <- Z.shiftl_mul_pow2 by done;
     destruct (decide (n < k)); [by rewrite Z.shiftl_spec_low by done|];
     apply andb_false_intro2; rewrite <- (Z.mod_small b (2 ^ k)) by done; apply Z.mod_pow2_bits_high; lia).
Qed.

(** What a mask that clears the low field leaves. *)
Lemma not_low v k : u64 v -> 0 <= k -> Z.land v (not64 (Z.ones k)) = v / 2 ^ k * 2 ^ k.
Proof.
  intros Hv Hk. rewrite <- Z.shiftl_mul_pow2, <- Z.shiftr_div_pow2, <- Z.ldiff_ones_r by done.
  apply Z.bits_inj'. intros n Hn. unfold not64. rewrite Z.ldiff_spec. autorewrite with bits.
  destruct (decide (n < 64)); [by rewrite (Z.ones_spec_low 64), xorb_true_r by lia|].
  by rewrite testbit_above by (done || lia).
Qed.

Lemma join_r a b k : 0 <= k -> 0 <= b < 2 ^ k -> Z.lor b (a * 2 ^ k) = a * 2 ^ k + b.
Proof. intros. rewrite Z.lor_comm, <- join by done. by rewrite Z.shiftl_mul_pow2. Qed.

(** The parts of a joined word. *)
Lemma high_join a b k : 0 <= k -> 0 <= b < 2 ^ k -> (a * 2 ^ k + b) / 2 ^ k = a.
Proof. intros. rewrite Z.div_add_l, Z.div_small; lia. Qed.

Lemma low_join a b k : 0 <= k -> 0 <= b < 2 ^ k -> (a * 2 ^ k + b) mod 2 ^ k = b.
Proof. intros. rewrite Z.add_comm, Z.mod_add by lia. by apply Z.mod_small. Qed.

Lemma u64_join a b k : 0 <= k <= 64 -> 0 <= a < 2 ^ (64 - k) -> 0 <= b < 2 ^ k -> u64 (a * 2 ^ k + b).
Proof.
  unfold u64. intros Hk Ha Hb. assert (2 ^ 64 = 2 ^ (64 - k) * 2 ^ k) as -> by (rewrite <- Z.pow_add_r; f_equal; lia). nia.
Qed.

(** Flags are single bits of the low field. *)
Lemma land_low a b c k : 0 <= k -> 0 <= b < 2 ^ k -> 0 <= c < 2 ^ k -> Z.land (a * 2 ^ k + b) c = Z.land b c.
Proof.
  intros Hk Hb Hc. rewrite <- (Z.mod_small c (2 ^ k)) at 1 by done. rewrite <- Z.land_ones, (Z.land_comm c), Z.land_assoc by done.
  by rewrite low_field, low_join by done.
Qed.

Lemma lor_low a b c k : 0 <= k -> 0 <= b < 2 ^ k -> 0 <= c -> Z.lor b c < 2 ^ k -> Z.lor (a * 2 ^ k + b) c = a * 2 ^ k + Z.lor b c.
Proof.
  intros Hk Hb Hc Ho. assert (0 <= Z.lor b c) by (apply Z.lor_nonneg; lia).
  by rewrite <- (join a b), <- Z.lor_assoc, join by (done || lia).
Qed.

End Bits.
Import Bits.

(** ** [DeadlineStateSnapshot] *)
Module DeadlineStateSnapshot.

Definition DEADLINE_STATE_MASK : Z := 15.
Definition DEADLINE_STATE_RUNNING : Z := 2.
Definition DEADLINE_STATE_STOPPED : Z := 1.
Definition DEADLINE_STATE_FINISHED_TOO_EARLY : Z := 8.

Definition is_running (v : Z) : bool := negb (Z.land v DEADLINE_STATE_RUNNING =? 0).
Definition is_stopped (v : Z) : bool := negb (Z.land v DEADLINE_STATE_STOPPED =? 0).
Definition is_underrun (v : Z) : bool := negb (Z.land v DEADLINE_STATE_FINISHED_TOO_EARLY =? 0).
Definition timestamp_ms (v : Z) : Z := wrap 32 (Z.shiftr (Z.land v (not64 DEADLINE_STATE_MASK)) 32).
Definition set_timestamp_ms (timestamp v : Z) : Z :=
  Z.lor (wrap 64 (Z.shiftl timestamp 32)) (Z.land v DEADLINE_STATE_MASK).
Definition set_running (v : Z) : Z := Z.lor v DEADLINE_STATE_RUNNING.
Definition set_underrun (v : Z) : Z := Z.lor v DEADLINE_STATE_FINISHED_TOO_EARLY.
Definition default : Z := DEADLINE_STATE_STOPPED.

(** [DeadlineState::update]: [fetch_update] with a closure that may panic and that sets variables of its caller (of type [A]); the new word,
    the previous word as success or failure, and the variables.  Only the owner of a deadline writes its word, so that a retry sees the same word. *)
Definition update {A} (f : Z -> outcome (option Z * A)) (v : Z) : outcome (Z * (Z + Z) * A) :=
  '(r, a) ← f v; Ret (match r with Some new => (new, inl v, a) | None => (v, inr v, a) end).

(** The words that occur: a time, and the two flags beside the bit that is always set. *)
Definition flags (running underrun : bool) : Z := 1 + (if running then 2 else 0) + (if underrun then 8 else 0).
Definition word (t : Z) (running underrun : bool) : Z := t * 2 ^ 32 + flags running underrun.

Section word.
Context (t : Z) (Ht : 0 <= t < 2 ^ 32).

Lemma flags_range r u : 0 <= flags r u < 2 ^ 32.
Proof. destruct r, u; by vm_compute. Qed.

Lemma word_u64 r u : u64 (word t r u).
Proof. apply u64_join; [lia | done | apply flags_range]. Qed.

Lemma word_flag r u c : 0 <= c < 2 ^ 32 -> Z.land (word t r u) c = Z.land (flags r u) c.
Proof. intros. apply land_low; [lia | apply flags_range | done]. Qed.

Lemma word_running r u : is_running (word t r u) = r.
Proof. unfold is_running. rewrite word_flag by done. by destruct r, u. Qed.

Lemma word_stopped r u : is_stopped (word t r u) = true.
Proof. unfold is_stopped. rewrite word_flag by done. by destruct r, u. Qed.

Lemma word_underrun r u : is_underrun (word t r u) = u.
Proof. unfold is_underrun. rewrite word_flag by done. by destruct r, u. Qed.

Lemma word_timestamp r u : timestamp_ms (word t r u) = t.
Proof.
  unfold timestamp_ms. change DEADLINE_STATE_MASK with (Z.ones 4). rewrite high_field by (apply word_u64 || lia).
  unfold word. rewrite high_join by (apply flags_range || lia). by apply wrap_small.
Qed.

Lemma word_set_timestamp t' r u : 0 <= t' < 2 ^ 32 -> set_timestamp_ms t' (word t r u) = word t' r u.
Proof.
  intros Ht'. unfold set_timestamp_ms. rewrite word_flag, wrap_small by (done || rewrite Z.shiftl_mul_pow2 by done; lia).
  rewrite join by (done || destruct r, u; by vm_compute). unfold word. f_equal. by destruct r, u.
Qed.

Lemma word_set_running r u : set_running (word t r u) = word t true u.
Proof. unfold set_running, word. rewrite lor_low by (apply flags_range || done || by destruct r, u). f_equal. by destruct r, u. Qed.

Lemma word_set_underrun r u : set_underrun (word t r u) = word t r true.
Proof. unfold set_underrun, word. rewrite lor_low by (apply flags_range || done || by destruct r, u). f_equal. by destruct r, u. Qed.
End word.

Lemma default_word : default = word 0 false false.
Proof. reflexivity. Qed.

#[global] Arguments word : simpl never.
#[global] Arguments is_running : simpl never.
#[global] Arguments is_underrun : simpl never.
#[global] Arguments is_stopped : simpl never.
#[global] Arguments timestamp_ms : simpl never.
#[global] Arguments set_running : simpl never.
#[global] Arguments set_underrun : simpl never.

#[export] Hint Rewrite word_running word_stopped word_underrun word_timestamp word_set_running word_set_underrun using lia : health.

End DeadlineStateSnapshot.

(** ** [HeartbeatStateSnapshot] *)
Module HeartbeatStateSnapshot.

Definition BEAT_MASK : Z := 18446744073709551612.
Definition BEAT_OFFSET : Z := 2.
Definition COUNT_MASK : Z := 3.

Definition new : Z := 0.
Definition heartbeat_timestamp (v : Z) : Z := Z.shiftr (Z.land v BEAT_MASK) BEAT_OFFSET.
Definition set_heartbeat_timestamp (value v : Z) : outcome Z :=
  _ ← assert (value <? Z.shiftl 1 62);
  Ret (Z.lor (wrap 64 (Z.shiftl value BEAT_OFFSET)) (Z.land v (not64 BEAT_MASK))).
Definition counter (v : Z) : Z := wrap 8 (Z.land v COUNT_MASK).
Definition increment_counter (v : Z) : Z :=
  let value := Z.min (counter v + 1) 3 in
  Z.lor value (Z.land v (not64 COUNT_MASK)).

(** [HeartbeatState::update], as for deadlines, and [reset]: the word left, and the previous one. *)
Definition update (f : Z -> outcome (option Z)) (v : Z) : outcome (Z * (Z + Z)) :=
  r ← f v; Ret (match r with Some new => (new, inl v) | None => (v, inr v) end).
Definition reset (v : Z) : Z * Z := (new, v).

Definition word (t c : Z) : Z := t * 2 ^ 2 + c.

Section word.
Context (t c : Z) (Ht : 0 <= t < 2 ^ 62) (Hc : 0 <= c < 2 ^ 2).

Lemma beat_word_u64 : u64 (word t c).
Proof. by apply u64_join. Qed.

Lemma word_heartbeat_timestamp : heartbeat_timestamp (word t c) = t.
Proof.
  unfold heartbeat_timestamp. change BEAT_MASK with (not64 (Z.ones 2)). change BEAT_OFFSET with 2.
  rewrite high_field by (apply beat_word_u64 || lia). by apply high_join.
Qed.

Lemma word_counter : counter (word t c) = c.
Proof.
  unfold counter. change COUNT_MASK with (Z.ones 2). rewrite low_field by done. unfold word. rewrite low_join by done.
  apply wrap_small. lia.
Qed.

Lemma word_set_heartbeat_timestamp t' : 0 <= t' < 2 ^ 62 -> set_heartbeat_timestamp t' (word t c) = Ret (word t' c).
Proof.
  intros Ht'. unfold set_heartbeat_timestamp. rewrite (proj2 (Z.ltb_lt _ _)) by (rewrite Z.shiftl_1_l; lia). simpl. f_equal.
  change BEAT_MASK with (not64 (Z.ones 2)). change BEAT_OFFSET with 2. rewrite not_high by (apply beat_word_u64 || done).
  unfold word. rewrite low_join, wrap_small by (done || rewrite Z.shiftl_mul_pow2 by done; lia). by apply join.
Qed.

Lemma word_increment_counter : increment_counter (word t c) = word t (Z.min (c + 1) 3).
Proof.
  unfold increment_counter. rewrite word_counter. change COUNT_MASK with (Z.ones 2).
  rewrite not_low by (apply beat_word_u64 || done). unfold word. rewrite high_join by done. apply join_r; lia.
Qed.
End word.

(** A time of 2^62 ms or more is refused. *)
Lemma set_heartbeat_timestamp_range value v : 2 ^ 62 <= value -> set_heartbeat_timestamp value v = Abort AssertionFailed.
Proof. intros H. unfold set_heartbeat_timestamp. by rewrite (proj2 (Z.ltb_ge _ _)) by (rewrite Z.shiftl_1_l; lia). Qed.

#[global] Arguments word : simpl never.
#[global] Arguments heartbeat_timestamp : simpl never.
#[global] Arguments counter : simpl never.
#[global] Arguments increment_counter : simpl never.

#[export] Hint Rewrite word_heartbeat_timestamp word_counter word_increment_counter using lia : health.

End HeartbeatStateSnapshot.

(** ** [LogicStateSnapshot] *)
Inductive LogicEvaluationError := InvalidState | InvalidTransition | UnmappedError.

#[global] Instance LogicEvaluationError_eq_dec : EqDecision LogicEvaluationError.
Proof. solve_decision. Defined.

Module LogicStateSnapshot.

Definition OK_STATE : Z := 0.
Definition INDEX_MASK : Z := 18446744073709551360.
Definition INDEX_OFFSET : Z := 8.
Definition STATUS_MASK : Z := 255.

Definition to_u8 (e : LogicEvaluationError) : Z :=
  match e with InvalidState => OK_STATE + 1 | InvalidTransition => 2 | UnmappedError => 3 end.

Definition try_from (value : Z) : option LogicEvaluationError :=
  if value =? to_u8 InvalidState then Some InvalidState
  else if value =? to_u8 InvalidTransition then Some InvalidTransition
  else if value =? to_u8 UnmappedError then Some UnmappedError
  else None.

Definition current_state_index (v : Z) : Z := Z.shiftr (Z.land v INDEX_MASK) INDEX_OFFSET.
Definition set_current_state_index (value v : Z) : outcome Z :=
  _ ← assert (value <? Z.shiftl 1 56);
  Ret (Z.lor (wrap 64 (Z.shiftl value INDEX_OFFSET)) (Z.land v (not64 INDEX_MASK))).
Definition new (initial_state_index : Z) : outcome Z := set_current_state_index initial_state_index 0.
Definition monitor_status (v : Z) : option LogicEvaluationError :=
  let value := wrap 8 (Z.land v STATUS_MASK) in
  if value =? OK_STATE then None else Some (default UnmappedError (try_from value)).
Definition set_monitor_status (e : LogicEvaluationError) (v : Z) : Z :=
  Z.lor (to_u8 e) (Z.land v (not64 STATUS_MASK)).

Definition status_code (s : option LogicEvaluationError) : Z := from_option to_u8 OK_STATE s.
Definition word (i : Z) (s : option LogicEvaluationError) : Z := i * 2 ^ 8 + status_code s.

Lemma status_code_range s : 0 <= status_code s < 2 ^ 8.
Proof. by destruct s as [[]|]. Qed.

Section word.
Context (i : Z) (Hi : 0 <= i < 2 ^ 56).

Lemma logic_word_u64 s : u64 (word i s).
Proof. apply u64_join; [lia | done | apply status_code_range]. Qed.

Lemma word_current_state_index s : current_state_index (word i s) = i.
Proof.
  unfold current_state_index. change INDEX_MASK with (not64 (Z.ones 8)). change INDEX_OFFSET with 8.
  rewrite high_field by (apply logic_word_u64 || lia). apply high_join; [lia | apply status_code_range].
Qed.

Lemma word_monitor_status s : monitor_status (word i s) = s.
Proof.
  unfold monitor_status. change STATUS_MASK with (Z.ones 8). rewrite low_field by done. unfold word.
  rewrite low_join by (done || apply status_code_range). by destruct s as [[]|].
Qed.

Lemma word_set_current_state_index i' s : 0 <= i' < 2 ^ 56 -> set_current_state_index i' (word i s) = Ret (word i' s).
Proof.
  intros Hi'. unfold set_current_state_index. rewrite (proj2 (Z.ltb_lt _ _)) by (rewrite Z.shiftl_1_l; lia). simpl. f_equal.
  change INDEX_MASK with (not64 (Z.ones 8)). change INDEX_OFFSET with 8. rewrite not_high by (apply logic_word_u64 || done).
  unfold word. rewrite low_join, wrap_small by (done || apply status_code_range || rewrite Z.shiftl_mul_pow2 by done; lia).
  apply join; [done | apply status_code_range].
Qed.

Lemma word_set_monitor_status e s : set_monitor_status e (word i s) = word i (Some e).
Proof.
  unfold set_monitor_status. change STATUS_MASK with (Z.ones 8). rewrite not_low by (apply logic_word_u64 || done).
  unfold word. rewrite high_join by (done || apply status_code_range). apply join_r; [done | apply (status_code_range (Some e))].
Qed.
End word.

Lemma new_word i : 0 <= i < 2 ^ 56 -> new i = Ret (word i None).
Proof. intros Hi. apply (word_set_current_state_index 0 ltac:(done) i None Hi). Qed.

(** A status byte that no error has is reported as unmapped, not as healthy. *)
Lemma unknown_status_is_error v : wrap 8 (Z.land v STATUS_MASK) <> OK_STATE -> is_Some (monitor_status v).
Proof. intros H. unfold monitor_status. rewrite (proj2 (Z.eqb_neq _ _)) by done. eauto. Qed.

#[global] Arguments word : simpl never.
#[global] Arguments current_state_index : simpl never.
#[global] Arguments monitor_status : simpl never.
#[global] Arguments set_monitor_status : simpl never.

#[export] Hint Rewrite word_current_state_index word_monitor_status word_set_monitor_status using lia : health.

End LogicStateSnapshot.
