(* ===== verification/HealthLibrary.v ===== *)
(** * The health monitor library

    The Rust library that an application links (score/health_monitor/src/rust).  [Common] (common.rs): durations, time ranges and clock
    arithmetic.  [DeadlineMonitor] (deadline/), [HeartbeatMonitor] (heartbeat/) and [LogicMonitor] (logic/): builders, the operations of the
    monitored thread and the evaluation by the background thread.  [Worker] (worker.rs): one evaluation of all monitors, the notification
    of the supervisor and the loop of the background thread.  [HealthMonitor] (health_monitor.rs): the builder, the hand-over of the monitors and the start.

    A duration and an instant are numbers of nanoseconds; the clock readings are arguments.  A panic is an [Abort]; integer arithmetic
    panics on overflow in debug builds and wraps in release builds.  A tag is its string. *)

From stdpp Require Import prelude fin_maps gmap strings.
From S2P Require Import Prelude HealthState.

Local Open Scope Z_scope.

Inductive DeadlineEvaluationError := DTooEarly | DTooLate.
Inductive HeartbeatEvaluationError := HTooEarly | HTooLate | HMultipleHeartbeats.
Inductive MonitorEvaluationError :=
| EDeadline (e : DeadlineEvaluationError)
| EHeartbeat (e : HeartbeatEvaluationError)
| ELogic (e : LogicEvaluationError).
Inductive HealthMonitorError := NotFound | InvalidArgument | WrongStateError.

#[global] Instance DeadlineEvaluationError_eq_dec : EqDecision DeadlineEvaluationError.
Proof. solve_decision. Defined.
#[global] Instance HeartbeatEvaluationError_eq_dec : EqDecision HeartbeatEvaluationError.
Proof. solve_decision. Defined.

(** ** Durations, ranges and integers *)
Module Common.

Definition NANOS_PER_MILLI : Z := 1000000.
Definition DURATION_MAX : Z := 2 ^ 64 * 1000000000 - 1.
Definition from_millis (ms : Z) : Z := ms * NANOS_PER_MILLI.
Definition as_millis (d : Z) : Z := d / NANOS_PER_MILLI.

(** [Instant::elapsed] saturates at zero. *)
Definition elapsed (since now : Z) : Z := Z.max 0 (now - since).

(** [a + b], [a - b] and [a * b] on unsigned integers of [w] bits. *)
Definition add_w `{BuildMode} (w a b : Z) : outcome Z := _ ← assert_dbg (a + b <? 2 ^ w); Ret (wrap w (a + b)).
Definition sub_w `{BuildMode} (w a b : Z) : outcome Z := _ ← assert_dbg (b <=? a); Ret (wrap w (a - b)).
Definition mul_w `{BuildMode} (w a b : Z) : outcome Z := _ ← assert_dbg (a * b <? 2 ^ w); Ret (wrap w (a * b)).
Definition checked_add (w a b : Z) : option Z := if a + b <? 2 ^ w then Some (a + b) else None.

(** [Duration - Duration] panics when the result is negative, [Duration + Duration] when it is too long. *)
Definition duration_sub (a b : Z) : outcome Z := _ ← assert (b <=? a); Ret (a - b).
Definition duration_add (a b : Z) : outcome Z := _ ← assert (a + b <=? DURATION_MAX); Ret (a + b).

Record TimeRange := mkRange { min : Z; max : Z }.

Definition new_internal (min max : Z) : option TimeRange := if min <=? max then Some (mkRange min max) else None.
Definition range_new (min max : Z) : outcome TimeRange := value_of (new_internal min max).
Definition from_interval (interval : Z) (tolerance : TimeRange) : outcome TimeRange :=
  _ ← assert (min tolerance <=? interval);
  lower ← duration_sub interval (min tolerance);
  upper ← duration_add interval (max tolerance);
  Ret (mkRange lower upper).

Definition duration_to_int (w d : Z) : outcome Z :=
  let millis := as_millis d in
  _ ← assert (millis <? 2 ^ w); Ret millis.

Definition time_offset (w later_time_point earlier_time_point : Z) : outcome (option Z) :=
  if earlier_time_point <=? later_time_point
  then v ← duration_to_int w (later_time_point - earlier_time_point); Ret (Some v)
  else Ret None.

(** Milliseconds since [since] at the clock [now]. *)
Definition ms (since now : Z) : Z := as_millis (elapsed since now).

Lemma as_millis_nonneg d : 0 <= d -> 0 <= as_millis d.
Proof. intros. by apply Z.div_pos. Qed.

Lemma as_millis_mono a b : a <= b -> as_millis a <= as_millis b.
Proof. intros. by apply Z.div_le_mono. Qed.

Lemma ms_nonneg since now : 0 <= ms since now.
Proof. apply as_millis_nonneg. unfold elapsed. lia. Qed.

Lemma ms_mono since now now' : now <= now' -> ms since now <= ms since now'.
Proof. intros. apply as_millis_mono. unfold elapsed. lia. Qed.

(** Arithmetic that does not overflow is the arithmetic of the integers, in both builds. *)
Lemma duration_to_int_ok w d : as_millis d < 2 ^ w -> duration_to_int w d = Ret (as_millis d).
Proof. intros H. unfold duration_to_int. by rewrite (proj2 (Z.ltb_lt _ _) H). Qed.

Lemma duration_to_int_ms w since now : ms since now < 2 ^ w -> duration_to_int w (elapsed since now) = Ret (ms since now).
Proof. apply duration_to_int_ok. Qed.

Lemma duration_to_int_panics w d : 2 ^ w <= as_millis d -> duration_to_int w d = Abort AssertionFailed.
Proof. intros H. unfold duration_to_int. by rewrite (proj2 (Z.ltb_ge _ _) H). Qed.

Lemma add_w_ok `{BuildMode} w a b : 0 <= a + b < 2 ^ w -> add_w w a b = Ret (a + b).
Proof. intros Hab. unfold add_w. rewrite (proj2 (Z.ltb_lt _ _)) by lia. by rewrite assert_dbg_true, wrap_small. Qed.

Lemma sub_w_ok `{BuildMode} w a b : 0 <= a - b < 2 ^ w -> sub_w w a b = Ret (a - b).
Proof. intros Hab. unfold sub_w. rewrite (proj2 (Z.leb_le _ _)) by lia. by rewrite assert_dbg_true, wrap_small. Qed.

Lemma mul_w_ok `{BuildMode} w a b : 0 <= a * b < 2 ^ w -> mul_w w a b = Ret (a * b).
Proof. intros Hab. unfold mul_w. rewrite (proj2 (Z.ltb_lt _ _)) by lia. by rewrite assert_dbg_true, wrap_small. Qed.

#[global] Arguments as_millis : simpl never.
#[global] Arguments ms : simpl never.
#[global] Arguments elapsed : simpl never.
#[global] Arguments duration_to_int : simpl never.

End Common.
Import Common.

(** ** [DeadlineMonitor] *)
Module DeadlineMonitor.
Import DeadlineStateSnapshot.

Inductive DeadlineMonitorError := DeadlineInUse | DeadlineNotFound.
Inductive DeadlineError := DeadlineAlreadyFailed.

Record DeadlineTemplate := mkTemplate { range : TimeRange; is_in_use : bool; assigned_state_index : nat }.

Definition template_new (r : TimeRange) (state_index : nat) : DeadlineTemplate := mkTemplate r false state_index.
Definition acquire_deadline (t : DeadlineTemplate) : option TimeRange * DeadlineTemplate :=
  if is_in_use t then (None, t) else (Some (range t), mkTemplate (range t) true (assigned_state_index t)).
Definition release_template (t : DeadlineTemplate) : DeadlineTemplate := mkTemplate (range t) false (assigned_state_index t).

Record DeadlineMonitorInner := mkInner {
  monitor_tag : string;
  monitor_starting_point : Z;
  deadlines : gmap string DeadlineTemplate;
  active_deadlines : list (string * Z)
}.

Definition set_deadlines (m : gmap string DeadlineTemplate) (i : DeadlineMonitorInner) : DeadlineMonitorInner :=
  mkInner (monitor_tag i) (monitor_starting_point i) m (active_deadlines i).
Definition set_active (l : list (string * Z)) (i : DeadlineMonitorInner) : DeadlineMonitorInner :=
  mkInner (monitor_tag i) (monitor_starting_point i) (deadlines i) l.

(** A [Deadline]; its reference to the monitor is the argument of its operations. *)
Record Deadline := mkDeadline { deadline_range : TimeRange; deadline_tag : string; state_index : nat }.

(** [DeadlineMonitorBuilder] *)
Notation Builder := (gmap string TimeRange).
Definition add_deadline (tag : string) (r : TimeRange) (b : Builder) : Builder := <[tag := r]> b.

Definition inner_new `{!IterOrder string} (tag : string) (config : Builder) (now : Z) : DeadlineMonitorInner :=
  let entries := iter_order config in
  mkInner tag now
    (list_to_map (imap (fun index '(deadline_tag, r) => (deadline_tag, template_new r index)) entries))
    ((fun '(deadline_tag, _) => (deadline_tag, DEADLINE_STATE_STOPPED)) <$> entries).
Definition build `{!IterOrder string} (tag : string) (b : Builder) (now : Z) : DeadlineMonitorInner := inner_new tag b now.

Definition get_deadline (tag : string) (i : DeadlineMonitorInner) : (Deadline + DeadlineMonitorError) * DeadlineMonitorInner :=
  match deadlines i !! tag with
  | Some template =>
      match acquire_deadline template with
      | (Some r, template') =>
          (inl (mkDeadline r tag (assigned_state_index template)), set_deadlines (<[tag := template']> (deadlines i)) i)
      | (None, template') => (inr DeadlineInUse, set_deadlines (<[tag := template']> (deadlines i)) i)
      end
  | None => (inr DeadlineNotFound, i)
  end.

(** [Drop for Deadline] *)
Definition release_deadline (tag : string) (i : DeadlineMonitorInner) : outcome DeadlineMonitorInner :=
  match deadlines i !! tag with
  | Some template => Ret (set_deadlines (<[tag := release_template template]> (deadlines i)) i)
  | None => Abort AssertionFailed
  end.

(** Applies [DeadlineState::update] to the word of a deadline. *)
Definition update_state {A} (d : Deadline) (f : Z -> outcome (option Z * A)) (i : DeadlineMonitorInner) : outcome (A * DeadlineMonitorInner) :=
  '(tag, v) ← value_of (active_deadlines i !! state_index d);
  '(v', _, a) ← update f v;
  Ret (a, set_active (<[state_index d := (tag, v')]> (active_deadlines i)) i).

Section operations.
Context `{BuildMode}.

Definition start_internal (d : Deadline) (clock : Z) (i : DeadlineMonitorInner) : outcome ((unit + DeadlineError) * DeadlineMonitorInner) :=
  now ← duration_to_int 32 (elapsed (monitor_starting_point i) clock);
  max_time ← add_w 32 now (wrap 32 (as_millis (max (deadline_range d))));
  '(is_broken, i') ← update_state d (fun current =>
    if is_running current || is_underrun current then Ret (None, true)
    else Ret (Some (set_running (set_timestamp_ms max_time default)), false)) i;
  Ret (if is_broken : bool then inr DeadlineAlreadyFailed else inl tt, i').

(** Also the error and the distance that are logged. *)
Definition stop_internal (d : Deadline) (clock : Z) (i : DeadlineMonitorInner) :
  outcome (option (DeadlineEvaluationError * Z) * DeadlineMonitorInner) :=
  now ← duration_to_int 32 (elapsed (monitor_starting_point i) clock);
  let max := wrap 32 (as_millis (max (deadline_range d))) in
  let min := wrap 32 (as_millis (min (deadline_range d))) in
  update_state d (fun current =>
    _ ← assert_dbg (is_running current);
    let expected := timestamp_ms current in
    if expected <? now then late_by ← sub_w 32 now expected; Ret (None, Some (DTooLate, late_by))
    else
      start_time ← sub_w 32 expected max;
      earliest_time ← add_w 32 start_time min;
      if now <? earliest_time
      then early_by ← sub_w 32 earliest_time now; Ret (Some (set_underrun current), Some (DTooEarly, early_by))
      else Ret (Some default, None)) i.

(** One round of the loop of [evaluate], on the word it loaded and the clock it read afterwards. *)
Definition evaluate_deadline (starting_point snapshot clock : Z) : outcome (option DeadlineEvaluationError) :=
  if is_underrun snapshot then Ret (Some DTooEarly)
  else if is_running snapshot then
    _ ← assert_dbg (is_stopped snapshot);
    now ← duration_to_int 32 (elapsed starting_point clock);
    let expected := timestamp_ms snapshot in
    Ret (if expected <? now then Some DTooLate else None)
  else Ret None.

(** [evaluate]: the errors handed to [on_error].  [readings]: per deadline the word that was loaded and the clock. *)
Fixpoint evaluate_readings (starting_point : Z) (readings : list (Z * Z)) : outcome (list DeadlineEvaluationError) :=
  match readings with
  | [] => Ret []
  | (snapshot, clock) :: rest =>
      e ← evaluate_deadline starting_point snapshot clock;
      es ← evaluate_readings starting_point rest;
      Ret (option_list e ++ es)
  end.

(** An evaluation during which no deadline changes. *)
Definition evaluate (clock : Z) (i : DeadlineMonitorInner) : outcome (list DeadlineEvaluationError) :=
  evaluate_readings (monitor_starting_point i) ((fun '(_, v) => (v, clock)) <$> active_deadlines i).
End operations.

End DeadlineMonitor.

(** ** [HeartbeatMonitor] *)
Module HeartbeatMonitor.
Import HeartbeatStateSnapshot.

Record InternalRange := mkInternalRange { lo : Z; hi : Z }.

Definition internal_new (min max : Z) : outcome InternalRange := _ ← assert (min <=? max); Ret (mkInternalRange min max).
Definition offset (r : InternalRange) (timestamp : Z) : outcome InternalRange :=
  lower ← value_of (checked_add 64 (lo r) timestamp);
  upper ← value_of (checked_add 64 (hi r) timestamp);
  internal_new lower upper.
Definition from_range (r : TimeRange) : outcome InternalRange :=
  lower ← duration_to_int 64 (min r);
  upper ← duration_to_int 64 (max r);
  internal_new lower upper.

Record HeartbeatMonitorInner := mkInner {
  monitor_tag : string;
  range : InternalRange;
  monitor_starting_point : Z;
  heartbeat_state : Z;
  start_timestamp : Z
}.

Definition inner_new (tag : string) (r : TimeRange) (clock : Z) : outcome HeartbeatMonitorInner :=
  internal ← from_range r;
  Ret (mkInner tag internal clock new 0).

Definition set_heartbeat_state (v : Z) (i : HeartbeatMonitorInner) : HeartbeatMonitorInner :=
  mkInner (monitor_tag i) (range i) (monitor_starting_point i) v (start_timestamp i).
Definition set_start_timestamp (v : Z) (i : HeartbeatMonitorInner) : HeartbeatMonitorInner :=
  mkInner (monitor_tag i) (range i) (monitor_starting_point i) (heartbeat_state i) v.

(** [HeartbeatMonitorBuilder::build] *)
Definition build `{BuildMode} (tag : string) (r : TimeRange) (internal_processing_cycle clock : Z) :
  outcome (HeartbeatMonitorInner + HealthMonitorError) :=
  let range_min_ms := wrap 64 (as_millis (min r)) in
  let internal_processing_cycle_ms := wrap 64 (as_millis internal_processing_cycle) in
  twice ← mul_w 64 range_min_ms 2;
  if twice <=? internal_processing_cycle_ms then Ret (inr InvalidArgument)
  else i ← inner_new tag r clock; Ret (inl i).

Definition heartbeat (clock : Z) (i : HeartbeatMonitorInner) : outcome HeartbeatMonitorInner :=
  monitor_now ← duration_to_int 64 (elapsed (monitor_starting_point i) clock);
  '(v, _) ← update (fun current_state =>
    stamped ← set_heartbeat_timestamp monitor_now current_state;
    Ret (Some (increment_counter stamped))) (heartbeat_state i);
  Ret (set_heartbeat_state v i).

Definition evaluate `{BuildMode} (hmon_starting_point clock : Z) (i : HeartbeatMonitorInner) :
  outcome (option HeartbeatEvaluationError * HeartbeatMonitorInner) :=
  let start_timestamp := start_timestamp i in
  o ← time_offset 64 hmon_starting_point (monitor_starting_point i);
  off ← value_of o;
  since ← duration_to_int 64 (elapsed hmon_starting_point clock);
  monitor_now ← add_w 64 off since;
  let '(cleared, snapshot) := reset (heartbeat_state i) in
  let i := set_heartbeat_state cleared i in
  let start_timestamp := if 0 <? start_timestamp then start_timestamp else off in
  let heartbeat_timestamp := heartbeat_timestamp snapshot in
  r ← offset (range i) start_timestamp;
  let counter := counter snapshot in
  if 1 <? counter then Ret (Some HMultipleHeartbeats, i)
  else if counter =? 0 then
    if hi r <? monitor_now then Ret (Some HTooLate, i) else Ret (None, i)
  else if heartbeat_timestamp <? lo r then Ret (Some HTooEarly, i)
  else if hi r <? heartbeat_timestamp then Ret (Some HTooLate, i)
  else Ret (None, set_start_timestamp heartbeat_timestamp i).

End HeartbeatMonitor.

(** ** [LogicMonitor] *)
Module LogicMonitor.
Import LogicStateSnapshot.

Record StateNode := mkNode { tag : string; allowed_targets : list string }.

Record LogicMonitorInner := mkInner { monitor_tag : string; logic_state : Z; state_graph : list StateNode }.

(** [LogicMonitorBuilder] *)
Record Builder := mkBuilder { initial_state : string; states : gmap string (list string) }.
Definition builder_new (initial : string) : Builder := mkBuilder initial ∅.
Definition add_state (state : string) (targets : list string) (b : Builder) : Builder :=
  mkBuilder (initial_state b) (<[state := targets]> (states b)).

Fixpoint last_index (initial : string) (index : nat) (nodes : list StateNode) (found : option nat) : option nat :=
  match nodes with
  | [] => found
  | node :: rest => last_index initial (S index) rest (if bool_decide (tag node = initial) then Some index else found)
  end.

Definition inner_new (tag : string) (initial_state_index : nat) (graph : list StateNode) : outcome LogicMonitorInner :=
  v ← new (Z.of_nat initial_state_index);
  Ret (mkInner tag v graph).

Definition build `{!IterOrder string} (tag : string) (b : Builder) : outcome (LogicMonitorInner + HealthMonitorError) :=
  if bool_decide (states b = ∅) then Ret (inr WrongStateError)
  else if negb (forallb (fun '(_, targets) => forallb (fun target => bool_decide (is_Some (states b !! target))) targets) (iter_order (states b)))
  then Ret (inr InvalidArgument)
  else
    let state_graph_vec := (fun '(state, targets) => mkNode state targets) <$> iter_order (states b) in
    match last_index (initial_state b) 0 state_graph_vec None with
    | Some initial_state_index => i ← inner_new tag initial_state_index state_graph_vec; Ret (inl i)
    | None => Ret (inr InvalidArgument)
    end.

Definition find_node_by_index (index : Z) (i : LogicMonitorInner) : StateNode + LogicEvaluationError :=
  match state_graph i !! Z.to_nat index with Some node => inl node | None => inr InvalidState end.

Fixpoint find_tag (target : string) (index : nat) (nodes : list StateNode) : nat + LogicEvaluationError :=
  match nodes with
  | [] => inr InvalidState
  | node :: rest => if bool_decide (tag node = target) then inl index else find_tag target (S index) rest
  end.
Definition find_index_by_tag (target : string) (i : LogicMonitorInner) : nat + LogicEvaluationError := find_tag target 0 (state_graph i).

Definition set_logic_state (v : Z) (i : LogicMonitorInner) : LogicMonitorInner := mkInner (monitor_tag i) v (state_graph i).

(** Only one thread calls [transition] (the monitor is not [Sync]), so that its load and its swap are one step. *)
Definition transition (target_state : string) (i : LogicMonitorInner) : outcome ((string + LogicEvaluationError) * LogicMonitorInner) :=
  let snapshot := logic_state i in
  match monitor_status snapshot with
  | Some _ => Ret (inr InvalidState, i)
  | None =>
      match find_node_by_index (current_state_index snapshot) i with
      | inr e => Ret (inr e, i)
      | inl current_state_node =>
          if negb (bool_decide (target_state ∈ allowed_targets current_state_node))
          then Ret (inr InvalidTransition, set_logic_state (set_monitor_status InvalidTransition snapshot) i)
          else
            match find_index_by_tag target_state i with
            | inr e => Ret (inr e, i)
            | inl target_state_index =>
                snapshot' ← set_current_state_index (Z.of_nat target_state_index) snapshot;
                Ret (inl target_state, set_logic_state snapshot' i)
            end
      end
  end.

Definition state (i : LogicMonitorInner) : string + LogicEvaluationError :=
  let snapshot := logic_state i in
  match monitor_status snapshot with
  | Some _ => inr InvalidState
  | None =>
      match find_node_by_index (current_state_index snapshot) i with
      | inl node => inl (tag node)
      | inr e => inr e
      end
  end.

Definition evaluate (i : LogicMonitorInner) : option LogicEvaluationError := monitor_status (logic_state i).

End LogicMonitor.

(** ** The background thread *)
Module Worker.

(** The monitors behind the evaluation handles ([Arc<dyn MonitorEvaluator>]), shared with the threads that own the monitors. *)
Inductive monitor :=
| MDeadline (i : DeadlineMonitor.DeadlineMonitorInner)
| MHeartbeat (i : HeartbeatMonitor.HeartbeatMonitorInner)
| MLogic (i : LogicMonitor.LogicMonitorInner).

(** [MonitorEvaluator::evaluate]: the errors handed to [on_error]. *)
Definition evaluate_monitor `{BuildMode} (hmon_starting_point clock : Z) (m : monitor) : outcome (list MonitorEvaluationError * monitor) :=
  match m with
  | MDeadline i => es ← DeadlineMonitor.evaluate clock i; Ret (map EDeadline es, MDeadline i)
  | MHeartbeat i => '(e, i') ← HeartbeatMonitor.evaluate hmon_starting_point clock i; Ret (map EHeartbeat (option_list e), MHeartbeat i')
  | MLogic i => Ret (map ELogic (option_list (LogicMonitor.evaluate i)), MLogic i)
  end.

Record MonitoringLogic := mkLogic { monitors : list nat; last_notification : Z; supervisor_api_cycle : Z }.

Definition logic_new (handles : list nat) (cycle clock : Z) : MonitoringLogic := mkLogic handles clock cycle.

(** The clocks one call of [run] reads: per monitor, for [elapsed] and for the new time stamp. *)
Record readings := mkReadings { at_evaluation : nat -> Z; at_elapsed : Z; at_stamp : Z }.

Definition evaluate_handle `{BuildMode} (hmon_starting_point : Z) (r : readings) (acc : list monitor * bool) (handle : nat) :
  outcome (list monitor * bool) :=
  let '(store, has_any_error) := acc in
  m ← value_of (store !! handle);
  '(errors, m') ← evaluate_monitor hmon_starting_point (at_evaluation r handle) m;
  Ret (<[handle := m']> store, has_any_error || negb (bool_decide (errors = []))).

(** [run]: its result, whether the supervisor was notified, the monitors and the logic. *)
Definition run `{BuildMode} (hmon_starting_point : Z) (r : readings) (store : list monitor) (l : MonitoringLogic) :
  outcome (bool * bool * list monitor * MonitoringLogic) :=
  '(store', has_any_error) ← foldM (evaluate_handle hmon_starting_point r) (store, false) (monitors l);
  if has_any_error : bool then Ret (false, false, store', l)
  else if supervisor_api_cycle l <? elapsed (last_notification l) (at_elapsed r)
  then Ret (true, true, store', mkLogic (monitors l) (at_stamp r) (supervisor_api_cycle l))
  else Ret (true, false, store', l).

(** The thread of [UniqueThreadRunner::start]: asleep for [next_sleep_time], or gone. *)
Inductive thread := Sleeping (next_sleep_time : Z) (l : MonitoringLogic) | Exited | Panicked.

(** One iteration of the loop: the flag it reads, the clock when it wakes, the readings of [run], and the clock after it. *)
Record iteration := mkIteration { should_stop : bool; at_wake : Z; in_run : readings; at_end : Z }.

Definition loop_step `{BuildMode} (hmon_starting_point interval : Z) (it : iteration) (store : list monitor) (t : thread) :
  thread * list monitor * bool :=
  match t with
  | Sleeping _ l =>
      if should_stop it then (Exited, store, false)
      else
        match run hmon_starting_point (in_run it) store l with
        | Abort _ => (Panicked, store, false)
        | Ret (false, notified, store', _) => (Exited, store', notified)
        | Ret (true, notified, store', l') =>
            match duration_sub interval (elapsed (at_wake it) (at_end it)) with
            | Ret next_sleep_time => (Sleeping next_sleep_time l', store', notified)
            | Abort _ => (Panicked, store', notified)
            end
        end
  | _ => (t, store, false)
  end.

(** [UniqueThreadRunner] *)
Record UniqueThreadRunner := mkRunner { handle : option thread; stop_requested : bool; internal_duration_cycle : Z }.

Definition runner_new (cycle : Z) : UniqueThreadRunner := mkRunner None false cycle.
Definition start (l : MonitoringLogic) (r : UniqueThreadRunner) : UniqueThreadRunner :=
  mkRunner (Some (Sleeping (internal_duration_cycle r) l)) (stop_requested r) (internal_duration_cycle r).

(** [join], also called by [drop]: sets the flag and waits for the thread, whose next test of the flag is [it]; the thread that was joined. *)
Definition join `{BuildMode} (hmon_starting_point : Z) (it : iteration) (store : list monitor) (r : UniqueThreadRunner) :
  option thread * UniqueThreadRunner :=
  let it := mkIteration true (at_wake it) (in_run it) (at_end it) in
  ((fun t => (loop_step hmon_starting_point (internal_duration_cycle r) it store t).1.1) <$> handle r,
   mkRunner None true (internal_duration_cycle r)).

End Worker.

(** ** [HealthMonitor] *)
Module HealthMonitor.

(** [M]: a monitor; its evaluation handle is the place of its shared part. *)
Inductive MonitorState (M : Type) := Available (m : M) | Taken (handle : nat).
Arguments Available {M} m.
Arguments Taken {M} handle.

Notation MonitorContainer M := (option (MonitorState M)).

(** A map whose every entry exists: the [HashMap] from tags to containers. *)
Notation containers M := (gmap string (MonitorContainer M)).

Section ownership.
Context {M : Type} (get_eval_handle : M -> nat).

Definition get_monitor (monitor_tag : string) (monitors : containers M) : option M * containers M :=
  match monitors !! monitor_tag with
  | None => (None, monitors)
  | Some (Some (Available monitor)) => (Some monitor, <[monitor_tag := Some (Taken (get_eval_handle monitor))]> monitors)
  | Some (Some (Taken handle)) => (None, <[monitor_tag := Some (Taken handle)]> monitors)
  | Some None => (None, <[monitor_tag := None]> monitors)
  end.

(** The loop over [iter_mut]: the tags that are left, the map and the collected handles. *)
Fixpoint collect_loop (capacity : nat) (tags : list string) (monitors : containers M) (collected : list nat) :
  option HealthMonitorError * containers M * list nat :=
  match tags with
  | [] => (None, monitors, collected)
  | tag :: rest =>
      match monitors !! tag with
      | Some (Some (Taken handle)) =>
          let monitors := <[tag := None]> monitors in
          if (length collected <? capacity)%nat then collect_loop capacity rest monitors (collected ++ [handle])
          else (Some WrongStateError, monitors, collected)
      | Some (Some (Available m)) => (Some WrongStateError, <[tag := Some (Available m)]> monitors, collected)
      | _ => (Some WrongStateError, monitors, collected)
      end
  end.

Definition collect_given_monitors `{!IterOrder string} (capacity : nat) (monitors : containers M) (collected : list nat) :
  option HealthMonitorError * containers M * list nat :=
  collect_loop capacity (iter_order monitors).*1 monitors collected.
End ownership.

(** [HealthMonitorBuilder].  The thread parameters are handed to the operating system unchanged. *)
Record HealthMonitorBuilder := mkBuilder {
  deadline_monitor_builders : gmap string DeadlineMonitor.Builder;
  heartbeat_monitor_builders : gmap string TimeRange;
  logic_monitor_builders : gmap string LogicMonitor.Builder;
  builder_supervisor_api_cycle : Z;
  builder_internal_processing_cycle : Z
}.

Definition builder_new : HealthMonitorBuilder := mkBuilder ∅ ∅ ∅ (from_millis 500) (from_millis 100).
Definition add_deadline_monitor (tag : string) (m : DeadlineMonitor.Builder) (b : HealthMonitorBuilder) : HealthMonitorBuilder :=
  mkBuilder (<[tag := m]> (deadline_monitor_builders b)) (heartbeat_monitor_builders b) (logic_monitor_builders b)
    (builder_supervisor_api_cycle b) (builder_internal_processing_cycle b).
Definition add_heartbeat_monitor (tag : string) (m : TimeRange) (b : HealthMonitorBuilder) : HealthMonitorBuilder :=
  mkBuilder (deadline_monitor_builders b) (<[tag := m]> (heartbeat_monitor_builders b)) (logic_monitor_builders b)
    (builder_supervisor_api_cycle b) (builder_internal_processing_cycle b).
Definition add_logic_monitor (tag : string) (m : LogicMonitor.Builder) (b : HealthMonitorBuilder) : HealthMonitorBuilder :=
  mkBuilder (deadline_monitor_builders b) (heartbeat_monitor_builders b) (<[tag := m]> (logic_monitor_builders b))
    (builder_supervisor_api_cycle b) (builder_internal_processing_cycle b).
Definition with_supervisor_api_cycle (cycle : Z) (b : HealthMonitorBuilder) : HealthMonitorBuilder :=
  mkBuilder (deadline_monitor_builders b) (heartbeat_monitor_builders b) (logic_monitor_builders b) cycle (builder_internal_processing_cycle b).
Definition with_internal_processing_cycle (cycle : Z) (b : HealthMonitorBuilder) : HealthMonitorBuilder :=
  mkBuilder (deadline_monitor_builders b) (heartbeat_monitor_builders b) (logic_monitor_builders b) (builder_supervisor_api_cycle b) cycle.

(** [u64::is_multiple_of] *)
Definition is_multiple_of (a b : Z) : bool := if b =? 0 then a =? 0 else a mod b =? 0.

Record HealthMonitor := mkHealthMonitor {
  deadline_monitors : containers nat;
  heartbeat_monitors : containers nat;
  logic_monitors : containers nat;
  supervisor_api_cycle : Z;
  store : list Worker.monitor;
  worker : Worker.UniqueThreadRunner
}.

(** One of the three loops of [build]: every builder gives a monitor, or an error that ends the function.  The shared parts are put into the store; a monitor is
    the place of its shared part. *)
Definition build_kind {B} (f : string -> B -> outcome (Worker.monitor + HealthMonitorError))
    (acc : containers nat * list Worker.monitor + HealthMonitorError) (entry : string * B) :
  outcome (containers nat * list Worker.monitor + HealthMonitorError) :=
  match acc with
  | inr e => Ret (inr e)
  | inl (c, s) =>
      r ← f entry.1 entry.2;
      match r with
      | inl m => Ret (inl (<[entry.1 := Some (Available (length s))]> c, s ++ [m]))
      | inr e => Ret (inr e)
      end
  end.

Section build.
Context `{BuildMode} `{!IterOrder string}.

Definition build_all {B} (f : string -> B -> outcome (Worker.monitor + HealthMonitorError)) (builders : gmap string B) (s : list Worker.monitor) :
  outcome (containers nat * list Worker.monitor + HealthMonitorError) :=
  foldM (build_kind f) (inl (∅, s)) (iter_order builders).

Definition build_deadline (clock : Z) (tag : string) (b : DeadlineMonitor.Builder) : outcome (Worker.monitor + HealthMonitorError) :=
  Ret (inl (Worker.MDeadline (DeadlineMonitor.build tag b clock))).
Definition build_heartbeat (cycle clock : Z) (tag : string) (r : TimeRange) : outcome (Worker.monitor + HealthMonitorError) :=
  res ← HeartbeatMonitor.build tag r cycle clock;
  Ret (match res with inl i => inl (Worker.MHeartbeat i) | inr e => inr e end).
Definition build_logic (tag : string) (b : LogicMonitor.Builder) : outcome (Worker.monitor + HealthMonitorError) :=
  res ← LogicMonitor.build tag b;
  Ret (match res with inl i => inl (Worker.MLogic i) | inr e => inr e end).

Definition build (b : HealthMonitorBuilder) (clock : Z) : outcome (HealthMonitor + HealthMonitorError) :=
  let supervisor_api_cycle_ms := wrap 64 (as_millis (builder_supervisor_api_cycle b)) in
  let internal_processing_cycle_ms := wrap 64 (as_millis (builder_internal_processing_cycle b)) in
  if negb (is_multiple_of supervisor_api_cycle_ms internal_processing_cycle_ms) then Ret (inr InvalidArgument)
  else
    let num_monitors := (size (deadline_monitor_builders b) + size (heartbeat_monitor_builders b) + size (logic_monitor_builders b))%nat in
    if (num_monitors =? 0)%nat then Ret (inr WrongStateError)
    else
      d ← build_all (build_deadline clock) (deadline_monitor_builders b) [];
      match d with
      | inr e => Ret (inr e)
      | inl (deadline_monitors, s1) =>
          h ← build_all (build_heartbeat (builder_internal_processing_cycle b) clock) (heartbeat_monitor_builders b) s1;
          match h with
          | inr e => Ret (inr e)
          | inl (heartbeat_monitors, s2) =>
              l ← build_all build_logic (logic_monitor_builders b) s2;
              match l with
              | inr e => Ret (inr e)
              | inl (logic_monitors, s3) =>
                  Ret (inl (mkHealthMonitor deadline_monitors heartbeat_monitors logic_monitors
                    (builder_supervisor_api_cycle b) s3 (Worker.runner_new (builder_internal_processing_cycle b))))
              end
          end
      end.

Definition get_deadline_monitor (tag : string) (h : HealthMonitor) : option nat * HealthMonitor :=
  let '(m, c) := get_monitor id tag (deadline_monitors h) in
  (m, mkHealthMonitor c (heartbeat_monitors h) (logic_monitors h) (supervisor_api_cycle h) (store h) (worker h)).
Definition get_heartbeat_monitor (tag : string) (h : HealthMonitor) : option nat * HealthMonitor :=
  let '(m, c) := get_monitor id tag (heartbeat_monitors h) in
  (m, mkHealthMonitor (deadline_monitors h) c (logic_monitors h) (supervisor_api_cycle h) (store h) (worker h)).
Definition get_logic_monitor (tag : string) (h : HealthMonitor) : option nat * HealthMonitor :=
  let '(m, c) := get_monitor id tag (logic_monitors h) in
  (m, mkHealthMonitor (deadline_monitors h) (heartbeat_monitors h) c (supervisor_api_cycle h) (store h) (worker h)).

(** [ScoreSupervisorAPIClient::new]: the environment variable, and whether the link could be created. *)
Definition client_new (identifier : option string) (link_created : bool) : outcome unit :=
  _ ← value_of identifier; assert link_created.

Definition start_internal (identifier : option string) (link_created : bool) (clock : Z) (h : HealthMonitor) :
  outcome (option HealthMonitorError * HealthMonitor) :=
  let put d b l w := mkHealthMonitor d b l (supervisor_api_cycle h) (store h) w in
  let num_monitors := (size (deadline_monitors h) + size (heartbeat_monitors h) + size (logic_monitors h))%nat in
  match collect_given_monitors num_monitors (deadline_monitors h) [] with
  | (Some e, d, _) => Ret (Some e, put d (heartbeat_monitors h) (logic_monitors h) (worker h))
  | (None, d, c1) =>
      match collect_given_monitors num_monitors (heartbeat_monitors h) c1 with
      | (Some e, b, _) => Ret (Some e, put d b (logic_monitors h) (worker h))
      | (None, b, c2) =>
          match collect_given_monitors num_monitors (logic_monitors h) c2 with
          | (Some e, l, _) => Ret (Some e, put d b l (worker h))
          | (None, l, collected_monitors) =>
              _ ← client_new identifier link_created;
              Ret (None, put d b l (Worker.start (Worker.logic_new collected_monitors (supervisor_api_cycle h) clock) (worker h)))
          end
      end
  end.

(** [start] panics where [start_internal] fails. *)
Definition start (identifier : option string) (link_created : bool) (clock : Z) (h : HealthMonitor) : outcome HealthMonitor :=
  '(r, h') ← start_internal identifier link_created clock h;
  match r with None => Ret h' | Some _ => Abort AssertionFailed end.
End build.

End HealthMonitor.
