(* ===== verification/DeadlineProofs.v ===== *)
(** * The deadline monitor reports exactly the deadlines that were missed

    Module [Clients]: the programs that can be written with [DeadlineMonitor], as sequences of operations with the clock at which
    they run; a reference that only keeps the measured runs of each deadline; and the proof that an evaluation reports what the
    reference says, in every build and for every order of the map of deadlines. *)

From stdpp Require Import prelude fin_maps gmap strings sorting.
From S2P Require Import Prelude HealthState HealthLibrary.

Local Open Scope Z_scope.
Import Common DeadlineStateSnapshot DeadlineMonitor.

Module DeadlineClients.

(** ** Programs

    A client holds the deadlines it acquired; [true] when it also holds the handle of a started one.  Rust's ownership rules leave it these operations:
    it starts a deadline it holds and that has no handle, stops by its handle, and drops a deadline without a handle. *)
Inductive op := Get (tag : string) | Start (tag : string) | Stop (tag : string) | Drop (tag : string).

Definition op_tag (o : op) : string := match o with Get t | Start t | Stop t | Drop t => t end.

Record t := mk { inner : DeadlineMonitorInner; held : gmap string (Deadline * bool) }.

Definition step `{BuildMode} (o : op) (clock : Z) (s : t) : outcome t :=
  match o with
  | Get tag =>
      let '(r, i) := get_deadline tag (inner s) in
      Ret (mk i (match r with inl d => <[tag := (d, false)]> (held s) | inr _ => held s end))
  | Start tag =>
      match held s !! tag with
      | Some (d, false) =>
          '(r, i) ← start_internal d clock (inner s);
          Ret (mk i (match r with inl _ => <[tag := (d, true)]> (held s) | inr _ => held s end))
      | _ => Ret s
      end
  | Stop tag =>
      match held s !! tag with
      | Some (d, true) => '(_, i) ← stop_internal d clock (inner s); Ret (mk i (<[tag := (d, false)]> (held s)))
      | _ => Ret s
      end
  | Drop tag =>
      match held s !! tag with
      | Some (d, false) => i ← release_deadline tag (inner s); Ret (mk i (delete tag (held s)))
      | _ => Ret s
      end
  end.

Definition run `{BuildMode} (ops : list (op * Z)) (s : t) : outcome t := foldM (fun s '(o, clock) => step o clock s) s ops.

Definition initial `{!IterOrder string} (tag : string) (config : Builder) (clock : Z) : t := mk (build tag config clock) ∅.

(** ** The reference: the measured runs of a deadline, in milliseconds *)
Record history := mkHistory { h_held : bool; h_open : option Z; h_closed : list (Z * Z) }.

Definition hstep (o : op) (now : Z) (h : history) : history :=
  match o with
  | Get _ => mkHistory true (h_open h) (h_closed h)
  | Start _ => if h_held h && negb (bool_decide (is_Some (h_open h))) then mkHistory true (Some now) (h_closed h) else h
  | Stop _ => match h_open h with Some s => mkHistory (h_held h) None (h_closed h ++ [(s, now)]) | None => h end
  | Drop _ => if bool_decide (is_Some (h_open h)) then h else mkHistory false None (h_closed h)
  end.

Definition history_of (since : Z) (tag : string) (ops : list (op * Z)) : history :=
  foldl (fun h '(o, clock) => if bool_decide (op_tag o = tag) then hstep o (ms since clock) h else h) (mkHistory false None []) ops.

(** A run that began at [s] and ended at [e]. *)
Definition judge (r : TimeRange) (se : Z * Z) : option DeadlineEvaluationError :=
  if se.2 - se.1 <? as_millis (min r) then Some DTooEarly
  else if as_millis (max r) <? se.2 - se.1 then Some DTooLate
  else None.

Fixpoint first_violation (r : TimeRange) (runs : list (Z * Z)) : option DeadlineEvaluationError :=
  match runs with
  | [] => None
  | se :: rest => match judge r se with Some e => Some e | None => first_violation r rest end
  end.

(** The first run that was out of range decides; if there is none, a run that is still open and too long is late. *)
Definition verdict (r : TimeRange) (h : history) (now : Z) : option DeadlineEvaluationError :=
  match first_violation r (h_closed h) with
  | Some e => Some e
  | None => match h_open h with Some s => if s + as_millis (max r) <? now then Some DTooLate else None | None => None end
  end.

Lemma first_violation_snoc r runs se :
  first_violation r (runs ++ [se]) = match first_violation r runs with Some e => Some e | None => judge r se end.
Proof. induction runs as [|x runs IH]; simpl; [by destruct (judge r se)|]. by destruct (judge r x). Qed.

Lemma history_of_snoc since tag ops o clock :
  history_of since tag (ops ++ [(o, clock)]) =
  if bool_decide (op_tag o = tag) then hstep o (ms since clock) (history_of since tag ops) else history_of since tag ops.
Proof. unfold history_of. by rewrite foldl_app. Qed.

(** ** The word and the flags of one deadline against its history *)

(** The range can be measured when the time is [now]. *)
Definition fits (r : TimeRange) (now : Z) : Prop := 0 <= min r <= max r /\ now + as_millis (max r) < 2 ^ 32.

Definition open_word (r : TimeRange) (open : option Z) : Z :=
  match open with Some s => word (s + as_millis (max r)) true false | None => word 0 false false end.

Definition on_track (r : TimeRange) (h : history) (last : Z) (use : bool) (v : Z) (d : Deadline) (hd : option (Deadline * bool)) : Prop :=
  first_violation r (h_closed h) = None /\ use = h_held h /\
  hd = (if h_held h then Some (d, bool_decide (is_Some (h_open h))) else None) /\
  (is_Some (h_open h) -> h_held h = true) /\
  (forall s, h_open h = Some s -> 0 <= s <= last /\ 0 <= s + as_millis (max r) < 2 ^ 32) /\
  v = open_word r (h_open h).

(** After a violation the word keeps it, and no handle exists. *)
Definition failed (r : TimeRange) (h : history) (last : Z) (use : bool) (v : Z) (d : Deadline) (hd : option (Deadline * bool)) : Prop :=
  exists x early, 0 <= x < 2 ^ 32 /\ v = word x true early /\
  first_violation r (h_closed h) = Some (if early : bool then DTooEarly else DTooLate) /\
  (early = false -> x < last) /\ hd = (if use then Some (d, false) else None).

Definition tracks r h last use v d hd : Prop := on_track r h last use v d hd \/ failed r h last use v d hd.

Lemma tracks_later r h last last' use v d hd : last <= last' -> tracks r h last use v d hd -> tracks r h last' use v d hd.
Proof.
  intros Hl [(? & ? & ? & ? & Ho & ?)|(x & early & ? & ? & ? & ? & ?)]; [left|right].
  - repeat split; try done; apply Ho in H4; lia.
  - exists x, early. repeat split; naive_solver lia.
Qed.

(** What one evaluation says of a tracked deadline. *)
Lemma evaluate_tracked `{BuildMode} r h last use v d hd starting_point clock :
  tracks r h last use v d hd -> last <= ms starting_point clock < 2 ^ 32 ->
  evaluate_deadline starting_point v clock = Ret (verdict r h (ms starting_point clock)).
Proof.
  intros [(Hv & _ & _ & _ & Ho & ->)|(x & early & Hx & -> & Hv & Hl & _)] Ht; unfold evaluate_deadline, verdict, ms in *; rewrite Hv.
  - destruct (h_open h) as [s|]; [unfold open_word | reflexivity].
    destruct (Ho s eq_refl). autorewrite with health; rewrite assert_dbg_true.
    unfold mbind, outcome_bind. rewrite duration_to_int_ok by lia. reflexivity.
  - autorewrite with health; rewrite assert_dbg_true. destruct early; [done|].
    unfold mbind, outcome_bind. rewrite duration_to_int_ok by lia.
    rewrite (proj2 (Z.ltb_lt _ _)) by (specialize (Hl eq_refl); lia). reflexivity.
Qed.

(** The part of the state that belongs to the deadline [tag]. *)
Definition put (r : TimeRange) (tag : string) (idx : nat) (use : bool) (v : Z) (hd : option (Deadline * bool)) (s : t) : t :=
  mk (mkInner (monitor_tag (inner s)) (monitor_starting_point (inner s)) (<[tag := mkTemplate r use idx]> (deadlines (inner s)))
        (<[idx := (tag, v)]> (active_deadlines (inner s))))
     (partial_alter (fun _ => hd) tag (held s)).

Definition part (r : TimeRange) (tag : string) (idx : nat) (use : bool) (v : Z) (hd : option (Deadline * bool)) (s : t) : Prop :=
  deadlines (inner s) !! tag = Some (mkTemplate r use idx) /\ active_deadlines (inner s) !! idx = Some (tag, v) /\ held s !! tag = hd.

(** Writing back what is there changes nothing. *)
Lemma put_part r tag idx use v hd s : part r tag idx use v hd s -> put r tag idx use v hd s = s.
Proof.
  intros (Hd & Ha & Hh). destruct s as [[mt sp ds act] hs]. unfold put. simpl in *. f_equal; [f_equal|].
  - by apply insert_id.
  - by apply list_insert_id.
  - subst hd. apply partial_alter_self.
Qed.

Lemma update_state_at {A} d f i tag v o (a : A) :
  active_deadlines i !! state_index d = Some (tag, v) -> f v = Ret (o, a) ->
  update_state d f i = Ret (a, set_active (<[state_index d := (tag, from_option id v o)]> (active_deadlines i)) i).
Proof. intros Hi Hf. unfold update_state, update. rewrite Hi. simpl. rewrite Hf. by destruct o. Qed.

Section one.
Context `{BuildMode} (r : TimeRange) (tag : string) (idx : nat).
Context (use : bool) (v : Z) (hd : option (Deadline * bool)) (h : history) (last clock : Z) (s : t).
Let d := mkDeadline r tag idx.
Let now := ms (monitor_starting_point (inner s)) clock.
Context (Hpart : part r tag idx use v hd s) (Htr : tracks r h last use v d hd) (Hnow : last <= now) (Hfit : fits r now).

Definition stepped (o : op) : Prop :=
  exists use' v' hd', step o clock s = Ret (put r tag idx use' v' hd' s) /\ tracks r (hstep o now h) now use' v' d hd'.

Lemma unchanged o : step o clock s = Ret s -> tracks r (hstep o now h) now use v d hd -> stepped o.
Proof. intros Hs Ht. exists use, v, hd. by rewrite put_part. Qed.

Lemma use_cases : use = true \/ use = false.
Proof. destruct use; auto. Qed.

Lemma get_stepped : stepped (Get tag).
Proof.
  pose proof Hpart as (Hd & Ha & Hh). destruct use_cases as [Hu|Hu]; rewrite Hu in Hd.
  - apply unchanged.
    + unfold step, get_deadline, acquire_deadline. rewrite Hd. simpl. f_equal. destruct s as [[? ? ds ?] ?].
      unfold set_deadlines. simpl in *. by rewrite insert_id.
    + apply (tracks_later _ _ last); [done|]. destruct Htr as [(? & Hh' & ? & ? & ? & ?)|Hf]; [left|right]; [|done].
      unfold on_track. destruct h. simpl in *. subst. naive_solver.
  - exists true, v, (Some (d, false)). split.
    + unfold step, get_deadline, acquire_deadline. rewrite Hd. simpl. f_equal. unfold put, set_deadlines. simpl. by rewrite list_insert_id.
    + apply (tracks_later _ _ last); [done|]. destruct Htr as [(? & Hh' & ? & Ho & ? & ?)|(x & e & ? & ? & ? & ? & ?)]; [left|right].
      * unfold on_track. destruct h as [? [o|] ?]; simpl in *; subst; [|naive_solver]. by specialize (Ho (ex_intro _ o eq_refl)).
      * by exists x, e.
Qed.

Lemma now_fits : 0 <= now < 2 ^ 32 /\ wrap 32 (as_millis (max r)) = as_millis (max r) /\ wrap 32 (as_millis (min r)) = as_millis (min r) /\
  0 <= as_millis (min r) <= as_millis (max r) /\ 0 <= now + as_millis (max r) < 2 ^ 32.
Proof.
  destruct Hfit as [Hr Hn]. pose proof (ms_nonneg (monitor_starting_point (inner s)) clock). fold now in H0.
  pose proof (as_millis_nonneg (min r) ltac:(lia)). pose proof (as_millis_mono (min r) (max r) ltac:(lia)).
  rewrite !wrap_small by lia. lia.
Qed.

(** A failed deadline stays failed, whatever is done with it. *)
Lemma failed_hstep o use' : failed r h last use v d hd -> failed r (hstep o now h) now use' v d (if use' then Some (d, false) else None).
Proof.
  intros (x & e & Hx & Hv & Hf & He & _). exists x, e. do 2 (split; [done|]). split; [|split; [intros E; specialize (He E); lia | done]].
  unfold hstep. destruct o; simpl; repeat case_match; simpl; by rewrite ?first_violation_snoc, Hf.
Qed.

Lemma start_new : v = word 0 false false ->
  start_internal d clock (inner s) = Ret (inl tt, set_active (<[idx := (tag, word (now + as_millis (max r)) true false)]> (active_deadlines (inner s))) (inner s)).
Proof.
  intros Hv. destruct now_fits as (Hn & Hmax & _ & Hm & Hs). pose proof Hpart as (_ & Ha & _). unfold start_internal.
  rewrite duration_to_int_ms by apply Hn. unfold mbind, outcome_bind. fold now. change (deadline_range d) with r. rewrite Hmax, add_w_ok by lia.
  rewrite (update_state_at _ _ _ tag v (Some (word (now + as_millis (max r)) true false)) false); [done | done |].
  rewrite Hv, word_running, word_underrun, default_word, word_set_timestamp, word_set_running by lia. done.
Qed.

Lemma start_failed x e : 0 <= x < 2 ^ 32 -> v = word x true e ->
  start_internal d clock (inner s) = Ret (inr DeadlineAlreadyFailed, set_active (<[idx := (tag, v)]> (active_deadlines (inner s))) (inner s)).
Proof.
  intros Hx Hv. destruct now_fits as (Hn & Hmax & _ & Hm & Hs). pose proof Hpart as (_ & Ha & _). unfold start_internal.
  rewrite duration_to_int_ms by apply Hn. unfold mbind, outcome_bind. fold now. change (deadline_range d) with r. rewrite Hmax, add_w_ok by lia.
  rewrite (update_state_at _ _ _ tag v None true); [done | done |].
  by rewrite Hv, word_running by lia.
Qed.

Lemma start_stepped : stepped (Start tag).
Proof.
  pose proof Hpart as (Hd & Ha & Hh). pose proof Htr as [Ht|Hf].
  - destruct Ht as (Hv & Hu & Hhd & Ho & Hs & Hw). destruct (h_held h) eqn:Hheld.
    + destruct (h_open h) as [st|] eqn:Hopen.
      * apply unchanged; [unfold step; by rewrite Hh, Hhd, bool_decide_eq_true_2 by eauto|].
        unfold hstep. rewrite Hheld, Hopen, bool_decide_eq_true_2 by eauto. by apply (tracks_later _ _ last).
      * exists true, (word (now + as_millis (max r)) true false), (Some (d, true)). split.
        -- unfold step. rewrite Hh, Hhd, bool_decide_eq_false_2 by (by intros []). rewrite start_new by done. simpl. f_equal.
           unfold put, set_active. simpl. rewrite (insert_id (deadlines _)) by (by rewrite Hd, Hu). done.
        -- left. unfold hstep. rewrite Hheld, Hopen. destruct now_fits as (? & _ & _ & ? & ?). unfold on_track. simpl. naive_solver lia.
    + apply unchanged; [unfold step; by rewrite Hh, Hhd|]. unfold hstep. rewrite Hheld. by apply (tracks_later _ _ last).
  - pose proof (failed_hstep (Start tag) use Hf) as Hf'. pose proof Hf as (x & e & Hx & Hv & _ & _ & Hhd).
    destruct use_cases as [Hu|Hu]; rewrite Hu in Hhd, Hf'.
    + exists use, v, hd. rewrite Hu, Hhd. split; [|by right]. unfold step. rewrite Hh, Hhd, (start_failed x e) by done. simpl. f_equal.
      rewrite <- (put_part r tag idx use v hd s) at 2 by done. unfold put, set_active. simpl. rewrite Hu in *. by rewrite insert_id, <- Hhd, <- Hh, partial_alter_self.
    + apply unchanged; [unfold step; by rewrite Hh, Hhd|]. rewrite Hu, Hhd. by right.
Qed.

Lemma drop_stepped : stepped (Drop tag).
Proof.
  pose proof Hpart as (Hd & Ha & Hh). pose proof Htr as [Ht|Hf].
  - destruct Ht as (Hv & Hu & Hhd & Ho & Hs & Hw). destruct (h_held h) eqn:Hheld.
    + destruct (h_open h) as [st|] eqn:Hopen.
      * apply unchanged; [unfold step; by rewrite Hh, Hhd, bool_decide_eq_true_2 by eauto|].
        unfold hstep. rewrite Hopen, bool_decide_eq_true_2 by eauto. by apply (tracks_later _ _ last).
      * exists false, v, None. split.
        -- unfold step, release_deadline. rewrite Hh, Hhd, bool_decide_eq_false_2, Hd by (by intros []). simpl. f_equal.
           unfold put, set_deadlines. simpl. by rewrite list_insert_id.
        -- left. unfold hstep. rewrite Hopen. unfold on_track. simpl. naive_solver.
    + apply unchanged; [unfold step; by rewrite Hh, Hhd|]. apply (tracks_later _ _ last); [done|]. left. unfold hstep.
      destruct (h_open h) as [st|] eqn:Hopen; [by specialize (Ho (ex_intro _ st eq_refl))|]. unfold on_track. simpl. naive_solver.
  - pose proof Hf as (x & e & Hx & Hv & _ & _ & Hhd). destruct use_cases as [Hu|Hu]; rewrite Hu in Hhd.
    + exists false, v, None. split; [|right; by apply (failed_hstep (Drop tag) false)].
      unfold step, release_deadline. rewrite Hh, Hhd, Hd. simpl. f_equal. unfold put, set_deadlines. simpl. by rewrite list_insert_id.
    + apply unchanged; [unfold step; by rewrite Hh, Hhd|]. rewrite Hu, Hhd. right. apply (failed_hstep (Drop tag) false Hf).
Qed.

(** Stopping a run that began at [st]: the error, and the word that is left. *)
Lemma stop_run st : v = word (st + as_millis (max r)) true false -> 0 <= st <= now -> 0 <= st + as_millis (max r) < 2 ^ 32 ->
  exists e v', stop_internal d clock (inner s) = Ret (e, set_active (<[idx := (tag, v')]> (active_deadlines (inner s))) (inner s)) /\
    match judge r (st, now) with
    | Some DTooLate => v' = word (st + as_millis (max r)) true false /\ st + as_millis (max r) < now
    | Some DTooEarly => v' = word (st + as_millis (max r)) true true
    | None => v' = word 0 false false
    end.
Proof.
  intros Hv Hst Hmax'. destruct now_fits as (Hn & Hmax & Hmin & Hm & Hs). pose proof Hpart as (_ & Ha & _). unfold stop_internal, judge.
  rewrite duration_to_int_ms by apply Hn. unfold mbind, outcome_bind. fold now. change (deadline_range d) with r. rewrite Hmax, Hmin. cbn [fst snd].
  destruct (Z.ltb_spec (now - st) (as_millis (min r))); [|destruct (Z.ltb_spec (as_millis (max r)) (now - st))].
  - exists (Some (DTooEarly, st + as_millis (min r) - now)), (word (st + as_millis (max r)) true true). split; [|done].
    apply (update_state_at d _ (inner s) tag v (Some (word (st + as_millis (max r)) true true))); [done|].
    rewrite Hv; autorewrite with health; rewrite assert_dbg_true. rewrite (proj2 (Z.ltb_ge _ _)) by lia.
    rewrite sub_w_ok by lia. replace (st + as_millis (max r) - as_millis (max r)) with st by lia. rewrite add_w_ok by lia.
    rewrite (proj2 (Z.ltb_lt _ _)) by lia. rewrite sub_w_ok by lia. done.
  - exists (Some (DTooLate, now - (st + as_millis (max r)))), v. split; [|split; [done | lia]].
    apply (update_state_at d _ (inner s) tag v None); [done|].
    rewrite Hv; autorewrite with health; rewrite assert_dbg_true. rewrite (proj2 (Z.ltb_lt _ _)) by lia. by rewrite sub_w_ok by lia.
  - exists None, (word 0 false false). split; [|done].
    apply (update_state_at d _ (inner s) tag v (Some (word 0 false false))); [done|].
    rewrite Hv; autorewrite with health; rewrite assert_dbg_true. rewrite (proj2 (Z.ltb_ge _ _)) by lia.
    rewrite sub_w_ok by lia. replace (st + as_millis (max r) - as_millis (max r)) with st by lia. rewrite add_w_ok by lia.
    by rewrite (proj2 (Z.ltb_ge _ _)) by lia.
Qed.

Lemma stop_stepped : stepped (Stop tag).
Proof.
  pose proof Hpart as (Hd & Ha & Hh). pose proof Htr as [Ht|Hf].
  - destruct Ht as (Hv & Hu & Hhd & Ho & Hs & Hw). destruct (h_open h) as [st|] eqn:Hopen.
    + rewrite Ho in Hu, Hhd by eauto. destruct (Hs st eq_refl) as [Hst Hr].
      destruct (stop_run st Hw ltac:(lia) Hr) as (e & v' & Hstop & Hj). exists true, v', (Some (d, false)). split.
      * unfold step. rewrite Hh, Hhd, bool_decide_eq_true_2, Hstop by eauto. simpl. f_equal. unfold put, set_active. simpl.
        rewrite (insert_id (deadlines _)) by (by rewrite Hd, Hu). done.
      * unfold hstep. rewrite Hopen. destruct (judge r (st, now)) as [[]|] eqn:Hjudge.
        -- right. exists (st + as_millis (max r)), true. simpl. rewrite first_violation_snoc, Hv. naive_solver.
        -- right. exists (st + as_millis (max r)), false. simpl. rewrite first_violation_snoc, Hv. naive_solver.
        -- left. unfold on_track. simpl. rewrite first_violation_snoc, Hv, Ho by eauto. naive_solver.
    + apply unchanged; [|unfold hstep; rewrite Hopen; by apply (tracks_later _ _ last)].
      unfold step. rewrite Hh, Hhd. by destruct (h_held h).
  - pose proof Hf as (x & e & Hx & Hv & _ & _ & Hhd).
    apply unchanged; [unfold step; rewrite Hh, Hhd; by destruct use|]. rewrite Hhd. right. apply (failed_hstep (Stop tag) use Hf).
Qed.

Lemma step_part o : op_tag o = tag -> stepped o.
Proof. destruct o; simpl; intros ->; [apply get_stepped | apply start_stepped | apply stop_stepped | apply drop_stepped]. Qed.
End one.

(** ** All deadlines of a monitor *)
Section monitor.
Context `{BuildMode} `{!IterOrder string} (name : string) (config : Builder) (since : Z).

Definition tracked (ops : list (op * Z)) (last : Z) (s : t) (tag : string) : Prop :=
  match config !! tag with
  | Some r => exists idx use v, part r tag idx use v (held s !! tag) s /\
      tracks r (history_of since tag ops) last use v (mkDeadline r tag idx) (held s !! tag)
  | None => deadlines (inner s) !! tag = None /\ held s !! tag = None
  end.

Definition inv (ops : list (op * Z)) (last : Z) (s : t) : Prop :=
  monitor_starting_point (inner s) = since /\ (active_deadlines (inner s)).*1 = (iter_order config).*1 /\
  forall tag, tracked ops last s tag.

Lemma inv_initial : inv [] 0 (initial name config since).
Proof.
  split; [done|]. split.
  { simpl. rewrite <- list_fmap_compose. apply list_fmap_ext. by intros ? []. }
  intros tag. unfold tracked. destruct (config !! tag) as [r|] eqn:Hr.
  - apply elem_of_iter_order, list_elem_of_lookup in Hr as [idx Hidx]. exists idx, false, (word 0 false false).
    split; [|left; unfold on_track; simpl; rewrite lookup_empty; naive_solver]. split_and!; [|simpl; by rewrite list_lookup_fmap, Hidx|done]. simpl.
    apply elem_of_list_to_map.
    + rewrite fmap_imap. replace (imap _ _) with ((iter_order config).*1); [apply NoDup_iter_order|].
      apply list_eq. intros i. rewrite list_lookup_fmap, list_lookup_imap. by destruct (_ !! i) as [[]|].
    + apply elem_of_lookup_imap. by exists idx, (tag, r).
  - split; [|done]. simpl. apply not_elem_of_list_to_map. intros ([tag' x] & -> & Hin)%list_elem_of_fmap.
    simpl in Hr. apply elem_of_lookup_imap in Hin as (i & [tag'' r] & Heq & Hi). injection Heq as -> ->.
    apply list_elem_of_lookup_2, elem_of_iter_order in Hi. congruence.
Qed.

(** An operation on one deadline leaves the others alone. *)
Lemma put_other r tag idx use v hd s tag' r' idx' use' v' hd' :
  tag <> tag' -> active_deadlines (inner s) !! idx = Some (tag, v) -> part r' tag' idx' use' v' hd' s -> forall v2,
  part r' tag' idx' use' v' hd' (put r tag idx use v2 hd s).
Proof.
  intros Hne Ha (? & Ha' & ?) v2. unfold part, put. simpl.
  rewrite lookup_insert_ne, list_lookup_insert_ne, lookup_partial_alter_ne; [done | done | | done]. intros ->. congruence.
Qed.

Lemma deadline_step_inv o clock ops last s :
  inv ops last s -> last <= ms since clock -> (forall tag r, config !! tag = Some r -> fits r (ms since clock)) ->
  returns (step o clock s) (inv (ops ++ [(o, clock)]) (ms since clock)).
Proof.
  intros (Hs & Ha & Ht) Hl Hfit. pose proof (Ht (op_tag o)) as Ho. unfold tracked in Ho. destruct (config !! op_tag o) as [r|] eqn:Hr.
  - destruct Ho as (idx & use & v & Hp & Htr). rewrite <- Hs in Hl.
    destruct (step_part r (op_tag o) idx use v _ _ last clock s Hp Htr Hl ltac:(rewrite Hs; eauto) o eq_refl) as (use' & v' & hd' & -> & Htr').
    simpl. rewrite Hs in Htr'. split; [done|]. split.
    { simpl. destruct Hp as (_ & Hi & _). rewrite list_fmap_insert, <- Ha. apply list_insert_id. by rewrite list_lookup_fmap, Hi. }
    intros tag. unfold tracked. rewrite history_of_snoc. case_bool_decide as E.
    + subst tag. rewrite Hr. exists idx, use', v'. destruct Hp as (? & Hi & ?). unfold part, put. simpl.
      rewrite lookup_insert_eq, list_lookup_insert_eq, lookup_partial_alter_eq by (by apply lookup_lt_Some in Hi). done.
    + specialize (Ht tag). unfold tracked in Ht. destruct (config !! tag) as [r'|].
      * destruct Ht as (idx2 & use2 & v2 & Hp2 & Htr2). exists idx2, use2, v2. destruct Hp as (? & Hi & ?).
        assert (held (put r (op_tag o) idx use' v' hd' s) !! tag = held s !! tag) as -> by (by apply lookup_partial_alter_ne).
        split; [by eapply put_other | apply (tracks_later _ _ last); [by rewrite <- Hs | done]].
      * simpl. by rewrite lookup_insert_ne, lookup_partial_alter_ne.
  - destruct Ho as [Hd Hh]. assert (step o clock s = Ret s) as ->.
    { destruct o; simpl in *; [|by rewrite Hh..]. unfold get_deadline. rewrite Hd. by destruct s. }
    simpl. split; [done|]. split; [done|]. intros tag. specialize (Ht tag). unfold tracked in *. rewrite history_of_snoc.
    case_bool_decide as E; [subst tag; by rewrite Hr|]. destruct (config !! tag); [|done].
    destruct Ht as (i2 & u2 & v2 & Hp & Htr). exists i2, u2, v2. split; [done|]. by apply (tracks_later _ _ last).
Qed.

(** The clocks never run backwards, and the last of them is at most [bound]. *)
Lemma run_inv bound ops : forall before last s,
  inv before last s -> StronglySorted Z.le (last :: (ms since <$> ops.*2)) -> Forall (fun now => now <= bound) (last :: (ms since <$> ops.*2)) ->
  (forall tag r, config !! tag = Some r -> fits r bound) ->
  returns (run ops s) (fun s' => exists last', last' <= bound /\ inv (before ++ ops) last' s').
Proof.
  induction ops as [|[o clock] ops IH]; intros before lst s Hi Hs Hb Hf.
  - simpl. exists lst. rewrite app_nil_r. by inversion Hb.
  - rewrite fmap_cons in *. simpl in *. inversion Hs as [|? ? Hs' Hle]; subst. inversion Hb as [|? ? _ Hb']; subst. eapply returns_bind.
    + apply (deadline_step_inv o clock _ _ _ Hi); [by inversion Hle|]. intros tag r Hr. destruct (Hf _ _ Hr). inversion Hb'; subst.
      split; [done|]. lia.
    + intros s' Hi'. eapply returns_mono; [by apply (IH _ _ _ Hi')|]. intros s2. by rewrite <- app_assoc.
Qed.

Lemma evaluate_inv ops last clock s :
  inv ops last s -> last <= ms since clock -> (forall tag r, config !! tag = Some r -> fits r (ms since clock)) ->
  evaluate clock (inner s) = Ret (omap (fun '(tag, r) => verdict r (history_of since tag ops) (ms since clock)) (iter_order config)).
Proof.
  intros (Hs & Ha & Ht) Hl Hf. unfold evaluate. rewrite Hs.
  assert (Forall2 (fun '(tag, v) '(tag', r) => tag = tag' /\
    evaluate_deadline since v clock = Ret (verdict r (history_of since tag ops) (ms since clock))) (active_deadlines (inner s)) (iter_order config)) as Hev.
  { apply Forall2_same_length_lookup_2.
    { by rewrite <- (length_fmap fst), Ha, length_fmap. }
    intros i [tag v] [tag' r] Hi Hi'. assert (tag = tag') as ->.
    { apply (f_equal (lookup i)) in Ha. rewrite !list_lookup_fmap, Hi, Hi' in Ha. by injection Ha. }
    split; [done|]. pose proof (list_elem_of_lookup_2 _ _ _ Hi') as Hc%elem_of_iter_order. specialize (Ht tag'). unfold tracked in Ht. rewrite Hc in Ht.
    destruct Ht as (idx & use & v2 & (_ & Hidx & _) & Htr). assert (idx = i) as ->.
    { apply (NoDup_lookup (iter_order config).*1 idx i tag'); [apply NoDup_iter_order | rewrite <- Ha | rewrite <- Ha];
        by rewrite list_lookup_fmap, ?Hidx, ?Hi. }
    rewrite Hi in Hidx. injection Hidx as ->. eapply evaluate_tracked; [done|]. specialize (Hf _ _ Hc). destruct Hf as [Hr ?].
    pose proof (as_millis_nonneg (max r) ltac:(lia)). lia. }
  clear Ha Ht. induction Hev as [|[tag v] [tag' r] act cfg [-> He] _ IH]; [done|]. rewrite fmap_cons. cbn [evaluate_readings].
  rewrite He. unfold mbind, outcome_bind in *. rewrite IH. cbn [omap list_omap]. by destruct (verdict r _ _).
Qed.

End monitor.

Lemma sorted_ms since clocks last : StronglySorted Z.le (clocks ++ [last]) -> StronglySorted Z.le (0 :: (ms since <$> clocks)) /\
  Forall (fun now => now <= ms since last) (0 :: (ms since <$> clocks)).
Proof.
  intros Hs. assert (StronglySorted Z.le (ms since <$> clocks) /\ Forall (fun now => now <= ms since last) (ms since <$> clocks)) as [H1 H2].
  { induction clocks as [|c clocks IH]; simpl in *; [by repeat constructor|]. inversion Hs as [|? ? Hs' Hle]; subst. destruct (IH Hs') as [IH1 IH2].
    apply Forall_app in Hle as [Hc Hl]. split; constructor; [done | | inversion Hl; subst; by apply ms_mono | done].
    rewrite Forall_fmap. eapply Forall_impl; [done|]. intros x Hx. by apply ms_mono. }
  split; constructor; try done; [|apply ms_nonneg]. rewrite Forall_fmap. apply Forall_true. intros. apply ms_nonneg.
Qed.

(** C34: A deadline monitor reports exactly the violations.  For every set of deadlines, order of their map, build and program that acquires,
    starts, stops and drops them in any order with a clock that does not run backwards, no operation panics, and an evaluation reports, per
    deadline, the first run that was shorter or longer than its range, or a run that is still open and too long, and nothing else.
    The times must fit: the largest time plus the longest deadline stays below 2^32 milliseconds. *)
Theorem deadline_reports_violations `{BuildMode} `{!IterOrder string} (name : string) (config : Builder) (since clock : Z) (ops : list (op * Z)) :
  StronglySorted Z.le (ops.*2 ++ [clock]) ->
  (forall tag r, config !! tag = Some r -> fits r (ms since clock)) ->
  returns (run ops (initial name config since)) (fun s =>
    evaluate clock (inner s) = Ret (omap (fun '(tag, r) => verdict r (history_of since tag ops) (ms since clock)) (iter_order config))).
Proof.
  intros Hs Hf. destruct (sorted_ms since _ _ Hs) as [Hs' Hb].
  eapply returns_mono; [by apply (run_inv config since (ms since clock) ops [] 0 _ (inv_initial name config since))|].
  intros s (last & Hl & Hi). by eapply evaluate_inv.
Qed.

(** Two deadlines of 10 to 50 ms: the first is kept twice, the second is stopped after 5 ms and refused afterwards. *)
Definition two : Builder :=
  add_deadline "read" (mkRange (from_millis 10) (from_millis 50)) (add_deadline "write" (mkRange (from_millis 10) (from_millis 50)) ∅).
Definition two_program : list (op * Z) :=
  (fun '(o, t) => (o, from_millis t)) <$>
    [(Get "read", 0); (Get "write", 1); (Start "read", 100); (Stop "read", 120); (Start "write", 200); (Stop "write", 205);
     (Start "write", 300); (Start "read", 400); (Stop "read", 450)].

Lemma two_fits tag r : two !! tag = Some r -> fits r (ms 0 (from_millis 500)).
Proof.
  unfold two, add_deadline. intros Hr. apply lookup_insert_Some in Hr as [[_ <-]|[_ Hr]]; [by split|].
  apply lookup_insert_Some in Hr as [[_ <-]|[_ Hr]]; [by split | done].
Qed.

Lemma deadline_reports_violations_witness :
  returns (@run debug_build two_program (@initial map_order "m" two 0)) (fun s =>
    @evaluate debug_build (from_millis 500) (inner s) =
      Ret (omap (fun '(tag, r) => verdict r (history_of 0 tag two_program) (ms 0 (from_millis 500))) (@iter_order _ _ _ map_order _ two))) /\
  omap (fun '(tag, r) => verdict r (history_of 0 tag two_program) (ms 0 (from_millis 500))) (@iter_order _ _ _ map_order _ two) = [DTooEarly].
Proof.
  split; [|by vm_compute]. apply (@deadline_reports_violations debug_build map_order "m" two 0 (from_millis 500) two_program); [|apply two_fits].
  apply Sorted_StronglySorted; [apply _|]. repeat (constructor; try by vm_compute).
Defined.

(** ** Beyond the hypotheses *)

(** The word is loaded before the clock is read: a deadline that is stopped in time in between is still reported as late. *)
Example stale_reading_reports_kept_deadline :
  let s0 := @initial map_order "m" {["job" := mkRange (from_millis 10) (from_millis 50)]} 0 in
  (s1 ← @run debug_build [(Get "job", 0); (Start "job", 0)] s0;
   let loaded := (active_deadlines (inner s1)).*2 in
   s2 ← @run debug_build [(Stop "job", from_millis 50)] s1;
   stale ← @evaluate_readings debug_build 0 ((fun v => (v, from_millis 51)) <$> loaded);
   fresh ← @evaluate debug_build (from_millis 51) (inner s2);
   Ret (stale, fresh)) = Ret ([DTooLate], []).
Proof. by vm_compute. Qed.

(** After 2^32 milliseconds (about 50 days) every start panics. *)
Lemma start_panics_after_50_days `{BuildMode} d clock i :
  2 ^ 32 <= ms (monitor_starting_point i) clock -> start_internal d clock i = Abort AssertionFailed.
Proof. intros Ht. unfold start_internal. unfold mbind, outcome_bind. by rewrite duration_to_int_panics. Qed.

(** The longest time of a deadline is cut to 32 bits: a deadline of 2^32 ms is one of 0 ms, missed after a millisecond. *)
Example long_deadline_is_cut :
  let s0 := @initial map_order "m" {["job" := mkRange 0 (from_millis (2 ^ 32))]} 0 in
  (s ← @run debug_build [(Get "job", 0); (Start "job", 0)] s0; @evaluate debug_build (from_millis 1) (inner s)) = Ret [DTooLate].
Proof. by vm_compute. Qed.

End DeadlineClients.
