(* ===== verification/HeartbeatProofs.v ===== *)
(** * The heartbeat monitor reports exactly the irregular heartbeats

    Module [Heartbeats]: the heartbeats of the monitored thread and the evaluations of the background thread as one sequence of
    events, in the order in which they reach the shared word; a reference on the heartbeats since the last evaluation; the monitor
    computes the reference, and the reference is quiet exactly on regular heartbeats when the evaluations are closer together
    than the shortest allowed gap. *)

From stdpp Require Import prelude strings.
From S2P Require Import Prelude HealthState HealthLibrary.

Local Open Scope Z_scope.
Import Common HeartbeatStateSnapshot HeartbeatMonitor.

Module Heartbeats.

(** Each with the clock it read. *)
Inductive event := Beat (clock : Z) | Eval (clock : Z).

(** What the evaluations of a sequence of events report. *)
Fixpoint run `{BuildMode} (hmon : Z) (evs : list event) (i : HeartbeatMonitorInner) : outcome (list (option HeartbeatEvaluationError)) :=
  match evs with
  | [] => Ret []
  | Beat clock :: rest => i' ← heartbeat clock i; run hmon rest i'
  | Eval clock :: rest => '(e, i') ← evaluate hmon clock i; es ← run hmon rest i'; Ret (e :: es)
  end.

(** ** The reference, in milliseconds since the monitor was built *)
Section reference.
Context (lo hi : Z).

(** The heartbeats since the from evaluation, when the cycle began at [from]: the error, and the beginning of the next cycle. *)
Definition check (from now : Z) (pending : list Z) : option HeartbeatEvaluationError * Z :=
  match pending with
  | [] => (if from + hi <? now then Some HTooLate else None, from)
  | [b] => if b <? from + lo then (Some HTooEarly, from) else if from + hi <? b then (Some HTooLate, from) else (None, b)
  | _ => (Some HMultipleHeartbeats, from)
  end.

Inductive instant := BeatAt (t : Z) | EvalAt (t : Z).

Fixpoint reference (from : Z) (pending : list Z) (evs : list instant) : list (option HeartbeatEvaluationError) :=
  match evs with
  | [] => []
  | BeatAt t :: rest => reference from (pending ++ [t]) rest
  | EvalAt t :: rest => (check from t pending).1 :: reference (check from t pending).2 [] rest
  end.

(** ** Regular heartbeats *)
Fixpoint regular (from : Z) (beats : list Z) : Prop :=
  match beats with [] => True | b :: rest => from + lo <= b <= from + hi /\ regular b rest end.

Definition beats (evs : list instant) : list Z := omap (fun e => match e with BeatAt t => Some t | EvalAt _ => None end) evs.

(** No evaluation finds the from heartbeat more than [hi] ago. *)
Fixpoint timely (from : Z) (evs : list instant) : Prop :=
  match evs with
  | [] => True
  | BeatAt t :: rest => timely t rest
  | EvalAt t :: rest => t <= from + hi /\ timely from rest
  end.

(** The evaluations are less than [lo] apart, and time does not run backwards. *)
Fixpoint spaced (previous : Z) (evs : list instant) : Prop :=
  match evs with
  | [] => True
  | BeatAt t :: rest => spaced previous rest
  | EvalAt t :: rest => t - previous < lo /\ spaced t rest
  end.

Definition time (e : instant) : Z := match e with BeatAt t | EvalAt t => t end.

Fixpoint ordered (now : Z) (evs : list instant) : Prop :=
  match evs with [] => True | e :: rest => now <= time e /\ ordered (time e) rest end.

Definition quiet (reports : list (option HeartbeatEvaluationError)) : Prop := Forall (fun e => e = None) reports.

Context (Hlo : 0 < lo) (Hhi : lo <= hi).

Lemma regular_app from l1 l2 : regular from (l1 ++ l2) <-> regular from l1 /\ regular (default from (last l1)) l2.
Proof.
  revert from. induction l1 as [|b l1 IH]; intros from; simpl; [tauto|]. rewrite IH. rewrite last_cons. destruct (last l1); simpl; tauto.
Qed.

Lemma check_quiet from now pending : (check from now pending).1 = None ->
  regular from pending /\ (check from now pending).2 = default from (last pending) /\ (pending = [] -> now <= from + hi).
Proof.
  destruct pending as [|b [|]]; simpl; [| |done].
  - destruct (Z.ltb_spec (from + hi) now); naive_solver lia.
  - destruct (Z.ltb_spec b (from + lo)); [done|]. destruct (Z.ltb_spec (from + hi) b); naive_solver lia.
Qed.

(** The heartbeats that the next evaluation finds. *)
Fixpoint unread (pending : list Z) (evs : list instant) : list Z :=
  match evs with
  | [] => pending
  | BeatAt t :: rest => unread (pending ++ [t]) rest
  | EvalAt _ :: rest => unread [] rest
  end.

(** Quiet evaluations saw regular heartbeats, and no silence that was too long. *)
Lemma quiet_regular evs now : forall from pending,
  quiet (reference from pending (evs ++ [EvalAt now])) ->
  regular from (pending ++ beats evs) /\ (unread pending evs = [] -> now <= default from (last (pending ++ beats evs)) + hi).
Proof.
  induction evs as [|[t|t] evs IH]; intros from pending Hq; simpl in *.
  - inversion Hq as [|? ? Hc _]; subst. destruct (check_quiet _ _ _ Hc) as (Hr & _ & Hn). rewrite app_nil_r. split; [done|].
    intros ->. by apply Hn.
  - destruct (IH _ _ Hq) as [Hr Hn]. by rewrite <- app_assoc in Hr, Hn.
  - inversion Hq as [|? ? Hc Hq']; subst. destruct (check_quiet _ _ _ Hc) as (Hr & Hf & _). rewrite Hf in Hq'.
    destruct (IH _ _ Hq') as [Hr' Hn]. simpl in *. split; [by apply regular_app|]. intros Hu. specialize (Hn Hu).
    rewrite last_app. unfold beats in *. by destruct (last (omap _ evs)).
Qed.

Lemma regular_later from pending : regular from pending -> Forall (fun b => from + lo <= b) pending.
Proof.
  revert from. induction pending as [|b pending IH]; intros from; [constructor|]. intros [Hb Hr]. constructor; [lia|].
  eapply Forall_impl; [by apply IH|]. simpl. lia.
Qed.

(** Regular heartbeats are not reported. *)
Lemma regular_quiet evs : forall from pending previous now,
  regular from (pending ++ beats evs) -> timely (default from (last pending)) evs -> spaced previous evs -> ordered now evs ->
  Forall (fun b => previous <= b <= now) pending -> previous <= now -> quiet (reference from pending evs).
Proof.
  induction evs as [|[t|t] evs IH]; intros from pending previous now Hr Ht Hs Ho Hp Hn; simpl in *; [constructor|..].
  - destruct Ho as [Hnow Ho]. apply (IH _ _ previous t); [by rewrite <- app_assoc | by rewrite last_snoc | done | done | | lia].
    apply Forall_app. split; [|repeat constructor; lia]. eapply Forall_impl; [done|]. simpl. lia.
  - destruct Ho as [Hnow Ho], Ht as [Ht1 Ht2], Hs as [Hs1 Hs2]. pose proof (proj1 (proj1 (regular_app _ _ _) Hr)) as Hrp.
    pose proof (proj2 (proj1 (regular_app _ _ _) Hr)) as Hre. unfold check.
    destruct pending as [|b [|b' pending]]; simpl in *.
    + rewrite (proj2 (Z.ltb_ge _ _)) by lia. constructor; [done|]. by apply (IH _ [] t t).
    + rewrite !(proj2 (Z.ltb_ge _ _)) by lia. constructor; [done|]. by apply (IH _ [] t t).
    + exfalso. inversion Hp as [|? ? Hb Hp']; subst. inversion Hp' as [|? ? Hb' _]; subst. lia.
Qed.
End reference.

(** ** The monitor computes the reference *)
Section monitor.
Context `{BuildMode} (lo hi t0 hmon : Z).
Let off := as_millis (hmon - t0).

Definition instant_of (e : event) : instant :=
  match e with Beat clock => BeatAt (ms t0 clock) | Eval clock => EvalAt (as_millis (hmon - t0) + ms hmon clock) end.

Definition in_range (z : Z) : Prop := 0 <= z < 2 ^ 62.

Record rel (from : Z) (pending : list Z) (i : HeartbeatMonitorInner) : Prop := {
  rel_range : range i = mkInternalRange lo hi;
  rel_start_point : monitor_starting_point i = t0;
  rel_word : heartbeat_state i = word (default 0 (last pending)) (Z.min (Z.of_nat (length pending)) 3);
  rel_start : if 0 <? start_timestamp i then from = start_timestamp i else from = off;
  rel_from : in_range from;
  rel_pending : Forall in_range pending
}.

Context (Hlo : 0 < lo) (Hhi : lo <= hi < 2 ^ 63) (Hmon : t0 <= hmon).

Lemma pending_word pending : Forall in_range pending -> 0 <= default 0 (last pending) < 2 ^ 62 /\ 0 <= Z.min (Z.of_nat (length pending)) 3 < 2 ^ 2.
Proof.
  intros Hp. split; [|lia]. destruct (last pending) as [b|] eqn:Hl; simpl; [|lia].
  apply last_Some_elem_of in Hl. rewrite Forall_forall in Hp. by apply Hp.
Qed.

Lemma heartbeat_rel from pending clock i : rel from pending i -> in_range (ms t0 clock) ->
  returns (heartbeat clock i) (rel from (pending ++ [ms t0 clock])).
Proof.
  intros [Hr Hs Hw Hst Hf Hp] Ht. unfold heartbeat, in_range in *. destruct (pending_word _ Hp) as [Hb Hc]. rewrite Hs.
  rewrite duration_to_int_ms by lia. unfold mbind, outcome_bind, update.
  rewrite Hw, word_set_heartbeat_timestamp by done. unfold mbind, outcome_bind. rewrite word_increment_counter by done. simpl.
  constructor; try done; simpl.
  - rewrite last_snoc, length_app. simpl. f_equal. lia.
  - apply Forall_app. split; [done|]. by constructor.
Qed.

Lemma offset_ok from : in_range from -> offset (mkInternalRange lo hi) from = Ret (mkInternalRange (lo + from) (hi + from)).
Proof.
  intros Hf. unfold in_range in Hf. unfold offset, checked_add, internal_new. cbn [HeartbeatMonitor.lo HeartbeatMonitor.hi].
  rewrite !(proj2 (Z.ltb_lt _ _)) by lia. unfold mbind, outcome_bind, value_of. by rewrite (proj2 (Z.leb_le _ _)) by lia.
Qed.

Lemma evaluate_rel from pending clock i : rel from pending i -> in_range (off + ms hmon clock) ->
  returns (evaluate hmon clock i) (fun '(e, i') => e = (check lo hi from (off + ms hmon clock) pending).1 /\
    rel (check lo hi from (off + ms hmon clock) pending).2 [] i').
Proof.
  intros [Hr Hs Hw Hst Hf Hp] Ht. destruct (pending_word _ Hp) as [Hb Hc]. unfold evaluate, time_offset.
  pose proof (ms_nonneg hmon clock). assert (0 <= off) by (apply as_millis_nonneg; lia). unfold in_range in Ht.
  rewrite Hs, (proj2 (Z.leb_le _ _) Hmon), (duration_to_int_ok 64 (hmon - t0)) by (fold off; lia). unfold mbind, outcome_bind, value_of. fold off.
  rewrite duration_to_int_ms, add_w_ok by lia. unfold reset. simpl range. rewrite Hr.
  assert ((if 0 <? start_timestamp i then start_timestamp i else off) = from) as -> by (by destruct (0 <? start_timestamp i)).
  rewrite offset_ok by done. rewrite Hw, word_heartbeat_timestamp, word_counter by done. cbn [HeartbeatMonitor.lo HeartbeatMonitor.hi].
  assert (forall z, in_range z -> (z = from \/ 0 < z) -> forall st, st = (if decide (z = from) then start_timestamp i else z) ->
    rel z [] (set_start_timestamp st (set_heartbeat_state new i))) as Hrel.
  { intros z Hz Hz' st ->. constructor; try done. simpl. case_decide; subst; [done|].
    rewrite (proj2 (Z.ltb_lt _ _)); [done | destruct Hz'; [done | lia]]. }
  destruct pending as [|b [|b' pending]]; unfold check; cbn [length last default].
  - simpl. rewrite (Z.add_comm hi). destruct (from + hi <? off + ms hmon clock); (split; [done|]);
      by apply (Hrel from Hf (or_introl eq_refl)); rewrite decide_True.
  - simpl. rewrite (Z.add_comm lo), (Z.add_comm hi). apply Forall_cons in Hp as [Hb' _].
    destruct (Z.ltb_spec b (from + lo)); [|destruct (from + hi <? b)];
      [split; [done|]; by apply (Hrel from Hf (or_introl eq_refl)); rewrite decide_True.. |].
    split; [done|]. simpl. apply Hrel; [done | right; unfold in_range in *; lia |]. case_decide; [|done]. unfold in_range in *. lia.
  - rewrite (proj2 (Z.ltb_lt _ _)) by lia. split; [done|]. by apply (Hrel from Hf (or_introl eq_refl)); rewrite decide_True.
Qed.

Lemma run_reference evs : forall from pending i,
  rel from pending i -> Forall (fun e => in_range (time (instant_of e))) evs ->
  run hmon evs i = Ret (reference lo hi from pending (instant_of <$> evs)).
Proof.
  induction evs as [|[clock|clock] evs IH]; intros from pending i Hr Hf; [done|..]; apply Forall_cons in Hf as [Ht Hf]; simpl in Ht |- *.
  - pose proof (heartbeat_rel _ _ _ _ Hr Ht) as (i' & -> & Hi')%returns_Ret. simpl. by apply IH.
  - pose proof (evaluate_rel _ _ _ _ Hr Ht) as ([e i'] & -> & -> & Hi')%returns_Ret. simpl. by rewrite (IH _ _ _ Hi' Hf).
Qed.
End monitor.

Lemma reference_prefix lo hi evs1 evs2 : forall from pending, reference lo hi from pending evs1 `prefix_of` reference lo hi from pending (evs1 ++ evs2).
Proof. induction evs1 as [|[t|t] evs1 IH]; intros from pending; simpl; [apply prefix_nil | apply IH | apply prefix_cons, IH]. Qed.

Lemma quiet_prefix l1 l2 : l1 `prefix_of` l2 -> quiet l2 -> quiet l1.
Proof. intros [l ->]. unfold quiet. rewrite Forall_app. by intros []. Qed.

(** The ranges a monitor can be built with. *)
Definition valid (r : TimeRange) : Prop := 0 <= min r <= max r /\ as_millis (max r) < 2 ^ 63.

Lemma build_spec `{BuildMode} name r cycle t0 : valid r ->
  build name r cycle t0 = Ret (if as_millis (min r) * 2 <=? wrap 64 (as_millis cycle) then inr InvalidArgument
                               else inl (mkInner name (mkInternalRange (as_millis (min r)) (as_millis (max r))) t0 new 0)).
Proof.
  intros [Hr Hm]. pose proof (as_millis_nonneg (min r) ltac:(lia)). pose proof (as_millis_mono (min r) (max r) ltac:(lia)).
  unfold build, inner_new, from_range, internal_new. rewrite (wrap_small 64 (as_millis (min r))) by lia. rewrite mul_w_ok by lia.
  unfold mbind, outcome_bind. destruct (as_millis (min r) * 2 <=? wrap 64 (as_millis cycle)); [done|].
  rewrite !duration_to_int_ok, (proj2 (Z.leb_le _ _)) by lia. done.
Qed.

Lemma build_rel name (r : TimeRange) t0 hmon : t0 <= hmon -> in_range (as_millis (hmon - t0)) ->
  rel (as_millis (min r)) (as_millis (max r)) t0 hmon (as_millis (hmon - t0)) []
    (mkInner name (mkInternalRange (as_millis (min r)) (as_millis (max r))) t0 new 0).
Proof. intros Hm Ho. by constructor. Qed.

(** C35: A heartbeat monitor reports exactly the irregular heartbeats.  For every range that [build] accepts and every sequence of heartbeats and
    evaluations: nothing panics; if no evaluation reports an error, every gap before an evaluation was within the range, the first measured from
    the start of the background thread, and an evaluation without a new heartbeat came no later than the range allows; and
    regular heartbeats are never reported when the evaluations are less than the shortest allowed gap apart. *)
Theorem heartbeat_monitor_contract `{BuildMode} (name : string) (r : TimeRange) (cycle t0 hmon : Z) (evs : list event) :
  valid r -> wrap 64 (as_millis cycle) < as_millis (min r) * 2 -> t0 <= hmon -> in_range (as_millis (hmon - t0)) ->
  Forall (fun e => in_range (time (instant_of t0 hmon e))) evs ->
  let lo := as_millis (min r) in
  let hi := as_millis (max r) in
  let first := as_millis (hmon - t0) in
  let at_ms := fmap (instant_of t0 hmon) in
  exists i reports, build name r cycle t0 = Ret (inl i) /\ run hmon evs i = Ret reports /\
  (quiet reports -> forall evs1 clock evs2, evs = evs1 ++ Eval clock :: evs2 ->
     regular lo hi first (beats (at_ms evs1)) /\
     (unread [] (at_ms evs1) = [] -> first + ms hmon clock <= default first (last (beats (at_ms evs1))) + hi)) /\
  (regular lo hi first (beats (at_ms evs)) -> timely hi first (at_ms evs) -> spaced lo first (at_ms evs) -> ordered first (at_ms evs) -> quiet reports).
Proof.
  intros Hv Hc Hm Ho Ht lo hi first at_ms. destruct Hv as [Hr Hmax]. pose proof (as_millis_mono (min r) (max r) ltac:(lia)) as Hle.
  pose proof (wrap_range 64 (as_millis cycle) ltac:(lia)).
  eexists _, _. split; [|split; [apply (run_reference lo hi t0 hmon) with (from := first) (pending := [])|]].
  - rewrite build_spec by done. by rewrite (proj2 (Z.leb_gt _ _)) by lia.
  - unfold lo. lia.
  - unfold lo, hi. lia.
  - done.
  - by apply build_rel.
  - done.
  - split.
    + intros Hq evs1 clock evs2 ->. rewrite fmap_app in Hq. apply (quiet_regular lo hi (at_ms evs1) (first + ms hmon clock) first []).
      eapply quiet_prefix; [|apply Hq]. rewrite fmap_cons, (cons_middle _ _ (_ <$> evs2)). rewrite app_assoc. apply reference_prefix.
    + intros Hreg Htm Hsp Hor. eapply (regular_quiet lo hi) with (previous := first) (now := first); unfold lo, hi in *; (done || lia).
Qed.

Definition every_100 : list event := (fun e => match e with Beat t => Beat (from_millis t) | Eval t => Eval (from_millis t) end) <$>
  [Eval 50; Beat 100; Eval 120; Eval 170; Beat 210; Eval 250; Eval 300; Beat 330; Eval 349].

Lemma heartbeat_monitor_contract_witness :
  let r := mkRange (from_millis 100) (from_millis 200) in
  exists i reports, @build debug_build "m" r (from_millis 50) 0 = Ret (inl i) /\ @run debug_build 0 every_100 i = Ret reports /\ quiet reports.
Proof.
  intros r. destruct (@heartbeat_monitor_contract debug_build "m" r (from_millis 50) 0 0 every_100) as (i & reports & Hb & Hrun & _ & Hq);
    [by vm_compute | by vm_compute | done | by vm_compute | repeat (constructor; [by vm_compute|]); constructor |].
  exists i, reports. split; [exact Hb|]. split; [exact Hrun|]. apply Hq; by vm_compute.
Defined.

(** [build] accepts a processing cycle of up to twice the shortest gap, with which regular heartbeats are reported: two of them can fall into one cycle. *)
Example accepted_cycle_reports_regular_heartbeats :
  let r := mkRange (from_millis 100) (from_millis 200) in
  let evs := (fun e => match e with Beat t => Beat (from_millis t) | Eval t => Eval (from_millis t) end) <$>
    [Beat 100; Eval 150; Beat 200; Beat 300; Eval 300] in
  (i ← @build debug_build "m" r (from_millis 150) 0; match i with inl i => @run debug_build 0 evs i | inr _ => Ret [] end) =
    Ret [None; Some HMultipleHeartbeats] /\
  regular 100 200 0 (beats (instant_of 0 0 <$> evs)) /\ ordered 0 (instant_of 0 0 <$> evs).
Proof. split; [by vm_compute|]. vm_compute. naive_solver. Qed.

(** A range that may begin at zero is never accepted. *)
Lemma zero_minimum_refused `{BuildMode} name r cycle t0 : valid r -> as_millis (min r) = 0 -> build name r cycle t0 = Ret (inr InvalidArgument).
Proof.
  intros Hv Hz. rewrite build_spec by done. pose proof (wrap_range 64 (as_millis cycle) ltac:(lia)).
  by rewrite (proj2 (Z.leb_le _ _)) by lia.
Qed.

End Heartbeats.
