(* ===== verification/LogicMonitorProofs.v ===== *)
(** * The logic monitor is the automaton it was configured with

    Module [LogicProofs]: the automaton, the requests of a client, and the simulation between the packed word of the monitor and the state of the
    automaton, for every configuration and every order of the map of states. *)

From stdpp Require Import prelude fin_maps gmap strings.
From S2P Require Import Prelude HealthState HealthLibrary.

Local Open Scope Z_scope.

Module LogicProofs.
Import LogicStateSnapshot LogicMonitor.

(** ** The configured automaton *)

(** [None]: a transition that is not allowed was requested. *)
Definition automaton_step (states : gmap string (list string)) (target : string) (st : option string) :
  (string + LogicEvaluationError) * option string :=
  match st with
  | None => (inr InvalidState, None)
  | Some s => if bool_decide (target ∈ default [] (states !! s)) then (inl target, Some target) else (inr InvalidTransition, None)
  end.

Fixpoint automaton (states : gmap string (list string)) (targets : list string) (st : option string) :
  list (string + LogicEvaluationError) * option string :=
  match targets with
  | [] => ([], st)
  | target :: rest => let '(reply, st') := automaton_step states target st in let '(replies, st'') := automaton states rest st' in (reply :: replies, st'')
  end.

(** The requests of a client. *)
Fixpoint transitions (targets : list string) (i : LogicMonitorInner) : outcome (list (string + LogicEvaluationError) * LogicMonitorInner) :=
  match targets with
  | [] => Ret ([], i)
  | target :: rest => '(reply, i1) ← transition target i; '(replies, i2) ← transitions rest i1; Ret (reply :: replies, i2)
  end.

Definition well_formed (b : Builder) : Prop :=
  is_Some (states b !! initial_state b) /\
  forall s targets target, states b !! s = Some targets -> target ∈ targets -> is_Some (states b !! target).

Section logic.
Context `{!IterOrder string} (b : Builder) (Hsize : Z.of_nat (size (states b)) < 2 ^ 56).

Definition nodes : list StateNode := (fun '(s, targets) => mkNode s targets) <$> iter_order (states b).

Lemma nodes_lookup idx node : nodes !! idx = Some node -> states b !! tag node = Some (allowed_targets node).
Proof.
  unfold nodes. rewrite list_lookup_fmap. intros ([s targets] & Hi & ->)%fmap_Some. by apply list_elem_of_lookup_2, elem_of_iter_order in Hi.
Qed.

Lemma nodes_index s targets : states b !! s = Some targets -> exists idx, nodes !! idx = Some (mkNode s targets).
Proof.
  intros [idx Hi]%elem_of_iter_order%list_elem_of_lookup. exists idx. unfold nodes. by rewrite list_lookup_fmap, Hi.
Qed.

Lemma nodes_length idx node : nodes !! idx = Some node -> 0 <= Z.of_nat idx < 2 ^ 56.
Proof.
  intros Hi%lookup_lt_Some. unfold nodes in Hi. rewrite length_fmap, iter_order_perm, length_map_to_list in Hi. lia.
Qed.

Lemma nodes_NoDup i j n1 n2 : nodes !! i = Some n1 -> nodes !! j = Some n2 -> tag n1 = tag n2 -> i = j.
Proof.
  unfold nodes. rewrite !list_lookup_fmap. intros ([s1 t1] & H1 & ->)%fmap_Some ([s2 t2] & H2 & ->)%fmap_Some. simpl. intros ->.
  apply (NoDup_lookup (iter_order (states b)).*1 i j s2); [apply NoDup_iter_order | by rewrite list_lookup_fmap, H1 | by rewrite list_lookup_fmap, H2].
Qed.

(** The first and the last node with a tag are the same, since there is only one. *)
Lemma find_tag_spec target l : forall k, match find_tag target k l with
  | inl idx => (k <= idx)%nat /\ exists node, l !! (idx - k)%nat = Some node /\ tag node = target
  | inr e => e = InvalidState /\ forall node, node ∈ l -> tag node <> target
  end.
Proof.
  induction l as [|node l IH]; intros k; simpl; [split; [done|]; intros ? []%elem_of_nil|]. case_bool_decide as E.
  - split; [done|]. exists node. by rewrite Nat.sub_diag.
  - specialize (IH (S k)). destruct (find_tag target (S k) l) as [idx|e].
    + destruct IH as (Hk & n & Hn & Ht). split; [lia|]. exists n. replace (idx - k)%nat with (S (idx - S k)) by lia. done.
    + destruct IH as [-> IH]. split; [done|]. intros n [->|Hn]%elem_of_cons; [done | by apply IH].
Qed.

Lemma last_index_spec target l : forall k found, match last_index target k l found with
  | Some idx => found = Some idx \/ (k <= idx)%nat /\ exists node, l !! (idx - k)%nat = Some node /\ tag node = target
  | None => found = None /\ forall node, node ∈ l -> tag node <> target
  end.
Proof.
  induction l as [|node l IH]; intros k found; simpl.
  { destruct found; [by left|]. split; [done|]. intros ? []%elem_of_nil. }
  specialize (IH (S k) (if bool_decide (tag node = target) then Some k else found)).
  destruct (last_index target (S k) l _) as [idx|].
  - destruct IH as [IH|(Hk & n & Hn & Ht)].
    + case_bool_decide as E; [|by left]. injection IH as ->. right. split; [done|]. exists node. by rewrite Nat.sub_diag.
    + right. split; [lia|]. exists n. replace (idx - k)%nat with (S (idx - S k)) by lia. done.
  - destruct IH as [Hf IH]. case_bool_decide as E; [done|]. split; [done|]. intros n [->|Hn]%elem_of_cons; [done | by apply IH].
Qed.

(** The monitor in the state [st] of the automaton. *)
Definition tracks (st : option string) (i : LogicMonitorInner) : Prop :=
  state_graph i = nodes /\
  match st with
  | Some s => exists idx node, nodes !! idx = Some node /\ tag node = s /\ logic_state i = word (Z.of_nat idx) None
  | None => exists idx node, nodes !! idx = Some node /\ logic_state i = word (Z.of_nat idx) (Some InvalidTransition)
  end.

Lemma transition_tracks (Hwf : well_formed b) st target i : tracks st i ->
  exists i', transition target i = Ret ((automaton_step (states b) target st).1, i') /\ tracks (automaton_step (states b) target st).2 i'.
Proof.
  intros [Hg Ht]. unfold transition. destruct st as [s|].
  - destruct Ht as (idx & node & Hn & <- & Hw). pose proof (nodes_length _ _ Hn) as Hi. rewrite Hw, word_monitor_status, word_current_state_index by done.
    unfold find_node_by_index. rewrite Nat2Z.id, Hg, Hn. simpl. rewrite (nodes_lookup _ _ Hn). simpl. case_bool_decide as Hin; simpl.
    + unfold find_index_by_tag. rewrite Hg. pose proof (find_tag_spec target nodes 0) as Hf. destruct (find_tag target 0 nodes) as [idx'|e].
      * destruct Hf as (_ & node' & Hn' & <-). rewrite Nat.sub_0_r in Hn'. pose proof (nodes_length _ _ Hn').
        rewrite word_set_current_state_index by done. simpl. eexists. split; [done|]. split; [done|]. by exists idx', node'.
      * destruct Hf as [_ Hf]. destruct (proj2 Hwf _ _ _ (nodes_lookup _ _ Hn) Hin) as [ts Hts].
        destruct (nodes_index _ _ Hts) as [k Hk]. by destruct (Hf _ (list_elem_of_lookup_2 _ _ _ Hk)).
    + eexists. split; [done|]. split; [done|]. exists idx, node. split; [done|]. simpl. by rewrite word_set_monitor_status by done.
  - destruct Ht as (idx & node & Hn & Hw). pose proof (nodes_length _ _ Hn). rewrite Hw, word_monitor_status by done. simpl.
    eexists. split; [done|]. split; [done|]. by exists idx, node.
Qed.

Lemma transitions_track (Hwf : well_formed b) targets : forall st i, tracks st i ->
  exists i', transitions targets i = Ret ((automaton (states b) targets st).1, i') /\ tracks (automaton (states b) targets st).2 i'.
Proof.
  induction targets as [|target targets IH]; intros st i Ht; [by exists i|].
  destruct (transition_tracks Hwf st target i Ht) as (i1 & H1 & Ht1). simpl. rewrite H1. simpl.
  destruct (automaton_step (states b) target st) as [reply st']. destruct (IH _ _ Ht1) as (i2 & H2 & Ht2). simpl in *. rewrite H2.
  destruct (automaton (states b) targets st') as [replies st'']. by exists i2.
Qed.

Lemma state_tracks st i : tracks st i -> state i = match st with Some s => inl s | None => inr InvalidState end.
Proof.
  intros [Hg Ht]. unfold state. destruct st as [s|].
  - destruct Ht as (idx & node & Hn & <- & ->). pose proof (nodes_length _ _ Hn). rewrite word_monitor_status, word_current_state_index by done.
    unfold find_node_by_index. by rewrite Nat2Z.id, Hg, Hn.
  - destruct Ht as (idx & node & Hn & ->). pose proof (nodes_length _ _ Hn). by rewrite word_monitor_status by done.
Qed.

Lemma evaluate_tracks st i : tracks st i -> evaluate i = match st with Some _ => None | None => Some InvalidTransition end.
Proof.
  intros [Hg Ht]. unfold evaluate. destruct st as [s|].
  - destruct Ht as (idx & node & Hn & _ & ->). pose proof (nodes_length _ _ Hn). by rewrite word_monitor_status by done.
  - destruct Ht as (idx & node & Hn & ->). pose proof (nodes_length _ _ Hn). by rewrite word_monitor_status by done.
Qed.

Lemma targets_defined : forallb (fun '(_, targets) => forallb (fun target => bool_decide (is_Some (states b !! target))) targets) (iter_order (states b)) = true <->
  (forall s targets target, states b !! s = Some targets -> target ∈ targets -> is_Some (states b !! target)).
Proof.
  rewrite <- Is_true_true, forallb_True, Forall_forall. split.
  - intros Ha s targets target Hs Hin. apply elem_of_iter_order, Ha in Hs. rewrite forallb_True, Forall_forall in Hs.
    specialize (Hs _ Hin). by apply bool_decide_unpack in Hs.
  - intros Ha [s targets] Hs%elem_of_iter_order. apply forallb_True, Forall_forall. intros target Hin. apply bool_decide_pack. eauto.
Qed.

Lemma build_ok name : well_formed b -> exists i, build name b = Ret (inl i) /\ tracks (Some (initial_state b)) i.
Proof.
  intros Hwf. unfold build. destruct (proj1 Hwf) as [ts Hts]. rewrite bool_decide_eq_false_2 by (intros E; by rewrite E in Hts).
  rewrite (proj2 targets_defined (proj2 Hwf)). simpl negb. cbv iota. fold nodes. pose proof (last_index_spec (initial_state b) nodes 0 None) as Hl.
  destruct (last_index (initial_state b) 0 nodes None) as [idx|].
  - destruct Hl as [|(_ & node & Hn & Ht)]; [done|]. rewrite Nat.sub_0_r in Hn. pose proof (nodes_length _ _ Hn).
    unfold inner_new. rewrite new_word by done. simpl. eexists. split; [done|]. split; [done|]. by exists idx, node.
  - destruct Hl as [_ Hl]. destruct (nodes_index _ _ Hts) as [k Hk]. by destruct (Hl _ (list_elem_of_lookup_2 _ _ _ Hk)).
Qed.

Lemma build_error name : ~ well_formed b ->
  build name b = Ret (inr (if bool_decide (states b = ∅) then WrongStateError else InvalidArgument)).
Proof.
  intros Hwf. unfold build. case_bool_decide as He; [done|].
  destruct (forallb _ (iter_order (states b))) eqn:Hf; [|done]. simpl negb. cbv iota. fold nodes.
  pose proof (last_index_spec (initial_state b) nodes 0 None) as Hl.
  destruct (last_index (initial_state b) 0 nodes None) as [idx|]; [|done]. destruct Hl as [|(_ & node & Hn & Ht)]; [done|].
  destruct Hwf. split; [|by apply targets_defined]. rewrite <- Ht. rewrite (nodes_lookup _ _ Hn). eauto.
Qed.
End logic.

(** C36: A logic monitor is the automaton it was configured with.  [build] succeeds exactly when the initial state and all targets are
    defined (an empty graph is a wrong state, the rest an invalid argument).  Then every sequence of requested transitions is answered as the automaton answers
    it, [state] names its state, and the evaluation reports an invalid transition from the first request that was not allowed on, and nothing before. *)
Theorem logic_monitor_refines_automaton `{!IterOrder string} (name : string) (b : Builder) :
  Z.of_nat (size (states b)) < 2 ^ 56 ->
  (~ well_formed b -> build name b = Ret (inr (if bool_decide (states b = ∅) then WrongStateError else InvalidArgument))) /\
  (well_formed b -> exists i, build name b = Ret (inl i) /\ forall targets, exists i',
    let '(replies, st) := automaton (states b) targets (Some (initial_state b)) in
    transitions targets i = Ret (replies, i') /\
    state i' = match st with Some s => inl s | None => inr InvalidState end /\
    evaluate i' = match st with Some _ => None | None => Some InvalidTransition end).
Proof.
  intros Hs. split; [apply build_error|]. intros Hwf. destruct (build_ok b Hs name Hwf) as (i & Hb & Ht). exists i. split; [done|]. intros targets.
  destruct (transitions_track b Hs Hwf targets _ _ Ht) as (i' & Hr & Ht'). exists i'. destruct (automaton (states b) targets (Some (initial_state b))) as [replies st].
  split; [done|]. split; [by eapply state_tracks | by eapply evaluate_tracks].
Qed.

Definition traffic_light : Builder :=
  add_state "red" ["green"] (add_state "green" ["yellow"] (add_state "yellow" ["red"] (builder_new "red"))).

Lemma traffic_light_well_formed : well_formed traffic_light.
Proof.
  split; [vm_compute; eauto|]. intros s targets target Hs Ht. unfold traffic_light, add_state in Hs. simpl in Hs.
  repeat (apply lookup_insert_Some in Hs as [[<- <-]|[_ Hs]]; [apply list_elem_of_singleton in Ht as ->; vm_compute; eauto|]).
  by rewrite lookup_empty in Hs.
Qed.

Lemma logic_monitor_refines_automaton_witness :
  exists i i', @build map_order "m" traffic_light = Ret (inl i) /\
    transitions ["green"; "red"; "yellow"] i = Ret ([inl "green"; inr InvalidTransition; inr InvalidState], i') /\ evaluate i' = Some InvalidTransition.
Proof.
  destruct (@logic_monitor_refines_automaton map_order "m" traffic_light ltac:(by vm_compute)) as [_ Hok].
  destruct (Hok traffic_light_well_formed) as (i & Hb & Hr). destruct (Hr ["green"; "red"; "yellow"]) as (i' & Hi').
  assert (automaton (states traffic_light) ["green"; "red"; "yellow"] (Some (initial_state traffic_light)) =
    ([inl "green"; inr InvalidTransition; inr InvalidState], None)) as Ha by (by vm_compute).
  rewrite Ha in Hi'. destruct Hi' as (Ht & _ & He). exists i, i'. split; [exact Hb|]. split; [exact Ht | exact He].
Defined.
End LogicProofs.
