(* ===== verification/WorkerProofs.v ===== *)
(** * The background thread and the start of the health monitor

    [WorkerProofs]: the rounds of the background thread, between which the other threads change the monitors in any way: the supervisor is notified only
    while every monitor is healthy, and then in time.  [StartProofs]: what can be built, handed out and started. *)

From stdpp Require Import prelude fin_maps gmap strings sorting.
From S2P Require Import Prelude HealthState HealthLibrary DeadlineProofs.

Local Open Scope Z_scope.
Import Common.

Module WorkerProofs.
Import Worker.

(** What the other threads do to the monitors, then one iteration of the loop. *)
Record round := mkRound { others : list monitor -> list monitor; it : iteration }.

(** What happened in a round: its iteration, the monitors it evaluated, and whether it notified the supervisor. *)
Record entry := mkEntry { e_it : iteration; e_store : list monitor; notified : bool }.

Section worker.
Context `{BuildMode} (hmon interval : Z).

Fixpoint loop (rounds : list round) (store : list monitor) (t : thread) : list entry * thread :=
  match rounds with
  | [] => ([], t)
  | r :: rest =>
      let store := others r store in
      let '(t', store', n) := loop_step hmon interval (it r) store t in
      let '(log, t'') := loop rest store' t' in
      (mkEntry (it r) store n :: log, t'')
  end.

(** Every monitor is evaluated without an error. *)
Definition all_healthy (handles : list nat) (e : entry) : Prop :=
  forall h, h ∈ handles -> exists m m', e_store e !! h = Some m /\ evaluate_monitor hmon (at_evaluation (in_run (e_it e)) h) m = Ret ([], m').

(** ** One call of [run] *)
Lemma fold_healthy r handles : forall store any store',
  NoDup handles -> foldM (evaluate_handle hmon r) (store, any) handles = Ret (store', false) ->
  any = false /\ forall h, h ∈ handles -> exists m m', store !! h = Some m /\ evaluate_monitor hmon (at_evaluation r h) m = Ret ([], m').
Proof.
  induction handles as [|h handles IH]; intros store any store' Hnd Hf; simpl in Hf.
  - injection Hf as _ ->. split; [done|]. intros h Hh. by apply elem_of_nil in Hh.
  - apply NoDup_cons in Hnd as [Hnin Hnd]. destruct (store !! h) as [m|] eqn:Hm; simpl in Hf; [|done].
    destruct (evaluate_monitor hmon (at_evaluation r h) m) as [[errors m']|] eqn:He; simpl in Hf; [|done].
    destruct (IH _ _ _ Hnd Hf) as [Hany Hall]. apply orb_false_iff in Hany as [-> Herr]. apply negb_false_iff, bool_decide_eq_true in Herr as ->.
    split; [done|]. intros h' [->|Hh]%elem_of_cons; [by exists m, m'|]. destruct (Hall h' Hh) as (m2 & m2' & Hm2 & He2).
    exists m2, m2'. split; [|done]. rewrite list_lookup_insert_ne in Hm2; [done|]. intros <-. done.
Qed.

Lemma fold_all_healthy r handles : forall store,
  NoDup handles -> (forall h, h ∈ handles -> exists m m', store !! h = Some m /\ evaluate_monitor hmon (at_evaluation r h) m = Ret ([], m')) ->
  exists store', foldM (evaluate_handle hmon r) (store, false) handles = Ret (store', false).
Proof.
  induction handles as [|h handles IH]; intros store Hnd Hall; simpl; [eauto|]. apply NoDup_cons in Hnd as [Hnin Hnd].
  destruct (Hall h) as (m & m' & Hm & He); [apply list_elem_of_here|]. rewrite Hm. simpl. rewrite He. simpl.
  apply IH; [done|]. intros h' Hh. destruct (Hall h') as (m2 & m2' & Hm2 & He2); [by apply list_elem_of_further|].
  exists m2, m2'. split; [|done]. rewrite list_lookup_insert_ne; [done|]. intros <-. done.
Qed.

(** [run] returns true exactly when all monitors are healthy. *)
Lemma run_true r store l n store' l' : NoDup (monitors l) -> run hmon r store l = Ret (true, n, store', l') ->
  (forall h, h ∈ monitors l -> exists m m', store !! h = Some m /\ evaluate_monitor hmon (at_evaluation r h) m = Ret ([], m')) /\
  n = (supervisor_api_cycle l <? elapsed (last_notification l) (at_elapsed r)) /\
  l' = mkLogic (monitors l) (if n then at_stamp r else last_notification l) (supervisor_api_cycle l).
Proof.
  intros Hnd Hr. unfold run in Hr. destruct (foldM _ _ _) as [[s any]|] eqn:Hf; simpl in Hr; [|done]. destruct any; [done|].
  split; [by apply (fold_healthy r _ _ _ _ Hnd Hf)|]. destruct (_ <? _); injection Hr as <- _ <-; [done|]. by destruct l.
Qed.

Lemma run_false r store l n store' l' : run hmon r store l = Ret (false, n, store', l') -> n = false.
Proof. unfold run. destruct (foldM _ _ _) as [[s []]|]; simpl; [naive_solver | destruct (_ <? _); naive_solver | done]. Qed.

Lemma run_healthy r store l : NoDup (monitors l) ->
  (forall h, h ∈ monitors l -> exists m m', store !! h = Some m /\ evaluate_monitor hmon (at_evaluation r h) m = Ret ([], m')) ->
  exists n store' l', run hmon r store l = Ret (true, n, store', l').
Proof. intros Hnd Ha. unfold run. destruct (fold_all_healthy r _ store Hnd Ha) as [s ->]. simpl. destruct (_ <? _); eauto. Qed.

(** ** The loop *)
Lemma gone_loop rounds t : (t = Exited \/ t = Panicked) -> forall store, (loop rounds store t).2 = t /\ Forall (fun e => notified e = false) (loop rounds store t).1.
Proof.
  intros Ht. induction rounds as [|r rounds IH]; intros store; simpl; [done|].
  assert (loop_step hmon interval (it r) (others r store) t = (t, others r store, false)) as -> by (by destruct Ht as [-> | ->]).
  specialize (IH (others r store)). destruct (loop rounds _ t) as [log t']. destruct IH. by split; [|constructor].
Qed.

Lemma loop_notifies_healthy rounds : forall store sleep l, NoDup (monitors l) ->
  forall k e, (loop rounds store (Sleeping sleep l)).1 !! k = Some e -> notified e = true ->
  Forall (all_healthy (monitors l)) (take (S k) (loop rounds store (Sleeping sleep l)).1).
Proof.
  induction rounds as [|r rounds IH]; intros store sleep l Hnd k e Hk Hn; simpl in *; [done|].
  assert (forall t store', (t = Exited \/ t = Panicked) -> forall n, n = false -> ~ ((mkEntry (it r) (others r store) n :: (loop rounds store' t).1) !! k = Some e)) as Hgone.
  { intros t store' Ht n -> Hk'. destruct (gone_loop rounds t Ht store') as [_ Hg]. destruct k; simpl in Hk'; [by injection Hk' as <-|].
    by rewrite (Forall_lookup_1 _ _ _ _ Hg Hk') in Hn. }
  unfold loop_step in *. destruct (should_stop (it r)).
  { destruct (loop rounds (others r store) Exited) eqn:E. specialize (Hgone Exited (others r store)). rewrite E in Hgone. by apply Hgone in Hk; auto. }
  destruct (run hmon (in_run (it r)) (others r store) l) as [[[[[] n] store'] l']|] eqn:Hr.
  - destruct (run_true _ _ _ _ _ _ Hnd Hr) as (Hall & Hn' & ->).
    assert (all_healthy (monitors l) (mkEntry (it r) (others r store) n)) as Hh by done.
    destruct (duration_sub interval _) as [next|].
    + destruct (loop rounds store' (Sleeping next _)) as [log t'] eqn:E. simpl in *. constructor; [done|]. destruct k as [|k]; [constructor|].
      specialize (IH store' next (mkLogic (monitors l) (if n then at_stamp (in_run (it r)) else last_notification l) (supervisor_api_cycle l)) Hnd).
      rewrite E in IH. by eapply IH.
    + destruct (loop rounds store' Panicked) as [log t'] eqn:E. simpl in *. destruct k as [|k]; [by repeat constructor|]. exfalso.
      destruct (gone_loop rounds Panicked (or_intror eq_refl) store') as [_ Hg]. rewrite E in Hg. simpl in Hk. by rewrite (Forall_lookup_1 _ _ _ _ Hg Hk) in Hn.
  - apply run_false in Hr as ->. destruct (loop rounds store' Exited) eqn:E. specialize (Hgone Exited store'). rewrite E in Hgone. by apply Hgone in Hk; auto.
  - destruct (loop rounds (others r store) Panicked) eqn:E. specialize (Hgone Panicked (others r store)). rewrite E in Hgone. by apply Hgone in Hk; auto.
Qed.
(** ** Timeliness *)

(** A round that does not end the thread: not asked to stop, healthy, not longer than the interval, on a clock that does not run backwards. *)
Definition good (handles : list nat) (e : entry) : Prop :=
  should_stop (e_it e) = false /\ all_healthy handles e /\ elapsed (at_wake (e_it e)) (at_end (e_it e)) <= interval /\
  at_elapsed (in_run (e_it e)) <= at_stamp (in_run (e_it e)).

(** The rounds read the clock at most [gap] apart. *)
Fixpoint rounds_within (gap previous : Z) (log : list entry) : Prop :=
  match log with
  | [] => True
  | e :: rest => at_elapsed (in_run (e_it e)) <= previous + gap /\ rounds_within gap (at_elapsed (in_run (e_it e))) rest
  end.

(** The time of the last notification, [since] if there was none. *)
Definition last_note (since : Z) (log : list entry) : Z :=
  foldl (fun n e => if notified e then at_stamp (in_run (e_it e)) else n) since log.

Lemma loop_in_time gap rounds : forall store sleep l previous,
  NoDup (monitors l) -> 0 <= supervisor_api_cycle l -> previous - last_notification l <= supervisor_api_cycle l ->
  Forall (good (monitors l)) (loop rounds store (Sleeping sleep l)).1 ->
  rounds_within gap previous (loop rounds store (Sleeping sleep l)).1 ->
  (exists sleep' l', (loop rounds store (Sleeping sleep l)).2 = Sleeping sleep' l') /\
  forall k e, (loop rounds store (Sleeping sleep l)).1 !! k = Some e ->
    at_elapsed (in_run (e_it e)) - last_note (last_notification l) (take k (loop rounds store (Sleeping sleep l)).1) <= supervisor_api_cycle l + gap.
Proof.
  induction rounds as [|r rounds IH]; intros store sleep l previous Hnd Hc Hp Hg Hw; simpl in *; [by split; [eauto|]|].
  unfold loop_step in *. destruct (should_stop (it r)) eqn:Hstop.
  { destruct (loop rounds _ Exited). apply Forall_cons in Hg as [[Hs _] _]. simpl in Hs. congruence. }
  assert (all_healthy (monitors l) (mkEntry (it r) (others r store) false) ->
    exists n store' l', run hmon (in_run (it r)) (others r store) l = Ret (true, n, store', l')) as Hrun by apply (run_healthy _ _ _ Hnd).
  destruct (run hmon (in_run (it r)) (others r store) l) as [[[[[] n] store'] l']|] eqn:Hr.
  2:{ destruct (loop rounds _ Exited). apply Forall_cons in Hg as [(_ & Hh & _) _]. by destruct Hrun as (? & ? & ? & ?). }
  2:{ destruct (loop rounds _ Panicked). apply Forall_cons in Hg as [(_ & Hh & _) _]. by destruct Hrun as (? & ? & ? & ?). }
  destruct (run_true _ _ _ _ _ _ Hnd Hr) as (_ & Hn & ->). unfold duration_sub in *.
  destruct (Z.leb_spec (elapsed (at_wake (it r)) (at_end (it r))) interval); simpl in *.
  2:{ destruct (loop rounds _ Panicked). apply Forall_cons in Hg as [(_ & _ & ? & _) _]. simpl in *. lia. }
  set (l' := mkLogic _ _ _) in *. specialize (IH store' (interval - elapsed (at_wake (it r)) (at_end (it r))) l' (at_elapsed (in_run (it r)))).
  destruct (loop rounds store' (Sleeping _ l')) as [log t']. simpl in *. apply Forall_cons in Hg as [(_ & _ & _ & Hst) Hg]. destruct Hw as [Hw1 Hw]. simpl in *.
  destruct IH as [Ht Hk]; [done | done | | done | done |].
  { destruct n; [lia|]. symmetry in Hn. apply Z.ltb_ge in Hn. unfold elapsed in Hn. lia. }
  split; [done|]. intros [|k] e He; simpl in *; [injection He as <-; simpl; lia|]. by specialize (Hk k e He).
Qed.
End worker.

Lemma evaluate_deadline_quiet `{BuildMode} hmon clock i m : evaluate_monitor hmon clock (MDeadline i) = Ret ([], m) ->
  DeadlineMonitor.evaluate clock i = Ret [].
Proof. simpl. by destruct (DeadlineMonitor.evaluate clock i) as [[]|]. Qed.

(** C37: The supervisor is notified while all monitors are healthy, and only then.  Between two rounds of the background thread the other threads
    change the monitors in any way.  A round that notifies evaluated every monitor without an error, and so did all rounds before it: after an
    error, or a panic, there is no further notification.  In particular, all runs of all deadlines were in range when the supervisor is notified.  As
    long as the rounds are healthy and not longer than the processing cycle, the thread goes on, and the last notification is never longer ago than the supervisor's cycle
    and one round. *)
Theorem supervisor_notified_while_healthy `{BuildMode} (hmon interval : Z) (rounds : list round) (store : list monitor) (l : MonitoringLogic) :
  NoDup (monitors l) -> 0 <= supervisor_api_cycle l ->
  let '(log, t) := loop hmon interval rounds store (Sleeping interval l) in
  (forall k e, log !! k = Some e -> notified e = true -> Forall (all_healthy hmon (monitors l)) (take (S k) log)) /\
  (forall k e h (order : IterOrder string) name config since ops s, log !! k = Some e -> notified e = true -> h ∈ monitors l ->
     e_store e !! h = Some (MDeadline (DeadlineClients.inner s)) -> DeadlineClients.run ops (DeadlineClients.initial name config since) = Ret s ->
     let clock := at_evaluation (in_run (e_it e)) h in
     StronglySorted Z.le (ops.*2 ++ [clock]) -> (forall tag r, config !! tag = Some r -> DeadlineClients.fits r (ms since clock)) ->
     forall tag r, config !! tag = Some r -> DeadlineClients.verdict r (DeadlineClients.history_of since tag ops) (ms since clock) = None) /\
  (forall gap, Forall (good hmon interval (monitors l)) log -> rounds_within gap (last_notification l) log ->
     (exists sleep l', t = Sleeping sleep l') /\
     forall k e, log !! k = Some e -> at_elapsed (in_run (e_it e)) - last_note (last_notification l) (take k log) <= supervisor_api_cycle l + gap).
Proof.
  intros Hnd Hc. pose proof (loop_notifies_healthy hmon interval rounds store interval l Hnd) as Hs.
  pose proof (fun gap => loop_in_time hmon interval gap rounds store interval l (last_notification l) Hnd Hc) as Ht.
  destruct (loop hmon interval rounds store (Sleeping interval l)) as [log t]. cbn [fst snd] in *. split; [done|]. split.
  - intros k e h order name config since ops s Hk Hn Hh Hst Hrun Hsort Hf tag r Hr. set (clock := at_evaluation (in_run (e_it e)) h) in *.
    assert (all_healthy hmon (monitors l) e) as Ha.
    { eapply Forall_lookup_1; [by apply (Hs k e) | apply lookup_take_Some; split; [exact Hk | lia]]. }
    destruct (Ha h Hh) as (m & m' & Hm & He). rewrite Hst in Hm. injection Hm as <-. apply evaluate_deadline_quiet in He.
    destruct (DeadlineClients.sorted_ms since _ _ Hsort) as [Hs' Hb].
    pose proof (DeadlineClients.run_inv config since (ms since clock) ops [] 0 _ (DeadlineClients.inv_initial name config since) Hs' Hb Hf) as Hinv.
    rewrite Hrun in Hinv. destruct Hinv as (last & Hl & Hi). rewrite (DeadlineClients.evaluate_inv config since ops last clock s Hi Hl Hf) in He.
    injection He as He. apply elem_of_iter_order in Hr. apply eq_None_not_Some. intros [x Hx].
    assert (x ∈ omap (fun '(tag, r) => DeadlineClients.verdict r (DeadlineClients.history_of since tag ops) (ms since clock)) (iter_order config)) as Hin
      by (apply list_elem_of_omap; by exists (tag, r)).
    rewrite He in Hin. by apply elem_of_nil in Hin.
  - intros gap Hg Hw. apply Ht; [lia | done | done].
Qed.
(** A round at [t] milliseconds that takes [duration] milliseconds, before which nobody changes a monitor. *)
Definition round_at (t duration : Z) : round :=
  mkRound id (mkIteration false (from_millis t) (mkReadings (fun _ => from_millis t) (from_millis t) (from_millis t)) (from_millis (t + duration))).

Definition example_store : list monitor := [MDeadline (DeadlineClients.inner (@DeadlineClients.initial map_order "m" DeadlineClients.two 0))].
Definition example_logic : MonitoringLogic := logic_new [0%nat] (from_millis 50) 0.
Definition example_loop : list entry * thread :=
  @loop debug_build 0 (from_millis 100) [round_at 100 1; round_at 200 1] example_store (Sleeping (from_millis 100) example_logic).

Lemma supervisor_notified_while_healthy_witness :
  notified <$> example_loop.1 = [true; true] /\ Forall (@all_healthy debug_build 0 [0%nat]) example_loop.1.
Proof.
  assert (notified <$> example_loop.1 = [true; true]) as Hn by (by vm_compute). split; [exact Hn|].
  pose proof (@supervisor_notified_while_healthy debug_build 0 (from_millis 100) [round_at 100 1; round_at 200 1] example_store example_logic
    (NoDup_singleton 0%nat) ltac:(by vm_compute)) as Ht.
  unfold example_loop in *. destruct (loop 0 (from_millis 100) _ _ _) as [log t]. destruct Ht as (Hs & _). cbn [fst] in *.
  destruct log as [|e1 [|e2 [|]]]; try discriminate Hn. exact (Hs 1%nat e2 eq_refl ltac:(by injection Hn)).
Defined.

(** A round that takes longer than the processing cycle panics the thread: there is no further notification, although every monitor is healthy. *)
Example long_round_ends_monitoring :
  let '(log, t) := @loop debug_build 0 (from_millis 100) [round_at 100 101; round_at 300 1; round_at 500 1] example_store (Sleeping (from_millis 100) example_logic) in
  notified <$> log = [true; false; false] /\ t = Panicked.
Proof. vm_compute. done. Qed.

End WorkerProofs.

Module StartProofs.
Import HealthMonitor.

(** The three maps of a health monitor. *)
Inductive which := WDeadline | WHeartbeat | WLogic.

#[global] Instance which_eq_dec : EqDecision which.
Proof. solve_decision. Defined.

Definition slots (k : which) (h : HealthMonitor) : containers nat :=
  match k with WDeadline => deadline_monitors h | WHeartbeat => heartbeat_monitors h | WLogic => logic_monitors h end.

Definition get (k : which) : string -> HealthMonitor -> option nat * HealthMonitor :=
  match k with WDeadline => get_deadline_monitor | WHeartbeat => get_heartbeat_monitor | WLogic => get_logic_monitor end.

Fixpoint gets (l : list (which * string)) (h : HealthMonitor) : list (option nat) * HealthMonitor :=
  match l with
  | [] => ([], h)
  | (k, tag) :: rest => let '(r, h1) := get k tag h in let '(rs, h2) := gets rest h1 in (r :: rs, h2)
  end.

(** ** Where the monitors are *)
Definition slot_place (c : MonitorContainer nat) : option nat :=
  match c with Some (Available p) => Some p | Some (Taken p) => Some p | None => None end.

Definition places (m : containers nat) : gmap string nat := omap slot_place m.
Definition place_list (m : containers nat) : list nat := (map_to_list (places m)).*2.

Definition all_available (m : containers nat) : Prop := forall tag c, m !! tag = Some c -> exists p, c = Some (Available p).

Section build.
Context {B : Type} (f : string -> B -> outcome (Worker.monitor + HealthMonitorError)).

Definition built (tags : list string) (base : nat) (c : containers nat) (s : list Worker.monitor) : Prop :=
  length s = (base + length tags)%nat /\ place_list c ≡ₚ seq base (length tags) /\ all_available c /\ forall tag, is_Some (c !! tag) <-> tag ∈ tags.

Lemma build_loop base entries : forall tags c s c' s', NoDup (tags ++ entries.*1) -> built tags base c s ->
  foldM (build_kind f) (inl (c, s)) entries = Ret (inl (c', s')) -> built (tags ++ entries.*1) base c' s'.
Proof.
  induction entries as [|[tag b] entries IH]; intros tags c s c' s' Hnd Hb Hf; simpl in *.
  - injection Hf as <- <-. by rewrite app_nil_r.
  - destruct (f tag b) as [[m|e]|]; simpl in Hf; [| |done].
    2:{ exfalso. clear -Hf. induction entries as [|x entries IH]; simpl in Hf; [done | by apply IH]. }
    assert (tag ∉ tags) as Hnin.
    { apply NoDup_app in Hnd as (_ & Hnd & _). intros Hin. apply (Hnd tag Hin), list_elem_of_here. }
    rewrite cons_middle, app_assoc in *. eapply IH; [done | | done]. destruct Hb as (Hl & Hp & Ha & Hd).
    assert (c !! tag = None) as Hc by (apply eq_None_not_Some; by rewrite Hd).
    split; [rewrite !length_app; simpl; lia|]. split; [|split].
    + unfold place_list, places in *. rewrite (omap_insert_Some _ _ _ _ (length s)) by done. rewrite map_to_list_insert by (by rewrite lookup_omap, Hc). simpl.
      rewrite Hp, Hl, length_app, Nat.add_1_r, seq_S. by rewrite Permutation_cons_append.
    + intros tag' x Hx. apply lookup_insert_Some in Hx as [[_ <-]|[_ Hx]]; [eauto | by eapply Ha].
    + intros tag'. rewrite elem_of_app, list_elem_of_singleton, <- Hd. rewrite lookup_insert_is_Some. destruct (decide (tag' = tag)); naive_solver.
Qed.

Lemma build_all_built `{!IterOrder string} builders s c s' : build_all f builders s = Ret (inl (c, s')) -> built (iter_order builders).*1 (length s) c s'.
Proof.
  intros Hb. apply (build_loop (length s) _ [] ∅ s); [apply NoDup_iter_order | | done].
  split; [simpl; lia|]. split; [done|]. split; [intros ? ? Hx; by rewrite lookup_empty in Hx|].
  intros tag. rewrite lookup_empty. split; [by intros [] | by intros ?%elem_of_nil].
Qed.
End build.

Definition all_places (h : HealthMonitor) : list nat := place_list (slots WDeadline h) ++ place_list (slots WHeartbeat h) ++ place_list (slots WLogic h).

(** Every monitor has a place of its own in the store, and none is left over. *)
Lemma build_places `{BuildMode} `{!IterOrder string} b clock h : build b clock = Ret (inl h) ->
  (forall k, all_available (slots k h)) /\ all_places h ≡ₚ seq 0 (length (store h)) /\ Worker.handle (worker h) = None /\ (0 < length (store h))%nat.
Proof.
  unfold build. destruct (negb _); [done|]. destruct (Nat.eqb_spec (size (deadline_monitor_builders b) + size (heartbeat_monitor_builders b) + size (logic_monitor_builders b)) 0) as [|Hn]; [done|].
  destruct (build_all _ (deadline_monitor_builders b) []) as [[[d s1]|]|] eqn:Hd; simpl; try done.
  destruct (build_all _ (heartbeat_monitor_builders b) s1) as [[[hb s2]|]|] eqn:Hh; simpl; try done.
  destruct (build_all _ (logic_monitor_builders b) s2) as [[[l s3]|]|] eqn:Hl; simpl; try done. intros [= <-].
  apply build_all_built in Hd as (Hd1 & Hd2 & Hd3 & _), Hh as (Hh1 & Hh2 & Hh3 & _), Hl as (Hl1 & Hl2 & Hl3 & _).
  rewrite !length_fmap, !iter_order_perm, !length_map_to_list in *. split; [by intros []|].
  split; [|split; [done | simpl in *; lia]]. unfold all_places. simpl in *. rewrite Hd2, Hh2, Hl2, Hl1, Hh1, Hd1. by rewrite !seq_app, <- (assoc_L (++)).
Qed.

(** ** Handing out *)

(** A slot of a monitor at place [p]: it was asked for or not, and then its handle is
    still there or was given up to a start. *)
Definition slot_of (asked : bool) (p : nat) (c : MonitorContainer nat) : Prop :=
  if asked then c = Some (Taken p) \/ c = None else c = Some (Available p).

(** The health monitor [h] after the monitors in [seen] were asked for, starting from [h0]. *)
Record handed (seen : list (which * string)) (h0 h : HealthMonitor) : Prop := {
  h_none : forall k tag, slots k h0 !! tag = None -> slots k h !! tag = None;
  h_slot : forall k tag p, slots k h0 !! tag = Some (Some (Available p)) -> exists c, slots k h !! tag = Some c /\ slot_of (bool_decide ((k, tag) ∈ seen)) p c;
  h_store : store h = store h0;
  h_cycle : supervisor_api_cycle h = supervisor_api_cycle h0;
  h_interval : Worker.internal_duration_cycle (worker h) = Worker.internal_duration_cycle (worker h0)
}.

(** A handle was given up to a start. *)
Definition lost (h : HealthMonitor) : Prop := exists k tag, slots k h !! tag = Some None.

(** A monitor is handed out to the first who asks for it. *)
Fixpoint replies (h0 : HealthMonitor) (seen l : list (which * string)) : list (option nat) :=
  match l with
  | [] => []
  | x :: rest => (if bool_decide (x ∈ seen) then None else places (slots x.1 h0) !! x.2) :: replies h0 (x :: seen) rest
  end.

Definition put_slots (k : which) (c : containers nat) (h : HealthMonitor) : HealthMonitor :=
  mkHealthMonitor (if decide (k = WDeadline) then c else deadline_monitors h) (if decide (k = WHeartbeat) then c else heartbeat_monitors h)
    (if decide (k = WLogic) then c else logic_monitors h) (supervisor_api_cycle h) (store h) (worker h).

Lemma get_put k tag h : get k tag h = ((get_monitor id tag (slots k h)).1, put_slots k (get_monitor id tag (slots k h)).2 h).
Proof.
  destruct k; unfold get, get_deadline_monitor, get_heartbeat_monitor, get_logic_monitor, slots; by destruct (get_monitor id tag _).
Qed.

Lemma slots_put k c h k' : slots k' (put_slots k c h) = if decide (k = k') then c else slots k' h.
Proof. by destruct k, k'. Qed.

(** Asking changes at most the slot that is asked for, and there an available monitor only. *)
Lemma get_slots k tag h k' tag' : slots k' (get k tag h).2 !! tag' =
  match slots k' h !! tag' with
  | Some (Some (Available p)) => if decide ((k', tag') = (k, tag)) then Some (Some (Taken p)) else Some (Some (Available p))
  | c => c
  end.
Proof.
  rewrite get_put. cbn [snd]. rewrite slots_put. case_decide as Ek; [subst k'|case_decide as E; [by injection E as -> ->|by destruct (slots k' h !! tag') as [[[]|]|]]].
  unfold get_monitor. destruct (decide (tag' = tag)) as [->|Hne].
  - destruct (slots k h !! tag) as [[[p|p]|]|] eqn:E; cbn [snd]; rewrite ?lookup_insert_eq, ?E; try done. by rewrite decide_True.
  - assert (E : (if decide ((k, tag') = (k, tag)) then true else false) = false) by (case_decide; [congruence|done]).
    destruct (slots k h !! tag) as [[[p|p]|]|]; cbn [snd]; rewrite ?lookup_insert_ne by done;
      destruct (slots k h !! tag') as [[[q|q]|]|]; try done; by case_decide as E'; [injection E' as ->|].
Qed.

Lemma get_answer k tag h : (get k tag h).1 = match slots k h !! tag with Some (Some (Available p)) => Some p | _ => None end.
Proof. rewrite get_put. unfold get_monitor. by destruct (slots k h !! tag) as [[[]|]|]. Qed.

Lemma get_rest k tag h : store (get k tag h).2 = store h /\ supervisor_api_cycle (get k tag h).2 = supervisor_api_cycle h /\ worker (get k tag h).2 = worker h.
Proof. by rewrite get_put. Qed.

Lemma get_lost k tag h : lost (get k tag h).2 <-> lost h.
Proof.
  split; intros (k' & tag' & E); exists k', tag'; rewrite get_slots in *; [|by rewrite E].
  destruct (slots k' h !! tag') as [[[]|]|]; try done. by case_decide.
Qed.

Lemma get_handed seen h0 h k tag : (forall k, all_available (slots k h0)) -> handed seen h0 h ->
  (get k tag h).1 = (if bool_decide ((k, tag) ∈ seen) then None else places (slots k h0) !! tag) /\ handed ((k, tag) :: seen) h0 (get k tag h).2.
Proof.
  intros Ha [Hn Hs Hst Hc Hi]. destruct (get_rest k tag h) as (E1 & E2 & E3). split.
  - rewrite get_answer. unfold places. rewrite lookup_omap. destruct (slots k h0 !! tag) as [c|] eqn:H0.
    + destruct (Ha _ _ _ H0) as [p ->]. destruct (Hs _ _ _ H0) as (c' & -> & Hc'). case_bool_decide; simpl in *; [by destruct Hc' as [-> | ->]|by subst].
    + rewrite (Hn _ _ H0). by case_bool_decide.
  - split; rewrite ?E1, ?E2, ?E3; try done.
    + intros k' tag' H0. by rewrite get_slots, (Hn _ _ H0).
    + intros k' tag' p H0. destruct (Hs _ _ _ H0) as (c' & E & Hc'). rewrite get_slots, E. destruct (decide ((k', tag') = (k, tag))) as [Eq|Hne].
      * rewrite (bool_decide_eq_true_2 ((k', tag') ∈ _)) by set_solver. case_bool_decide; simpl in Hc'; [|subst c'; eexists; split; [done|by left]].
        destruct Hc' as [-> | ->]; eexists; (split; [done|]); simpl; auto.
      * rewrite (bool_decide_ext ((k', tag') ∈ (k, tag) :: seen) ((k', tag') ∈ seen)) by set_solver.
        exists c'. split; [|done]. by destruct c' as [[]|].
Qed.

Lemma handed_refl h : (forall k, all_available (slots k h)) -> handed [] h h.
Proof. intros Ha. split; try done. intros k tag p E. by exists (Some (Available p)). Qed.

(** A handle that is there is at the place of its monitor. *)
Lemma handed_places seen h0 h k : (forall k, all_available (slots k h0)) -> handed seen h0 h -> ~ lost h -> places (slots k h) = places (slots k h0).
Proof.
  intros Ha [Hn Hs _ _ _] Hl. apply map_eq. intros tag. unfold places. rewrite !lookup_omap. destruct (slots k h0 !! tag) as [c|] eqn:H0.
  - destruct (Ha _ _ _ H0) as [p ->]. destruct (Hs _ _ _ H0) as (c' & E & Hc'). rewrite E. case_bool_decide; simpl in Hc'; [|by subst c'].
    destruct Hc' as [-> | ->]; [done|]. destruct Hl. by exists k, tag.
  - by rewrite (Hn _ _ H0).
Qed.

(** ** Starting *)
Definition collectable (m : containers nat) : Prop := forall tag c, m !! tag = Some c -> exists p, c = Some (Taken p).

Lemma omap_ext_in {A B} (f g : A -> option B) (l : list A) : (forall x, x ∈ l -> f x = g x) -> omap f l = omap g l.
Proof.
  induction l as [|x l IH]; intros Hfg; [done|]. csimpl. rewrite Hfg by apply list_elem_of_here.
  rewrite IH; [done|]. intros y Hy. by apply Hfg, list_elem_of_further.
Qed.

(** The values of a map, looked up key by key. *)
Lemma lookup_all (tags : list string) : forall P : gmap string nat, NoDup tags -> (forall tag, is_Some (P !! tag) -> tag ∈ tags) ->
  omap (fun tag => P !! tag) tags ≡ₚ (map_to_list P).*2.
Proof.
  induction tags as [|tag tags IH]; intros P Hnd Hall; csimpl.
  - assert (P = ∅) as ->; [|by rewrite map_to_list_empty]. apply map_empty. intros tag. apply eq_None_not_Some. intros Hs. by apply Hall, elem_of_nil in Hs.
  - apply NoDup_cons in Hnd as [Hnin Hnd]. destruct (P !! tag) as [p|] eqn:Hp.
    + rewrite <- (map_to_list_delete P tag p Hp). csimpl. apply Permutation_cons; [done|].
      rewrite <- IH; [|done|].
      * erewrite omap_ext_in; [done|]. intros x Hx. simpl. rewrite lookup_delete_ne; [done|]. intros ->. done.
      * intros x [y Hy]. apply lookup_delete_Some in Hy as [Hne Hy]. destruct (proj1 (elem_of_cons _ _ _) (Hall x (ex_intro _ y Hy))); [congruence | done].
    + apply IH; [done|]. intros x Hx. destruct (proj1 (elem_of_cons _ _ _) (Hall x Hx)) as [->|]; [rewrite Hp in Hx; by destruct Hx | done].
Qed.

Lemma collect_loop_ok cap tags : forall (m : containers nat) collected, NoDup tags -> (forall tag, tag ∈ tags -> exists p, m !! tag = Some (Some (Taken p))) ->
  (length collected + length tags <= cap)%nat ->
  exists m', collect_loop cap tags m collected = (None, m', collected ++ omap (fun tag => places m !! tag) tags) /\
    forall tag, m' !! tag = if decide (tag ∈ tags) then Some None else m !! tag.
Proof.
  induction tags as [|tag tags IH]; intros m collected Hnd Ht Hc; csimpl in *.
  - exists m. rewrite app_nil_r. split; [done|]. done.
  - apply NoDup_cons in Hnd as [Hnin Hnd]. destruct (Ht tag (list_elem_of_here _ _)) as [p Hp]. rewrite Hp.
    rewrite (proj2 (Nat.ltb_lt _ _)) by lia. destruct (IH (<[tag := None]> m) (collected ++ [p])) as (m' & -> & Hm'); [done | | rewrite length_app; simpl; lia |].
    { intros tag' Hin. rewrite lookup_insert_ne by (intros ->; done). by apply Ht, list_elem_of_further. }
    exists m'. unfold places. rewrite (lookup_omap slot_place m tag), Hp. simpl. rewrite <- app_assoc. split.
    + erewrite omap_ext_in; [done|]. intros x Hx. simpl. rewrite !lookup_omap, lookup_insert_ne; [done|]. intros ->. done.
    + intros tag'. rewrite Hm'. destruct (decide (tag' = tag)) as [->|Hne].
      * rewrite decide_False, decide_True by (done || apply list_elem_of_here). apply lookup_insert_eq.
      * rewrite lookup_insert_ne by done. destruct (decide (tag' ∈ tags)); [rewrite decide_True by (by apply list_elem_of_further); done|].
        rewrite decide_False; [done|]. by intros [|]%elem_of_cons.
Qed.

Lemma collect_ok `{!IterOrder string} cap (m : containers nat) collected : collectable m -> (length collected + size m <= cap)%nat ->
  exists m' hs, collect_given_monitors cap m collected = (None, m', collected ++ hs) /\ hs ≡ₚ place_list m /\
    length hs = size m /\ forall tag, m' !! tag = (fun _ => None) <$> m !! tag.
Proof.
  intros Hc Hl. assert (forall tag, tag ∈ (iter_order m).*1 <-> is_Some (m !! tag)) as Hin.
  { intros tag. rewrite list_elem_of_fmap. split; [intros ([? c] & -> & Hi%elem_of_iter_order); by eexists | intros [c Hm%elem_of_iter_order]; by exists (tag, c)]. }
  assert (length (iter_order m).*1 = size m) as Hlen by (by rewrite length_fmap, iter_order_perm, length_map_to_list).
  destruct (collect_loop_ok cap (iter_order m).*1 m collected) as (m' & He & Hm'); [apply NoDup_iter_order | | by rewrite Hlen |].
  { intros tag [c Hm]%Hin. destruct (Hc _ _ Hm) as [p ->]. by exists p. }
  exists m', (omap (fun tag => places m !! tag) (iter_order m).*1). split; [done|]. split; [|split].
  - apply lookup_all; [apply NoDup_iter_order|]. intros tag Hs. apply Hin. unfold places in Hs. rewrite lookup_omap in Hs. destruct (m !! tag); [eauto | by destruct Hs].
  - rewrite <- Hlen. clear -Hc Hin. assert (forall tag, tag ∈ (iter_order m).*1 -> is_Some (places m !! tag)) as Ha.
    { intros tag [c Hm]%Hin. unfold places. rewrite lookup_omap, Hm. destruct (Hc _ _ Hm) as [p ->]. by exists p. }
    clear Hc Hin. induction (iter_order m).*1 as [|tag tags IH]; [done|]. csimpl. destruct (Ha tag (list_elem_of_here _ _)) as [p ->]. simpl. f_equal.
    apply IH. intros x Hx. by apply Ha, list_elem_of_further.
  - intros tag. rewrite Hm'. destruct (m !! tag) as [c|] eqn:Hm; case_decide as Ht; [done | | |done].
    + destruct Ht. apply Hin. eauto.
    + apply Hin in Ht as [? ?]. congruence.
Qed.

(** What a start does to the slots: it may take handles out. *)
Definition drained (m m' : containers nat) : Prop := forall tag,
  m' !! tag = m !! tag \/ (exists p, m !! tag = Some (Some (Taken p))) /\ m' !! tag = Some None.

Lemma drained_refl m : drained m m.
Proof. by left. Qed.

(** A success means that every slot was taken. *)
Lemma collect_loop_inv cap tags : forall (m : containers nat) collected r m' c', collect_loop cap tags m collected = (r, m', c') ->
  (r = None /\ (NoDup tags -> forall tag, tag ∈ tags -> exists p, m !! tag = Some (Some (Taken p))) \/ r = Some WrongStateError) /\ drained m m'.
Proof.
  induction tags as [|tag tags IH]; intros m collected r m' c' He; simpl in He.
  - injection He as <- <- <-. split; [|apply drained_refl]. left. split; [done|]. intros _ tag Hin. by apply elem_of_nil in Hin.
  - destruct (m !! tag) as [[[p|p]|]|] eqn:Hm; [|destruct (_ <? _)%nat| |]; try (injection He as <- <- <-; split; [by right|]).
    + intros x. rewrite insert_id by done. by left.
    + destruct (IH _ _ _ _ _ He) as [Hr Hg]. split.
      * destruct Hr as [[-> Hr]|Hr]; [left|by right]. split; [done|]. intros [Hnin Hnd]%NoDup_cons x [->|Hx]%elem_of_cons; [eauto|].
        destruct (Hr Hnd x Hx) as [q Hq]. rewrite lookup_insert_ne in Hq by (intros ->; done). eauto.
      * intros x. specialize (Hg x). destruct (decide (x = tag)) as [->|]; [|by rewrite lookup_insert_ne in Hg by done].
        rewrite lookup_insert_eq in Hg. right. split; [eauto|]. by destruct Hg as [Hg|[[q Hg] _]].
    + intros x. destruct (decide (x = tag)) as [->|]; [right; rewrite lookup_insert_eq; eauto|left; by rewrite lookup_insert_ne].
    + apply drained_refl.
    + apply drained_refl.
Qed.

Lemma collect_inv `{!IterOrder string} cap (m : containers nat) collected r m' c' : collect_given_monitors cap m collected = (r, m', c') ->
  (r = None /\ collectable m \/ r = Some WrongStateError) /\ drained m m'.
Proof.
  intros He. destruct (collect_loop_inv _ _ _ _ _ _ _ He) as [[[-> Hr]|Hr] Hg]; (split; [|done]); [left|by right]. split; [done|].
  intros tag c Hm. destruct (Hr (NoDup_iter_order m) tag) as [p Hp]; [|rewrite Hm in Hp; injection Hp as ->; eauto].
  apply list_elem_of_fmap. exists (tag, c). split; [done|]. by apply elem_of_iter_order.
Qed.

Section start.
Context `{!IterOrder string} (h : HealthMonitor).

Lemma start_ok identifier link_created clock : (forall k, collectable (slots k h)) ->
  exists h' hs, start_internal identifier link_created clock h = (_ ← client_new identifier link_created; Ret (None, h')) /\
    Worker.handle (worker h') = Some (Worker.Sleeping (Worker.internal_duration_cycle (worker h)) (Worker.logic_new hs (supervisor_api_cycle h) clock)) /\
    hs ≡ₚ all_places h /\ (forall k tag, slots k h' !! tag = (fun _ => None) <$> slots k h !! tag) /\
    store h' = store h /\ supervisor_api_cycle h' = supervisor_api_cycle h /\
    Worker.internal_duration_cycle (worker h') = Worker.internal_duration_cycle (worker h).
Proof.
  intros Hc. unfold start_internal. set (n := (size (deadline_monitors h) + size (heartbeat_monitors h) + size (logic_monitors h))%nat).
  destruct (collect_ok n (deadline_monitors h) [] (Hc WDeadline)) as (d & hs1 & -> & Hp1 & Hl1 & Hd); [simpl; lia|].
  destruct (collect_ok n (heartbeat_monitors h) ([] ++ hs1) (Hc WHeartbeat)) as (b & hs2 & -> & Hp2 & Hl2 & Hb); [simpl; lia|].
  destruct (collect_ok n (logic_monitors h) (([] ++ hs1) ++ hs2) (Hc WLogic)) as (l & hs3 & -> & Hp3 & Hl3 & Hl); [rewrite length_app; simpl; lia|].
  eexists _, ((hs1 ++ hs2) ++ hs3). split; [done|]. split; [done|]. split; [|split; [by intros []|done]].
  unfold all_places. simpl. by rewrite Hp1, Hp2, Hp3, (assoc_L (++)).
Qed.

Lemma start_error identifier link_created clock : (exists k, ~ collectable (slots k h)) ->
  exists h', start_internal identifier link_created clock h = Ret (Some WrongStateError, h') /\ worker h' = worker h /\
    store h' = store h /\ supervisor_api_cycle h' = supervisor_api_cycle h /\ forall k, drained (slots k h) (slots k h').
Proof.
  intros Hk. unfold start_internal. set (n := (size (deadline_monitors h) + size (heartbeat_monitors h) + size (logic_monitors h))%nat).
  destruct (collect_given_monitors n (deadline_monitors h) []) as [[r1 d] c1] eqn:H1. destruct (collect_inv _ _ _ _ _ _ H1) as [[[-> Hc1]| ->] Hd].
  2:{ eexists. do 4 (split; [done|]). intros []; simpl; auto using drained_refl. }
  destruct (collect_given_monitors n (heartbeat_monitors h) c1) as [[r2 b] c2] eqn:H2. destruct (collect_inv _ _ _ _ _ _ H2) as [[[-> Hc2]| ->] Hb].
  2:{ eexists. do 4 (split; [done|]). intros []; simpl; auto using drained_refl. }
  destruct (collect_given_monitors n (logic_monitors h) c2) as [[r3 l] c3] eqn:H3. destruct (collect_inv _ _ _ _ _ _ H3) as [[[-> Hc3]| ->] Hl].
  2:{ eexists. do 4 (split; [done|]). intros []; simpl; auto using drained_refl. }
  by destruct Hk as [[] Hk].
Qed.

Lemma lost_not_collectable : lost h -> exists k, ~ collectable (slots k h).
Proof. intros (k & tag & Hg). exists k. intros Hc. by destruct (Hc _ _ Hg). Qed.

Lemma drained_handed seen h0 h' : handed seen h0 h -> store h' = store h -> supervisor_api_cycle h' = supervisor_api_cycle h ->
  Worker.internal_duration_cycle (worker h') = Worker.internal_duration_cycle (worker h) -> (forall k, drained (slots k h) (slots k h')) -> handed seen h0 h'.
Proof.
  intros [Hn Hs Hst Hc Hi] E1 E2 E3 Hd. split; [| |congruence..].
  - intros k tag H0. destruct (Hd k tag) as [->|[[p E] _]]; [by apply Hn|]. by rewrite (Hn _ _ H0) in E.
  - intros k tag p H0. destruct (Hs _ _ _ H0) as (c & E & Hc'). destruct (Hd k tag) as [->|[[q Eq] ->]]; [by exists c|]. exists None. split; [done|].
    rewrite E in Eq. injection Eq as ->. case_bool_decide; [by right|done].
Qed.
End start.

Lemma drained_lost h h' : (forall k, drained (slots k h) (slots k h')) -> lost h -> lost h'.
Proof. intros Hd (k & tag & E). exists k, tag. by destruct (Hd k tag) as [->|[[p Ep] ->]]. Qed.

Lemma collectable_dec h : (forall k, collectable (slots k h)) \/ exists k, ~ collectable (slots k h).
Proof.
  assert (Hd : forall m : containers nat, collectable m \/ ~ collectable m).
  { intros m. destruct (decide (map_Forall (fun _ c => Is_true (match c with Some (Taken _) => true | _ => false end)) m)) as [Hm|Hm]; [left|right].
    - intros tag c E. specialize (Hm tag c E). destruct c as [[]|]; [done|eauto|done].
    - intros Hc. apply Hm. intros tag c E. by destruct (Hc tag c E) as [p ->]. }
  destruct (Hd (slots WDeadline h)); [|by right; eexists]. destruct (Hd (slots WHeartbeat h)); [|by right; eexists].
  destruct (Hd (slots WLogic h)); [|by right; eexists]. left. by intros [].
Qed.

(** ** Sessions *)

(** The calls of a client, in any order, and what they answer; a panic ends the session. *)
Inductive call := Get (k : which) (tag : string) | Start (identifier : option string) (link_created : bool) (clock : Z).
Inductive reply := Given (m : option nat) | Started (e : option HealthMonitorError).

Definition answer `{!IterOrder string} (c : call) (h : HealthMonitor) : outcome (reply * HealthMonitor) :=
  match c with
  | Get k tag => let '(m, h') := get k tag h in Ret (Given m, h')
  | Start identifier link_created clock => '(e, h') ← start_internal identifier link_created clock h; Ret (Started e, h')
  end.

Fixpoint session `{!IterOrder string} (l : list call) (h : HealthMonitor) : outcome (list reply * HealthMonitor) :=
  match l with
  | [] => Ret ([], h)
  | c :: rest => '(r, h1) ← answer c h; '(rs, h2) ← session rest h1; Ret (r :: rs, h2)
  end.

Definition requests : list call -> list (which * string) := omap (fun c => match c with Get k tag => Some (k, tag) | Start _ _ _ => None end).
Definition given : list reply -> list (option nat) := omap (fun r => match r with Given m => Some m | Started _ => None end).
Definition requested_all (l : list (which * string)) (h0 : HealthMonitor) : Prop := forall k tag, is_Some (slots k h0 !! tag) -> (k, tag) ∈ l.

(** What one call leaves. *)
Record tracked (seen : list (which * string)) (h0 h : HealthMonitor) : Prop := {
  t_handed : handed seen h0 h;
  t_thread : is_Some (Worker.handle (worker h)) -> lost h
}.

Section sessions.
Context `{!IterOrder string} (h0 : HealthMonitor) (available : forall k, all_available (slots k h0))
  (configured : exists k tag, is_Some (slots k h0 !! tag)).

Lemma taken_collectable seen h : handed seen h0 h -> requested_all seen h0 -> ~ lost h -> forall k, collectable (slots k h).
Proof using available.
  intros [Hn Hs _ _ _] Hr Hl k tag c E. destruct (slots k h0 !! tag) as [c0|] eqn:H0; [|by rewrite (Hn _ _ H0) in E].
  destruct (available _ _ _ H0) as [p ->]. destruct (Hs _ _ _ H0) as (c' & E' & Hc). rewrite E in E'. injection E' as <-.
  rewrite bool_decide_eq_true_2 in Hc by (apply Hr; eauto). destruct Hc as [-> | ->]; [eauto|]. destruct Hl. by exists k, tag.
Qed.

Lemma not_all_taken seen h : handed seen h0 h -> (exists k tag, is_Some (slots k h0 !! tag) /\ (k, tag) ∉ seen) -> exists k, ~ collectable (slots k h).
Proof using available.
  intros [_ Hs _ _ _] (k & tag & [c H0] & Hin). exists k. intros Hc. destruct (available _ _ _ H0) as [p ->].
  destruct (Hs _ _ _ H0) as (c' & E & Hc'). rewrite bool_decide_eq_false_2 in Hc' by done. simpl in Hc'. subst c'. by destruct (Hc _ _ E).
Qed.

Lemma start_tracked seen h identifier link_created clock e h' : tracked seen h0 h -> start_internal identifier link_created clock h = Ret (e, h') ->
  tracked seen h0 h' /\ (lost h -> lost h') /\
  (e = None /\ ~ lost h /\ requested_all seen h0 /\ lost h' \/ e = Some WrongStateError /\ worker h' = worker h).
Proof using available configured.
  intros [Hh Ht] E. destruct (collectable_dec h) as [Hc|Hc].
  - destruct (start_ok h identifier link_created clock Hc) as (h1 & hs & E1 & Hth & _ & Hs & Est & Ecy & Ein). rewrite E in E1.
    destruct (client_new identifier link_created); [|done]. injection E1 as -> ->.
    assert (Hl : lost h1).
    { destruct configured as (k & tag & c & H0). destruct (available _ _ _ H0) as [p ->]. destruct (h_slot _ _ _ Hh _ _ _ H0) as (c & Ec & _).
      exists k, tag. by rewrite Hs, Ec. }
    split; [|split; [done|left; split_and!; [done| | |done]]].
    + split; [|done]. apply (drained_handed h seen h0); [done..|]. intros k tag. rewrite Hs. destruct (slots k h !! tag) as [c|] eqn:Ec; [|by left].
      destruct (Hc _ _ _ Ec) as [p ->]. right. split; [by eexists|done].
    + intros Hl'. by destruct (lost_not_collectable h Hl') as [k []].
    + intros k tag Hk. destruct (decide ((k, tag) ∈ seen)) as [|Hin]; [done|]. destruct (not_all_taken seen h Hh) as [k' []]; [by exists k, tag|apply Hc].
  - destruct (start_error h identifier link_created clock Hc) as (h1 & E1 & Hw & Est & Ecy & Hd). rewrite E in E1. injection E1 as -> ->.
    pose proof (drained_lost h h1 Hd) as Hl. split; [|split; [done|by right]]. split; [|rewrite Hw; auto]. apply (drained_handed h seen h0); [done..|by rewrite Hw|done].
Qed.

Lemma get_tracked seen h k tag : tracked seen h0 h -> tracked ((k, tag) :: seen) h0 (get k tag h).2.
Proof using available.
  intros [Hh Ht]. split; [by apply get_handed|]. destruct (get_rest k tag h) as (_ & _ & ->). rewrite get_lost. exact Ht.
Qed.

(** Any session. *)
Lemma session_tracked cs : forall seen h rs h', tracked seen h0 h -> session cs h = Ret (rs, h') ->
  given rs = replies h0 seen (requests cs) /\ tracked (reverse (requests cs) ++ seen) h0 h' /\ (lost h -> lost h') /\
  ((forall identifier link_created clock, Start identifier link_created clock ∉ cs) -> (lost h' -> lost h) /\ worker h' = worker h) /\
  (forall e, Started e ∈ rs -> e = None \/ e = Some WrongStateError) /\
  (Started None ∈ rs -> ~ lost h /\ lost h') /\ (lost h -> worker h' = worker h).
Proof using available configured.
  induction cs as [|c cs IH]; intros seen h rs h' Ht E; cbn [session] in E.
  - injection E as <- <-. split_and!; try done; by intros ? ?%elem_of_nil || intros ?%elem_of_nil.
  - destruct c as [k tag|identifier link_created clock]; cbn [answer] in E.
    + destruct (get k tag h) as [m h1] eqn:Eg. cbn [mbind outcome_bind] in E.
      pose proof (get_tracked seen h k tag Ht) as Ht1. pose proof (proj1 (get_handed seen h0 h k tag available (t_handed _ _ _ Ht))) as Em.
      pose proof (get_lost k tag h) as Hl. destruct (get_rest k tag h) as (_ & _ & Ew). rewrite Eg in *. cbn [fst snd] in *.
      destruct (session cs h1) as [[rs1 h2]|] eqn:Es; cbn in E; [|done]. injection E as <- <-.
      destruct (IH _ _ _ _ Ht1 Es) as (G & T & L & N & A & F & W). split_and!.
      * cbn. by rewrite Em, G.
      * change (requests (Get k tag :: cs)) with ((k, tag) :: requests cs). by rewrite reverse_cons, <- (assoc_L (++)).
      * rewrite <- Hl. exact L.
      * intros Hn. rewrite <- Hl, <- Ew. apply N. intros i l t Hin. apply (Hn i l t). by apply list_elem_of_further.
      * intros e [?|Hin]%elem_of_cons; [done|auto].
      * intros [?|Hin]%elem_of_cons; [done|]. rewrite <- Hl. auto.
      * intros Hlo. rewrite <- Ew. apply W, Hl, Hlo.
    + destruct (start_internal identifier link_created clock h) as [[e h1]|] eqn:Eg; cbn [mbind outcome_bind] in E; [|done].
      destruct (start_tracked seen h _ _ _ _ _ Ht Eg) as (Ht1 & Hl & Hc).
      destruct (session cs h1) as [[rs1 h2]|] eqn:Es; cbn in E; [|done]. injection E as <- <-.
      destruct (IH _ _ _ _ Ht1 Es) as (G & T & L & N & A & F & W). split_and!.
      * exact G.
      * exact T.
      * auto.
      * intros Hn. destruct (Hn identifier link_created clock). apply list_elem_of_here.
      * intros e' [[= ->]|Hin]%elem_of_cons; [|auto]. destruct Hc as [(-> & _)|[-> _]]; auto.
      * intros [[= <-]|Hin]%elem_of_cons; [destruct Hc as [(_ & Hn & _ & Hl')|[? _]]; [auto|done]|]. destruct (F Hin). split; [|done]. auto.
      * intros Hlo. rewrite W by auto. destruct Hc as [(_ & Hn & _)|[_ Hw]]; [done|exact Hw].
Qed.

(** Once a handle is gone, nothing is started any more, and no start panics. *)
Lemma session_lost cs : forall h, lost h -> exists rs h', session cs h = Ret (rs, h').
Proof using Type*.
  induction cs as [|c cs IH]; intros h Hl; [by eexists _, _|]. cbn [session]. destruct c as [k tag|identifier link_created clock]; cbn [answer].
  - destruct (get k tag h) as [m h1] eqn:Eg. pose proof (proj2 (get_lost k tag h) Hl) as Hl1. rewrite Eg in Hl1.
    destruct (IH _ Hl1) as (rs & h' & E). cbn. cbn in E. rewrite E. by eexists _, _.
  - destruct (start_error h identifier link_created clock (lost_not_collectable h Hl)) as (h1 & -> & _ & _ & _ & Hd). cbn [mbind outcome_bind].
    destruct (IH _ (drained_lost _ _ Hd Hl)) as (rs & h' & ->). by eexists _, _.
Qed.
End sessions.

Lemma build_configured `{BuildMode} `{!IterOrder string} b clock h0 : build b clock = Ret (inl h0) -> exists k tag, is_Some (slots k h0 !! tag).
Proof.
  intros Hb. destruct (build_places b clock h0 Hb) as (Ha & Hp & Hw & Hn).
  destruct (all_places h0) as [|p ps] eqn:Hps; [apply Permutation_nil_l in Hp; destruct (length (store h0)); [lia | done]|].
  assert (p ∈ all_places h0) as Hin by (rewrite Hps; apply list_elem_of_here). unfold all_places, place_list in Hin.
  rewrite !elem_of_app, !list_elem_of_fmap in Hin.
  destruct Hin as [([tag q] & _ & Hin)|[([tag q] & _ & Hin)|([tag q] & _ & Hin)]]; apply elem_of_map_to_list in Hin; unfold places in Hin; rewrite lookup_omap in Hin;
    apply bind_Some in Hin as (c & Hc & _); [exists WDeadline | exists WHeartbeat | exists WLogic]; exists tag; eauto.
Qed.

(** C38: The health monitor starts with every monitor, or not at all.  For every builder that builds and every session of requests and starts, in
    any order: each configured monitor is handed out to the first who asks for it and to nobody else.  Now consider the next start.  If all monitors were
    handed out and no start was given a handle before, it has all handles: if the environment variable that names the process is set and the link to the supervisor can be created, the
    background thread starts and evaluates every monitor exactly once per round; if not, the start panics.  If a monitor was not handed out, or a handle was given up before,
    the start fails with a wrong state and starts no thread.  A start that succeeds gives up the handles, and one that fails may do so as well; after that
    no start ever succeeds again and no monitor comes back, whatever else is requested in between. *)
Theorem health_monitor_starts_complete `{BuildMode} `{!IterOrder string} (b : HealthMonitorBuilder) (clock : Z) (h0 : HealthMonitor)
    (cs : list call) (rs : list reply) (h : HealthMonitor) :
  build b clock = Ret (inl h0) -> session cs h0 = Ret (rs, h) ->
  given rs = replies h0 [] (requests cs) /\
  ((forall identifier link_created now, Start identifier link_created now ∉ cs) -> ~ lost h) /\
  (Started None ∈ rs -> lost h) /\ (is_Some (Worker.handle (worker h)) -> lost h) /\
  (forall identifier link_created now,
    (requested_all (requests cs) h0 -> ~ lost h -> exists h' logic,
       start_internal identifier link_created now h = (_ ← client_new identifier link_created; Ret (None, h')) /\
       Worker.handle (worker h') = Some (Worker.Sleeping (Worker.internal_duration_cycle (worker h0)) logic) /\
       Worker.monitors logic ≡ₚ seq 0 (length (store h0)) /\ Worker.supervisor_api_cycle logic = supervisor_api_cycle h0 /\ lost h') /\
    ((exists k tag, is_Some (slots k h0 !! tag) /\ (k, tag) ∉ requests cs) \/ lost h -> exists h',
       start_internal identifier link_created now h = Ret (Some WrongStateError, h') /\ worker h' = worker h)) /\
  (lost h -> forall later, exists rs' h', session later h = Ret (rs', h') /\ lost h' /\ worker h' = worker h /\
     (forall e, Started e ∈ rs' -> e = Some WrongStateError) /\ given rs' = replies h0 (reverse (requests cs)) (requests later)).
Proof.
  intros Hb Hs. destruct (build_places b clock h0 Hb) as (Ha & Hp & Hw & _). pose proof (build_configured b clock h0 Hb) as Hconf.
  assert (Hl0 : ~ lost h0) by (intros (k & tag & E); by destruct (Ha _ _ _ E)).
  assert (T0 : tracked [] h0 h0) by (split; [by apply handed_refl|rewrite Hw; by intros []]).
  destruct (session_tracked h0 Ha Hconf cs [] h0 rs h T0 Hs) as (G & T & _ & N & _ & F & _). rewrite app_nil_r in T. split_and!.
  - exact G.
  - intros Hn Hl. destruct (N Hn) as [N1 _]. auto.
  - intros Hin. by destruct (F Hin).
  - apply T.
  - intros identifier link_created now. pose proof (t_handed _ _ _ T) as Hh. split.
    + intros Hall Hl. assert (Hall' : requested_all (reverse (requests cs)) h0) by (intros k tag Hk; apply elem_of_reverse; auto).
      destruct (start_ok h identifier link_created now (taken_collectable h0 Ha _ _ Hh Hall' Hl)) as (h' & hs & E & Hth & Hperm & Hgone & _).
      exists h', (Worker.logic_new hs (supervisor_api_cycle h) now). rewrite (h_interval _ _ _ Hh) in Hth. split_and!; [done|done| |apply Hh|].
      * simpl. rewrite Hperm, <- Hp. unfold all_places, place_list. by rewrite !(handed_places _ _ _ _ Ha Hh Hl).
      * destruct Hconf as (k & tag & c & H0). destruct (Ha _ _ _ H0) as [p ->]. destruct (h_slot _ _ _ Hh _ _ _ H0) as (c & Ec & _).
        exists k, tag. by rewrite Hgone, Ec.
    + intros Hor. assert (Hno : exists k, ~ collectable (slots k h)).
      { destruct Hor as [Hun|Hl]; [|by apply lost_not_collectable]. apply (not_all_taken h0 Ha _ _ Hh). destruct Hun as (k & tag & Hk & Hin).
        exists k, tag. by rewrite elem_of_reverse. }
      destruct (start_error h identifier link_created now Hno) as (h' & E & Hw' & _). by exists h'.
  - intros Hl later. destruct (session_lost later h Hl) as (rs' & h' & E).
    destruct (session_tracked h0 Ha Hconf later _ h rs' h' T E) as (G' & _ & L' & _ & A' & F' & W'). exists rs', h'. split_and!; auto.
    intros e Hin. destruct (A' e Hin) as [->|]; [|done]. by destruct (F' Hin).
Qed.

Definition example_builder : HealthMonitorBuilder :=
  add_deadline_monitor "deadlines" DeadlineClients.two
    (add_heartbeat_monitor "beats" (mkRange (from_millis 200) (from_millis 400))
      (add_logic_monitor "flow" (LogicMonitor.add_state "a" ["a"] (LogicMonitor.builder_new "a")) builder_new)).
Definition example_requests : list (which * string) := [(WLogic, "flow"); (WDeadline, "deadlines"); (WDeadline, "deadlines"); (WHeartbeat, "beats")].

Definition requested (l : list (which * string)) (h : HealthMonitor) : bool :=
  forallb (fun k => forallb (fun '(tag, _) => bool_decide ((k, tag) ∈ l)) (map_to_list (slots k h))) [WDeadline; WHeartbeat; WLogic].

Lemma requested_spec l h : requested l h = true -> requested_all l h.
Proof.
  unfold requested. rewrite <- Is_true_true, forallb_True, Forall_forall. intros Hr k tag [c Hc%elem_of_map_to_list].
  assert (k ∈ [WDeadline; WHeartbeat; WLogic]) as Hk by (destruct k; set_solver). specialize (Hr k Hk). rewrite forallb_True, Forall_forall in Hr.
  specialize (Hr _ Hc). by apply bool_decide_unpack in Hr.
Qed.

Definition example_session : list call := (fun '(k, tag) => Get k tag) <$> example_requests.

Lemma health_monitor_starts_complete_witness :
  exists h0 rs h h' logic, @build debug_build map_order example_builder 0 = Ret (inl h0) /\ @session map_order example_session h0 = Ret (rs, h) /\
    @start_internal map_order (Some "app") true 1 h = Ret (None, h') /\
    Worker.handle (worker h') = Some (Worker.Sleeping (Worker.internal_duration_cycle (worker h0)) logic) /\
    Worker.monitors logic ≡ₚ seq 0 (length (store h0)).
Proof.
  assert (match @build debug_build map_order example_builder 0 with
          | Ret (inl h0) => match @session map_order example_session h0 with Ret _ => requested (requests example_session) h0 | Abort _ => false end
          | _ => false end = true) as Hc by (by vm_compute).
  destruct (@build debug_build map_order example_builder 0) as [[h0|]|] eqn:Hb; try discriminate Hc.
  destruct (@session map_order example_session h0) as [[rs h]|] eqn:Hs; try discriminate Hc.
  destruct (@health_monitor_starts_complete debug_build map_order example_builder 0 h0 example_session rs h Hb Hs) as (_ & Hgets & _ & _ & Hnext & _).
  destruct (Hnext (Some "app") true 1) as [Hok _].
  destruct (Hok (requested_spec _ _ Hc)) as (h' & logic & Hst & Hh & Hm & _).
  - apply Hgets. intros i l t [[k tag] [Hin _]]%list_elem_of_fmap. discriminate Hin.
  - exists h0, rs, h, h', logic. split; [reflexivity|]. split; [exact Hs|]. split; [exact Hst|]. split; [exact Hh | exact Hm].
Defined.

(** A start before all monitors are taken can lose the handles it already collected: taking the rest afterwards does not help, nor does asking again. *)
Example early_start_is_final :
  (built ← @build debug_build map_order example_builder 0;
   match built with
   | inl h0 =>
       '(rs, _) ← @session map_order [Get WDeadline "deadlines"; Start (Some "app") true 1; Get WHeartbeat "beats"; Get WLogic "flow";
                                      Get WDeadline "deadlines"; Start (Some "app") true 2] h0;
       Ret rs
   | inr e => Ret []
   end) = Ret [Given (Some 0%nat); Started (Some WrongStateError); Given (Some 1%nat); Given (Some 2%nat); Given None; Started (Some WrongStateError)].
Proof. by vm_compute. Qed.

End StartProofs.
