(* ===== verification/EndToEnd.v ===== *)
(** * From a failed monitor in an application to the manager of the daemon

    The health monitor library of an application notifies the daemon ([WorkerProofs]); the alive supervision of its process counts these
    reports ([AliveProofs]) and asks the manager for recovery ([Recovery]).  Module [FailurePath] puts the three together: once a monitor of the
    application reports an error, or its evaluation panics, the supervision of the process expires and the manager learns of it. *)

From stdpp Require Import prelude gmap strings.
From S2P Require Import Prelude Queues Depgraph Components Graphs Manager TimeSorting Timers Alive AliveProofs Recovery.
From S2P Require Import HealthState HealthLibrary DeadlineProofs WorkerProofs.

Module FailurePath.
Import Alive AliveProofs Recovery.RecoveryClient RecoveryProofs WorkerProofs.

(** The reports of a process: [reported_at] is the time that [Alive::ReportAlive] stamps. *)
Definition reports (reported_at : entry -> Z) (log : list entry) : list Z := reported_at <$> filter (fun e => notified e = true) log.

Lemma silent_after_failure `{BuildMode} hmon interval rounds store sleep l k e :
  NoDup (Worker.monitors l) -> (loop hmon interval rounds store (Worker.Sleeping sleep l)).1 !! k = Some e -> ~ all_healthy hmon (Worker.monitors l) e ->
  forall f, reports f (drop k (loop hmon interval rounds store (Worker.Sleeping sleep l)).1) = [].
Proof.
  intros Hnd Hk Hf f. pose proof (loop_notifies_healthy hmon interval rounds store sleep l Hnd) as Hn. revert Hk Hn.
  generalize (loop hmon interval rounds store (Worker.Sleeping sleep l)).1. intros log Hk Hn. unfold reports.
  assert (Forall (fun e => notified e <> true) (drop k log)) as Hd.
  { apply Forall_lookup. intros j e' Hj Hnot. rewrite lookup_drop in Hj.
    apply Hf. eapply Forall_lookup_1; [by apply (Hn (k + j) e')|]. apply lookup_take_Some. split; [done | lia]. }
  by induction Hd as [|x m Hx _ IH]; [|rewrite filter_cons_False by done].
Qed.

(** C21: A failure in an application reaches the manager.  When the evaluation of some monitor of the application fails or panics in a round of its background
    thread, and the supervision of its process, with too few reports in the current reference cycle, has only the reports of this and later rounds ahead, then the evaluation after the
    tolerated cycles expires the supervision, and the manager holds the failure of the process, or its overflow flag, which fires the watchdog. *)
Theorem failed_monitor_reaches_manager `{BuildMode} (hmon interval : Z) (rounds : list round) (store : list Worker.monitor) (l : Worker.MonitoringLogic)
    (k : nat) (e : entry) (reported_at : entry -> Z) (sync : Z) (a : Alive.t IdentifierHash client) :
  NoDup (Worker.monitors l) ->
  let log := (loop hmon interval rounds store (Worker.Sleeping interval l)).1 in
  log !! k = Some e -> ~ all_healthy hmon (Worker.monitors l) e ->
  between (checkpoints (reports reported_at (drop k log))) a -> dataLossReason a = kNoDataLoss -> (0 < buffer_size a)%nat -> aliveStatus a = kOk -> starving a ->
  running (recoveryClient a) -> (sync + k_aliveReferenceCycle a <= INT64_MAX)%Z ->
  (referenceCycleEnd a + k_failedSupervisionCyclesTolerance a * k_aliveReferenceCycle a <= sync)%Z ->
  exists a', evaluate sync a = Ret a' /\ aliveStatus a' = kExpired /\ told (processIdentifier_ a) (recoveryClient a').
Proof.
  intros Hnd log Hk Hf Hb Hd Hbuf Hok Hst Hrun Hov Hz. unfold log in *. rewrite (silent_after_failure _ _ _ _ _ _ _ _ Hnd Hk Hf) in Hb. clear Hk Hf.
  destruct (expiry_reaches_manager [] sync a Hb (Forall_nil_2 _) Hrun) as (a' & He & _ & _ & Ht). exists a'. split; [done|].
  assert (aliveStatus a' = kExpired) as Hx; [|split; [done|]; apply Ht; [by rewrite Hok | done]].
  destruct Hb as [Hwf Hrd]. pose proof (evaluate_process [] sync a Hwf Hrd Hd (Forall_nil_2 _) Hbuf) as Hp. rewrite He in Hp. injection Hp as ->.
  pose proof Hwf as [Hc Htl Hev Hs]. rewrite Hok in Hs. destruct Hs as (_ & _ & Hfl).
  assert (Z.of_nat (Z.to_nat (k_failedSupervisionCyclesTolerance a)) = k_failedSupervisionCyclesTolerance a) as Hdz by lia.
  destruct (silence sync ltac:(lia) (Z.to_nat (k_failedSupervisionCyclesTolerance a)) a Hwf) as (H1 & _);
    [by unfold active; rewrite Hok | done | lia | rewrite Hdz; lia | exact H1].
Qed.

(** A logic monitor after a transition that was not allowed, and a supervision with cycles of 100 that tolerates none without a report. *)
Definition broken_store : list Worker.monitor := [Worker.MLogic (LogicMonitor.mkInner "flow" (LogicStateSnapshot.word 0 (Some InvalidTransition)) [])].
Definition broken_rounds : list round := [round_at 100 1; round_at 200 1].
Definition broken_log : list entry := (@loop debug_build 0 (Common.from_millis 100) broken_rounds broken_store (Worker.Sleeping (Common.from_millis 100) example_logic)).1.

Lemma between_example : between (checkpoints []) RecoveryProofs.example.
Proof. split; [split; vm_compute; repeat split; discriminate|]. split; [apply TimeSortingBuffer.make_buffer_rep|constructor..]. Qed.

Lemma running_example : running (recoveryClient RecoveryProofs.example).
Proof. split; [done|]. split; [done|]. exists [], 0. apply (MpscBoundedQueue.mpsc_make_rep 0 3). Qed.

Lemma failed_monitor_reaches_manager_witness :
  exists a', evaluate 150 RecoveryProofs.example = Ret a' /\ aliveStatus a' = kExpired /\ told (processIdentifier_ RecoveryProofs.example) (recoveryClient a').
Proof.
  assert (reports (fun _ => 0%Z) (drop 0 broken_log) = []) as Hr by (by vm_compute).
  destruct (broken_log !! 0) as [e|] eqn:He; [|by vm_compute in He].
  apply (@failed_monitor_reaches_manager debug_build 0 (Common.from_millis 100) broken_rounds broken_store example_logic 0 e (fun _ => 0%Z) 150);
    [apply NoDup_singleton | exact He | | fold broken_log; rewrite Hr; exact between_example | reflexivity | by vm_compute; lia | reflexivity
    | by vm_compute | exact running_example | by vm_compute | by vm_compute].
  intros Ha. destruct (Ha 0 (list_elem_of_here _ _)) as (m & m' & Hm & Hev). unfold broken_log in He. cbn in He. injection He as <-.
  cbn in Hm. injection Hm as <-. discriminate Hev.
Defined.

End FailurePath.
