(* ===== verification/LifecycleClient.v ===== *)
(** * The application side: the lifecycle manager and the application container

    score/launch_manager/src/lifecycle_client/src.  Module [ApplicationContext] (applicationcontext.cpp): the
    arguments.  Module [LifeCycleManager] (lifecyclemanager.cpp, runapplication.h): the main thread of a process and the
    thread that waits for SIGTERM, as steps that may be interleaved in any way; the answers of the operating system,
    the results of the application and the moments at which SIGTERM arrives are inputs.  Module [AasApplicationContainer]
    (aasapplicationcontainer.cpp): several applications in threads of one process.

    SIGTERM is blocked in the main thread before any other thread is created, so that only the waiting
    thread takes it; a signal that is pending already is not queued again. *)

From stdpp Require Import prelude fin_maps gmap strings.
From S2P Require Import Prelude.

(** ** [ApplicationContext] *)

Module ApplicationContext.

Record t := mk { m_args : list string; m_app_path : string }.

(** The array [argv] ends with a null pointer. *)
Definition make (argc : nat) (argv : list string) : outcome t :=
  match argv with
  | a :: _ => if (argc <=? length argv)%nat then Ret (mk (take argc argv) a) else Abort NullPointer
  | [] => Abort NullPointer
  end.

Definition get_arguments (c : t) : list string := m_args c.

Definition get_argument (flag : string) (c : t) : string :=
  match list_find (fun arg => arg = flag) (m_args c) with
  | Some (i, _) => default "" (m_args c !! S i)
  | None => ""
  end.

End ApplicationContext.

(** ** [LifeCycleManager] *)

Module LifeCycleManager.

Definition EXIT_FAILURE : Z := 1.

(** What the program does with the object after its construction. *)
Inductive op := OpRun | OpDestroy.

(** Where the main thread is.  [k]: the status that [run] returns, or none in the destructor;
    [sent]: whether the process could send itself SIGTERM. *)
Inductive main_pc :=
| MSigEmptySet | MAddTerminationSignal | MPthreadSigMask | MStartThread | MExit
| MIdle
| MInitialize | MReportRunning | MRun
| MAtExit (k : option Z) | MSend (k : option Z) | MJoin (sent : bool) (k : option Z) | MReturn (k : option Z)
| MDestroyed.

(** Where the signal handler thread is; [ok]: whether [SigWait] succeeded; [app]: whether it saw an application. *)
Inductive handler_pc := HNone | HWaiting | HReceived (ok : bool) | HStop | HQuit (ok app : bool) | HDone.

#[global] Instance handler_pc_eq_dec : EqDecision handler_pc.
Proof. solve_decision. Defined.

(** How the process ended, if not by returning from [main]. *)
Inductive ending :=
| ExitInConstructor
| TerminatedInConstructor
| KilledBySigterm
| QuickExit (sigwait_ok app_created : bool).

(** What the application and the launch manager see, the latest last. *)
Inductive event :=
| Initialized (status : Z)
| ReportedRunning
| Started (stop_requested : bool)
| Ran (status : Z)
| Returned (status : Z).

Record t := mk {
  m_stop_source : bool;
  m_app : bool;
  joinable : bool;
  main : main_pc;
  handler : handler_pc;
  masked : bool;
  pending : bool;
  todo : list op;
  events : list event;
  ended : option ending
}.

Definition goto (p : main_pc) (s : t) : t :=
  mk (m_stop_source s) (m_app s) (joinable s) p (handler s) (masked s) (pending s) (todo s) (events s) (ended s).
Definition see (e : event) (s : t) : t :=
  mk (m_stop_source s) (m_app s) (joinable s) (main s) (handler s) (masked s) (pending s) (todo s) (events s ++ [e]) (ended s).
Definition hgoto (p : handler_pc) (s : t) : t :=
  mk (m_stop_source s) (m_app s) (joinable s) (main s) p (masked s) (pending s) (todo s) (events s) (ended s).
Definition finish (e : ending) (s : t) : t :=
  mk (m_stop_source s) (m_app s) (joinable s) (main s) (handler s) (masked s) (pending s) (todo s) (events s) (Some e).
Definition set_pending (b : bool) (s : t) : t :=
  mk (m_stop_source s) (m_app s) (joinable s) (main s) (handler s) (masked s) b (todo s) (events s) (ended s).
Definition set_todo (l : list op) (s : t) : t :=
  mk (m_stop_source s) (m_app s) (joinable s) (main s) (handler s) (masked s) (pending s) l (events s) (ended s).

(** The constructor before its first call. *)
Definition construct (todo : list op) : t := mk false false false MSigEmptySet HNone false false todo [] None.

(** [initialize_internal]: [ok] is the answer to the call, or whether the thread could be created; the
    constructor is [noexcept]. *)
Definition initialize_internal (ok : bool) (s : t) : option t :=
  match main s with
  | MSigEmptySet => Some (goto (if ok then MAddTerminationSignal else MExit) s)
  | MAddTerminationSignal => Some (goto (if ok then MPthreadSigMask else MExit) s)
  | MPthreadSigMask =>
      Some (if ok then mk (m_stop_source s) (m_app s) (joinable s) MStartThread (handler s) true (pending s) (todo s) (events s) (ended s)
            else goto MExit s)
  | MStartThread =>
      Some (if ok then mk (m_stop_source s) (m_app s) true MIdle HWaiting (masked s) (pending s) (todo s) (events s) (ended s)
            else finish TerminatedInConstructor s)
  | _ => None
  end.

(** [at_exit] *)
Definition at_exit (ok : bool) (s : t) : option t :=
  match main s with
  | MAtExit k => Some (goto (if joinable s then MSend k else MReturn k) s)
  | MSend k => Some (goto (MJoin ok k) (set_pending (ok || pending s) s))
  | MJoin _ k =>
      if decide (handler s = HDone) then
        Some (mk (m_stop_source s) (m_app s) false (MReturn k) (handler s) (masked s) (pending s) (todo s) (events s) (ended s))
      else None
  | _ => None
  end.

(** [run]: [status] is what [Initialize] or [Run] of the application returns. *)
Definition run_step (status : Z) (s : t) : option t :=
  match main s with
  | MInitialize => Some (goto (if (status =? 0)%Z then MReportRunning else MAtExit (Some status)) (see (Initialized status) s))
  | MReportRunning => Some (goto MRun (see (Started (m_stop_source s)) (see ReportedRunning s)))
  | MRun => Some (goto (MAtExit (Some status)) (see (Ran status) s))
  | _ => None
  end.

(** The main thread. *)
Definition main_step (ok : bool) (status : Z) (s : t) : option t :=
  match main s with
  | MSigEmptySet | MAddTerminationSignal | MPthreadSigMask | MStartThread => initialize_internal ok s
  | MExit => Some (finish ExitInConstructor s)
  | MIdle =>
      match todo s with
      | [] => None
      | OpRun :: rest => Some (mk (m_stop_source s) true (joinable s) MInitialize (handler s) (masked s) (pending s) rest (events s) (ended s))
      | OpDestroy :: rest => Some (goto (MAtExit None) (set_todo rest s))
      end
  | MInitialize | MReportRunning | MRun => run_step status s
  | MAtExit _ | MSend _ | MJoin _ _ => at_exit ok s
  | MReturn (Some status) => Some (goto MIdle (see (Returned status) s))
  | MReturn None => Some (goto MDestroyed s)
  | MDestroyed => None
  end.

(** [handle_signal] *)
Definition handle_signal (ok : bool) (s : t) : option t :=
  match handler s with
  | HWaiting =>
      if ok then if pending s then Some (hgoto (HReceived true) (set_pending false s)) else None
      else Some (hgoto (HReceived false) s)
  | HReceived ok => Some (hgoto (if m_app s && ok then HStop else HQuit ok (m_app s)) s)
  | HStop => Some (mk true (m_app s) (joinable s) (main s) HDone (masked s) (pending s) (todo s) (events s) (ended s))
  | HQuit ok app => Some (finish (QuickExit ok app) s)
  | HNone | HDone => None
  end.

(** A signal from outside. *)
Definition sigterm (s : t) : t := if masked s then set_pending true s else finish KilledBySigterm s.

Inductive label := Main (ok : bool) (status : Z) | Handler (ok : bool) | Sigterm.

Definition step (l : label) (s : t) : option t :=
  match ended s with
  | Some _ => None
  | None => match l with Main ok status => main_step ok status s | Handler ok => handle_signal ok s | Sigterm => Some (sigterm s) end
  end.

Fixpoint execute (schedule : list label) (s : t) : option t :=
  match schedule with [] => Some s | l :: rest => s' ← step l s; execute rest s' end.

(** [AsPosixProcess]: the manager, then the application; when the constructor of the application throws, only the destructor
    of the manager runs. *)
Definition AsPosixProcess (app_throws : bool) : list op := if app_throws then [OpDestroy] else [OpRun; OpDestroy].

(** [run_application] *)
Definition run_application (app_throws : bool) (schedule : list label) : option t := execute schedule (construct (AsPosixProcess app_throws)).

End LifeCycleManager.

(** ** [AasApplicationContainer] *)

Module AasApplicationContainer.
Section Container.
Context {A : Type}.

(** [lifecycle_manager] is a [LifeCycleManager.t] of its own. *)
Record t := mk { context_ : ApplicationContext.t; applications_ : list A; count_expected_applications_ : nat }.

Definition make (argc : nat) (argv : list string) (count_expected_applications : nat) : outcome t :=
  c ← ApplicationContext.make argc argv; Ret (mk c [] count_expected_applications).

Definition With (app : A) (c : t) : outcome t :=
  _ ← assert (length (applications_ c) + 1 <=? count_expected_applications_ c)%nat;
  Ret (mk (context_ c) (applications_ c ++ [app]) (count_expected_applications_ c)).

(** The thread of application [i] writes its result when it is done; [order]: in which order they are done. *)
Definition write_results (results : list Z) (order : list nat) (thread_results : list Z) : list Z :=
  foldl (fun r i => match results !! i with Some z => <[i := z]> r | None => r end) thread_results order.

(** [join] of every thread returns only when it is done. *)
Definition join_all (n : nat) (order : list nat) : bool := forallb (fun i => bool_decide (i ∈ order)) (seq 0 n).

(** [find_if] for a value other than 0. *)
Fixpoint first_nonzero (l : list Z) : Z :=
  match l with [] => 0%Z | z :: rest => if (z =? 0)%Z then first_nonzero rest else z end.

(** [None]: it waits for a thread that never ends. *)
Definition Initialize (initialize : A -> Z) (order : list nat) (c : t) : option Z :=
  let n := length (applications_ c) in
  if join_all n order then Some (first_nonzero (write_results (initialize <$> applications_ c) order (replicate n 0%Z))) else None.

(** [last_done]: whether the application of the main thread ends. *)
Definition Run (run : A -> Z) (last_done : bool) (order : list nat) (c : t) : option (Z * t) :=
  match last (applications_ c) with
  | None => Some (0%Z, c)
  | Some last_application =>
      let others := removelast (applications_ c) in
      let n := length others in
      if last_done && join_all n order then
        let result := run last_application in
        Some (if (result =? 0)%Z then first_nonzero (write_results (run <$> others) order (replicate n 0%Z)) else result,
              mk (context_ c) [] (count_expected_applications_ c))
      else None
  end.

End Container.
Arguments t : clear implicits.
End AasApplicationContainer.
