(* ===== verification/LifecycleClientProofs.v ===== *)
(** * Proofs about the application side

    Module [LifeCycleManagerProofs]: the invariant of the two threads of [LifecycleClient.LifeCycleManager], the measure that bounds
    their steps, and what follows for every schedule.  Module [ContainerProofs]: the results of a container do not depend on the order in which
    its threads end.  Module [LifecycleExample]: concrete schedules. *)

From stdpp Require Import prelude fin_maps gmap strings.
From S2P Require Import Prelude LifecycleClient.

Module LifeCycleManagerProofs.
Import LifeCycleManager.

(** ** What an application sees *)

(** One call of [run], up to its return with [status]: [again] when it is not the first of this manager. *)
Inductive attempt (again : bool) : Z -> list event -> Prop :=
| attempt_refused status : status <> 0%Z -> attempt again status [Initialized status]
| attempt_ran (stopped : bool) status : (again = true -> stopped = true) -> attempt again status [Initialized 0; ReportedRunning; Started stopped; Ran status].

(** The calls of [run] that have returned. *)
Inductive history : list event -> Prop :=
| history_nil : history []
| history_run h l status : history h -> attempt (bool_decide (h <> [])) status l -> history (h ++ l ++ [Returned status]).

(** What has been seen of the current call. *)
Definition current (p : main_pc) (again : bool) (l : list event) : Prop :=
  match p with
  | MReportRunning => l = [Initialized 0]
  | MRun => exists stopped : bool, (again = true -> stopped = true) /\ l = [Initialized 0; ReportedRunning; Started stopped]
  | MAtExit (Some status) | MSend (Some status) | MJoin _ (Some status) | MReturn (Some status) => attempt again status l
  | _ => l = []
  end.

(** ** The invariant *)

(** The threads: the handler exists from the end of the constructor on; it is joined when it is done; then
    the application has been told to stop; a process that waits for it after sending itself SIGTERM has the signal pending. *)
Definition threads_ok (s : t) : bool :=
  match handler s with HStop => m_app s | HDone => m_app s && m_stop_source s | HQuit ok app => negb (app && ok) | _ => true end &&
  match main s with
  | MSigEmptySet | MAddTerminationSignal | MPthreadSigMask | MStartThread | MExit =>
      match handler s with HNone => negb (m_app s) && negb (joinable s) | _ => false end && match main s with MStartThread => masked s | _ => true end
  | p =>
      masked s && match handler s with HNone => false | HDone => true | _ => joinable s end &&
      match p with
      | MSend _ => joinable s
      | MJoin sent _ => joinable s && match handler s with HWaiting => negb sent || pending s | _ => true end
      | MReturn _ => match handler s with HDone => true | _ => false end
      | _ => true
      end
  end.

Definition seen_ok (s : t) : Prop :=
  exists h l, events s = h ++ l /\ history h /\ current (main s) (bool_decide (h <> [])) l /\ (h <> [] -> m_stop_source s = true).

Lemma threads_main ok status s s' : threads_ok s = true -> main_step ok status s = Some s' -> threads_ok s' = true.
Proof.
  destruct s as [st ap jo p hd ma pe td ev en]. unfold threads_ok.
  destruct p as [| | | | | | | | |k|k|sent k|k|]; cbn; intros Hi Hs;
    repeat match type of Hs with context [match ?x with _ => _ end] => destruct x end; simplify_eq; cbn in *; try done;
    try destruct hd; cbn in *; try done; by repeat (match goal with b : bool |- _ => destruct b end; cbn in *; try done).
Qed.

Lemma threads_handler ok s s' : threads_ok s = true -> handle_signal ok s = Some s' -> threads_ok s' = true.
Proof.
  destruct s as [st ap jo p hd ma pe td ev en]. unfold threads_ok, handle_signal.
  destruct hd as [| |got| |got app|]; cbn; intros Hi Hs; try (destruct ap, got); cbn in *;
    repeat match type of Hs with context [match ?x with _ => _ end] => destruct x end; simplify_eq; cbn in *; try done;
    destruct p; cbn in *; try done; by repeat (match goal with b : bool |- _ => destruct b end; cbn in *; try done).
Qed.

Lemma threads_sigterm s : threads_ok s = true -> threads_ok (sigterm s) = true.
Proof.
  destruct s as [st ap jo p hd ma pe td ev en]. unfold threads_ok, sigterm.
  destruct ma; cbn; [|done]. destruct p, hd; cbn; try done; by repeat (match goal with b : bool |- _ => destruct b end; cbn in *; try done).
Qed.

Lemma seen_main ok status s s' : threads_ok s = true -> seen_ok s -> main_step ok status s = Some s' -> seen_ok s'.
Proof.
  intros Ht (h & l & He & Hh & Hl & Hn) Hs. destruct s as [st ap jo p hd ma pe td ev en]; cbn in *. unfold seen_ok.
  destruct p as [| | | | | | | | |k|k|sent k|k|]; cbn in *;
    repeat match type of Hs with context [match ?x with _ => _ end] => destruct x eqn:? end; simplify_eq; cbn in *;
    rewrite ?app_nil_r in *; try by (eexists h, _; rewrite ?app_nil_r).
  - exists h, [Initialized status]. apply Z.eqb_eq in Heqb as ->. done.
  - exists h, [Initialized status]. apply Z.eqb_neq in Heqb. split_and!; try done. by apply attempt_refused.
  - exists h, [Initialized 0; ReportedRunning; Started st]. rewrite <- !app_assoc. split_and!; try done. exists st. split; [|done]. intros H%bool_decide_eq_true. auto.
  - destruct Hl as (stopped & Hs & ->). exists h, [Initialized 0; ReportedRunning; Started stopped; Ran status]. rewrite <- app_assoc. split_and!; try done. by apply attempt_ran.
  - by exists h, l.
  - by exists h, l.
  - by exists h, l.
  - by exists h, l.
  - exists (h ++ l ++ [Returned z]), []. rewrite app_nil_r, <- app_assoc. split_and!; try done; [by constructor|].
    intros _. unfold threads_ok in Ht. destruct hd; cbn in Ht; rewrite ?andb_false_r in Ht; try done. by destruct ap, st.
Qed.

Lemma seen_other s s' : events s' = events s -> main s' = main s -> (m_stop_source s = true -> m_stop_source s' = true) -> seen_ok s -> seen_ok s'.
Proof. intros He Hm Hs (h & l & H). exists h, l. rewrite He, Hm. naive_solver. Qed.

Lemma handler_keeps ok s s' : handle_signal ok s = Some s' -> events s' = events s /\ main s' = main s /\ (m_stop_source s = true -> m_stop_source s' = true).
Proof. unfold handle_signal. intros Hs. repeat case_match; simplify_eq; done. Qed.

(** Why a process can end before its time. *)
Definition ending_ok (s : t) : Prop :=
  match ended s with
  | None => True
  | Some (ExitInConstructor | TerminatedInConstructor) => handler s = HNone
  | Some KilledBySigterm => masked s = false
  | Some (QuickExit ok app) => (app && ok) = false
  end.

Record Inv (s : t) : Prop := { i_threads : threads_ok s = true; i_seen : seen_ok s; i_ending : ending_ok s }.

Lemma inv_construct todo : Inv (construct todo).
Proof. split; try done. exists [], []. split_and!; try done. constructor. Qed.

Lemma ending_main ok status s s' : threads_ok s = true -> ended s = None -> main_step ok status s = Some s' -> ending_ok s'.
Proof.
  intros Ht Hn Hs. destruct s as [st ap jo p hd ma pe td ev en]. cbn in Hn. subst en. unfold ending_ok.
  destruct p; cbn in *; repeat (case_match; simplify_eq); simplify_eq; cbn in *; try done;
    unfold threads_ok in Ht; destruct hd; cbn in Ht; rewrite ?andb_false_r in Ht; done.
Qed.

Lemma ending_handler ok s s' : threads_ok s = true -> ended s = None -> handle_signal ok s = Some s' -> ending_ok s'.
Proof.
  intros Ht Hn Hs. destruct s as [st ap jo p hd ma pe td ev en]. cbn in Hn. subst en. unfold ending_ok, threads_ok in *.
  destruct hd as [| |got| |got app|]; cbn in *; try done.
  - destruct ok, pe; by simplify_eq.
  - by simplify_eq.
  - by simplify_eq.
  - simplify_eq. cbn. by destruct got, app.
Qed.

Lemma inv_step l s s' : Inv s -> step l s = Some s' -> Inv s'.
Proof.
  intros [Ht Hse He] Hs. unfold step in Hs. destruct (ended s) eqn:Hn; [done|]. destruct l as [ok status|ok|].
  - split; [by eapply threads_main|by eapply seen_main|by eapply ending_main].
  - pose proof (handler_keeps _ _ _ Hs) as (H1 & H2 & H3). split; [by eapply threads_handler|by eapply seen_other|by eapply ending_handler].
  - injection Hs as <-. split; [by apply threads_sigterm| |].
    + apply (seen_other s); unfold sigterm; by destruct (masked s).
    + unfold sigterm, ending_ok in *. destruct (masked s) eqn:Hm; cbn; by rewrite ?Hn.
Qed.

Lemma inv_execute schedule s s' : Inv s -> execute schedule s = Some s' -> Inv s'.
Proof.
  revert s. induction schedule as [|l rest IH]; intros s Hi Hx; cbn in Hx; [by simplify_eq|].
  apply bind_Some in Hx as (s1 & Hs & Hx). eauto using inv_step.
Qed.

(** ** Termination *)

Definition main_rank (p : main_pc) : nat :=
  match p with
  | MSigEmptySet => 4 | MAddTerminationSignal => 3 | MPthreadSigMask => 2 | MStartThread => 1 | MExit => 0
  | MIdle => 0 | MInitialize => 7 | MReportRunning => 6 | MRun => 5 | MAtExit _ => 4 | MSend _ => 3 | MJoin _ _ => 2 | MReturn _ => 1 | MDestroyed => 0
  end.
Definition handler_rank (p : handler_pc) : nat :=
  match p with HNone => 4 | HWaiting => 3 | HReceived _ => 2 | HStop | HQuit _ _ => 1 | HDone => 0 end.

(** The steps that are left. *)
Definition work (s : t) : nat :=
  8 * length (todo s) + main_rank (main s) + handler_rank (handler s) + match ended s with Some _ => 0 | None => 1 end.

Definition own_step (l : label) : bool := match l with Sigterm => false | _ => true end.

Lemma work_step l s s' : threads_ok s = true -> step l s = Some s' -> (if own_step l then 1 else 0) + work s' <= work s.
Proof.
  unfold step, work, threads_ok. destruct s as [st ap jo p hd ma pe td ev [e|]]; [done|]. destruct l as [ok status|ok|]; cbn; intros Ht.
  - destruct p; cbn; try (destruct hd; cbn in Ht; rewrite ?andb_false_r in Ht; [|done..]); repeat (case_match; simplify_eq/=); intros; simplify_eq/=; lia.
  - destruct hd; cbn; repeat (case_match; simplify_eq/=); intros; simplify_eq/=; lia.
  - intros [= <-]. unfold sigterm. cbn. destruct ma; cbn; lia.
Qed.

Lemma work_execute schedule s s' : Inv s -> execute schedule s = Some s' -> length (filter own_step schedule) + work s' <= work s.
Proof.
  revert s. induction schedule as [|l rest IH]; intros s Hi Hx; cbn in Hx; [by simplify_eq|].
  apply bind_Some in Hx as (s1 & Hs & Hx). pose proof (IH _ (inv_step _ _ _ Hi Hs) Hx). apply work_step in Hs; [|apply Hi]. destruct (own_step l) eqn:Hl.
  - rewrite filter_cons_True by by rewrite Hl. rewrite length_cons. lia.
  - rewrite filter_cons_False by (rewrite Hl; by intros []). lia.
Qed.

(** ** The contract *)

(** There is nothing left to do. *)
Definition finished (s : t) : Prop := main s = MDestroyed \/ (main s = MIdle /\ todo s = []).

(** Only a process that could not send itself the signal waits for it. *)
Definition waits_for_sigterm (s : t) : Prop := handler s = HWaiting /\ pending s = false /\ exists k, main s = MJoin false k.

Lemma no_deadlock s : threads_ok s = true -> ended s = None ->
  (exists l s', own_step l = true /\ step l s = Some s') \/ finished s \/ waits_for_sigterm s.
Proof.
  intros Ht Hn. unfold step, finished, waits_for_sigterm, threads_ok in *. rewrite Hn. clear Hn.
  destruct s as [st ap jo p hd ma pe td ev en]; cbn in *.
  assert (Hm : forall s', main_step true 0 (mk st ap jo p hd ma pe td ev en) = Some s' ->
    exists l s', own_step l = true /\ match l with Main ok status => main_step ok status (mk st ap jo p hd ma pe td ev en) | Handler ok => handle_signal ok (mk st ap jo p hd ma pe td ev en) | Sigterm => Some (sigterm (mk st ap jo p hd ma pe td ev en)) end = Some s').
  { intros s' Hs. by exists (Main true 0), s'. }
  destruct p as [| | | | | | | | |k|k|sent k|k|]; try (left; eapply Hm; reflexivity).
  - destruct td as [|[] td]; [tauto|left; eapply Hm; reflexivity..].
  - destruct hd; cbn in Ht; rewrite ?andb_false_r in Ht; try done.
    + destruct pe; [left; by eexists (Handler true), _|]. destruct sent; cbn in Ht; rewrite ?andb_false_r in Ht; [done|]. right; right. eauto.
    + left. by eexists (Handler true), _.
    + left. by eexists (Handler true), _.
    + left. by eexists (Handler true), _.
    + left. eapply Hm. reflexivity.
  - left; destruct k; eapply Hm; reflexivity.
  - tauto.
Qed.

(** C29: for every program with a lifecycle manager and every interleaving of its main thread, the signal handler and the signals that
    arrive: the threads take a bounded number of steps, and one of them can always take the next, unless
    nothing is left to do or the process waits for a SIGTERM that it could not send itself.
    Each call of [run] initialises the application, reports running and runs it only when that
    succeeded, and returns the status of the call that failed, or of [Run].  A SIGTERM that is pending while an application is there makes
    the handler request its stop; a process is ended by the manager only in the constructor, by a signal before it was blocked, or when SIGTERM
    arrived before the application or could not be waited for. *)
Theorem lifecycle_manager_contract (program : list op) (schedule : list label) (s : t) :
  execute schedule (construct program) = Some s ->
  length (filter own_step schedule) <= 8 * length program + 9 /\
  (ended s = None -> (exists l s', own_step l = true /\ step l s = Some s') \/ finished s \/ waits_for_sigterm s) /\
  (exists h l, events s = h ++ l /\ history h /\ current (main s) (bool_decide (h <> [])) l) /\
  (handler s = HDone -> m_stop_source s = true) /\
  (ended s = None -> handler s = HWaiting -> pending s = true -> m_app s = true ->
     exists s', execute [Handler true; Handler true; Handler true] s = Some s' /\ m_stop_source s' = true) /\
  ending_ok s.
Proof.
  intros Hx. pose proof (inv_execute _ _ _ (inv_construct program) Hx) as [Ht (h & l & He & Hh & Hl & _) Hn]. split_and!.
  - apply work_execute in Hx; [|apply inv_construct]. unfold work in Hx. cbn in Hx. lia.
  - by apply no_deadlock.
  - by exists h, l.
  - intros Hd. unfold threads_ok in Ht. rewrite Hd in Ht. by destruct (m_app s), (m_stop_source s).
  - destruct s as [st ap jo p hd ma pe td ev en]; cbn. intros -> -> -> ->. eexists. split; reflexivity.
  - done.
Qed.

End LifeCycleManagerProofs.

(** ** The container *)

Module ContainerProofs.
Import AasApplicationContainer.
Section Container.
Context {A : Type}.
Implicit Types c : t A.

Lemma write_results_length results order l : length (write_results results order l) = length l.
Proof.
  unfold write_results. revert l. induction order as [|i order IH]; intros l; cbn; [done|]. rewrite IH. case_match; [|done]. apply length_insert.
Qed.

Lemma write_results_lookup results order l i : length l = length results ->
  write_results results order l !! i = if decide (i ∈ order) then results !! i else l !! i.
Proof.
  unfold write_results. revert l. induction order as [|j order IH]; intros l Hl; cbn; [done|].
  rewrite IH by (destruct (results !! j); by rewrite ?length_insert).
  destruct (decide (i ∈ order)) as [Hi|Hi]; [by rewrite decide_True by set_solver|].
  destruct (decide (i = j)) as [->|Hij].
  - rewrite decide_True by set_solver. destruct (results !! j) as [z|] eqn:Hz.
    + apply list_lookup_insert_eq. rewrite Hl. by eapply lookup_lt_Some.
    + apply lookup_ge_None in Hz. apply lookup_ge_None. lia.
  - rewrite decide_False by set_solver. case_match; [by rewrite list_lookup_insert_ne|done].
Qed.

Lemma join_all_spec n order : join_all n order = true <-> forall i, i < n -> i ∈ order.
Proof.
  unfold join_all. rewrite forallb_forall. split.
  - intros H i Hi. apply (bool_decide_unpack (i ∈ order)), Is_true_true, H. apply in_seq. lia.
  - intros H i Hi%in_seq. apply bool_decide_eq_true, H. lia.
Qed.

(** When all threads have ended, each result is at the place of its application. *)
Lemma results_joined (f : A -> Z) (apps : list A) order : join_all (length apps) order = true ->
  write_results (f <$> apps) order (replicate (length apps) 0%Z) = f <$> apps.
Proof.
  intros Hj. apply list_eq. intros i. rewrite write_results_lookup by by rewrite length_replicate, length_fmap.
  destruct (decide (i ∈ order)) as [|Hi]; [done|].
  assert (length apps <= i) by (destruct (decide (i < length apps)) as [H|]; [by eapply join_all_spec in Hj|lia]).
  rewrite !(proj2 (lookup_ge_None _ _)); rewrite ?length_fmap, ?length_replicate; done.
Qed.

Lemma first_nonzero_zero l : first_nonzero l = 0%Z <-> Forall (fun z => z = 0%Z) l.
Proof.
  induction l as [|z l IH]; cbn; [split; [constructor|done]|]. rewrite Forall_cons.
  destruct (Z.eqb_spec z 0); naive_solver.
Qed.

(** The reference: the applications one after the other, in the order of the list. *)
Definition initialize_in_order (f : A -> Z) (apps : list A) : Z := first_nonzero (f <$> apps).

(** The application of the main thread, the last, counts first. *)
Definition run_in_order (f : A -> Z) (apps : list A) : Z :=
  match last apps with
  | None => 0%Z
  | Some app => if (f app =? 0)%Z then first_nonzero (f <$> removelast apps) else f app
  end.

(** Whatever the order in which the threads end, provided they all do, [Initialize] and [Run] give what the applications give one after the
    other; [Run] leaves no application behind, and waits for ever exactly when a thread does not end.  Both give 0
    exactly when all applications succeed. *)
Theorem container_results (f : A -> Z) (last_done : bool) (order : list nat) (c : t A) :
  Initialize f order c = (if join_all (length (applications_ c)) order then Some (initialize_in_order f (applications_ c)) else None) /\
  Run f last_done order c =
    (if bool_decide (length (applications_ c) = 0) then Some (0%Z, c)
     else if last_done && join_all (pred (length (applications_ c))) order
     then Some (run_in_order f (applications_ c), mk (context_ c) [] (count_expected_applications_ c)) else None) /\
  (initialize_in_order f (applications_ c) = 0%Z <-> Forall (fun a => f a = 0%Z) (applications_ c)) /\
  (run_in_order f (applications_ c) = 0%Z <-> Forall (fun a => f a = 0%Z) (applications_ c)).
Proof.
  split_and!.
  - unfold Initialize, initialize_in_order. destruct (join_all _ order) eqn:Hj; [|done]. by rewrite results_joined.
  - unfold Run, run_in_order. destruct (applications_ c) as [|app apps _] using rev_ind; [done|].
    rewrite last_snoc, removelast_last, length_app. cbn [length]. rewrite bool_decide_eq_false_2 by lia.
    replace (pred (length apps + 1)) with (length apps) by lia. destruct (last_done && _) eqn:Hj; [|done].
    apply andb_true_iff in Hj as [_ Hj]. by rewrite results_joined.
  - unfold initialize_in_order. by rewrite first_nonzero_zero, Forall_fmap.
  - unfold run_in_order. destruct (applications_ c) as [|app apps _] using rev_ind; [done|].
    rewrite last_snoc, removelast_last, Forall_app, Forall_singleton.
    destruct (Z.eqb_spec (f app) 0); [rewrite first_nonzero_zero, Forall_fmap; naive_solver|naive_solver].
Qed.

(** No more applications than expected. *)
Lemma With_spec app c : With app c =
  if decide (length (applications_ c) < count_expected_applications_ c) then Ret (mk (context_ c) (applications_ c ++ [app]) (count_expected_applications_ c))
  else Abort AssertionFailed.
Proof.
  unfold With, assert. destruct (decide _).
  - by rewrite (proj2 (Nat.leb_le _ _)) by lia.
  - by rewrite (proj2 (Nat.leb_gt _ _)) by lia.
Qed.

End Container.
End ContainerProofs.

Module LifecycleExample.
Import LifeCycleManager LifeCycleManagerProofs.

(** The constructor succeeds; the application is initialised and runs. *)
Definition started : list label := replicate 7 (Main true 0).

(** SIGTERM arrives while the application runs; it returns 3. *)
Example example_stopped :
  (fun s => (events s, main s, ended s)) <$> run_application false (started ++ [Sigterm; Handler true; Handler true; Handler true] ++ [Main true 3] ++ replicate 4 (Main true 0)) =
  Some ([Initialized 0; ReportedRunning; Started false; Ran 3; Returned 3], MIdle, None).
Proof. by vm_compute. Qed.

(** SIGTERM before [run] ends the process with a failure, and so does the destructor of a manager that never ran. *)
Example example_too_early : (fun s => ended s) <$> run_application false (replicate 4 (Main true 0) ++ [Sigterm; Handler true; Handler true; Handler true]) =
  Some (Some (QuickExit true false)).
Proof. by vm_compute. Qed.

Example example_never_ran : (fun s => ended s) <$> run_application true (replicate 7 (Main true 0) ++ [Handler true; Handler true; Handler true]) =
  Some (Some (QuickExit true false)).
Proof. by vm_compute. Qed.

(** An application that returns by itself: the process sends itself SIGTERM to end its handler. *)
Example example_returns :
  (fun s => (events s, main s, ended s)) <$>
    run_application false (started ++ [Main true 0; Main true 0; Main true 0; Handler true; Handler true; Handler true] ++ replicate 5 (Main true 0)) =
  Some ([Initialized 0; ReportedRunning; Started false; Ran 0; Returned 0], MDestroyed, None).
Proof. by vm_compute. Qed.

(** The state in which SIGTERM has just arrived. *)
Definition signalled : t := Eval vm_compute in default (construct []) (run_application false (started ++ [Sigterm])).

Lemma lifecycle_manager_contract_witness :
  execute (started ++ [Sigterm]) (construct (AsPosixProcess false)) = Some signalled /\ main signalled = MRun /\ m_stop_source signalled = false /\
  exists s', execute [Handler true; Handler true; Handler true] signalled = Some s' /\ m_stop_source s' = true.
Proof.
  assert (Hs : execute (started ++ [Sigterm]) (construct (AsPosixProcess false)) = Some signalled) by by vm_compute.
  split; [exact Hs|]. split; [reflexivity|]. split; [reflexivity|].
  apply (proj1 (proj2 (proj2 (proj2 (proj2 (lifecycle_manager_contract (AsPosixProcess false) (started ++ [Sigterm]) signalled Hs)))))); reflexivity.
Defined.

End LifecycleExample.
