(* ===== verification/Daemon.v ===== *)
(** * The daemon: start-up, threads and teardown

    score/launch_manager/src/daemon/src.  Module [FileDescriptors]: [reserveFD] (run.cpp) on the table of descriptors.  Module
    [ThreadPool] (common/concurrency/thread_pool.hpp): the loop of a worker.  Module [Daemon]: the objects and threads that
    [run] (run.cpp) and [initialize], [deinitialize] and the destructor of [ProcessGroupManager]
    (process_group_manager.cpp) create and destroy, in the order in which they do, exceptions included.  Which object can
    reach which is written down once ([refs]); destroying an object that a running thread can reach is
    recorded as a fault. *)

From stdpp Require Import prelude fin_maps gmap strings.
From S2P Require Import Prelude Queues.

(** ** Descriptors *)

Module FileDescriptors.

(** What a descriptor refers to, and its [FD_CLOEXEC] flag. *)
Notation table := (gmap nat (string * bool)).

Definition EBADF : Z := 9.
Definition EBADFD : Z := 77.

(** [fcntl(fd, F_GETFD)] after [errno = 0]: the flags and [errno]. *)
Definition getfd (fd : nat) (m : table) : Z * Z :=
  match m !! fd with Some (_, cloexec) => (if (cloexec : bool) then 1 else 0, 0)%Z | None => (-1, EBADF)%Z end.

(** [open] takes the lowest free number. *)
Fixpoint lowest_from (fuel i : nat) (m : table) : nat :=
  match fuel with 0 => i | S fuel' => match m !! i with Some _ => lowest_from fuel' (S i) m | None => i end end.
Definition lowest (m : table) : nat := lowest_from (size m) 0 m.

(** The last three: whether [open], [dup2] and [F_SETFD] succeed. *)
Definition reserveFD (fd : nat) (open_ok dup_ok set_ok : bool) (m : table) : outcome table :=
  let '(open_fd_flags, errno) := getfd fd m in
  let fd_already_opened := (open_fd_flags =? 0)%Z && (errno =? EBADFD)%Z in
  _ ← assert (negb fd_already_opened);
  _ ← assert open_ok;
  let tmp_fd := lowest m in
  let m1 := <[tmp_fd := ("/dev/null", true)]> m in
  if decide (fd = tmp_fd) then Ret m1
  else
    _ ← assert dup_ok;
    let m2 := <[fd := ("/dev/null", false)]> m1 in
    _ ← assert set_ok;
    Ret (delete tmp_fd (<[fd := ("/dev/null", true)]> m2)).

End FileDescriptors.

(** ** Workers *)

Module ThreadPool.
Section Worker.
Context {T S : Type} (doWork : T -> S -> S).

(** [run] with the answers of [pop]; whether the loop has ended. *)
Fixpoint run (answers : list (option T + ConcurrencyErrc)) (s : S) : outcome (S * bool) :=
  match answers with
  | [] => Ret (s, false)
  | inr e :: rest => if decide (e = kErrStopped) then Ret (s, true) else run rest s
  | inl (Some job) :: rest => run rest (doWork job s)
  | inl None :: _ => Abort NullPointer
  end.

End Worker.
End ThreadPool.

(** ** The daemon *)

Module Daemon.

Inductive object :=
| RecoveryClient | AliveMonitor | Watchdog | Manager | EventQueue | ProcessMonitor | ProcessMap | OsHandler | WorkerJobs | ThreadPool
| Graph | ControlProvider.

Inductive thread := OsThread | Workers | Monitoring | Service.

#[global] Instance object_eq_dec : EqDecision object.
Proof. solve_decision. Defined.
#[global] Instance thread_eq_dec : EqDecision thread.
Proof. solve_decision. Defined.

(** What the operations of an object use, read off the members: [OsHandler::safe_process_map_];
    [SafeProcessMap::termination_handler_] (the process monitor) and, in its entries, nodes of the graph;
    [ProcessMonitor::event_queue_]; [ThreadPool::the_job_queue_] and [ThreadPool::component_controller_] (the process
    monitor); the tasks in the job queue, which refer to nodes of the graph; [Graph::job_queue_], [Graph::configuration_]
    (a member of the manager) and [Graph::process_handling_] (process map and alive monitor); the recovery client that the
    alive monitor is made with; the callback of the recovery client and the graph interface of the control provider, which
    both lead to the manager, of which they use [event_queue_]. *)
Definition refs (o : object) : list object :=
  match o with
  | OsHandler => [ProcessMap]
  | ProcessMap => [ProcessMonitor; Graph]
  | ProcessMonitor => [EventQueue]
  | ThreadPool => [WorkerJobs; ProcessMonitor]
  | WorkerJobs => [Graph]
  | Graph => [WorkerJobs; ProcessMap; AliveMonitor; Manager]
  | AliveMonitor => [RecoveryClient]
  | RecoveryClient | ControlProvider => [Manager]
  | Manager => [EventQueue]
  | Watchdog | EventQueue => []
  end.

Definition root (t : thread) : object :=
  match t with OsThread => OsHandler | Workers => ThreadPool | Monitoring => AliveMonitor | Service => ControlProvider end.

Fixpoint reach_from (fuel : nat) (l : list object) : list object :=
  match fuel with 0 => l | S fuel' => reach_from fuel' (remove_dups (l ++ (l ≫= refs))) end.
Definition reach (t : thread) : list object := reach_from 6 [root t].

(** The objects that also hold a [shared_ptr] to this one. *)
Definition sharers (o : object) : list object :=
  match o with WorkerJobs => [ThreadPool; Graph] | ProcessMap => [Graph] | _ => [] end.

Inductive watchdog_call := WInit | WEnable | WDisable.

(** SIGALRM, SIGHUP, SIGINT, SIGIO, SIGPROF, SIGQUIT, SIGTERM, SIGUSR1, SIGUSR2, SIGVTALRM (the numbers of Linux). *)
Definition handled_signals : list Z := [14; 1; 2; 29; 27; 3; 15; 10; 12; 26]%Z.

(** [handled]: the signals with our handler.  [owned]: the objects to which a pointer of the manager or of [run] leads. *)
Record t := mk {
  live : list object;
  owned : list object;
  running : list thread;
  faults : list (thread * object);
  em_cancelled : bool;
  handled : list Z;
  watchdog : list watchdog_call
}.

Definition start_up : t := mk [] [] [] [] false [] [].

(** The outcome of a step: it may throw, end the process, or wait for a thread that never ends. *)
Inductive res A := Ok (a : A) (w : t) | Threw (w : t) | Terminated | Hung (th : thread).
Arguments Ok {A} a w.
Arguments Threw {A} w.
Arguments Terminated {A}.
Arguments Hung {A} th.

Definition bind {A B} (m : res A) (f : A -> t -> res B) : res B :=
  match m with Ok a w => f a w | Threw w => Threw w | Terminated => Terminated | Hung th => Hung th end.
Local Notation "m >>> f" := (bind m (fun _ => f)) (at level 60, right associativity).

(** Where an exception comes from: making an object, or thread number [i] of the pool. *)
Inductive place := Making (o : object) | WorkerThread (i : nat).
#[global] Instance place_eq_dec : EqDecision place.
Proof. solve_decision. Defined.

(** What happens around the daemon. *)
Record inputs := mkInputs {
  throws : option place;
  wait_returns : bool;        (* the OS handler leaves its wait for children *)
  workers_return : bool;      (* the workers end their jobs *)
  total_processes : nat;
  alive_init : bool;
  watchdog_config : bool;
  watchdog_init : bool;
  watchdog_enable : bool;
  control_created : bool;
  manager_run : bool;
  forced : bool               (* the shutdown had to kill by force *)
}.

(** [my_signal_handler], which is also [cancel]; the other signals end the process. *)
Definition my_signal_handler (w : t) : t := mk (live w) (owned w) (running w) (faults w) true (handled w) (watchdog w).
Definition deliver (signal : Z) (w : t) : option t := if decide (signal ∈ handled w) then Some (my_signal_handler w) else None.

Section Run.
Context (i : inputs).

Definition start (th : thread) (w : t) : t := mk (live w) (owned w) (running w ++ [th]) (faults w) (em_cancelled w) (handled w) (watchdog w).
Definition join (th : thread) (w : t) : t :=
  mk (live w) (owned w) (filter (fun x => x <> th) (running w)) (faults w) (em_cancelled w) (handled w) (watchdog w).
Definition call_watchdog (c : watchdog_call) (w : t) : t := mk (live w) (owned w) (running w) (faults w) (em_cancelled w) (handled w) (watchdog w ++ [c]).

Definition make (o : object) (w : t) : res unit :=
  if decide (throws i = Some (Making o)) then Threw w
  else Ok tt (mk (live w ++ [o]) (owned w ++ [o]) (running w) (faults w) (em_cancelled w) (handled w) (watchdog w)).

(** The storage goes; threads that can still reach it are faults. *)
Definition free (o : object) (w : t) : t :=
  mk (filter (fun x => x <> o) (live w)) (owned w) (running w)
     (faults w ++ ((fun th => (th, o)) <$> filter (fun th => o ∈ reach th) (running w))) (em_cancelled w) (handled w) (watchdog w).

(** The destructors: those of the OS handler and of the pool join their threads, that of the alive monitor does not, and a thread that
    is not joined ends the process.  The control provider ends its service. *)
Definition destroy (o : object) (w : t) : res unit :=
  match o with
  | OsHandler => if wait_returns i then Ok tt (free o (join OsThread w)) else Hung OsThread
  | ThreadPool => if workers_return i then Ok tt (free o (join Workers w)) else Hung Workers
  | AliveMonitor => if decide (Monitoring ∈ running w) then Terminated else Ok tt (free o w)
  | ControlProvider => Ok tt (free o (join Service w))
  | _ => Ok tt (free o w)
  end.

Definition shared (o : object) (w : t) : bool := existsb (fun s => bool_decide (s ∈ live w)) (sharers o).

(** A pointer is reset: the object goes unless it is shared; so do the objects that only it still shared. *)
Definition release (o c : object) (w : t) : t :=
  if decide (o ∈ sharers c /\ c ∈ live w /\ c ∉ owned w) then if shared c w then w else free c w else w.

Definition reset (o : object) (w : t) : res unit :=
  if decide (o ∈ owned w) then
    let w1 := mk (live w) (filter (fun x => x <> o) (owned w)) (running w) (faults w) (em_cancelled w) (handled w) (watchdog w) in
    if shared o w1 then Ok tt w1
    else bind (destroy o w1) (fun _ w2 => Ok tt (release o ProcessMap (release o WorkerJobs w2)))
  else Ok tt w.

(** The constructor of the pool: when a thread cannot be created, those before it are not joined. *)
Definition kNumWorkerThreads : nat := 16.
Definition make_pool (w : t) : res unit :=
  match throws i with
  | Some (WorkerThread n) => if (n =? 0)%nat then Threw w else if (n <? kNumWorkerThreads)%nat then Terminated else bind (make ThreadPool w) (fun _ w1 => Ok tt (start Workers w1))
  | _ => bind (make ThreadPool w) (fun _ w1 => Ok tt (start Workers w1))
  end.

Definition createProcessComponentsObjects (w : t) : res unit :=
  make EventQueue w >>> fun w =>
  make ProcessMonitor w >>> fun w =>
  make ProcessMap w >>> fun w =>
  make OsHandler w >>> fun w =>
  make WorkerJobs (start OsThread w) >>> fun w =>
  make_pool w.

Definition initializeProcessGroups (w : t) : res bool := make Graph w >>> fun w => Ok true w.

Definition kMaxProcesses : nat := 1024.

Definition initialize (w : t) : res bool :=
  let w0 := mk (live w) (owned w) (running w) (faults w) false handled_signals (watchdog w) in
  if (kMaxProcesses <? total_processes i)%nat then Ok false w0
  else if negb (alive_init i) then Ok false w0
  else
    createProcessComponentsObjects w0 >>> fun w1 =>
    bind (initializeProcessGroups w1) (fun ok w2 =>
      if negb ok then Ok false w2
      else
        let w3 := start Monitoring w2 in
        if watchdog_config i then
          let w4 := call_watchdog WInit w3 in
          if negb (watchdog_init i) then Ok false w4
          else
            let w5 := call_watchdog WEnable w4 in
            if negb (watchdog_enable i) then Ok false w5 else Ok true w5
        else Ok true w3).

Definition deinitialize (w : t) : res unit :=
  reset OsHandler (call_watchdog WDisable w) >>> fun w =>
  reset ThreadPool (join Monitoring w) >>> fun w =>
  reset WorkerJobs w >>> fun w =>
  reset Graph w >>> fun w =>
  reset ProcessMap w >>> fun w =>
  reset ProcessMonitor w.

(** The members of the manager, the last declared first; then its own storage. *)
Definition destroy_manager (w : t) : res unit :=
  reset Watchdog w >>> fun w =>
  reset EventQueue w >>> fun w =>
  reset OsHandler w >>> fun w =>
  reset ProcessMonitor w >>> fun w =>
  reset AliveMonitor w >>> fun w =>
  reset Graph w >>> fun w =>
  reset WorkerJobs w >>> fun w =>
  reset ThreadPool w >>> fun w =>
  reset ProcessMap w >>> fun w =>
  reset Manager w.

(** [ProcessGroupManager::run]: what it does to the objects; its result is [manager_run]. *)
Definition run_manager (w : t) : res bool := if forced i then reset ThreadPool w >>> fun w => Ok (manager_run i) w else Ok (manager_run i) w.

Definition EXIT_SUCCESS : Z := 0.
Definition EXIT_FAILURE : Z := 1.

Definition runLCMDaemon (w : t) : res bool := run_manager w.

(** [ControlProvider::Create] is [noexcept]. *)
Definition Create (w : t) : res unit := match make ControlProvider w with Threw _ => Terminated | r => r end.

(** The objects that the manager is given, and the manager. *)
Definition construct (w : t) : res unit :=
  make RecoveryClient w >>> fun w => make AliveMonitor w >>> fun w => make Watchdog w >>> fun w => make Manager w.

(** The body of the [try] block of [run]. *)
Definition body (w : t) : res Z :=
  construct w >>> fun w =>
  bind (initialize w) (fun initialized w =>
    bind (if (initialized : bool) then
            if control_created i then
              Create w >>> fun w =>
              bind (runLCMDaemon (start Service w)) (fun ok w => Ok (if (ok : bool) then EXIT_SUCCESS else EXIT_FAILURE) w)
            else Ok EXIT_FAILURE w
          else Ok EXIT_FAILURE w) (fun exit_code w =>
      deinitialize w >>> fun w =>
      destroy_manager w >>> fun w =>
      (* the end of the block *)
      reset ControlProvider w >>> fun w =>
      reset RecoveryClient w >>> fun w => Ok exit_code w)).

(** The block with its handler: unwinding destroys what there is. *)
Definition run_block (w : t) : res Z :=
  match body w with
  | Threw w =>
      reset ControlProvider w >>> fun w => destroy_manager w >>> fun w => reset RecoveryClient w >>> fun w => Ok EXIT_FAILURE w
  | r => r
  end.

End Run.

(** ** [run] *)

(** The answers of [getopt]. *)
Inductive option_ := OptConfig (path : string) | OptHelp | OptUnknown.

Fixpoint parse (options : list option_) (config_path : string) : string + Z :=
  match options with
  | [] => inl config_path
  | OptConfig path :: rest => parse rest path
  | OptHelp :: _ => inr EXIT_SUCCESS
  | OptUnknown :: _ => inr EXIT_FAILURE
  end.

Definition sync_fd : nat := 111.

(** [load]: no configuration, or what happens around the daemon with the one it finds.  The descriptor is closed at the end, but not when
    loading fails. *)
Definition run (options : list option_) (open_ok dup_ok set_ok : bool) (fds : FileDescriptors.table) (load : string -> option inputs) :
    outcome (res Z * FileDescriptors.table) :=
  match parse options "etc/launch_manager_config.bin" with
  | inr code => Ret (Ok code start_up, fds)
  | inl config_path =>
      fds1 ← FileDescriptors.reserveFD sync_fd open_ok dup_ok set_ok fds;
      Ret (match load config_path with
           | None => (Ok EXIT_FAILURE start_up, fds1)
           | Some i => (run_block i start_up, delete sync_fd fds1)
           end)
  end.

End Daemon.
