(* ===== verification/DaemonProofs.v ===== *)
(** * Proofs about the daemon's start-up and teardown

    Module [DescriptorProofs]: what [reserveFD] leaves behind.  Module [ThreadPoolProofs]: what a worker does.  Module [DaemonProofs]: which exit code
    [run] gives, that nothing is left, and which objects are destroyed under a running thread. *)

From stdpp Require Import prelude fin_maps fin_map_dom gmap strings.
From S2P Require Import Prelude Queues Daemon.

Module DescriptorProofs.
Import FileDescriptors.

Lemma lowest_from_used fuel i (m : table) : is_Some (m !! lowest_from fuel i m) -> forall k, i <= k <= i + fuel -> is_Some (m !! k).
Proof.
  revert i. induction fuel as [|fuel IH]; intros i; cbn.
  - intros Hs k Hk. by replace k with i by lia.
  - destruct (m !! i) as [x|] eqn:Hi; [|rewrite Hi; by intros []]. intros Hs k Hk.
    destruct (decide (k = i)) as [->|]; [by rewrite Hi|]. apply (IH (S i)); [done|lia].
Qed.

(** There is a free number, since one of the first [size m + 1] is. *)
Lemma lowest_free (m : table) : m !! lowest m = None.
Proof.
  destruct (m !! lowest m) eqn:Hm; [exfalso|done].
  assert (Hsub : list_to_set (seq 0 (S (size m))) ⊆ dom m).
  { intros k [_ Hk]%elem_of_list_to_set%elem_of_seq. apply elem_of_dom, (lowest_from_used (size m) 0 m); [unfold lowest in Hm; by rewrite Hm|lia]. }
  apply subseteq_size in Hsub. rewrite size_list_to_set, length_seq, size_dom in Hsub by apply NoDup_seq. lia.
Qed.

(** When [reserveFD] returns, the descriptor is /dev/null, closed on exec, and no other has changed; what it
    referred to before is gone: the check for a descriptor in use never succeeds. *)
Lemma reserveFD_spec fd open_ok dup_ok set_ok (m : table) :
  match reserveFD fd open_ok dup_ok set_ok m with
  | Ret m' => m' !! fd = Some ("/dev/null", true) /\ forall k, k <> fd -> m' !! k = m !! k
  | Abort f => f = AssertionFailed /\ open_ok && dup_ok && set_ok = false
  end.
Proof.
  unfold reserveFD. assert (Hd : (let '(flags, errno) := getfd fd m in ((flags =? 0) && (errno =? EBADFD))%Z) = false).
  { unfold getfd. destruct (m !! fd) as [[f []]|]; done. }
  destruct (getfd fd m) as [flags errno]. rewrite Hd. cbn [negb assert mbind outcome_bind].
  destruct open_ok; [|done]. cbn [assert mbind outcome_bind]. pose proof (lowest_free m) as Hl. case_decide as He.
  - subst fd. split; [by simplify_map_eq|]. intros k Hk. by simplify_map_eq.
  - destruct dup_ok; [|done]. destruct set_ok; [|done]. cbn [assert mbind outcome_bind]. split.
    + by rewrite lookup_delete_ne, lookup_insert_eq by done.
    + intros k Hk. destruct (decide (k = lowest m)) as [->|Hne]; [by rewrite lookup_delete_eq|].
      by rewrite lookup_delete_ne, !lookup_insert_ne by done.
Qed.

End DescriptorProofs.

Module ThreadPoolProofs.
Import ThreadPool.
Section Worker.
Context {T S : Type} (doWork : T -> S -> S).

(** The jobs that come before the queue is stopped. *)
Fixpoint jobs_before_stop (answers : list (option T + ConcurrencyErrc)) : list T :=
  match answers with
  | inr e :: rest => if decide (e = kErrStopped) then [] else jobs_before_stop rest
  | inl (Some job) :: rest => job :: jobs_before_stop rest
  | _ => []
  end.

Definition is_stop (a : option T + ConcurrencyErrc) : bool := match a with inr e => bool_decide (e = kErrStopped) | inl _ => false end.

(** A worker carries out the jobs it gets, once and in order, goes on after any error but the end of the queue, and stops exactly
    then. *)
Lemma worker_runs answers s : Forall (fun a => a <> inl None) answers ->
  run doWork answers s = Ret (foldl (fun s job => doWork job s) s (jobs_before_stop answers), existsb is_stop answers).
Proof.
  intros Ha. revert s. induction Ha as [|[[job|]|e] rest Hne _ IH]; intros s; cbn; [done|apply IH|done|].
  case_decide as He; [by rewrite bool_decide_eq_true_2|]. rewrite bool_decide_eq_false_2 by done. apply IH.
Qed.

End Worker.
End ThreadPoolProofs.

Module DaemonProofs.
Import Daemon.

(** Whether the manager initialises, and whether the daemon ends with success. *)
Definition initialises (i : inputs) : bool :=
  (total_processes i <=? kMaxProcesses)%nat && alive_init i && (negb (watchdog_config i) || (watchdog_init i && watchdog_enable i)).
Definition succeeds (i : inputs) : bool := initialises i && control_created i && manager_run i.

(** Whether the threads get created at all: the processes fit and the alive monitor initialises. *)
Definition pooled (i : inputs) : bool := (total_processes i <=? kMaxProcesses)%nat && alive_init i.

(** The places that come before the first thread exists. *)
Definition before_threads (p : place) : bool :=
  match p with
  | Making (RecoveryClient | AliveMonitor | Watchdog | Manager | EventQueue | ProcessMonitor | ProcessMap | OsHandler) => true
  | _ => false
  end.

(** The exception that is met on the way, if any: not every place is reached. *)
Definition reached (i : inputs) (p : place) : bool :=
  match p with
  | Making (RecoveryClient | AliveMonitor | Watchdog | Manager) => true
  | Making (EventQueue | ProcessMonitor | ProcessMap | OsHandler | WorkerJobs | ThreadPool | Graph) => pooled i
  | Making ControlProvider => initialises i && control_created i
  | WorkerThread n => pooled i && (n <? kNumWorkerThreads)%nat
  end.
Definition thrown_at (i : inputs) : option place :=
  match throws i with Some p => if reached i p then Some p else None | None => None end.

(** The exceptions that end the process: a [noexcept] function throws, or threads of the pool are not joined. *)
Definition terminates (p : place) : bool :=
  match p with Making ControlProvider => true | WorkerThread n => (0 <? n)%nat | _ => false end.

(** The threads that are waited for end: the OS handler's, and the workers, which exist when the graph is made. *)
Definition threads_end (i : inputs) (p : option place) : bool :=
  wait_returns i && match p with None | Some (Making Graph) => workers_return i | _ => true end.

(** Nothing is left: no object, no thread. *)
Definition all_gone (w : t) : Prop := live w = [] /\ owned w = [] /\ running w = [].

(** The service threads reach the manager until the control provider is destroyed, which happens last. *)
Definition service_faults (i : inputs) : list (thread * object) :=
  if initialises i && control_created i then [(Service, EventQueue); (Service, Manager)] else [].

(** How the block ends. *)
Definition block_ends (i : inputs) (r : res Z) : Prop :=
  match thrown_at i with
  | None =>
      if pooled i && negb (threads_end i None) then exists th, r = Hung th
      else exists w, r = Ok (if succeeds i then EXIT_SUCCESS else EXIT_FAILURE) w /\ all_gone w /\ faults w = service_faults i /\
        last (watchdog w) = Some WDisable
  | Some p =>
      if before_threads p then exists w, r = Ok EXIT_FAILURE w /\ all_gone w /\ faults w = []
      else if terminates p then r = Terminated
      else if threads_end i (Some p) then exists w, r = Ok EXIT_FAILURE w /\ (OsThread, EventQueue) ∈ faults w
      else exists th, r = Hung th
  end.

(** Evaluates the block at every combination of the inputs that it looks at. *)
Local Ltac run_out := vm_compute; first
  [ reflexivity | eexists; reflexivity
  | eexists; split; [reflexivity|]; repeat split; repeat first [left|right] ].

Lemma block_without_exceptions i : throws i = None -> block_ends i (run_block i start_up).
Proof.
  destruct i as [th wr wo n ai wc wi we cc mr fo]. cbn. intros ->.
  unfold block_ends, thrown_at, threads_end, pooled, run_block, body, initialize, service_faults, succeeds, initialises.
  cbn [throws total_processes alive_init wait_returns workers_return]. rewrite Nat.leb_antisym. destruct (kMaxProcesses <? n).
  { cbn [negb andb]. run_out. }
  destruct ai; [|cbn [negb andb]; run_out].
  destruct wr, wo, wc, wi, we, cc, mr, fo; run_out.
Qed.

(** A place that is not met makes no difference. *)
Lemma block_exception i p : throws i = Some p -> block_ends i (run_block i start_up).
Proof.
  destruct i as [th wr wo n ai wc wi we cc mr fo]. cbn. intros ->.
  unfold block_ends, thrown_at, reached, threads_end, pooled, run_block, body, initialize, service_faults, succeeds, initialises.
  cbn [throws total_processes alive_init wait_returns workers_return]. rewrite Nat.leb_antisym. destruct (kMaxProcesses <? n).
  { cbn [negb andb]. destruct p as [[]|k]; run_out. }
  destruct ai; [|cbn [negb andb]; destruct p as [[]|k]; run_out].
  destruct p as [[]|[|k]]; [run_out..| | | | | |].
  1-2: destruct wr; run_out.
  1: destruct wr, wo; run_out.
  1: destruct wr, wo, wc, wi, we, cc, mr, fo; run_out.
  1: destruct wr; run_out.
  destruct (decide (k < 15)%nat) as [Hk|Hk].
  - do 15 (destruct k as [|k]; [run_out|]). lia.
  - do 15 (destruct k as [|k]; [lia|]). clear Hk. destruct wr, wo, wc, wi, we, cc, mr, fo; run_out.
Qed.

Lemma block_always_ends i : block_ends i (run_block i start_up).
Proof. destruct (throws i) as [p|] eqn:Hp; [by eapply block_exception|by apply block_without_exceptions]. Qed.

(** Once the manager has begun to initialise, none of the ten signals ends the process: each asks the main loop to end. *)
Lemma signals_cancel i w ok w' signal : initialize i w = Ok ok w' -> signal ∈ handled_signals ->
  exists w2, deliver signal w' = Some w2 /\ em_cancelled w2 = true /\ live w2 = live w'.
Proof.
  intros Hi Hs. assert (Hh : handled w' = handled_signals).
  { revert Hi. unfold initialize, initializeProcessGroups, createProcessComponentsObjects, make_pool, make, bind.
    repeat (case_match; simplify_eq/=); intros; simplify_eq/=; done. }
  unfold deliver. rewrite Hh, decide_True by done. eauto.
Qed.

(** C11: for every command line, table of descriptors and configuration, and whatever happens on the way.  Without an exception on the
    way ([thrown_at]) the daemon comes to its end with exit code 0 exactly when it was asked for help or everything from the
    configuration to the manager's [run] succeeded, every object is destroyed and every thread joined, the watchdog is disabled last,
    and the only objects destroyed while a thread could reach them are the manager and its queue, under the control service; but
    where the threads have been created and one that the teardown waits for does not end, the OS handler in its wait for children or a
    worker in its job, the daemon hangs.  An exception before the first
    thread is turned into a failure code after everything has been destroyed.  One after it ends the process at once when it comes
    from creating the control provider or from a worker thread other than the first, and otherwise destroys the event queue under the
    running OS handler and then returns a failure code or hangs, by whether the threads end.  No descriptor but the reserved one
    changes, and the process aborts only when that one cannot be reserved. *)
Theorem daemon_lifecycle options open_ok dup_ok set_ok fds load :
  match run options open_ok dup_ok set_ok fds load with
  | Abort f => f = AssertionFailed /\ open_ok && dup_ok && set_ok = false
  | Ret (r, fds') =>
      (forall k, k <> sync_fd -> fds' !! k = fds !! k) /\
      match parse options "etc/launch_manager_config.bin" with
      | inr code => r = Ok code start_up
      | inl path =>
          match load path with
          | None => r = Ok EXIT_FAILURE start_up
          | Some i =>
              match thrown_at i with
              | None =>
                  if pooled i && negb (threads_end i None) then exists th, r = Hung th
                  else exists w, r = Ok (if succeeds i then EXIT_SUCCESS else EXIT_FAILURE) w /\ all_gone w /\ faults w = service_faults i /\
                    last (watchdog w) = Some WDisable
              | Some p =>
                  if before_threads p then exists w, r = Ok EXIT_FAILURE w /\ all_gone w /\ faults w = []
                  else if terminates p then r = Terminated
                  else if threads_end i (Some p) then exists w, r = Ok EXIT_FAILURE w /\ (OsThread, EventQueue) ∈ faults w
                  else exists th, r = Hung th
              end
          end
      end
  end.
Proof.
  unfold run. destruct (parse _ _) as [path|code]; [|done].
  pose proof (DescriptorProofs.reserveFD_spec sync_fd open_ok dup_ok set_ok fds) as Hfd.
  destruct (FileDescriptors.reserveFD _ _ _ _ _) as [fds1|f]; [|done]. cbn [mbind outcome_bind]. destruct Hfd as [_ Hfd].
  destruct (load path) as [i|]; [|done]. split; [intros k Hk; rewrite lookup_delete_ne by done; auto|].
  apply (block_always_ends i).
Qed.

(** Examples: an orderly end, and an exception when the graph is made. *)
Definition calm : inputs := mkInputs None true true 3 true true true true true true false.
Definition thrown : inputs := mkInputs (Some (Making Graph)) true true 3 true true true true true true false.

Example example_calm :
  match run_block calm start_up with Ok code w => (code, live w, running w, faults w) | _ => (2%Z, [], [], []) end =
  (0%Z, [], [], [(Service, EventQueue); (Service, Manager)]).
Proof. by vm_compute. Qed.

Example example_thrown :
  match run_block thrown start_up with Ok code w => (code, live w, running w, faults w) | _ => (2%Z, [], [], []) end =
  (1%Z, [], [], [(OsThread, EventQueue); (Workers, EventQueue); (Workers, ProcessMonitor); (Workers, AliveMonitor)]).
Proof. by vm_compute. Qed.

(** A child that does not end keeps the OS handler in its wait, and the teardown waits for it. *)
Example example_child_left : run_block (mkInputs None false true 3 true true true true true true false) start_up = Hung OsThread.
Proof. by vm_compute. Qed.

End DaemonProofs.
