(* ===== verification/SignalSafeLog.v ===== *)
(** * Logging in a signal-safe context

    common/signal_safe_log.hpp: the fixed buffer in which a child process builds a message between fork and exec,
    and the loop that writes it to standard error.  Module [signal_safe_buffer]: the operations on the array and its
    two indices; the answers of write(2) are inputs.  Module [SignalSafeLogProofs]: the buffer holds the message as far as there is room, and
    [flush] writes it once and in order. *)

From Stdlib Require Import Ascii.
From stdpp Require Import prelude list strings pretty.
From S2P Require Import Prelude.

Module signal_safe_buffer.

(** The array has [C] places. *)
Record t := mk { buffer_ : list ascii; start_ : nat; end_ : nat }.

Definition make (C : nat) : t := mk (replicate C Ascii.zero) 0 0.

(** [buffer_[end_++] = c] *)
Definition put (b : t) (c : ascii) : t := mk (<[end_ b := c]> (buffer_ b)) (start_ b) (S (end_ b)).

Definition append_string (value : list ascii) (b : t) : t :=
  let length := Nat.min (length value) (length (buffer_ b) - end_ b) in
  foldl put b (take length value).

Definition digits (value : Z) : list ascii := String.list_ascii_of_string (pretty value).

(** [std::to_chars] writes all digits or, when they do not fit, gives an error; what it leaves behind the end is not read. *)
Definition append_integral (value : Z) (b : t) : t :=
  if length (buffer_ b) <=? end_ b then b
  else if end_ b + length (digits value) <=? length (buffer_ b) then foldl put b (digits value)
  else b.

(** An answer of [write]: a number of bytes, at most what was asked for, or an error. *)
Inductive write_answer := Written (n : nat) | Interrupted | Failed.

(** The result with the buffer and what was written; [None]: it is still writing after these answers. *)
Fixpoint flush (answers : list write_answer) (b : t) (out : list ascii) : option (bool * t * list ascii) :=
  if start_ b <? end_ b then
    match answers with
    | [] => None
    | Written n :: rest =>
        let written := Nat.min n (end_ b - start_ b) in
        flush rest (mk (buffer_ b) (start_ b + written) (end_ b)) (out ++ take written (drop (start_ b) (buffer_ b)))
    | Interrupted :: rest => flush rest b out
    | Failed :: _ => Some (false, b, out)
    end
  else Some (true, mk (buffer_ b) 0 0, out).

End signal_safe_buffer.
Import signal_safe_buffer.

Inductive value := Text (s : list ascii) | Number (z : Z).

Definition append (b : t) (v : value) : t := match v with Text s => append_string s b | Number z => append_integral z b end.

Definition newline : list ascii := ["010"%char].

Definition log_size : nat := 1024.

(** [signal_safe_log]: the result, what was written, and [errno] afterwards; [errno_in_write] is what the calls of [write] leave in it. *)
Definition signal_safe_log (values : list value) (answers : list write_answer) (errno errno_in_write : Z) : option (bool * list ascii * Z) :=
  let original_errno := errno in
  let buffer := append_string newline (foldl append (make log_size) values) in
  '(written, _, out) ← flush answers buffer [];
  let errno := errno_in_write in
  Some (written, out, original_errno).

(** [signal_safe_log_errno] with the description that the C library gives. *)
Definition signal_safe_log_errno (description : list ascii) (values : list value) : list write_answer -> Z -> Z -> option (bool * list ascii * Z) :=
  signal_safe_log (values ++ [Text (String.list_ascii_of_string " ("); Text description; Text (String.list_ascii_of_string ")")]).

Module SignalSafeLogProofs.

(** The bytes that wait to be written. *)
Definition content (b : t) : list ascii := take (end_ b - start_ b) (drop (start_ b) (buffer_ b)).

Record Inv (b : t) (l : list ascii) : Prop := {
  i_start : start_ b = 0;
  i_end : end_ b = length l;
  i_room : end_ b <= length (buffer_ b);
  i_content : take (end_ b) (buffer_ b) = l
}.

Lemma inv_make C : Inv (make C) [].
Proof. by split; cbn; [..|lia|]. Qed.

Lemma put_char_spec b l c : Inv b l -> end_ b < length (buffer_ b) -> Inv (put b c) (l ++ [c]) /\ length (buffer_ (put b c)) = length (buffer_ b).
Proof.
  intros [H1 H2 H3 H4] Hr. split; [|by cbn; rewrite length_insert]. split; cbn; rewrite ?length_app, ?length_insert; cbn; [done|lia|lia|].
  rewrite (take_S_r _ _ c) by (by apply list_lookup_insert_eq). by rewrite take_insert_ge, H4 by lia.
Qed.

Lemma puts_spec s : forall b l, Inv b l -> end_ b + length s <= length (buffer_ b) ->
  Inv (foldl put b s) (l ++ s) /\ length (buffer_ (foldl put b s)) = length (buffer_ b).
Proof.
  induction s as [|c s IH]; intros b l Hi Hr; cbn in *; [by rewrite app_nil_r|].
  destruct (put_char_spec b l c Hi) as [Hp Hl]; [lia|]. destruct (IH _ _ Hp) as [Hq Hm]; [rewrite Hl; cbn; lia|].
  rewrite <- app_assoc in Hq. split; [done|congruence].
Qed.

(** The message that fits into [C] bytes: a text is cut, a number is left out as a whole. *)
Definition fit (C : nat) (l : list ascii) (v : value) : list ascii :=
  match v with
  | Text s => l ++ take (C - length l) s
  | Number z => if length l + length (digits z) <=? C then l ++ digits z else l
  end.

Lemma append_spec C b l v : Inv b l -> length (buffer_ b) = C -> Inv (append b v) (fit C l v) /\ length (buffer_ (append b v)) = C.
Proof.
  intros Hi <-. pose proof Hi as [H1 H2 H3 H4]. destruct v as [s|z]; cbn.
  - unfold append_string. rewrite H2. replace (take (_ - _) s) with (take (Nat.min (length s) (length (buffer_ b) - length l)) s).
    + apply puts_spec; [done|]. rewrite length_take. lia.
    + destruct (decide (length s <= length (buffer_ b) - length l)); [rewrite Nat.min_l by lia; by rewrite !take_ge by lia|by rewrite Nat.min_r by lia].
  - unfold append_integral. rewrite H2. destruct (length (buffer_ b) <=? length l) eqn:Hf.
    + apply Nat.leb_le in Hf. destruct (length l + length (digits z) <=? length (buffer_ b)) eqn:Hd; [|done]. apply Nat.leb_le in Hd.
      assert (digits z = []) as -> by (apply nil_length_inv; lia). by rewrite app_nil_r.
    + destruct (length l + length (digits z) <=? length (buffer_ b)) eqn:Hd; [|done]. apply Nat.leb_le in Hd. apply puts_spec; [done|lia].
Qed.

Lemma appends_spec C values : forall b l, Inv b l -> length (buffer_ b) = C ->
  Inv (foldl append b values) (foldl (fit C) l values) /\ length (buffer_ (foldl append b values)) = C.
Proof.
  induction values as [|v values IH]; intros b l Hi Hl; cbn; [done|]. destruct (append_spec C b l v Hi Hl). by apply IH.
Qed.

(** [flush] writes what waits, in order and once: all of it when it succeeds, a part of it otherwise. *)
Lemma flush_spec answers : forall b out r b' out', start_ b <= end_ b <= length (buffer_ b) -> flush answers b out = Some (r, b', out') ->
  if r then out' = out ++ content b /\ start_ b' = 0 /\ end_ b' = 0 else exists rest, rest <> [] /\ out ++ content b = out' ++ rest.
Proof.
  induction answers as [|a answers IH]; intros b out r b' out' Hb; cbn [flush]; destruct (start_ b <? end_ b) eqn:Hs.
  1: done.
  1, 3: apply Nat.ltb_ge in Hs; intros [= <- <- <-]; unfold content; replace (end_ b - start_ b) with 0 by lia; by rewrite app_nil_r.
  apply Nat.ltb_lt in Hs. destruct a as [n| |].
  - intros Hf. set (k := Nat.min n (end_ b - start_ b)) in *. assert (Hk : k <= end_ b - start_ b) by lia. clearbody k.
    assert (Hc : out ++ content b = (out ++ take k (drop (start_ b) (buffer_ b))) ++ content (mk (buffer_ b) (start_ b + k) (end_ b))).
    { unfold content. cbn. rewrite <- app_assoc. f_equal. rewrite <- drop_drop.
      rewrite take_take_drop. f_equal. lia. }
    rewrite Hc. eapply IH; [|exact Hf]. cbn. lia.
  - by apply IH.
  - intros [= <- <- <-]. exists (content b). split; [|done]. intros He. apply (f_equal length) in He. unfold content in He.
    rewrite length_take, length_drop in He. cbn in He. lia.
Qed.

(** A call of [write] that makes progress brings the end nearer. *)
Lemma flush_ends answers : forall b out, Forall (fun a => exists n, a = Written (S n)) answers -> end_ b - start_ b <= length answers ->
  exists b' out', flush answers b out = Some (true, b', out').
Proof.
  induction answers as [|a answers IH]; intros b out Ha Hl; cbn [flush]; destruct (start_ b <? end_ b) eqn:Hs; [|by eauto| |by eauto].
  - apply Nat.ltb_lt in Hs. cbn in Hl. lia.
  - apply Nat.ltb_lt in Hs. apply Forall_cons in Ha as [(n & ->) Ha]. apply IH; [done|]. cbn [start_ end_ buffer_ length] in *. lia.
Qed.

(** The message, as far as it fits. *)
Definition message (values : list value) : list ascii := foldl (fit log_size) [] (values ++ [Text newline]).

(** A message is written once and in order, cut to the size of the buffer, with the end of the line only if there is room for it; success is reported
    exactly when all of it was written, and [errno] is as before.  Writing ends when every call makes progress. *)
Theorem signal_safe_log_spec values answers errno errno_in_write :
  match signal_safe_log values answers errno errno_in_write with
  | Some (written, out, errno') =>
      errno' = errno /\ if written then out = message values else exists rest, rest <> [] /\ message values = out ++ rest
  | None => ~ (Forall (fun a => exists n, a = Written (S n)) answers /\ log_size <= length answers)
  end.
Proof.
  unfold signal_safe_log, message. change (append_string newline ?b) with (append b (Text newline)).
  rewrite <- foldl_snoc. set (b := foldl append _ _).
  destruct (appends_spec log_size (values ++ [Text newline]) (make log_size) [] (inv_make _)) as [[H1 H2 H3 H4] Hl]; [apply length_replicate|].
  fold b in H1, H2, H3, H4, Hl. assert (Hc : content b = foldl (fit log_size) [] (values ++ [Text newline])).
  { unfold content. by rewrite H1, Nat.sub_0_r, drop_0. }
  destruct (flush answers b []) as [[[r b'] out]|] eqn:Hf; cbn.
  - apply flush_spec in Hf; [|lia]. split; [done|]. destruct r; [by destruct Hf as [-> _]|]. destruct Hf as (rest & Hr & Ho). exists rest. by rewrite <- Hc.
  - intros [Ha Hn]. destruct (flush_ends answers b [] Ha) as (? & ? & He); [lia|congruence].
Qed.

(** A message that fits is written whole. *)
Example example_log : signal_safe_log [Text (String.list_ascii_of_string "pid "); Number 42] [Written 3; Interrupted; Written 9] 4 5 =
  Some (true, String.list_ascii_of_string "pid 42" ++ newline, 4%Z).
Proof. by vm_compute. Qed.

End SignalSafeLogProofs.
